(** * Spendabo: categorization, import, splits and monthly analytics

    A shallow embedding of the backend services of the Spendabo
    expense tracker (TypeScript, Firestore) and the properties its
    design document states about them.

    Conventions of the embedding:
    - money is an integer number of cents ([Z]); confidences and
      percentages are rationals ([Q]) standing for the JavaScript
      numbers [1.0], [0.8], ...;
    - strings are ASCII text; an optional or nullable field is an
      [option]; JavaScript truthiness of a string is [truthy];
    - a Firestore collection is a finite map from document id to
      document ([gmap string _]); timestamps are epoch milliseconds
      ([Z]); the store is available, so that reads and writes succeed
      (the update of a document that does not exist is rejected, as the
      store does), and the id of a new document is an argument of the
      operation that adds it;
    - an asynchronous function is the function of its inputs and of the
      database that returns its result and the database it leaves;
      a call that may throw returns an [Outcome];
    - what the JavaScript runtime provides (the RegExp engine, SHA-256,
      Date parsing and printing, parseFloat, base64 and JSON) is the
      interface [JsRuntime]; what the LLM adapter answers is the record
      [LlmServices]. *)

From Stdlib Require Import ZArith QArith List String Ascii Bool Lia DecimalString.
From Stdlib Require Import Sorting.Sorted Sorting.Permutation.
From Stdlib Require Import DecimalZ.
From stdpp Require Import gmap strings list numbers.

Local Open Scope Z_scope.

(* ================================================================== *)
(** * JavaScript values *)
(* ================================================================== *)

(** [if (s)] on a [string | undefined]: set and not the empty string. *)
Definition truthy (o : option string) : bool :=
  match o with
  | Some s => negb (String.eqb s EmptyString)
  | None => false
  end.

(** [String.prototype.toUpperCase], on ASCII text. *)
Definition upperAscii (c : ascii) : ascii :=
  let n := nat_of_ascii c in
  if ((97 <=? n) && (n <=? 122))%nat then ascii_of_nat (n - 32) else c.

Fixpoint toUpperCase (s : string) : string :=
  match s with
  | EmptyString => EmptyString
  | String c s' => String (upperAscii c) (toUpperCase s')
  end.

(** [String.prototype.startsWith] and [String.prototype.includes]. *)
Fixpoint startsWith (s pat : string) : bool :=
  match pat, s with
  | EmptyString, _ => true
  | String _ _, EmptyString => false
  | String p pat', String c s' => Ascii.eqb c p && startsWith s' pat'
  end.

Fixpoint includes (s pat : string) : bool :=
  startsWith s pat ||
  match s with
  | EmptyString => false
  | String _ s' => includes s' pat
  end.

(** [\s] and the characters [trim] strips, in ASCII: space, tab, line
    feed, vertical tab, form feed, carriage return. *)
Definition isSpace (c : ascii) : bool :=
  let n := nat_of_ascii c in
  (n =? 32)%nat || ((9 <=? n) && (n <=? 13))%nat.

Definition isDigit (c : ascii) : bool :=
  let n := nat_of_ascii c in ((48 <=? n) && (n <=? 57))%nat.

Definition lowerAscii (c : ascii) : ascii :=
  let n := nat_of_ascii c in
  if ((65 <=? n) && (n <=? 90))%nat then ascii_of_nat (n + 32) else c.

Fixpoint toLowerCase (s : string) : string :=
  match s with
  | EmptyString => EmptyString
  | String c s' => String (lowerAscii c) (toLowerCase s')
  end.

Fixpoint trimStart (s : string) : string :=
  match s with
  | String c s' => if isSpace c then trimStart s' else s
  | EmptyString => EmptyString
  end.

(** [s.trimEnd()]: a space is kept when something other than spaces
    follows it. *)
Fixpoint trimEnd (s : string) : string :=
  match s with
  | EmptyString => EmptyString
  | String c s' =>
      match trimEnd s' with
      | EmptyString => if isSpace c then EmptyString else String c EmptyString
      | rest => String c rest
      end
  end.

Definition trim (s : string) : string := trimEnd (trimStart s).

(** [s.split(sep)] for a one-character separator: never empty. *)
Fixpoint splitOn (sep : ascii) (s : string) : list string :=
  match s with
  | EmptyString => [EmptyString]
  | String c s' =>
      if Ascii.eqb c sep then EmptyString :: splitOn sep s'
      else match splitOn sep s' with
           | first :: rest => String c first :: rest
           | [] => [String c EmptyString]
           end
  end.

(** [s.replace(/[...]/g, '')]: drop the characters of a class. *)
Fixpoint removeChars (drop : ascii -> bool) (s : string) : string :=
  match s with
  | EmptyString => EmptyString
  | String c s' =>
      if drop c then removeChars drop s' else String c (removeChars drop s')
  end.

(** The double quote, character 34. *)
Definition isQuote (c : ascii) : bool := Ascii.eqb c (ascii_of_nat 34).

(** The class of [amountStr.replace]: double quote, comma, white space
    and dollar sign. *)
Definition isAmountNoise (c : ascii) : bool :=
  isQuote c || Ascii.eqb c "," || isSpace c || Ascii.eqb c "$".

(** [list.includes(h)] and [headers.findIndex(pred)] ([None] is -1). *)
Definition oneOf (names : list string) (h : string) : bool :=
  existsb (String.eqb h) names.

Fixpoint findIndex {A} (p : A -> bool) (l : list A) : option nat :=
  match l with
  | [] => None
  | x :: rest => if p x then Some 0%nat else S <$> findIndex p rest
  end.

(** [values[idx]] with [idx] possibly -1. *)
Definition at_ (values : list string) (idx : option nat) : option string :=
  match idx with
  | Some i => values !! i
  | None => None
  end.

Definition LF : ascii := ascii_of_nat 10.

(** [`${n}`] for an integer (of magnitude below 1e21, where JavaScript
    still prints all the digits). *)
Definition numToString (n : Z) : string :=
  DecimalString.NilZero.string_of_int (Z.to_int n).

(** [c.repeat(n)] *)
Fixpoint repeatChar (n : nat) (c : ascii) : string :=
  match n with
  | O => EmptyString
  | S n' => String c (repeatChar n' c)
  end.

(** [s.padStart(targetLength, fill)] *)
Definition padStart (targetLength : nat) (fill : ascii) (s : string) : string :=
  repeatChar (targetLength - String.length s) fill +:+ s.

(** [Array.prototype.sort(cmp)]: the sort is stable, so with a
    comparator that is a difference of numbers the result is the one
    of a stable insertion sort. [x] moves past [y] only when
    [cmp x y > 0]. *)
Fixpoint sortInsert {A} (cmp : A -> A -> Z) (x : A) (l : list A) : list A :=
  match l with
  | [] => [x]
  | y :: l' => if 0 <? cmp x y then y :: sortInsert cmp x l' else x :: y :: l'
  end.

Fixpoint jsSort {A} (cmp : A -> A -> Z) (l : list A) : list A :=
  match l with
  | [] => []
  | x :: l' => sortInsert cmp x (jsSort cmp l')
  end.

(** A call either returns or throws an [Error] with a message. *)
Inductive Outcome (A : Type) :=
| Returned (a : A)
| Thrown (message : string).
Arguments Returned {A} a.
Arguments Thrown {A} message.

(** The services of the JavaScript runtime the backend calls. Dates are
    epoch milliseconds; an Invalid Date or a NaN is [None]. *)
Class JsRuntime := {
  (** [new RegExp(p)] does not throw *)
  regExpCompiles : string -> bool;
  (** [subject.match(new RegExp(p, 'i'))]: the matched text [match[0]] *)
  regExpMatchI : string -> string -> option string;
  (** [createHash('sha256').update(data).digest('hex')] *)
  sha256 : string -> string;
  (** [new Date(s)] *)
  parseDate : string -> option Z;
  (** [d.toISOString()] *)
  toISOString : Z -> string;
  (** [Math.round(parseFloat(s) * 100)] *)
  roundCents : string -> option Z;
  (** [Number(s)], for the integers a month string is made of *)
  jsNumber : string -> option Z;
  (** [new Date(year, monthNum - 1, 1, 0, 0, 0, 0)] *)
  monthStart : Z -> Z -> Z;
  (** [new Date(year, monthNum, 0, 23, 59, 59, 999)] *)
  monthEnd : Z -> Z -> Z;
  (** [d.getDate()], [d.getFullYear()], [d.getMonth()] *)
  getDate : Z -> Z;
  getFullYear : Z -> Z;
  getMonth : Z -> Z;
  (** [d.setHours(23, 59, 59, 999)] *)
  endOfDay : Z -> Z;
  (** [JSON.parse(Buffer.from(cursor, 'base64').toString('utf-8'))]
      read at [postedAt] and [id]: [None] when this throws, and a field
      is [None] when it is missing or falsy *)
  decodeCursorJson : string -> option (option string * option string);
  (** [Buffer.from(JSON.stringify({ postedAt, id })).toString('base64')] *)
  encodeCursor : string -> string -> string
}.

(* ================================================================== *)
(** * Data model (types/index.ts) *)
(* ================================================================== *)

Inductive Reason := RuleMatch | Llm | Manual | NoMatch | Default | Split.

Inductive MatchType := Exact | Contains | Regex | Description.

Record Explainability := {
  reason : Reason;
  ruleId : option string;
  ruleName : option string;
  matchType : option MatchType;
  matchedValue : option string;
  matchedPattern : option string;
  confidence : Q;
  timestamp : option Z;
  llmModel : option string;
  llmReasoning : option string
}.

Record RuleConditions := {
  merchantExact : option string;
  merchantContains : option string;
  merchantRegex : option string;
  descriptionContains : option string;
  amountMin : option Z;
  amountMax : option Z;
  condAccountId : option string
}.

Record RuleAction := {
  actCategoryId : string;
  addTags : option (list string)
}.

Inductive RuleSource := SrcUser | SrcSuggestion | SrcSystem.

Record Rule := {
  ruleUid : string;
  name : string;
  enabled : bool;
  priority : Z;
  conditions : RuleConditions;
  action : RuleAction;
  source : RuleSource;
  matchCount : Z;
  lastMatchedAt : option Z;
  ruleUpdatedAt : Z
}.

Record RuleMatchResult := {
  matched : bool;
  rmMatchType : option MatchType;
  rmMatchedValue : option string;
  rmMatchedPattern : option string
}.

Record CategorizationResult := {
  categoryId : option string;
  tags : list string;
  explainability : Explainability
}.

(** What [matchRule] and the orchestrator read of a transaction. *)
Record TxView := {
  merchantNormalized : string;
  merchantRaw : string;
  description : string;
  amount : Z;
  accountId : string
}.

(* ================================================================== *)
(** * Rule engine (services/rule-engine.ts) *)
(* ================================================================== *)

Definition getConfidence (mt : option MatchType) : Q :=
  match mt with
  | Some Exact => 1
  | Some Contains => 8 # 10
  | Some Regex => 6 # 10
  | Some Description => 5 # 10
  | None => 0
  end.

Definition noMatch : RuleMatchResult :=
  {| matched := false; rmMatchType := None;
     rmMatchedValue := None; rmMatchedPattern := None |}.

Definition isMatch (mt : MatchType) (value pattern : string) : RuleMatchResult :=
  {| matched := true; rmMatchType := Some mt;
     rmMatchedValue := Some value; rmMatchedPattern := Some pattern |}.

(** The account and amount gates at the head of [matchRule]: [true]
    when one of them returns [{ matched: false }]. *)
Definition accountGateFails (tx : TxView) (c : RuleConditions) : bool :=
  truthy (condAccountId c) &&
  negb (String.eqb (accountId tx) (default EmptyString (condAccountId c))).

Definition amountMinFails (tx : TxView) (c : RuleConditions) : bool :=
  match amountMin c with Some lo => amount tx <? lo | None => false end.

Definition amountMaxFails (tx : TxView) (c : RuleConditions) : bool :=
  match amountMax c with Some hi => hi <? amount tx | None => false end.

(** The four textual tests, each [Some result] when its [if] returns. *)
Definition tryExact (tx : TxView) (c : RuleConditions) : option RuleMatchResult :=
  if truthy (merchantExact c) then
    let pattern := toUpperCase (default EmptyString (merchantExact c)) in
    if String.eqb (merchantNormalized tx) pattern
    then Some (isMatch Exact (merchantNormalized tx) pattern) else None
  else None.

Definition tryContains (tx : TxView) (c : RuleConditions) : option RuleMatchResult :=
  if truthy (merchantContains c) then
    let pattern := toUpperCase (default EmptyString (merchantContains c)) in
    if includes (merchantNormalized tx) pattern
    then Some (isMatch Contains (merchantNormalized tx) pattern) else None
  else None.

Definition tryRegex `{JsRuntime} (tx : TxView) (c : RuleConditions)
  : option RuleMatchResult :=
  if truthy (merchantRegex c) then
    let p := default EmptyString (merchantRegex c) in
    if regExpCompiles p then
      match regExpMatchI p (merchantNormalized tx) with
      | Some m0 => Some (isMatch Regex m0 p)
      | None => None
      end
    else None (* the constructor threw: caught, condition skipped *)
  else None.

Definition tryDescription (tx : TxView) (c : RuleConditions) : option RuleMatchResult :=
  if truthy (descriptionContains c) then
    let pattern := toUpperCase (default EmptyString (descriptionContains c)) in
    if includes (toUpperCase (description tx)) pattern
    then Some (isMatch Description (description tx) pattern) else None
  else None.

Definition matchRule `{JsRuntime} (tx : TxView) (c : RuleConditions)
  : RuleMatchResult :=
  if accountGateFails tx c then noMatch
  else if amountMinFails tx c then noMatch
  else if amountMaxFails tx c then noMatch
  else match tryExact tx c with
  | Some r => r
  | None =>
  match tryContains tx c with
  | Some r => r
  | None =>
  match tryRegex tx c with
  | Some r => r
  | None =>
  match tryDescription tx c with
  | Some r => r
  | None => noMatch
  end end end end.

(** Rules travel with their document id. *)
Definition sortedRules (rules : list (string * Rule)) : list (string * Rule) :=
  jsSort (fun a b => priority (snd b) - priority (snd a))
         (List.filter (fun r => enabled (snd r)) rules).

Definition ruleHit (r : string * Rule) (m : RuleMatchResult) : CategorizationResult :=
  {| categoryId := Some (actCategoryId (action (snd r)));
     tags := default [] (addTags (action (snd r)));
     explainability :=
       {| reason := RuleMatch;
          ruleId := Some (fst r);
          ruleName := Some (name (snd r));
          matchType := rmMatchType m;
          matchedValue := rmMatchedValue m;
          matchedPattern := rmMatchedPattern m;
          confidence := getConfidence (rmMatchType m);
          timestamp := None;
          llmModel := None;
          llmReasoning := None |} |}.

Definition ruleMiss : CategorizationResult :=
  {| categoryId := None;
     tags := [];
     explainability :=
       {| reason := NoMatch;
          ruleId := None; ruleName := None; matchType := None;
          matchedValue := None; matchedPattern := None;
          confidence := 0;
          timestamp := None;
          llmModel := None; llmReasoning := None |} |}.

Fixpoint firstMatch `{JsRuntime} (tx : TxView) (rules : list (string * Rule))
  : CategorizationResult :=
  match rules with
  | [] => ruleMiss
  | r :: rest =>
      let m := matchRule tx (conditions (snd r)) in
      if matched m then ruleHit r m else firstMatch tx rest
  end.

Definition categorizeWithRules `{JsRuntime} (tx : TxView)
    (rules : list (string * Rule)) : CategorizationResult :=
  firstMatch tx (sortedRules rules).

(** Statement vocabulary for the rule engine. *)
Definition ruleMatches `{JsRuntime} (tx : TxView) (r : string * Rule) : bool :=
  matched (matchRule tx (conditions (snd r))).

Definition byPriorityDesc (a b : string * Rule) : Prop :=
  priority (snd b) <= priority (snd a).

Definition gatesPass (tx : TxView) (c : RuleConditions) : Prop :=
  accountGateFails tx c = false /\
  amountMinFails tx c = false /\
  amountMaxFails tx c = false.

(** None of the four textual conditions is set (an empty string counts
    as not set, as in the source's [if (conditions.merchantExact)]). *)
Definition noTextualCondition (c : RuleConditions) : Prop :=
  truthy (merchantExact c) = false /\ truthy (merchantContains c) = false /\
  truthy (merchantRegex c) = false /\ truthy (descriptionContains c) = false.

(* ================================================================== *)
(** * Documents and collections (services/firestore.ts) *)
(* ================================================================== *)

Record AutoCategoryResult := {
  autoCategoryId : option string;
  autoExplainability : Explainability;
  categorizedAt : option Z
}.

Module Tx.
Record t := {
  uid : string;
  accountId : string;
  importId : string;
  postedAt : Z;
  amount : Z;
  description : string;
  merchantRaw : string;
  merchantNormalized : string;
  categoryId : option string;
  autoCategory : option AutoCategoryResult;
  manualOverride : bool;
  explainability : Explainability;
  notes : option string;
  tags : list string;
  correctedAt : option Z;
  isSplitParent : bool;
  splitParentId : option string;
  txKey : string;
  createdAt : Z;
  updatedAt : Z
}.
End Tx.

(** The [Pick<Transaction, ...>] handed to the categorizer. *)
Definition txView (d : Tx.t) : TxView :=
  {| merchantNormalized := Tx.merchantNormalized d;
     merchantRaw := Tx.merchantRaw d;
     description := Tx.description d;
     amount := Tx.amount d;
     accountId := Tx.accountId d |}.

Module Cat.
Record t := {
  uid : option string;
  name : string;
  icon : string;
  color : string;
  isDefault : bool;
  parentId : option string;
  sortOrder : Z;
  isHidden : bool
}.
End Cat.

Record DismissedSuggestion := {
  dsUid : string;
  dsMerchantNormalized : string;
  dsCategoryId : string;
  dismissedAt : Z
}.

Inductive ImportStatus := Pending | Processing | Completed | Failed.

Module Imp.
Record t := {
  uid : string;
  accountId : string;
  status : ImportStatus;
  transactionCount : Z;
  errorMessage : option string;
  completedAt : option Z;
  updatedAt : Z
}.
End Imp.

(** The database: one collection per entity kind. *)
Record Db := {
  transactions : gmap string Tx.t;
  rules : gmap string Rule;
  categories : gmap string Cat.t;
  imports : gmap string Imp.t;
  dismissedSuggestions : gmap string DismissedSuggestion
}.

Definition setTransactions (db : Db) (m : gmap string Tx.t) : Db :=
  {| transactions := m; rules := rules db; categories := categories db;
     imports := imports db; dismissedSuggestions := dismissedSuggestions db |}.

Definition setRules (db : Db) (m : gmap string Rule) : Db :=
  {| transactions := transactions db; rules := m; categories := categories db;
     imports := imports db; dismissedSuggestions := dismissedSuggestions db |}.

Definition setImports (db : Db) (m : gmap string Imp.t) : Db :=
  {| transactions := transactions db; rules := rules db;
     categories := categories db;
     imports := m; dismissedSuggestions := dismissedSuggestions db |}.

(** A query snapshot: the documents of a collection that satisfy the
    [where] clauses, with their ids. *)
Definition snapshot {A} (c : gmap string A) (p : string -> A -> bool)
  : list (string * A) :=
  List.filter (fun d => p (fst d) (snd d)) (map_to_list c).

(** [orderBy(field, 'asc')] and [orderBy(field, 'desc')]; documents with
    equal keys stay in the order the collection lists them. *)
Definition orderByAsc {A} (key : A -> Z) (l : list (string * A)) :=
  jsSort (fun a b => key (snd a) - key (snd b)) l.

Definition orderByDesc {A} (key : A -> Z) (l : list (string * A)) :=
  jsSort (fun a b => key (snd b) - key (snd a)) l.

(** [loadUserRules] (rule-engine.ts): the owner's enabled rules by
    descending priority. *)
Definition loadUserRules (db : Db) (uid : string) : list (string * Rule) :=
  orderByDesc priority
    (snapshot (rules db)
       (fun _ r => String.eqb (ruleUid r) uid && enabled r)).

(** [getAllCategories] (transaction-service.ts): the default categories,
    then the owner's visible ones, each by [sortOrder]. *)
Definition getAllCategories (db : Db) (uid : string) : list (string * Cat.t) :=
  orderByAsc Cat.sortOrder
    (snapshot (categories db) (fun _ c => Cat.isDefault c))
  ++
  orderByAsc Cat.sortOrder
    (snapshot (categories db)
       (fun _ c => match Cat.uid c with
                   | Some u => String.eqb u uid
                   | None => false
                   end && negb (Cat.isHidden c))).

(* ================================================================== *)
(** * Categorization orchestrator (services/categorization-orchestrator.ts) *)
(* ================================================================== *)

Definition RULE_CONFIDENCE_THRESHOLD : Q := 7 # 10.

Record CategorizationOptions := {
  useLLM : option bool;
  forceRulesOnly : option bool
}.

Record FullCategorizationResult := {
  base : CategorizationResult;
  usedLLM : bool
}.

Record LLMCategorizationRequest := {
  reqDescription : string;
  reqMerchantRaw : string;
  reqAmount : Z;
  reqCategories : list (string * string)
}.

Record LLMCategorizationResponse := {
  llmCategoryId : option string;
  llmConfidence : Q;
  llmReasoningText : string
}.

(** The classifier behind [categorizeWithLLM]: [None] when the call
    throws. *)
Definition LlmOracle := LLMCategorizationRequest -> option LLMCategorizationResponse.

(** What the orchestrator does besides returning. *)
Inductive Effect :=
| UpdateRuleStats (ruleId : string)
| CategorizeWithLLM (req : LLMCategorizationRequest).

Definition withTimestamp (r : CategorizationResult) (ts : Z)
  : CategorizationResult :=
  let e := explainability r in
  {| categoryId := categoryId r;
     tags := tags r;
     explainability :=
       {| reason := reason e; ruleId := ruleId e; ruleName := ruleName e;
          matchType := matchType e; matchedValue := matchedValue e;
          matchedPattern := matchedPattern e; confidence := confidence e;
          timestamp := Some ts;
          llmModel := llmModel e; llmReasoning := llmReasoning e |} |}.

(** [ruleResult.categoryId !== null &&
     ruleResult.explainability.confidence >= RULE_CONFIDENCE_THRESHOLD] *)
Definition passesGate (r : CategorizationResult) : bool :=
  match categoryId r with
  | Some _ => Qle_bool RULE_CONFIDENCE_THRESHOLD (confidence (explainability r))
  | None => false
  end.

(** [!options.forceRulesOnly && (options.useLLM ?? LLM_ENABLED)] *)
Definition shouldUseLLM (llmEnabled : bool) (o : CategorizationOptions) : bool :=
  negb (default false (forceRulesOnly o)) && default llmEnabled (useLLM o).

Definition llmHit (c : string) (r : LLMCategorizationResponse) (ts : Z)
  : CategorizationResult :=
  {| categoryId := Some c;
     tags := [];
     explainability :=
       {| reason := Llm;
          ruleId := None; ruleName := None; matchType := None;
          matchedValue := None; matchedPattern := None;
          confidence := llmConfidence r;
          timestamp := Some ts;
          llmModel := Some "claude-sonnet-4-20250514"%string;
          llmReasoning := Some (llmReasoningText r) |} |}.

Definition llmMiss (r : LLMCategorizationResponse) (ts : Z)
  : CategorizationResult :=
  {| categoryId := None;
     tags := [];
     explainability :=
       {| reason := NoMatch;
          ruleId := None; ruleName := None; matchType := None;
          matchedValue := None; matchedPattern := None;
          confidence := 0;
          timestamp := Some ts;
          llmModel := None;
          llmReasoning := Some (llmReasoningText r) |} |}.

Definition llmRequest (db : Db) (uid : string) (tx : TxView)
  : LLMCategorizationRequest :=
  {| reqDescription := description tx;
     reqMerchantRaw := merchantRaw tx;
     reqAmount := amount tx;
     reqCategories :=
       List.map (fun c => (fst c, Cat.name (snd c))) (getAllCategories db uid) |}.

(** [categorizeTransaction]: the result and the effects issued on the
    way. [llmEnabled] is the module constant [LLM_ENABLED]; [timestamp]
    is the [nowTimestamp()] taken on entry. *)
Definition categorizeTransaction `{JsRuntime} (llmEnabled : bool)
    (llm : LlmOracle) (db : Db) (uid : string) (tx : TxView)
    (options : CategorizationOptions) (timestamp : Z)
  : FullCategorizationResult * list Effect :=
  let rules := loadUserRules db uid in
  let ruleResult := categorizeWithRules tx rules in
  if passesGate ruleResult then
    ({| base := withTimestamp ruleResult timestamp; usedLLM := false |},
     if truthy (ruleId (explainability ruleResult))
     then [UpdateRuleStats (default EmptyString (ruleId (explainability ruleResult)))]
     else [])
  else if negb (shouldUseLLM llmEnabled options) then
    ({| base := withTimestamp ruleResult timestamp; usedLLM := false |}, [])
  else
    let req := llmRequest db uid tx in
    match llm req with
    | Some llmResult =>
        match llmCategoryId llmResult with
        | Some c =>
            ({| base := llmHit c llmResult timestamp; usedLLM := true |},
             [CategorizeWithLLM req])
        | None =>
            ({| base := llmMiss llmResult timestamp; usedLLM := true |},
             [CategorizeWithLLM req])
        end
    | None =>
        ({| base := withTimestamp ruleResult timestamp; usedLLM := false |},
         [CategorizeWithLLM req])
    end.

(* ================================================================== *)
(** * Regex validation (services/rule-engine.ts) *)
(* ================================================================== *)

(** The regular-expression literals of [redosPatterns] use three
    constructs only: an escaped character, the assertion [^], and a
    character followed by [+]. *)
Inductive ReTerm :=
| Chr (c : ascii)        (** [\c]: the character itself *)
| Bol                    (** [^]: start of input (no [m] flag) *)
| Plus (c : ascii).      (** [c+]: one or more [c] *)

(** Match the terms at the current position; [atStart] says whether
    that position is index 0. *)
Fixpoint matchHere (re : list ReTerm) (atStart : bool) (s : string)
  {struct re} : bool :=
  match re with
  | [] => true
  | Chr c :: re' =>
      match s with
      | String c' s' => Ascii.eqb c' c && matchHere re' false s'
      | EmptyString => false
      end
  | Bol :: re' => atStart && matchHere re' atStart s
  | Plus c :: re' =>
      (fix more (s : string) : bool :=
         match s with
         | String c' s' => Ascii.eqb c' c && (matchHere re' false s' || more s')
         | EmptyString => false
         end) s
  end.

Fixpoint testFrom (re : list ReTerm) (atStart : bool) (s : string) : bool :=
  matchHere re atStart s ||
  match s with
  | String _ s' => testFrom re false s'
  | EmptyString => false
  end.

(** [re.test(s)] *)
Definition reTest (re : list ReTerm) (s : string) : bool := testFrom re true s.

Definition redosPatterns : list (list ReTerm) :=
  [ [Chr "("; Chr "."; Chr "*"; Chr ")"; Chr "+"];        (* /\(\.\*\)\+/ *)
    [Chr "("; Chr "."; Chr "+"; Chr ")"; Chr "+"];        (* /\(\.\+\)\+/ *)
    [Chr "("; Chr "["; Bol; Plus "]"; Chr ")"; Chr "+"];  (* /\(\[^]+\)\+/ *)
    [Chr "("; Chr "."; Chr "*"; Chr ")"; Chr "*"];        (* /\(\.\*\)\*/ *)
    [Chr "("; Chr "."; Chr "+"; Chr ")"; Chr "*"] ]%char. (* /\(\.\+\)\*/ *)

Inductive RegexVerdict :=
| RegexValid
| RegexTooLong
| RegexMayBeSlow
| RegexInvalid.

Definition validateRegex `{JsRuntime} (pattern : string) : RegexVerdict :=
  if (200 <? String.length pattern)%nat then RegexTooLong
  else if existsb (fun redos => reTest redos pattern) redosPatterns
  then RegexMayBeSlow
  else if regExpCompiles pattern then RegexValid
  else RegexInvalid.

(* ================================================================== *)
(** * Rules service (services/rules-service.ts) *)
(* ================================================================== *)

Definition MAX_RULES_PER_USER : Z := 100.
Definition DEFAULT_PRIORITY : Z := 500.
Definition SUGGESTION_PRIORITY : Z := 300.

Record CreateRuleBody := {
  bodyName : string;
  bodyPriority : option Z;
  bodyConditions : RuleConditions;
  bodyAction : RuleAction
}.

(** [Object.keys(conditions).length] *)
Definition conditionKeys (c : RuleConditions) : nat :=
  let str (o : option string) := match o with Some _ => 1%nat | None => 0%nat end in
  let num (o : option Z) := match o with Some _ => 1%nat | None => 0%nat end in
  (str (merchantExact c) + str (merchantContains c) + str (merchantRegex c)
   + str (descriptionContains c) + num (amountMin c) + num (amountMax c)
   + str (condAccountId c))%nat.

Definition eqSource (a b : RuleSource) : bool :=
  match a, b with
  | SrcUser, SrcUser | SrcSuggestion, SrcSuggestion | SrcSystem, SrcSystem => true
  | _, _ => false
  end.

(** [createRule]. [now] is [nowTimestamp()] and [newId] the id that
    [collection.add] gives the new document. *)
Definition createRule `{JsRuntime} (db : Db) (uid : string)
    (body : CreateRuleBody) (source : RuleSource) (now : Z) (newId : string)
  : Db * Outcome (string * Rule) :=
  let existingCount :=
    Z.of_nat (length (snapshot (rules db) (fun _ r => String.eqb (ruleUid r) uid))) in
  if MAX_RULES_PER_USER <=? existingCount then
    (db, Thrown "Maximum of 100 rules allowed per user")
  else if (conditionKeys (bodyConditions body) =? 0)%nat then
    (db, Thrown "At least one condition is required")
  else if truthy (merchantRegex (bodyConditions body)) &&
          negb (regExpCompiles (default EmptyString (merchantRegex (bodyConditions body))))
  then (db, Thrown "Invalid regex pattern in merchantRegex")
  else if String.eqb (actCategoryId (bodyAction body)) EmptyString then
    (db, Thrown "action.categoryId is required")
  else
    let priority :=
      default (if eqSource source SrcSuggestion
               then SUGGESTION_PRIORITY else DEFAULT_PRIORITY)
              (bodyPriority body) in
    let ruleData :=
      {| ruleUid := uid;
         name := bodyName body;
         enabled := true;
         priority := Z.min (Z.max priority 1) 1000;
         conditions := bodyConditions body;
         action := bodyAction body;
         source := source;
         matchCount := 0;
         lastMatchedAt := None;
         ruleUpdatedAt := now |} in
    (setRules db (<[newId := ruleData]> (rules db)), Returned (newId, ruleData)).

Definition listRules (db : Db) (uid : string) (enabledOnly : bool)
  : list (string * Rule) :=
  orderByDesc priority
    (snapshot (rules db)
       (fun _ r => String.eqb (ruleUid r) uid &&
                   (negb enabledOnly || enabled r))).

Definition getRule (db : Db) (uid ruleId : string) : option (string * Rule) :=
  match rules db !! ruleId with
  | None => None
  | Some data =>
      if negb (String.eqb (ruleUid data) uid) then None
      else Some (ruleId, data)
  end.

Record UpdateRuleBody := {
  urName : option string;
  urEnabled : option bool;
  urPriority : option Z;
  urConditions : option RuleConditions;
  urAction : option RuleAction
}.

Definition applyRuleUpdate (r : Rule) (body : UpdateRuleBody) (now : Z) : Rule :=
  {| ruleUid := ruleUid r;
     name := default (name r) (urName body);
     enabled := default (enabled r) (urEnabled body);
     priority :=
       match urPriority body with
       | Some p => Z.min (Z.max p 1) 1000
       | None => priority r
       end;
     conditions := default (conditions r) (urConditions body);
     action := default (action r) (urAction body);
     source := source r;
     matchCount := matchCount r;
     lastMatchedAt := lastMatchedAt r;
     ruleUpdatedAt := now |}.

Definition updateRule `{JsRuntime} (db : Db) (uid ruleId : string)
    (body : UpdateRuleBody) (now : Z) : Db * Outcome (option (string * Rule)) :=
  match rules db !! ruleId with
  | None => (db, Returned None)
  | Some data =>
      if negb (String.eqb (ruleUid data) uid) then (db, Returned None)
      else if match urConditions body with
              | Some c => truthy (merchantRegex c) &&
                          negb (regExpCompiles (default EmptyString (merchantRegex c)))
              | None => false
              end
      then (db, Thrown "Invalid regex pattern in merchantRegex")
      else if match urConditions body with
              | Some c => (conditionKeys c =? 0)%nat
              | None => false
              end
      then (db, Thrown "At least one condition is required")
      else if match urAction body with
              | Some a => String.eqb (actCategoryId a) EmptyString
              | None => false
              end
      then (db, Thrown "action.categoryId is required")
      else
        let updated := applyRuleUpdate data body now in
        (setRules db (<[ruleId := updated]> (rules db)),
         Returned (Some (ruleId, updated)))
  end.

Definition deleteRule (db : Db) (uid ruleId : string) : Db * bool :=
  match rules db !! ruleId with
  | None => (db, false)
  | Some data =>
      if negb (String.eqb (ruleUid data) uid) then (db, false)
      else (setRules db (delete ruleId (rules db)), true)
  end.

Definition setPriority (r : Rule) (p : Z) (now : Z) : Rule :=
  {| ruleUid := ruleUid r; name := name r; enabled := enabled r;
     priority := p;
     conditions := conditions r; action := action r; source := source r;
     matchCount := matchCount r; lastMatchedAt := lastMatchedAt r;
     ruleUpdatedAt := now |}.

(** The [batch.update] calls queued by the loop of [reorderRules], from
    position [i] on: the document and its new priority. *)
Fixpoint reorderUpdates (i : Z) (ruleIds : list string) : list (string * Z) :=
  match ruleIds with
  | [] => []
  | ruleId :: rest =>
      if String.eqb ruleId EmptyString then reorderUpdates (i + 1) rest
      else (ruleId, 1000 - i) :: reorderUpdates (i + 1) rest
  end.

(** [batch.commit()] of updates: all of them or, when one of the
    documents does not exist, none and an error. *)
Definition commitPriorities (m : gmap string Rule) (ups : list (string * Z))
    (now : Z) : option (gmap string Rule) :=
  if forallb (fun u => bool_decide (is_Some (m !! fst u))) ups
  then Some (fold_left (fun m u => alter (fun r => setPriority r (snd u) now) (fst u) m)
                       ups m)
  else None.

(** [reorderRules] *)
Definition reorderRules (db : Db) (uid : string) (ruleIds : list string)
    (now : Z) : Db * Outcome (list (string * Rule)) :=
  match commitPriorities (rules db) (reorderUpdates 0 ruleIds) now with
  | Some m =>
      let db' := setRules db m in
      (db', Returned (listRules db' uid false))
  | None => (db, Thrown "NOT_FOUND: No document to update")
  end.

(** [updateRuleStats] (rule-engine.ts) *)
Definition updateRuleStats (db : Db) (ruleId : string) (now : Z) : Db :=
  setRules db
    (alter (fun r =>
              {| ruleUid := ruleUid r; name := name r; enabled := enabled r;
                 priority := priority r;
                 conditions := conditions r; action := action r;
                 source := source r;
                 matchCount := matchCount r + 1;
                 lastMatchedAt := Some now;
                 ruleUpdatedAt := ruleUpdatedAt r |})
           ruleId (rules db)).

(* ================================================================== *)
(** * Splits service (services/splits-service.ts) *)
(* ================================================================== *)

Definition MIN_SPLITS : nat := 2.
Definition MAX_SPLITS : nat := 10.

Record SplitPart := {
  partAmount : Z;
  partCategoryId : option string;
  partNotes : option string
}.

Record SplitTransactionBody := { splits : list SplitPart }.

(** [splits.reduce((sum, s) => sum + s.amount, 0)] *)
Definition totalSplitAmount (l : list SplitPart) : Z :=
  fold_left (fun sum s => sum + partAmount s) l 0.

(** The loop of [validateSplits] that compares each sign with the
    original's: the first error, if any. *)
Fixpoint checkSigns (isExpense : bool) (l : list SplitPart) : option string :=
  match l with
  | [] => None
  | split :: rest =>
      if isExpense && (0 <? partAmount split) then
        Some "Split amounts must be negative for expense transactions"
      else if negb isExpense && (partAmount split <? 0) then
        Some "Split amounts must be positive for income transactions"
      else checkSigns isExpense rest
  end.

(** [validateSplits]: [None] for [{ valid: true }], otherwise the error. *)
Definition validateSplits (originalAmount : Z) (l : list SplitPart)
  : option string :=
  if (length l <? MIN_SPLITS)%nat then Some "Minimum 2 splits required"
  else if (MAX_SPLITS <? length l)%nat then Some "Maximum 10 splits allowed"
  else if negb (totalSplitAmount l =? originalAmount) then
    Some ("Split amounts (" +:+ numToString (totalSplitAmount l)
          +:+ ") must equal original amount ("
          +:+ numToString originalAmount +:+ ")")
  else checkSigns (originalAmount <? 0) l.

Definition manualExplainability (now : Z) : Explainability :=
  {| reason := Manual;
     ruleId := None; ruleName := None; matchType := None;
     matchedValue := None; matchedPattern := None;
     confidence := 1;
     timestamp := Some now;
     llmModel := None; llmReasoning := None |}.

Definition noMatchExplainability (now : Z) : Explainability :=
  {| reason := NoMatch;
     ruleId := None; ruleName := None; matchType := None;
     matchedValue := None; matchedPattern := None;
     confidence := 0;
     timestamp := Some now;
     llmModel := None; llmReasoning := None |}.

Definition splitExplainability (now : Z) : Explainability :=
  {| reason := Split;
     ruleId := None; ruleName := None; matchType := None;
     matchedValue := None; matchedPattern := None;
     confidence := 1;
     timestamp := Some now;
     llmModel := None; llmReasoning := None |}.

(** The [childData] of the [i]-th split (counting from 0) of [n]. *)
Definition childData (uid txId : string) (parentData : Tx.t) (now : Z)
    (n i : nat) (split : SplitPart) : Tx.t :=
  {| Tx.uid := uid;
     Tx.accountId := Tx.accountId parentData;
     Tx.importId := Tx.importId parentData;
     Tx.postedAt := Tx.postedAt parentData;
     Tx.amount := partAmount split;
     Tx.description :=
       Tx.description parentData +:+ " (Split " +:+ numToString (Z.of_nat i + 1)
       +:+ "/" +:+ numToString (Z.of_nat n) +:+ ")";
     Tx.merchantRaw := Tx.merchantRaw parentData;
     Tx.merchantNormalized := Tx.merchantNormalized parentData;
     Tx.categoryId := partCategoryId split;
     Tx.autoCategory := None;
     Tx.manualOverride := truthy (partCategoryId split);
     Tx.explainability := splitExplainability now;
     Tx.notes := partNotes split;
     Tx.tags := [];
     Tx.correctedAt := if truthy (partCategoryId split) then Some now else None;
     Tx.isSplitParent := false;
     Tx.splitParentId := Some txId;
     Tx.txKey := Tx.txKey parentData +:+ "_split_" +:+ numToString (Z.of_nat i);
     Tx.createdAt := now;
     Tx.updatedAt := now |}.

Definition setIsSplitParent (d : Tx.t) (b : bool) (now : Z) : Tx.t :=
  {| Tx.uid := Tx.uid d; Tx.accountId := Tx.accountId d;
     Tx.importId := Tx.importId d; Tx.postedAt := Tx.postedAt d;
     Tx.amount := Tx.amount d; Tx.description := Tx.description d;
     Tx.merchantRaw := Tx.merchantRaw d;
     Tx.merchantNormalized := Tx.merchantNormalized d;
     Tx.categoryId := Tx.categoryId d; Tx.autoCategory := Tx.autoCategory d;
     Tx.manualOverride := Tx.manualOverride d;
     Tx.explainability := Tx.explainability d;
     Tx.notes := Tx.notes d; Tx.tags := Tx.tags d;
     Tx.correctedAt := Tx.correctedAt d;
     Tx.isSplitParent := b;
     Tx.splitParentId := Tx.splitParentId d;
     Tx.txKey := Tx.txKey d; Tx.createdAt := Tx.createdAt d;
     Tx.updatedAt := now |}.

(** The [batch.set(childRef, childData)] calls of the loop, from split
    number [i] on; [autoId k] is the id of the [k]-th document
    reference made by [collection.doc()]. *)
Fixpoint setChildren (autoId : nat -> string) (uid txId : string)
    (parentData : Tx.t) (now : Z) (n i : nat) (l : list SplitPart)
    (m : gmap string Tx.t) : gmap string Tx.t :=
  match l with
  | [] => m
  | split :: rest =>
      setChildren autoId uid txId parentData now n (S i) rest
        (<[autoId i := childData uid txId parentData now n i split]> m)
  end.

Record SplitSummary := {
  sumId : string;
  sumSplitParentId : string;
  sumAmount : Z;
  sumCategoryId : option string
}.

Record SplitResult := {
  parentTransaction : string * bool;
  splitTransactions : list SplitSummary
}.

Definition splitSummaries (autoId : nat -> string) (txId : string)
    (l : list SplitPart) : list SplitSummary :=
  imap (fun i split =>
          {| sumId := autoId i; sumSplitParentId := txId;
             sumAmount := partAmount split;
             sumCategoryId := partCategoryId split |}) l.

(** [splitTransaction]: [Returned None] is the [null] of a missing or
    foreign parent. *)
Definition splitTransaction (db : Db) (uid txId : string)
    (body : SplitTransactionBody) (now : Z) (autoId : nat -> string)
  : Db * Outcome (option SplitResult) :=
  match transactions db !! txId with
  | None => (db, Returned None)
  | Some parentData =>
      if negb (String.eqb (Tx.uid parentData) uid) then (db, Returned None)
      else if Tx.isSplitParent parentData then
        (db, Thrown "Transaction is already split. Unsplit first to modify.")
      else if truthy (Tx.splitParentId parentData) then
        (db, Thrown "Cannot split a transaction that is already part of a split.")
      else
        match validateSplits (Tx.amount parentData) (splits body) with
        | Some error => (db, Thrown error)
        | None =>
            let n := length (splits body) in
            let marked :=
              <[txId := setIsSplitParent parentData true now]> (transactions db) in
            (setTransactions db
               (setChildren autoId uid txId parentData now n 0 (splits body) marked),
             Returned (Some {| parentTransaction := (txId, true);
                               splitTransactions :=
                                 splitSummaries autoId txId (splits body) |}))
        end
  end.

(** [unsplitTransaction]: delete the children, clear the flag. *)
Definition unsplitTransaction (db : Db) (uid txId : string) (now : Z)
  : Db * Outcome (option (string * bool * Z * nat)) :=
  match transactions db !! txId with
  | None => (db, Returned None)
  | Some parentData =>
      if negb (String.eqb (Tx.uid parentData) uid) then (db, Returned None)
      else if negb (Tx.isSplitParent parentData) then
        (db, Thrown "Transaction is not split")
      else
        let children :=
          snapshot (transactions db)
            (fun _ d => String.eqb (Tx.uid d) uid &&
                        bool_decide (Tx.splitParentId d = Some txId)) in
        let deleted :=
          fold_left (fun m c => delete (fst c) m) children (transactions db) in
        (setTransactions db
           (<[txId := setIsSplitParent parentData false now]> deleted),
         Returned (Some (txId, false, Tx.amount parentData, length children)))
  end.

(** Statement vocabulary for splits. *)
Definition oppositeSign (parentAmount childAmount : Z) : Prop :=
  (parentAmount < 0 /\ 0 < childAmount) \/ (0 < parentAmount /\ childAmount < 0).

(** The first [n] ids drawn are new to the collection and distinct. *)
Definition freshIds {A} (autoId : nat -> string) (n : nat) (m : gmap string A)
  : Prop :=
  (forall i, (i < n)%nat -> m !! autoId i = None) /\
  (forall i j, (i < n)%nat -> (j < n)%nat -> autoId i = autoId j -> i = j).

(* ================================================================== *)
(** * Transaction service (services/transaction-service.ts) *)
(* ================================================================== *)

(** The API view of a transaction: the document under its id, with the
    name of its category when that category is visible to the caller. *)
Record TransactionResponse := {
  respId : string;
  respTx : Tx.t;
  respCategoryName : option string
}.

(** [fetchCategories]: of the requested ids, the categories that are
    default or owned by the caller. *)
Definition fetchCategories (db : Db) (uid : string) (categoryIds : list string)
  : gmap string Cat.t :=
  filter (fun kv : string * Cat.t =>
            (Cat.isDefault kv.2 = true \/ Cat.uid kv.2 = Some uid)
            /\ kv.1 ∈ categoryIds)
         (categories db).

Definition toTransactionResponse (id : string) (tx : Tx.t)
    (categoryMap : gmap string Cat.t) : TransactionResponse :=
  {| respId := id;
     respTx := tx;
     respCategoryName :=
       if truthy (Tx.categoryId tx)
       then Cat.name <$> categoryMap !! default EmptyString (Tx.categoryId tx)
       else None |}.

Definition respond (db : Db) (uid id : string) (tx : Tx.t)
  : TransactionResponse :=
  toTransactionResponse id tx
    (if truthy (Tx.categoryId tx)
     then fetchCategories db uid [default EmptyString (Tx.categoryId tx)]
     else ∅).

(** [getTransaction]: [None] is the [null] the route turns into 404
    NOT_FOUND. *)
Definition getTransaction (db : Db) (uid txId : string)
  : option TransactionResponse :=
  match transactions db !! txId with
  | None => None
  | Some data =>
      if negb (String.eqb (Tx.uid data) uid) then None
      else Some (respond db uid txId data)
  end.

Record UpdateTransactionBody := {
  updCategoryId : option string;
  updNotes : option string;
  updTags : option (list string)
}.

(** The [updateData] that [updateTransaction] writes over [currentTx]. *)
Definition applyUpdate (currentTx : Tx.t) (updates : UpdateTransactionBody)
    (now : Z) : Tx.t :=
  let categorized := match updCategoryId updates with Some _ => true | None => false end in
  {| Tx.uid := Tx.uid currentTx;
     Tx.accountId := Tx.accountId currentTx;
     Tx.importId := Tx.importId currentTx;
     Tx.postedAt := Tx.postedAt currentTx;
     Tx.amount := Tx.amount currentTx;
     Tx.description := Tx.description currentTx;
     Tx.merchantRaw := Tx.merchantRaw currentTx;
     Tx.merchantNormalized := Tx.merchantNormalized currentTx;
     Tx.categoryId :=
       match updCategoryId updates with
       | Some c => Some c
       | None => Tx.categoryId currentTx
       end;
     Tx.autoCategory :=
       if categorized && negb (Tx.manualOverride currentTx) &&
          match Tx.autoCategory currentTx with None => true | Some _ => false end
       then Some {| autoCategoryId := Tx.categoryId currentTx;
                    autoExplainability := Tx.explainability currentTx;
                    categorizedAt := timestamp (Tx.explainability currentTx) |}
       else Tx.autoCategory currentTx;
     Tx.manualOverride := if categorized then true else Tx.manualOverride currentTx;
     Tx.explainability :=
       if categorized then manualExplainability now
       else Tx.explainability currentTx;
     Tx.notes :=
       match updNotes updates with
       | Some s => if String.eqb s EmptyString then None else Some s
       | None => Tx.notes currentTx
       end;
     Tx.tags := default (Tx.tags currentTx) (updTags updates);
     Tx.correctedAt := if categorized then Some now else Tx.correctedAt currentTx;
     Tx.isSplitParent := Tx.isSplitParent currentTx;
     Tx.splitParentId := Tx.splitParentId currentTx;
     Tx.txKey := Tx.txKey currentTx;
     Tx.createdAt := Tx.createdAt currentTx;
     Tx.updatedAt := now |}.

(** [updateTransaction] (PATCH). *)
Definition updateTransaction (db : Db) (uid txId : string)
    (updates : UpdateTransactionBody) (now : Z)
  : Db * Outcome (option TransactionResponse) :=
  match transactions db !! txId with
  | None => (db, Returned None)
  | Some data =>
      if negb (String.eqb (Tx.uid data) uid) then (db, Returned None)
      else if match updNotes updates with
              | Some s => (500 <? String.length s)%nat
              | None => false
              end
      then (db, Thrown "Notes cannot exceed 500 characters")
      else if match updTags updates with
              | Some l => (10 <? length l)%nat
              | None => false
              end
      then (db, Thrown "Cannot have more than 10 tags")
      else if match updTags updates with
              | Some l => existsb (fun tag => (50 <? String.length tag)%nat) l
              | None => false
              end
      then (db, Thrown "Each tag cannot exceed 50 characters")
      else
        let updated := applyUpdate data updates now in
        let db' := setTransactions db (<[txId := updated]> (transactions db)) in
        (db', Returned (Some (respond db' uid txId updated)))
  end.

Record NewTransaction := {
  newAccountId : string;
  newImportId : string;
  newPostedAt : Z;
  newAmount : Z;
  newDescription : string;
  newMerchantRaw : string;
  newMerchantNormalized : string;
  newTxKey : string;
  newCategoryId : option string;
  newExplainability : option Explainability
}.

(** The [transactionData] of [createTransaction]. *)
Definition transactionData (uid : string) (data : NewTransaction) (now : Z)
  : Tx.t :=
  {| Tx.uid := uid;
     Tx.accountId := newAccountId data;
     Tx.importId := newImportId data;
     Tx.postedAt := newPostedAt data;
     Tx.amount := newAmount data;
     Tx.description := newDescription data;
     Tx.merchantRaw := newMerchantRaw data;
     Tx.merchantNormalized := newMerchantNormalized data;
     Tx.categoryId := newCategoryId data;
     Tx.autoCategory :=
       if truthy (newCategoryId data)
       then Some {| autoCategoryId := newCategoryId data;
                    autoExplainability :=
                      default (noMatchExplainability now) (newExplainability data);
                    categorizedAt := Some now |}
       else None;
     Tx.manualOverride := false;
     Tx.explainability :=
       default (noMatchExplainability now) (newExplainability data);
     Tx.notes := None;
     Tx.tags := [];
     Tx.correctedAt := None;
     Tx.isSplitParent := false;
     Tx.splitParentId := None;
     Tx.txKey := newTxKey data;
     Tx.createdAt := now;
     Tx.updatedAt := now |}.

(** [createTransaction]: the document is added under the new id. *)
Definition createTransaction (db : Db) (uid : string) (data : NewTransaction)
    (now : Z) (newId : string) : Db * string :=
  (setTransactions db (<[newId := transactionData uid data now]> (transactions db)),
   newId).

(** [transactionExistsByKey] *)
Definition transactionExistsByKey (db : Db) (uid txKey : string) : bool :=
  match snapshot (transactions db)
          (fun _ d => String.eqb (Tx.uid d) uid && String.eqb (Tx.txKey d) txKey)
  with
  | [] => false
  | _ :: _ => true
  end.

(* ================================================================== *)
(** * Recategorization (services/categorization-orchestrator.ts) *)
(* ================================================================== *)

Record RecategorizeCount := {
  updated : nat;
  skipped : nat;
  errors : nat
}.

Definition recategorized (d : Tx.t) (r : CategorizationResult) (now : Z) : Tx.t :=
  {| Tx.uid := Tx.uid d; Tx.accountId := Tx.accountId d;
     Tx.importId := Tx.importId d; Tx.postedAt := Tx.postedAt d;
     Tx.amount := Tx.amount d; Tx.description := Tx.description d;
     Tx.merchantRaw := Tx.merchantRaw d;
     Tx.merchantNormalized := Tx.merchantNormalized d;
     Tx.categoryId := categoryId r;
     Tx.autoCategory :=
       Some {| autoCategoryId := categoryId r;
               autoExplainability := explainability r;
               categorizedAt := timestamp (explainability r) |};
     Tx.manualOverride := Tx.manualOverride d;
     Tx.explainability := explainability r;
     Tx.notes := Tx.notes d; Tx.tags := Tx.tags d;
     Tx.correctedAt := Tx.correctedAt d;
     Tx.isSplitParent := Tx.isSplitParent d;
     Tx.splitParentId := Tx.splitParentId d;
     Tx.txKey := Tx.txKey d; Tx.createdAt := Tx.createdAt d;
     Tx.updatedAt := now |}.

(** The queued [updateRuleStats] calls, in the order they were issued. *)
Definition runEffects (db : Db) (effects : list Effect) (now : Z) : Db :=
  fold_left (fun db e =>
               match e with
               | UpdateRuleStats ruleId => updateRuleStats db ruleId now
               | CategorizeWithLLM _ => db
               end) effects db.

(** One turn of the loop of [recategorizeTransactions]. *)
Definition recategorizeOne `{JsRuntime} (llmEnabled : bool) (llm : LlmOracle)
    (uid : string) (includeManualOverrides : bool)
    (options : CategorizationOptions) (now : Z)
    (acc : Db * RecategorizeCount) (txId : string) : Db * RecategorizeCount :=
  let '(db, count) := acc in
  let skip := {| updated := updated count; skipped := S (skipped count);
                 errors := errors count |} in
  match transactions db !! txId with
  | None => (db, skip)
  | Some data =>
      if negb (String.eqb (Tx.uid data) uid) then (db, skip)
      else if Tx.manualOverride data && negb includeManualOverrides then (db, skip)
      else
        let '(result, effects) :=
          categorizeTransaction llmEnabled llm db uid (txView data) options now in
        let db1 := runEffects db effects now in
        if bool_decide (categoryId (base result) = Tx.categoryId data)
        then (db1, skip)
        else
          (setTransactions db1
             (<[txId := recategorized data (base result) now]> (transactions db1)),
           {| updated := S (updated count); skipped := skipped count;
              errors := errors count |})
  end.

Definition recategorizeTransactions `{JsRuntime} (llmEnabled : bool)
    (llm : LlmOracle) (db : Db) (uid : string) (transactionIds : list string)
    (includeManualOverrides : bool) (options : CategorizationOptions) (now : Z)
  : Db * RecategorizeCount :=
  fold_left
    (recategorizeOne llmEnabled llm uid includeManualOverrides options now)
    transactionIds
    (db, {| updated := 0; skipped := 0; errors := 0 |}).

(* ================================================================== *)
(** * Import service (services/import-service.ts) *)
(* ================================================================== *)

(** ** Merchant normalization *)

(** [replace(/\s+/g, ' ')] *)
Fixpoint collapseSpaces (inRun : bool) (s : string) : string :=
  match s with
  | EmptyString => EmptyString
  | String c s' =>
      if isSpace c
      then if inRun then collapseSpaces true s'
           else String " " (collapseSpaces true s')
      else String c (collapseSpaces false s')
  end.

Definition startsWithDigit (s : string) : bool :=
  match s with String c _ => isDigit c | EmptyString => false end.

(** [replace(/[#*]\d+/g, '')]: [skipping] while inside the digits of a
    match. *)
Fixpoint removeStoreNumbers (skipping : bool) (s : string) : string :=
  match s with
  | EmptyString => EmptyString
  | String c s' =>
      if skipping && isDigit c then removeStoreNumbers true s'
      else if (Ascii.eqb c "#" || Ascii.eqb c "*") && startsWithDigit s'
      then removeStoreNumbers true s'
      else String c (removeStoreNumbers false s')
  end.

Fixpoint digitRun (s : string) : nat :=
  match s with
  | String c s' => if isDigit c then S (digitRun s') else 0%nat
  | EmptyString => 0%nat
  end.

(** [replace(/\d{4,}/g, '')]: [run] tells what was decided for the run
    of digits the previous character belongs to. *)
Inductive RunState := NoRun | KeepRun | DropRun.

Fixpoint removeLongNumbers (run : RunState) (s : string) : string :=
  match s with
  | EmptyString => EmptyString
  | String c s' =>
      if isDigit c then
        match run with
        | DropRun => removeLongNumbers DropRun s'
        | KeepRun => String c (removeLongNumbers KeepRun s')
        | NoRun =>
            if (4 <=? digitRun s)%nat then removeLongNumbers DropRun s'
            else String c (removeLongNumbers KeepRun s')
        end
      else String c (removeLongNumbers NoRun s')
  end.

Definition noiseWords : list string :=
  ["PURCHASE"; "PAYMENT"; "DEBIT"; "CREDIT"; "POS"; "CHECKCARD"]%string.

Fixpoint spaceRun (s : string) : nat :=
  match s with
  | String c s' => if isSpace c then S (spaceRun s') else 0%nat
  | EmptyString => 0%nat
  end.

Fixpoint dropChars (n : nat) (s : string) : string :=
  match n, s with
  | S n', String _ s' => dropChars n' s'
  | _, _ => s
  end.

(** The length of a match of
    [/\s*(PURCHASE|PAYMENT|DEBIT|CREDIT|POS|CHECKCARD)\s*/i] that starts
    at the head of [s], if there is one. *)
Definition noiseMatch (s : string) : option nat :=
  let lead := spaceRun s in
  let rest := dropChars lead s in
  match List.find (fun w => startsWith (toUpperCase rest) w) noiseWords with
  | Some w =>
      Some (lead + String.length w
            + spaceRun (dropChars (String.length w) rest))%nat
  | None => None
  end.

(** [replace(/\s*(...)\s*/gi, ' ')]: [skip] characters of the current
    match are still to be passed over. *)
Fixpoint removeNoise (skip : nat) (s : string) : string :=
  match s with
  | EmptyString => EmptyString
  | String c s' =>
      match skip with
      | S k => removeNoise k s'
      | O =>
          match noiseMatch s with
          | Some len => String " " (removeNoise (len - 1) s')
          | None => String c (removeNoise 0 s')
          end
      end
  end.

Definition normalizeMerchant (merchantRaw : string) : string :=
  trim
    (collapseSpaces false
       (removeNoise 0
          (removeLongNumbers NoRun
             (removeStoreNumbers false
                (collapseSpaces false (toUpperCase merchantRaw)))))).

(** ** The CSV parser *)

(** [postedAt] is a JavaScript [Date]: [None] is an Invalid Date, which
    the rows of the LLM parser may carry ([new Date(tx.postedAt)] on the
    text the model answered). *)
Record ParsedTransaction := {
  parsedPostedAt : option Z;
  parsedAmount : Z;
  parsedDescription : string;
  parsedMerchantRaw : string
}.

(** The column indices found in the header. *)
Record Columns := {
  dateIdx : option nat;
  amountIdx : option nat;
  descIdx : option nat;
  debitIdx : option nat;
  creditIdx : option nat
}.

Definition parseHeaders (headerLine : string) : list string :=
  List.map (fun h => removeChars isQuote (toLowerCase (trim h)))
           (splitOn "," headerLine).

Definition findColumns (headers : list string) : Columns :=
  {| dateIdx :=
       findIndex (oneOf ["date"; "posted date"; "transaction date";
                         "posting date"]%string) headers;
     amountIdx :=
       findIndex (oneOf ["amount"; "debit"; "credit";
                         "transaction amount"]%string) headers;
     descIdx :=
       findIndex (oneOf ["description"; "merchant"; "name";
                         "transaction description"; "memo"]%string) headers;
     debitIdx := findIndex (oneOf ["debit"; "withdrawal"]%string) headers;
     creditIdx := findIndex (oneOf ["credit"; "deposit"]%string) headers |}.

(** The character loop that cuts a line into fields: [values] holds the
    finished fields in reverse. *)
Fixpoint splitFields (line : string) (values : list string) (current : string)
    (inQuotes : bool) : list string :=
  match line with
  | EmptyString => rev (trim current :: values)
  | String char rest =>
      if isQuote char then splitFields rest values current (negb inQuotes)
      else if Ascii.eqb char "," && negb inQuotes
      then splitFields rest (trim current :: values) EmptyString inQuotes
      else splitFields rest values (current +:+ String char EmptyString) inQuotes
  end.

(** [x || fallback] on an optional string. *)
Definition orElse (o : option string) (fallback : string) : string :=
  if truthy o then default EmptyString o else fallback.

(** The amount of a row, [None] for NaN and for a missing amount field
    (the row is skipped either way). *)
Definition rowAmount `{JsRuntime} (cols : Columns) (values : list string)
  : option Z :=
  match amountIdx cols with
  | Some _ =>
      let amountStr := removeChars isAmountNoise <$> at_ values (amountIdx cols) in
      if truthy amountStr then roundCents (default EmptyString amountStr)
      else None
  | None =>
      let debitStr :=
        orElse (removeChars isAmountNoise <$> at_ values (debitIdx cols)) "0" in
      let creditStr :=
        orElse (removeChars isAmountNoise <$> at_ values (creditIdx cols)) "0" in
      let debit := default 0 (roundCents debitStr) in
      let credit := default 0 (roundCents creditStr) in
      Some (credit - debit)
  end.

(** One data line: the parsed transaction, or [None] when the loop
    [continue]s. *)
Definition parseLine `{JsRuntime} (cols : Columns) (line : string)
  : option ParsedTransaction :=
  if String.eqb (trim line) EmptyString then None
  else
    let values := splitFields line [] EmptyString false in
    let dateStr := removeChars isQuote <$> at_ values (dateIdx cols) in
    if negb (truthy dateStr) then None
    else
      match parseDate (default EmptyString dateStr) with
      | None => None
      | Some postedAt =>
          match rowAmount cols values with
          | None => None
          | Some amount =>
              if amount =? 0 then None
              else
                let description :=
                  orElse (removeChars isQuote <$> at_ values (descIdx cols))
                         "Unknown" in
                Some {| parsedPostedAt := Some postedAt;
                        parsedAmount := amount;
                        parsedDescription := description;
                        parsedMerchantRaw := description |}
          end
      end.

Definition parseCSV `{JsRuntime} (content : string) : list ParsedTransaction :=
  let lines := splitOn LF (trim content) in
  if (length lines <? 2)%nat then []
  else
    match lines with
    | [] => []
    | headerLine :: dataLines =>
        if String.eqb headerLine EmptyString then []
        else
          let cols := findColumns (parseHeaders headerLine) in
          match dateIdx cols, amountIdx cols, debitIdx cols with
          | None, _, _ => []
          | Some _, None, None => []
          | _, _, _ => omap (parseLine cols) dataLines
          end
    end.

(** ** The LLM adapter, as the import and the orchestrator see it *)

Inductive DocumentType := Csv | Pdf | Image.

Inductive Content := Text (s : string) | Buffer (bytes : string).

Record BatchItem := {
  itemId : string;
  itemTx : TxView
}.

Record LlmServices := {
  (** [categorizeWithLLM] *)
  categorizeWithLLM : LlmOracle;
  (** [batchCategorizeWithLLM(needsLLM, categories)]: the answers by
      transaction id, [None] when the call throws *)
  batchCategorizeWithLLM :
    list BatchItem -> list (string * Cat.t) ->
    option (gmap string LLMCategorizationResponse);
  (** [parseDocumentWithLLM]: the transactions and [metadata.errors] *)
  parseDocumentWithLLM :
    Content -> DocumentType -> option string ->
    Outcome (list ParsedTransaction * list string);
  (** [normalizeMerchantWithLLM], [None] when the call throws *)
  normalizeMerchantWithLLM : string -> option string
}.

(** ** Batch categorization (categorization-orchestrator.ts) *)

Definition withLlmReasoning (r : CategorizationResult) (reasoning : string)
  : CategorizationResult :=
  let e := explainability r in
  {| categoryId := categoryId r;
     tags := tags r;
     explainability :=
       {| reason := reason e; ruleId := ruleId e; ruleName := ruleName e;
          matchType := matchType e; matchedValue := matchedValue e;
          matchedPattern := matchedPattern e; confidence := confidence e;
          timestamp := timestamp e;
          llmModel := llmModel e; llmReasoning := Some reasoning |} |}.

(** The first pass: every input gets its rule result; the ones that fail
    the gate are queued for the classifier. *)
Fixpoint rulePass `{JsRuntime} (rules : list (string * Rule)) (timestamp : Z)
    (txs : list BatchItem)
    (results : gmap string FullCategorizationResult)
    (needsLLM : list BatchItem) (effects : list Effect)
  : gmap string FullCategorizationResult * list BatchItem * list Effect :=
  match txs with
  | [] => (results, needsLLM, effects)
  | tx :: rest =>
      let ruleResult := categorizeWithRules (itemTx tx) rules in
      let stored :=
        <[itemId tx := {| base := withTimestamp ruleResult timestamp;
                          usedLLM := false |}]> results in
      if passesGate ruleResult then
        rulePass rules timestamp rest stored needsLLM
          (effects ++
           if truthy (ruleId (explainability ruleResult))
           then [UpdateRuleStats
                   (default EmptyString (ruleId (explainability ruleResult)))]
           else [])
      else rulePass rules timestamp rest stored (needsLLM ++ [tx]) effects
  end.

(** The merge of the classifier's answers. *)
Fixpoint mergeLLM (llmResults : gmap string LLMCategorizationResponse)
    (timestamp : Z) (needsLLM : list BatchItem)
    (results : gmap string FullCategorizationResult)
  : gmap string FullCategorizationResult :=
  match needsLLM with
  | [] => results
  | tx :: rest =>
      mergeLLM llmResults timestamp rest
        match llmResults !! itemId tx with
        | Some llmResult =>
            match llmCategoryId llmResult with
            | Some c =>
                <[itemId tx := {| base := llmHit c llmResult timestamp;
                                  usedLLM := true |}]> results
            | None =>
                match results !! itemId tx with
                | Some existing =>
                    <[itemId tx :=
                        {| base := withLlmReasoning (base existing)
                                     (llmReasoningText llmResult);
                           usedLLM := true |}]> results
                | None => results
                end
            end
        | None => results
        end
  end.

Definition batchCategorizeTransactions `{JsRuntime} (llmEnabled : bool)
    (svc : LlmServices) (db : Db) (uid : string) (txs : list BatchItem)
    (options : CategorizationOptions) (timestamp : Z)
  : gmap string FullCategorizationResult * list Effect :=
  let rules := loadUserRules db uid in
  let '(results, needsLLM, effects) := rulePass rules timestamp txs ∅ [] [] in
  if negb (shouldUseLLM llmEnabled options) ||
     match needsLLM with [] => true | _ :: _ => false end
  then (results, effects)
  else
    match batchCategorizeWithLLM svc needsLLM (getAllCategories db uid) with
    | Some llmResults => (mergeLLM llmResults timestamp needsLLM results, effects)
    | None => (results, effects)
    end.

(** ** Import processing *)

(** [generateTxKey]. On an Invalid Date [postedAt.toISOString()] throws
    a RangeError. *)
Definition generateTxKey `{JsRuntime} (accountId : string) (postedAt : option Z)
    (amount : Z) (description : string) : Outcome string :=
  match postedAt with
  | Some t =>
      Returned
        (sha256 (accountId +:+ "|"
                 +:+ default EmptyString (head (splitOn "T" (toISOString t)))
                 +:+ "|" +:+ numToString amount +:+ "|" +:+ description))
  | None => Thrown "Invalid time value"
  end.

Record ToCreate := {
  parsed : ParsedTransaction;
  tcTxKey : string;
  tcMerchantNormalized : string
}.

Record ImportResult := {
  success : bool;
  created : nat;
  importSkipped : nat;
  importErrors : list string
}.

(** The deduplication loop: rows whose key the owner already has are
    counted as skipped, the others are queued with their normalized
    merchant. The loop writes nothing; it ends at the first row whose
    key cannot be computed, with the error [generateTxKey] throws. *)
Fixpoint dedupe `{JsRuntime} (svc : LlmServices) (db : Db) (uid accountId : string)
    (rows : list ParsedTransaction) (skipped : nat) (queue : list ToCreate)
  : Outcome (nat * list ToCreate) :=
  match rows with
  | [] => Returned (skipped, queue)
  | row :: rest =>
      match generateTxKey accountId (parsedPostedAt row) (parsedAmount row)
                          (parsedDescription row) with
      | Thrown message => Thrown message
      | Returned txKey =>
          if transactionExistsByKey db uid txKey
          then dedupe svc db uid accountId rest (S skipped) queue
          else
            let merchantNormalized := normalizeMerchant (parsedMerchantRaw row) in
            let merchantNormalized :=
              if (String.length merchantNormalized <? 3)%nat
              then default merchantNormalized
                     (normalizeMerchantWithLLM svc (parsedMerchantRaw row))
              else merchantNormalized in
            dedupe svc db uid accountId rest skipped
              (queue ++ [{| parsed := row; tcTxKey := txKey;
                            tcMerchantNormalized := merchantNormalized |}])
      end
  end.

Definition tempId (idx : nat) : string := "temp_" +:+ numToString (Z.of_nat idx).

Definition categorizationInput (accountId : string) (queue : list ToCreate)
  : list BatchItem :=
  imap (fun idx tx =>
          {| itemId := tempId idx;
             itemTx :=
               {| merchantNormalized := tcMerchantNormalized tx;
                  merchantRaw := parsedMerchantRaw (parsed tx);
                  description := parsedDescription (parsed tx);
                  amount := parsedAmount (parsed tx);
                  accountId := accountId |} |}) queue.

(** The creation loop from queue position [i] on; [autoId i] is the id
    the store gives to the document of queue position [i]. With the
    store available [createTransaction] can only throw in
    [toTimestamp], on an Invalid Date; the loop then records the
    failure and goes on. (The queue [processImport] builds holds no
    such row: [generateTxKey] has thrown on it.) *)
Fixpoint createAll (results : gmap string FullCategorizationResult)
    (uid accountId importId : string) (now : Z) (autoId : nat -> string)
    (i : nat) (queue : list ToCreate) (db : Db) (created : nat)
    (errors : list string) : Db * nat * list string :=
  match queue with
  | [] => (db, created, errors)
  | tx :: rest =>
      match parsedPostedAt (parsed tx) with
      | Some postedAt =>
          let catResult := results !! tempId i in
          let data :=
            {| newAccountId := accountId;
               newImportId := importId;
               newPostedAt := postedAt;
               newAmount := parsedAmount (parsed tx);
               newDescription := parsedDescription (parsed tx);
               newMerchantRaw := parsedMerchantRaw (parsed tx);
               newMerchantNormalized := tcMerchantNormalized tx;
               newTxKey := tcTxKey tx;
               newCategoryId :=
                 match catResult with
                 | Some r => categoryId (base r)
                 | None => None
                 end;
               newExplainability :=
                 Some match catResult with
                      | Some r => explainability (withTimestamp (base r) now)
                      | None => noMatchExplainability now
                      end |} in
          createAll results uid accountId importId now autoId (S i) rest
            (fst (createTransaction db uid data now (autoId i))) (S created)
            errors
      | None =>
          createAll results uid accountId importId now autoId (S i) rest
            db created
            (errors ++ ["Failed to create transaction: "
                        +:+ parsedDescription (parsed tx)])
      end
  end.

(** The fields an [importRef.update] of [processImport] sets. *)
Definition withImportStatus (i : Imp.t) (st : ImportStatus)
    (count : option Z) (message : option string) (completed : bool) (now : Z)
  : Imp.t :=
  {| Imp.uid := Imp.uid i; Imp.accountId := Imp.accountId i;
     Imp.status := st;
     Imp.transactionCount := default (Imp.transactionCount i) count;
     Imp.errorMessage :=
       match message with
       | Some m => Some m
       | None => Imp.errorMessage i
       end;
     Imp.completedAt := if completed then Some now else Imp.completedAt i;
     Imp.updatedAt := now |}.

(** [importRef.update(...)]: the store rejects the update of a document
    that does not exist ([None]). *)
Definition setImportStatus (db : Db) (importId : string) (st : ImportStatus)
    (count : option Z) (message : option string) (completed : bool) (now : Z)
  : option Db :=
  match imports db !! importId with
  | Some i =>
      Some (setImports db
              (<[importId := withImportStatus i st count message completed now]>
                 (imports db)))
  | None => None
  end.

(** The message of that rejection: the store's status [NOT_FOUND] (the
    text that follows it names the path of the document). *)
Definition notFound : string := "NOT_FOUND".

(** The parse step of [processImport]: the deterministic parser for
    CSV text, the LLM when it finds nothing and for the other kinds. *)
Definition parseDocument `{JsRuntime} (svc : LlmServices) (content : Content)
    (documentType : DocumentType) (mimeType : option string)
  : Outcome (list ParsedTransaction * list string) :=
  match documentType, content with
  | Csv, Text s =>
      match parseCSV s with
      | [] => parseDocumentWithLLM svc content Csv None
      | rows => Returned (rows, [])
      end
  | _, _ => parseDocumentWithLLM svc content documentType mimeType
  end.

(** [processImport]. The first [importRef.update] stands before the
    [try]: when the import record does not exist the call rejects and
    nothing is written. Inside the [try], an error ends in the [catch],
    which marks the import failed; when that update is rejected too
    (the record is missing), the call rejects. *)
Definition processImport `{JsRuntime} (llmEnabled : bool) (svc : LlmServices)
    (db : Db) (uid accountId importId : string) (content : Content)
    (documentType : DocumentType) (mimeType : option string)
    (now : Z) (autoId : nat -> string) : Db * Outcome ImportResult :=
  let failed (db : Db) (message : string) (errors : list string) :=
    match setImportStatus db importId Failed None (Some message) true now with
    | Some db' =>
        (db', Returned {| success := false; created := 0; importSkipped := 0;
                          importErrors := errors |})
    | None => (db, Thrown notFound)
    end in
  match setImportStatus db importId Processing None None false now with
  | None => (db, Thrown notFound)
  | Some db =>
      match parseDocument svc content documentType mimeType with
      | Thrown message => failed db message [message]
      | Returned ([], errors) =>
          failed db "No transactions found in document"%string
                 ("No transactions found in document"%string :: errors)
      | Returned (parsedTransactions, errors) =>
          match dedupe svc db uid accountId parsedTransactions 0 [] with
          | Thrown message => failed db message [message]
          | Returned (skipped, transactionsToCreate) =>
              let '(categorizationResults, effects) :=
                batchCategorizeTransactions llmEnabled svc db uid
                  (categorizationInput accountId transactionsToCreate)
                  {| useLLM := None; forceRulesOnly := None |} now in
              let db := runEffects db effects now in
              let '(db, created, errors) :=
                createAll categorizationResults uid accountId importId now
                          autoId 0 transactionsToCreate db 0 errors in
              match setImportStatus db importId Completed
                      (Some (Z.of_nat created)) None true now with
              | Some db' =>
                  (db', Returned {| success := true; created := created;
                                    importSkipped := skipped;
                                    importErrors := errors |})
              | None => failed db notFound [notFound]
              end
          end
      end
  end.

(** Statement vocabulary for imports: the rows an import works on. *)
Definition parsedRows `{JsRuntime} (svc : LlmServices) (content : Content)
    (documentType : DocumentType) (mimeType : option string)
  : list ParsedTransaction :=
  match parseDocument svc content documentType mimeType with
  | Returned (rows, _) => rows
  | Thrown _ => []
  end.

(** The owner holds a transaction with this key. *)
Definition hasKey (db : Db) (uid txKey : string) : Prop :=
  exists id d, transactions db !! id = Some d /\
               Tx.uid d = uid /\ Tx.txKey d = txKey.

Definition rowKey `{JsRuntime} (accountId : string) (row : ParsedTransaction)
  : Outcome string :=
  generateTxKey accountId (parsedPostedAt row) (parsedAmount row)
                (parsedDescription row).

(** [postedAt.toISOString().split('T')[0]] *)
Definition isoDate `{JsRuntime} (postedAt : Z) : string :=
  default EmptyString (head (splitOn "T" (toISOString postedAt))).

Definition heldRow `{JsRuntime} (db : Db) (uid accountId : string)
    (row : ParsedTransaction) : bool :=
  match rowKey accountId row with
  | Returned txKey => transactionExistsByKey db uid txKey
  | Thrown _ => false
  end.

(** Every row carries a date the runtime could read. *)
Definition datesValid (rows : list ParsedTransaction) : Prop :=
  forall row, In row rows -> parsedPostedAt row <> None.
(* ================================================================== *)
(** * Sequences of operations *)
(* ================================================================== *)

(** The operations of the core that write, with the values the
    environment supplies to each call (clock, new document ids, LLM
    answers). *)
Inductive Op :=
| OpImport (svc : LlmServices) (uid accountId importId : string)
    (content : Content) (documentType : DocumentType)
    (mimeType : option string) (now : Z) (autoId : nat -> string)
| OpUpdateTransaction (uid txId : string) (updates : UpdateTransactionBody)
    (now : Z)
| OpSplit (uid txId : string) (body : SplitTransactionBody) (now : Z)
    (autoId : nat -> string)
| OpUnsplit (uid txId : string) (now : Z)
| OpRecategorize (llm : LlmOracle) (uid : string) (transactionIds : list string)
    (includeManualOverrides : bool) (options : CategorizationOptions) (now : Z)
| OpCreateRule (uid : string) (body : CreateRuleBody) (source : RuleSource)
    (now : Z) (newId : string)
| OpUpdateRule (uid ruleId : string) (body : UpdateRuleBody) (now : Z)
| OpDeleteRule (uid ruleId : string)
| OpReorderRules (uid : string) (ruleIds : list string) (now : Z).

Definition applyOp `{JsRuntime} (llmEnabled : bool) (db : Db) (op : Op) : Db :=
  match op with
  | OpImport svc uid accountId importId content documentType mimeType now autoId =>
      fst (processImport llmEnabled svc db uid accountId importId content
             documentType mimeType now autoId)
  | OpUpdateTransaction uid txId updates now =>
      fst (updateTransaction db uid txId updates now)
  | OpSplit uid txId body now autoId =>
      fst (splitTransaction db uid txId body now autoId)
  | OpUnsplit uid txId now => fst (unsplitTransaction db uid txId now)
  | OpRecategorize llm uid transactionIds includeManualOverrides options now =>
      fst (recategorizeTransactions llmEnabled llm db uid transactionIds
             includeManualOverrides options now)
  | OpCreateRule uid body source now newId =>
      fst (createRule db uid body source now newId)
  | OpUpdateRule uid ruleId body now => fst (updateRule db uid ruleId body now)
  | OpDeleteRule uid ruleId => fst (deleteRule db uid ruleId)
  | OpReorderRules uid ruleIds now => fst (reorderRules db uid ruleIds now)
  end.

Definition run `{JsRuntime} (llmEnabled : bool) (db : Db) (ops : list Op) : Db :=
  fold_left (applyOp llmEnabled) ops db.

(** Statement vocabulary: the invariant as the design states it, and as
    it holds. *)
Definition overrideKeepsAuto (d : Tx.t) : Prop :=
  Tx.manualOverride d = true -> Tx.autoCategory d <> None.

Definition overrideKeepsAutoUnlessChild (d : Tx.t) : Prop :=
  Tx.splitParentId d = None -> overrideKeepsAuto d.

Definition everyTransaction (P : Tx.t -> Prop) (db : Db) : Prop :=
  forall id d, transactions db !! id = Some d -> P d.

(* ================================================================== *)
(** * Listing transactions (transaction-service.ts, firestore.ts) *)
(* ================================================================== *)

Definition MAX_LIMIT : Z := 100.
Definition DEFAULT_LIMIT : Z := 50.

Record ListTransactionsQuery := {
  qMonth : option string;
  qStartDate : option string;
  qEndDate : option string;
  qCategoryId : option string;
  qAccountId : option string;
  qMerchant : option string;
  qMinAmount : option Z;
  qMaxAmount : option Z;
  qTags : option string;
  qUncategorized : option bool;
  qLimit : option Z;
  qCursor : option string
}.

Record PaginationMeta := {
  pageCursor : option string;
  hasMore : bool
}.

Record TransactionListResult := {
  listed : list TransactionResponse;
  pagination : PaginationMeta
}.

(** [parseCursor]: [None] is [null]; the date of a cursor may itself be
    an Invalid Date. *)
Definition parseCursor `{JsRuntime} (cursor : option string)
  : option (option Z * string) :=
  if negb (truthy cursor) then None
  else
    match decodeCursorJson (default EmptyString cursor) with
    | Some (Some postedAt, Some id) => Some (parseDate postedAt, id)
    | Some (_, _) => None
    | None => None
    end.

(** [createCursor] *)
Definition createCursor `{JsRuntime} (postedAt : Z) (id : string) : string :=
  encodeCursor (toISOString postedAt) id.

(** [getMonthDateRange] *)
Definition getMonthDateRange `{JsRuntime} (month : string) : Outcome (Z * Z) :=
  let parts := List.map jsNumber (splitOn "-" month) in
  match mjoin (parts !! 0%nat), mjoin (parts !! 1%nat) with
  | Some year, Some monthNum =>
      if (year =? 0) || (monthNum =? 0) || (monthNum <? 1) || (12 <? monthNum)
      then Thrown "Invalid month format. Use YYYY-MM"
      else Returned (monthStart year monthNum, monthEnd year monthNum)
  | _, _ => Thrown "Invalid month format. Use YYYY-MM"
  end.

(** [Timestamp.fromDate] of an Invalid Date throws. *)
Definition invalidTimestamp : string :=
  "Value for argument seconds is not a valid integer.".

(** The date range of a listing; [now] is [new Date()]. *)
Definition listRange `{JsRuntime} (query : ListTransactionsQuery) (now : Z)
  : Outcome (Z * Z) :=
  if truthy (qStartDate query) && truthy (qEndDate query) then
    match parseDate (default EmptyString (qStartDate query)),
          parseDate (default EmptyString (qEndDate query)) with
    | Some startDate, Some endDate => Returned (startDate, endOfDay endDate)
    | _, _ => Thrown invalidTimestamp
    end
  else if truthy (qMonth query) then
    getMonthDateRange (default EmptyString (qMonth query))
  else
    getMonthDateRange
      (numToString (getFullYear now) +:+ "-"
       +:+ padStart 2 "0" (numToString (getMonth now + 1))).

(** The [where] clauses of the listing. *)
Definition listWhere (uid : string) (query : ListTransactionsQuery)
    (range : Z * Z) (d : Tx.t) : bool :=
  String.eqb (Tx.uid d) uid
  && (fst range <=? Tx.postedAt d) && (Tx.postedAt d <=? snd range)
  && (if truthy (qCategoryId query)
      then bool_decide (Tx.categoryId d = qCategoryId query) else true)
  && (if truthy (qAccountId query)
      then String.eqb (Tx.accountId d) (default EmptyString (qAccountId query))
      else true)
  && (if default false (qUncategorized query)
      then bool_decide (Tx.categoryId d = None) else true).

(** The filters applied to the page after it is fetched. *)
Definition clientFilter (query : ListTransactionsQuery) (tx : Tx.t) : bool :=
  negb (Tx.isSplitParent tx)
  && (if truthy (qMerchant query)
      then includes (Tx.merchantNormalized tx)
             (toUpperCase (default EmptyString (qMerchant query)))
      else true)
  && match qMinAmount query with Some lo => lo <=? Tx.amount tx | None => true end
  && match qMaxAmount query with Some hi => Tx.amount tx <=? hi | None => true end
  && (if truthy (qTags query)
      then forallb
             (fun tag => existsb (fun t => String.eqb (toLowerCase t) tag)
                                 (Tx.tags tx))
             (List.map (fun t => toLowerCase (trim t))
                       (splitOn "," (default EmptyString (qTags query))))
      else true).

Fixpoint dedupStrings (l : list string) : list string :=
  match l with
  | [] => []
  | x :: rest =>
      x :: List.filter (fun y => negb (String.eqb x y)) (dedupStrings rest)
  end.

(** [listTransactions] *)
Definition listTransactions `{JsRuntime} (db : Db) (uid : string)
    (query : ListTransactionsQuery) (now : Z) : Outcome TransactionListResult :=
  let limit := Z.min (default DEFAULT_LIMIT (qLimit query)) MAX_LIMIT in
  match listRange query now with
  | Thrown message => Thrown message
  | Returned range =>
      let ordered :=
        orderByDesc Tx.postedAt
          (snapshot (transactions db) (fun _ d => listWhere uid query range d)) in
      match
        match parseCursor (qCursor query) with
        | Some (Some postedAt, _) =>
            Returned (List.filter (fun d => Tx.postedAt (snd d) <? postedAt) ordered)
        | Some (None, _) => Thrown invalidTimestamp
        | None => Returned ordered
        end
      with
      | Thrown message => Thrown message
      | Returned after =>
          let docs := take (Z.to_nat (limit + 1)) after in
          let more := limit <? Z.of_nat (length docs) in
          let resultDocs := if more then take (Z.to_nat limit) docs else docs in
          let categoryIds :=
            dedupStrings (omap (fun d => Tx.categoryId (snd d)) resultDocs) in
          let categoryMap := fetchCategories db uid categoryIds in
          let filtered := List.filter (fun d => clientFilter query (snd d)) resultDocs in
          let nextCursor :=
            match head (rev filtered) with
            | Some lastTx =>
                if more then Some (createCursor (Tx.postedAt (snd lastTx)) (fst lastTx))
                else None
            | None => None
            end in
          Returned
            {| listed :=
                 List.map (fun d => toTransactionResponse (fst d) (snd d) categoryMap)
                          filtered;
               pagination := {| pageCursor := nextCursor; hasMore := more |} |}
      end
  end.

Definition withCursor (query : ListTransactionsQuery) (cursor : option string)
  : ListTransactionsQuery :=
  {| qMonth := qMonth query; qStartDate := qStartDate query;
     qEndDate := qEndDate query; qCategoryId := qCategoryId query;
     qAccountId := qAccountId query; qMerchant := qMerchant query;
     qMinAmount := qMinAmount query; qMaxAmount := qMaxAmount query;
     qTags := qTags query; qUncategorized := qUncategorized query;
     qLimit := qLimit query; qCursor := cursor |}.

(* ================================================================== *)
(** * Monthly analytics (services/analytics-service.ts) *)
(* ================================================================== *)

(** A JavaScript [Map]: keys in insertion order, [set] on a present key
    replaces the value in place. *)
Fixpoint mapGet {K V} `{EqDecision K} (k : K) (m : list (K * V)) : option V :=
  match m with
  | [] => None
  | (k', v) :: rest => if decide (k' = k) then Some v else mapGet k rest
  end.

Fixpoint mapSet {K V} `{EqDecision K} (k : K) (v : V) (m : list (K * V))
  : list (K * V) :=
  match m with
  | [] => [(k, v)]
  | (k', v') :: rest =>
      if decide (k' = k) then (k, v) :: rest else (k', v') :: mapSet k v rest
  end.

Record CategoryTotals := { ctAmount : Z; ctCount : nat }.

Record MerchantTotals := {
  mtAmount : Z;
  mtCount : nat;
  mtCategoryId : option string
}.

Record DailyTotals := { dtIncome : Z; dtExpenses : Z; dtCount : nat }.

(** The running aggregates of the loop over the month's documents. *)
Record Aggregates := {
  aggIncome : Z;
  aggExpenses : Z;
  aggCount : nat;
  aggCategorized : nat;
  aggUncategorized : nat;
  aggManualOverride : nat;
  categoryTotals : list (option string * CategoryTotals);
  merchantTotals : list (string * MerchantTotals);
  dailyTotals : list (string * DailyTotals)
}.

Definition noAggregates : Aggregates :=
  {| aggIncome := 0; aggExpenses := 0; aggCount := 0; aggCategorized := 0;
     aggUncategorized := 0; aggManualOverride := 0;
     categoryTotals := []; merchantTotals := []; dailyTotals := [] |}.

(** The body of the loop. *)
Definition aggregate `{JsRuntime} (a : Aggregates) (doc : string * Tx.t)
  : Aggregates :=
  let data := snd doc in
  let amount := Tx.amount data in
  let categoryId := Tx.categoryId data in
  let merchantNormalized := Tx.merchantNormalized data in
  let dateKey := isoDate (Tx.postedAt data) in
  {| aggIncome := if 0 <? amount then aggIncome a + amount else aggIncome a;
     aggExpenses := if 0 <? amount then aggExpenses a else aggExpenses a + amount;
     aggCount := S (aggCount a);
     aggCategorized :=
       if truthy categoryId then S (aggCategorized a) else aggCategorized a;
     aggUncategorized :=
       if truthy categoryId then aggUncategorized a else S (aggUncategorized a);
     aggManualOverride :=
       if Tx.manualOverride data then S (aggManualOverride a)
       else aggManualOverride a;
     categoryTotals :=
       let existing :=
         default {| ctAmount := 0; ctCount := 0 |}
                 (mapGet categoryId (categoryTotals a)) in
       mapSet categoryId
         {| ctAmount := ctAmount existing + amount;
            ctCount := S (ctCount existing) |}
         (categoryTotals a);
     merchantTotals :=
       if amount <? 0 then
         let existingMerchant :=
           default {| mtAmount := 0; mtCount := 0; mtCategoryId := None |}
                   (mapGet merchantNormalized (merchantTotals a)) in
         mapSet merchantNormalized
           {| mtAmount := mtAmount existingMerchant + amount;
              mtCount := S (mtCount existingMerchant);
              mtCategoryId :=
                match categoryId with
                | Some c => Some c
                | None => mtCategoryId existingMerchant
                end |}
           (merchantTotals a)
       else merchantTotals a;
     dailyTotals :=
       if String.eqb (toISOString (Tx.postedAt data)) EmptyString
          || String.eqb dateKey EmptyString
       then dailyTotals a
       else
         let existingDaily :=
           default {| dtIncome := 0; dtExpenses := 0; dtCount := 0 |}
                   (mapGet dateKey (dailyTotals a)) in
         mapSet dateKey
           {| dtIncome := dtIncome existingDaily + (if 0 <? amount then amount else 0);
              dtExpenses :=
                dtExpenses existingDaily + (if amount <? 0 then amount else 0);
              dtCount := S (dtCount existingDaily) |}
           (dailyTotals a) |}.

Record CategorySpending := {
  csCategoryId : option string;
  csCategoryName : string;
  csCategoryIcon : string;
  csCategoryColor : string;
  csTotalAmount : Z;
  csTransactionCount : nat;
  csPercentageOfTotal : Q
}.

Record MerchantSpending := {
  msMerchantNormalized : string;
  msTotalAmount : Z;
  msTransactionCount : nat;
  msCategoryId : option string;
  msCategoryName : option string
}.

Record DailySpending := {
  dsDate : string;
  dsIncome : Z;
  dsExpenses : Z;
  dsNet : Z;
  dsTransactionCount : nat
}.

Record MonthlyOverview := {
  ovMonth : string;
  totalIncome : Z;
  totalExpenses : Z;
  netAmount : Z;
  transactionCount : nat;
  categorizedCount : nat;
  uncategorizedCount : nat;
  manualOverrideCount : nat;
  categoryBreakdown : list CategorySpending;
  topMerchants : list MerchantSpending;
  dailySpending : list DailySpending
}.

(** [catId ? categoryMap.get(catId) : null] *)
Definition categoryOf (categoryMap : list (string * Cat.t)) (catId : option string)
  : option Cat.t :=
  if truthy catId then mapGet (default EmptyString catId) categoryMap else None.

(** [new Map(categories.map((c) => [c.id, c]))]: a later entry for an
    id replaces the earlier one. *)
Definition toMap {V} (l : list (string * V)) : list (string * V) :=
  fold_left (fun m kv => mapSet (fst kv) (snd kv) m) l [].

Definition questionMark : string := "?".

(** One entry of the category breakdown, for an expense bucket. *)
Definition categorySpending (categoryMap : list (string * Cat.t))
    (totalAbsExpenses : Z) (bucket : option string * CategoryTotals)
  : CategorySpending :=
  let category := categoryOf categoryMap (fst bucket) in
  {| csCategoryId := fst bucket;
     csCategoryName := default "Uncategorized"%string (Cat.name <$> category);
     csCategoryIcon := default questionMark (Cat.icon <$> category);
     csCategoryColor := default "#6B7280"%string (Cat.color <$> category);
     csTotalAmount := ctAmount (snd bucket);
     csTransactionCount := ctCount (snd bucket);
     csPercentageOfTotal :=
       if 0 <? totalAbsExpenses
       then (inject_Z (Z.abs (ctAmount (snd bucket)))
             / inject_Z totalAbsExpenses * 100)%Q
       else 0%Q |}.

Definition merchantSpending (categoryMap : list (string * Cat.t))
    (bucket : string * MerchantTotals) : MerchantSpending :=
  {| msMerchantNormalized := fst bucket;
     msTotalAmount := mtAmount (snd bucket);
     msTransactionCount := mtCount (snd bucket);
     msCategoryId := mtCategoryId (snd bucket);
     msCategoryName :=
       Cat.name <$> categoryOf categoryMap (mtCategoryId (snd bucket)) |}.

(** The date key of a day of the month, as the daily loop writes it. *)
Definition dayKey (year monthNum day : Z) : string :=
  numToString year +:+ "-" +:+ padStart 2 "0" (numToString monthNum)
  +:+ "-" +:+ padStart 2 "0" (numToString day).

Definition dailyEntry (daily : list (string * DailyTotals))
    (year monthNum : Z) (day : nat) : DailySpending :=
  let dateKey := dayKey year monthNum (Z.of_nat day) in
  let d := default {| dtIncome := 0; dtExpenses := 0; dtCount := 0 |}
                   (mapGet dateKey daily) in
  {| dsDate := dateKey;
     dsIncome := dtIncome d;
     dsExpenses := dtExpenses d;
     dsNet := dtIncome d + dtExpenses d;
     dsTransactionCount := dtCount d |}.

(** The documents of the month: the owner's transactions posted in the
    range that are not split parents. *)
Definition monthDocs (db : Db) (uid : string) (range : Z * Z)
  : list (string * Tx.t) :=
  orderByAsc Tx.postedAt
    (snapshot (transactions db)
       (fun _ d => String.eqb (Tx.uid d) uid
                   && (fst range <=? Tx.postedAt d)
                   && (Tx.postedAt d <=? snd range)
                   && negb (Tx.isSplitParent d))).

(** The year and month [month.split('-').map(Number)] yields once
    [getMonthDateRange] has accepted the string. *)
Definition yearMonth `{JsRuntime} (month : string) : Z * Z :=
  let parts := List.map jsNumber (splitOn "-" month) in
  (default 0 (mjoin (parts !! 0%nat)), default 0 (mjoin (parts !! 1%nat))).

(** [getMonthlyOverview] *)
Definition getMonthlyOverview `{JsRuntime} (db : Db) (uid : string)
    (month : string) (topMerchantsLimit : option nat) : Outcome MonthlyOverview :=
  let limit := default 10%nat topMerchantsLimit in
  match getMonthDateRange month with
  | Thrown message => Thrown message
  | Returned range =>
      let docs := monthDocs db uid range in
      let categoryMap := toMap (getAllCategories db uid) in
      let a := fold_left aggregate docs noAggregates in
      let totalAbsExpenses := Z.abs (aggExpenses a) in
      let categoryBreakdown :=
        jsSort (fun x y => Z.abs (csTotalAmount y) - Z.abs (csTotalAmount x))
          (List.map (categorySpending categoryMap totalAbsExpenses)
             (List.filter (fun b => negb (0 <=? ctAmount (snd b)))
                          (categoryTotals a))) in
      let topMerchants :=
        take limit
          (jsSort (fun x y => Z.abs (msTotalAmount y) - Z.abs (msTotalAmount x))
             (List.map (merchantSpending categoryMap) (merchantTotals a))) in
      let '(year, monthNum) := yearMonth month in
      let dailySpending :=
        List.map (dailyEntry (dailyTotals a) year monthNum)
                 (seq 1 (Z.to_nat (getDate (snd range)))) in
      Returned
        {| ovMonth := month;
           totalIncome := aggIncome a;
           totalExpenses := aggExpenses a;
           netAmount := aggIncome a + aggExpenses a;
           transactionCount := aggCount a;
           categorizedCount := aggCategorized a;
           uncategorizedCount := aggUncategorized a;
           manualOverrideCount := aggManualOverride a;
           categoryBreakdown := categoryBreakdown;
           topMerchants := topMerchants;
           dailySpending := dailySpending |}
  end.

(** Statement vocabulary for the overview: sums and counts over the
    month's documents. *)
Definition sumWhere (p : Tx.t -> bool) (docs : list (string * Tx.t)) : Z :=
  fold_right (fun d acc => (if p (snd d) then Tx.amount (snd d) else 0) + acc)
             0 docs.

Definition countWhere (p : Tx.t -> bool) (docs : list (string * Tx.t)) : nat :=
  length (List.filter (fun d => p (snd d)) docs).

Definition isIncome (d : Tx.t) : bool := 0 <? Tx.amount d.
Definition isExpense (d : Tx.t) : bool := Tx.amount d <? 0.

Definition inCategory (c : option string) (d : Tx.t) : bool :=
  bool_decide (Tx.categoryId d = c).

Definition atMerchant (m : string) (d : Tx.t) : bool :=
  String.eqb (Tx.merchantNormalized d) m.

Definition onDay `{JsRuntime} (key : string) (d : Tx.t) : bool :=
  String.eqb (isoDate (Tx.postedAt d)) key.

Definition both (p q : Tx.t -> bool) (d : Tx.t) : bool := p d && q d.

Definition byAbsDesc {A} (total : A -> Z) (x y : A) : Prop :=
  Z.abs (total y) <= Z.abs (total x).

Definition anyDoc (p : Tx.t -> bool) (docs : list (string * Tx.t)) : bool :=
  existsb (fun d => p (snd d)) docs.

(** The aggregates once the loop is over. *)
Definition aggregateAll `{JsRuntime} (docs : list (string * Tx.t)) : Aggregates :=
  fold_left aggregate docs noAggregates.

(* ================================================================== *)
(** * Fixtures for running the model *)
(* ================================================================== *)

(** A runtime for running the model on examples. It knows ISO dates
    [YYYY-MM-DD] (UTC), decimal amounts with at most two decimals, and
    cursors written [postedAt|id]; every pattern compiles and is matched
    as a literal; the hash is the identity. *)
Fixpoint digitsValue (acc : Z) (s : string) : option Z :=
  match s with
  | EmptyString => Some acc
  | String c s' =>
      if isDigit c
      then digitsValue (acc * 10 + (Z.of_nat (nat_of_ascii c) - 48)) s'
      else None
  end.

Definition exampleNumber (s : string) : option Z :=
  if String.eqb s EmptyString then None else digitsValue 0 s.

Definition exampleCents (s : string) : option Z :=
  let '(sign, body) :=
    match s with
    | String "-" rest => (-1, rest)
    | _ => (1, s)
    end in
  match splitOn "." body with
  | [whole] => (fun w => sign * (w * 100)) <$> exampleNumber whole
  | [whole; frac] =>
      w ← (if String.eqb whole EmptyString then Some 0 else digitsValue 0 whole);
      f ← match String.length frac with
          | 1%nat => (fun d => d * 10) <$> digitsValue 0 frac
          | 2%nat => digitsValue 0 frac
          | _ => None
          end;
      Some (sign * (w * 100 + f))
  | _ => None
  end.

Definition isLeap (y : Z) : bool :=
  ((y mod 4 =? 0) && negb (y mod 100 =? 0)) || (y mod 400 =? 0).

Definition daysInMonth (y m : Z) : Z :=
  if m =? 2 then (if isLeap y then 29 else 28)
  else if (m =? 4) || (m =? 6) || (m =? 9) || (m =? 11) then 30 else 31.

(** Days from 1970-01-01 to the civil date, and back. *)
Definition daysFromCivil (y m d : Z) : Z :=
  let y' := if m <=? 2 then y - 1 else y in
  let era := y' / 400 in
  let yoe := y' - era * 400 in
  let doy := (153 * (if 2 <? m then m - 3 else m + 9) + 2) / 5 + d - 1 in
  let doe := yoe * 365 + yoe / 4 - yoe / 100 + doy in
  era * 146097 + doe - 719468.

Definition civilFromDays (z : Z) : Z * Z * Z :=
  let z := z + 719468 in
  let era := z / 146097 in
  let doe := z - era * 146097 in
  let yoe := (doe - doe / 1460 + doe / 36524 - doe / 146096) / 365 in
  let doy := doe - (365 * yoe + yoe / 4 - yoe / 100) in
  let mp := (5 * doy + 2) / 153 in
  let d := doy - (153 * mp + 2) / 5 + 1 in
  let m := if mp <? 10 then mp + 3 else mp - 9 in
  ((yoe + era * 400 + (if m <=? 2 then 1 else 0)), m, d).

Definition msPerDay : Z := 86400000.

Definition exampleParseDate (s : string) : option Z :=
  match splitOn "-" s with
  | [ys; ms; ds] =>
      y ← exampleNumber ys; m ← exampleNumber ms; d ← exampleNumber ds;
      if (String.length ys =? 4)%nat && (String.length ms =? 2)%nat &&
         (String.length ds =? 2)%nat &&
         (1 <=? m) && (m <=? 12) && (1 <=? d) && (d <=? daysInMonth y m)
      then Some (daysFromCivil y m d * msPerDay)
      else None
  | _ => None
  end.

Definition exampleISOString (t : Z) : string :=
  let '(y, m, d) := civilFromDays (t / msPerDay) in
  let ms := t mod msPerDay in
  padStart 4 "0" (numToString y) +:+ "-" +:+ padStart 2 "0" (numToString m)
  +:+ "-" +:+ padStart 2 "0" (numToString d) +:+ "T"
  +:+ padStart 2 "0" (numToString (ms / 3600000)) +:+ ":"
  +:+ padStart 2 "0" (numToString (ms / 60000 mod 60)) +:+ ":"
  +:+ padStart 2 "0" (numToString (ms / 1000 mod 60)) +:+ "."
  +:+ padStart 3 "0" (numToString (ms mod 1000)) +:+ "Z".

Definition exampleDecodeCursor (s : string)
  : option (option string * option string) :=
  match splitOn "|" s with
  | [postedAt; id] =>
      Some (if String.eqb postedAt EmptyString then None else Some postedAt,
            if String.eqb id EmptyString then None else Some id)
  | _ => None
  end.

Definition exampleRuntime : JsRuntime :=
  {| regExpCompiles := fun _ => true;
     regExpMatchI := fun p s =>
       if includes (toUpperCase s) (toUpperCase p) then Some p else None;
     sha256 := fun s => s;
     parseDate := exampleParseDate;
     toISOString := exampleISOString;
     roundCents := exampleCents;
     jsNumber := exampleNumber;
     monthStart := fun y m => daysFromCivil y m 1 * msPerDay;
     monthEnd := fun y m =>
       daysFromCivil y m (daysInMonth y m) * msPerDay + (msPerDay - 1);
     getDate := fun t => snd (civilFromDays (t / msPerDay));
     getFullYear := fun t => fst (fst (civilFromDays (t / msPerDay)));
     getMonth := fun t => snd (fst (civilFromDays (t / msPerDay))) - 1;
     endOfDay := fun t => t / msPerDay * msPerDay + (msPerDay - 1);
     decodeCursorJson := exampleDecodeCursor;
     encodeCursor := fun postedAt id => postedAt +:+ "|" +:+ id |}.

Definition emptyDb : Db :=
  {| transactions := ∅; rules := ∅; categories := ∅; imports := ∅;
     dismissedSuggestions := ∅ |}.

(** A checking-account expense of 100.00 owned by alice, and document
    ids [c0], [c1], ... *)
Definition exampleTx : Tx.t :=
  {| Tx.uid := "alice"; Tx.accountId := "acc1"; Tx.importId := "imp1";
     Tx.postedAt := 0; Tx.amount := -10000;
     Tx.description := "GROCER"; Tx.merchantRaw := "GROCER";
     Tx.merchantNormalized := "GROCER";
     Tx.categoryId := None; Tx.autoCategory := None;
     Tx.manualOverride := false;
     Tx.explainability := noMatchExplainability 0;
     Tx.notes := None; Tx.tags := []; Tx.correctedAt := None;
     Tx.isSplitParent := false; Tx.splitParentId := None;
     Tx.txKey := "k1"; Tx.createdAt := 0; Tx.updatedAt := 0 |}.

Definition exampleDb : Db :=
  setTransactions emptyDb {[ "tx1"%string := exampleTx ]}.

Definition exampleIds (i : nat) : string := "c" +:+ numToString (Z.of_nat i).

Definition part (a : Z) (c : option string) : SplitPart :=
  {| partAmount := a; partCategoryId := c; partNotes := None |}.

Definition exampleRule (owner : string) (p : Z) : Rule :=
  {| ruleUid := owner; name := "coffee"; enabled := true; priority := p;
     conditions :=
       {| merchantExact := None; merchantContains := Some "COFFEE"%string;
          merchantRegex := None; descriptionContains := None;
          amountMin := None; amountMax := None; condAccountId := None |};
     action := {| actCategoryId := "dining"; addTags := None |};
     source := SrcUser; matchCount := 0; lastMatchedAt := None;
     ruleUpdatedAt := 0 |}.

Definition exampleRulesDb : Db :=
  setRules exampleDb {[ "bobRule"%string := exampleRule "bob" 500 ]}.

(** Two rows of a bank statement, under three headers. *)
Definition csvOf (header : string) (rows : list string) : string :=
  fold_left (fun acc row => acc +:+ String LF row) rows header.

Definition exampleCsv : string :=
  csvOf "date,amount,description"
        ["2024-01-15,-50.00,COFFEE SHOP #123"; "2024-01-16,100.00,SALARY"]%string.

Definition debitCreditCsv : string :=
  csvOf "date,debit,credit,description"
        ["2024-01-15,50.00,,COFFEE"; "2024-01-16,,100.00,SALARY"]%string.

Definition withdrawalDepositCsv : string :=
  csvOf "date,withdrawal,deposit,description"
        ["2024-01-15,50.00,,COFFEE"; "2024-01-16,,100.00,SALARY"]%string.

(** An LLM adapter that is down. *)
Definition exampleServices : LlmServices :=
  {| categorizeWithLLM := fun _ => None;
     batchCategorizeWithLLM := fun _ _ => None;
     parseDocumentWithLLM := fun _ _ _ => Thrown "LLM unavailable";
     normalizeMerchantWithLLM := fun _ => None |}.

(** A rule body whose only condition is [merchantRegex]. *)
Definition regexOnlyBody (name pattern categoryId : string) : CreateRuleBody :=
  {| bodyName := name;
     bodyPriority := None;
     bodyConditions :=
       {| merchantExact := None; merchantContains := None;
          merchantRegex := Some pattern; descriptionContains := None;
          amountMin := None; amountMax := None; condAccountId := None |};
     bodyAction := {| actCategoryId := categoryId; addTags := None |} |}.

(** The listing of a month, with the defaults. *)
Definition monthQuery (month : string) : ListTransactionsQuery :=
  {| qMonth := Some month; qStartDate := None; qEndDate := None;
     qCategoryId := None; qAccountId := None; qMerchant := None;
     qMinAmount := None; qMaxAmount := None; qTags := None;
     qUncategorized := None; qLimit := None; qCursor := None |}.


(** Rules and transactions of the design's scenarios 3 and 4. *)
Definition containsRule (p : Z) (pattern categoryId : string) : Rule :=
  {| ruleUid := "alice"; name := pattern; enabled := true; priority := p;
     conditions :=
       {| merchantExact := None; merchantContains := Some pattern;
          merchantRegex := None; descriptionContains := None;
          amountMin := None; amountMax := None; condAccountId := None |};
     action := {| actCategoryId := categoryId; addTags := None |};
     source := SrcUser; matchCount := 0; lastMatchedAt := None;
     ruleUpdatedAt := 0 |}.

Definition exactRule (p : Z) (pattern categoryId : string) : Rule :=
  {| ruleUid := "alice"; name := pattern; enabled := true; priority := p;
     conditions :=
       {| merchantExact := Some pattern; merchantContains := None;
          merchantRegex := None; descriptionContains := None;
          amountMin := None; amountMax := None; condAccountId := None |};
     action := {| actCategoryId := categoryId; addTags := None |};
     source := SrcUser; matchCount := 0; lastMatchedAt := None;
     ruleUpdatedAt := 0 |}.

Definition purchaseAt (merchantRaw : string) : TxView :=
  {| merchantNormalized := normalizeMerchant merchantRaw;
     merchantRaw := merchantRaw;
     description := merchantRaw;
     amount := -450;
     accountId := "acc1" |}.

(* ================================================================== *)
(** * Reading the children of a split (services/splits-service.ts) *)
(* ================================================================== *)

Record SplitChild := {
  childId : string;
  childAmount : Z;
  childCategoryId : option string;
  childNotes : option string
}.

(** The query of [getSplitChildren], which is also the one
    [unsplitTransaction] deletes by. *)
Definition childrenOf (db : Db) (uid parentTxId : string)
  : list (string * Tx.t) :=
  snapshot (transactions db)
    (fun _ d => String.eqb (Tx.uid d) uid &&
                bool_decide (Tx.splitParentId d = Some parentTxId)).

(** [getSplitChildren] *)
Definition getSplitChildren (db : Db) (uid parentTxId : string)
  : list SplitChild :=
  List.map (fun doc =>
              {| childId := fst doc;
                 childAmount := Tx.amount (snd doc);
                 childCategoryId := Tx.categoryId (snd doc);
                 childNotes := Tx.notes (snd doc) |})
           (childrenOf db uid parentTxId).

(** The documents [splitTransaction] adds for the parts of a request. *)
Definition childDocs (autoId : nat -> string) (uid txId : string)
    (parentData : Tx.t) (now : Z) (l : list SplitPart)
  : list (string * Tx.t) :=
  imap (fun i split =>
          (autoId i, childData uid txId parentData now (length l) i split)) l.

(** What [getSplitChildren] shows of the [i]-th part. *)
Definition childOfPart (autoId : nat -> string) (i : nat) (split : SplitPart)
  : SplitChild :=
  {| childId := autoId i; childAmount := partAmount split;
     childCategoryId := partCategoryId split; childNotes := partNotes split |}.

(** [children.reduce((sum, c) => sum + c.amount, 0)] *)
Definition totalChildAmount (l : list SplitChild) : Z :=
  fold_left (fun sum c => sum + childAmount c) l 0.

(* ================================================================== *)
(** * Vocabulary for the rules collection *)
(* ================================================================== *)

(** [existingCount.data().count] of [createRule]: the number of rules
    the owner has. *)
Definition ruleCount (db : Db) (uid : string) : Z :=
  Z.of_nat (length (snapshot (rules db) (fun _ r => String.eqb (ruleUid r) uid))).

(** The documented range of [Rule.priority]. *)
Definition priorityInRange (r : Rule) : Prop := 1 <= priority r <= 1000.

Definition everyRule (P : Rule -> Prop) (db : Db) : Prop :=
  forall id r, rules db !! id = Some r -> P r.

(** A collection of [n] rules of one owner, under the ids [c0], [c1], ... *)
Fixpoint manyRules (owner : string) (n : nat) : gmap string Rule :=
  match n with
  | O => ∅
  | S k => <[exampleIds k := exampleRule owner 500]> (manyRules owner k)
  end.

(* ================================================================== *)
(** * Rule suggestions (services/rule-engine.ts, services/rules-service.ts) *)
(* ================================================================== *)

(** [sortRulesByPriority] (rule-engine.ts) *)
Definition sortRulesByPriority (rules : list (string * Rule))
  : list (string * Rule) :=
  jsSort (fun a b => priority (snd b) - priority (snd a)) rules.

(** The arrow of the suggested names, U+2192, as its three bytes. *)
Definition arrow : string :=
  String (ascii_of_nat 226) (String (ascii_of_nat 134)
    (String (ascii_of_nat 146) EmptyString)).

(** [conditions.merchantContains?.toUpperCase() === merchant ||
     conditions.merchantExact?.toUpperCase() === merchant] *)
Definition similarRule (merchant : string) (c : RuleConditions) : bool :=
  match merchantContains c with
  | Some p => String.eqb (toUpperCase p) merchant
  | None => false
  end ||
  match merchantExact c with
  | Some p => String.eqb (toUpperCase p) merchant
  | None => false
  end.

(** The [rule] of a suggestion. *)
Record SuggestedRule := {
  srName : string;
  srPriority : Z;
  srConditions : RuleConditions;
  srAction : RuleAction
}.

Definition suggestedRule (merchant newCategoryId categoryName : string)
    (p : Z) : SuggestedRule :=
  {| srName := merchant +:+ " " +:+ arrow +:+ " " +:+ categoryName;
     srPriority := p;
     srConditions :=
       {| merchantExact := None; merchantContains := Some merchant;
          merchantRegex := None; descriptionContains := None;
          amountMin := None; amountMax := None; condAccountId := None |};
     srAction := {| actCategoryId := newCategoryId; addTags := None |} |}.

Inductive CorrectionSuggestion :=
| Suggested (rule : SuggestedRule)
| NotSuggested (reason : string).

(** [suggestRuleFromCorrection] (rule-engine.ts); of the transaction it
    reads [merchantNormalized] only. *)
Definition suggestRuleFromCorrection (tx : TxView) (newCategoryId : string)
    (existingRules : list (string * Rule)) : CorrectionSuggestion :=
  let merchant := merchantNormalized tx in
  if (String.length merchant <? 3)%nat then
    NotSuggested "Merchant name too short to create rule"
  else
    match List.find (fun r => similarRule merchant (conditions (snd r)))
                    existingRules with
    | Some existingRule =>
        NotSuggested ("Similar rule already exists: " +:+ name (snd existingRule))
    | None => Suggested (suggestedRule merchant newCategoryId "Category" 300)
    end.

Record RuleSuggestion := {
  sgId : string;
  sgMessage : string;
  sgRule : SuggestedRule
}.

Definition setDismissedSuggestions (db : Db)
    (m : gmap string DismissedSuggestion) : Db :=
  {| transactions := transactions db; rules := rules db;
     categories := categories db; imports := imports db;
     dismissedSuggestions := m |}.

(** The [dismissedSnapshot] query of [generateRuleSuggestion]. *)
Definition dismissedFor (db : Db) (uid merchant categoryId : string)
  : list (string * DismissedSuggestion) :=
  snapshot (dismissedSuggestions db)
    (fun _ d => String.eqb (dsUid d) uid &&
                String.eqb (dsMerchantNormalized d) merchant &&
                String.eqb (dsCategoryId d) categoryId).

(** [generateRuleSuggestion] (rules-service.ts). [nowMs] is
    [Date.now()] and [rand] the six characters drawn from
    [Math.random()]. *)
Definition generateRuleSuggestion (db : Db) (uid : string) (tx : TxView)
    (newCategoryId categoryName : string) (nowMs : Z) (rand : string)
  : option RuleSuggestion :=
  let merchant := merchantNormalized tx in
  if (String.length merchant <? 3)%nat then None
  else if existsb (fun doc => similarRule merchant (conditions (snd doc)))
                  (snapshot (rules db) (fun _ r => String.eqb (ruleUid r) uid))
  then None
  else
    match dismissedFor db uid merchant newCategoryId with
    | _ :: _ => None
    | [] =>
        Some {| sgId := "sug_" +:+ numToString nowMs +:+ "_" +:+ rand;
                sgMessage :=
                  "Create rule: Merchant contains '" +:+ merchant +:+ "' "
                  +:+ arrow +:+ " " +:+ categoryName +:+ "?";
                sgRule := suggestedRule merchant newCategoryId categoryName
                            SUGGESTION_PRIORITY |}
    end.

(** [dismissSuggestion]; [newId] is the id [collection.add] gives. *)
Definition dismissSuggestion (db : Db) (uid merchantNormalized categoryId : string)
    (now : Z) (newId : string) : Db :=
  setDismissedSuggestions db
    (<[newId := {| dsUid := uid;
                   dsMerchantNormalized := merchantNormalized;
                   dsCategoryId := categoryId;
                   dismissedAt := now |}]> (dismissedSuggestions db)).

(** [acceptSuggestion] *)
Definition acceptSuggestion `{JsRuntime} (db : Db) (uid : string)
    (suggestion : RuleSuggestion) (now : Z) (newId : string)
  : Db * Outcome (string * Rule) :=
  createRule db uid
    {| bodyName := srName (sgRule suggestion);
       bodyPriority := Some (srPriority (sgRule suggestion));
       bodyConditions := srConditions (sgRule suggestion);
       bodyAction := srAction (sgRule suggestion) |}
    SrcSuggestion now newId.

(* ================================================================== *)
(** * PATCH /api/v1/transactions/:txId (routes/transactions.ts) *)
(* ================================================================== *)

(** What the handler answers: the status code with the payload of a
    success or the code and message of an error. *)
Record ErrorBody := { errCode : string; errMessage : string }.

Record PatchData := {
  patchedTransaction : TransactionResponse;
  ruleSuggestion : option RuleSuggestion
}.

Inductive PatchResponse :=
| PatchSuccess (status : Z) (data : PatchData)
| PatchFailure (status : Z) (error : ErrorBody).

(** The handler behind [requireAuth], for a body whose fields have the
    types of [UpdateTransactionBody]. [uid] is [authReq.user?.uid]. *)
Definition patchTransactionRoute (db : Db) (uid : option string)
    (txId : string) (body : UpdateTransactionBody) (now nowMs : Z)
    (rand : string) : Db * PatchResponse :=
  if negb (truthy uid) then
    (db, PatchFailure 401 {| errCode := "UNAUTHORIZED";
                             errMessage := "Not authenticated" |})
  else
    let uid := default EmptyString uid in
    if String.eqb txId EmptyString then
      (db, PatchFailure 400 {| errCode := "INVALID_PARAMETER";
                               errMessage := "Transaction ID is required" |})
    else
      let oldTransaction := getTransaction db uid txId in
      match updateTransaction db uid txId body now with
      | (db', Thrown message) =>
          if includes message "cannot exceed" then
            (db', PatchFailure 400 {| errCode := "VALIDATION_ERROR";
                                      errMessage := message |})
          else
            (db', PatchFailure 500 {| errCode := "INTERNAL_ERROR";
                                      errMessage := "Failed to update transaction" |})
      | (db', Returned None) =>
          (db', PatchFailure 404 {| errCode := "NOT_FOUND";
                                    errMessage := "Transaction not found" |})
      | (db', Returned (Some transaction)) =>
          let suggestion :=
            match updCategoryId body, oldTransaction with
            | Some newCategoryId, Some old =>
                if bool_decide (Tx.categoryId (respTx old) <> Some newCategoryId)
                then
                  match List.find (fun c => String.eqb (fst c) newCategoryId)
                                  (getAllCategories db' uid) with
                  | Some category =>
                      generateRuleSuggestion db' uid
                        (txView (respTx transaction)) newCategoryId
                        (Cat.name (snd category)) nowMs rand
                  | None => None
                  end
                else None
            | _, _ => None
            end in
          (db', PatchSuccess 200 {| patchedTransaction := transaction;
                                    ruleSuggestion := suggestion |})
      end.

(** The suggestion made at [Date.now() = 1] for filing a transaction
    under [dining]. *)
Definition exampleSuggestion (tx : TxView) : RuleSuggestion :=
  {| sgId := "sug_1_abc123";
     sgMessage :=
       "Create rule: Merchant contains '" +:+ merchantNormalized tx +:+ "' "
       +:+ arrow +:+ " Dining?";
     sgRule := suggestedRule (merchantNormalized tx) "dining" "Dining" 300 |}.

(** A run of PATCHes on one transaction, each with the time it is made
    at; a PATCH that throws writes nothing. *)
Definition patchAll (db : Db) (uid txId : string)
    (patches : list (UpdateTransactionBody * Z)) : Db :=
  fold_left (fun db p => fst (updateTransaction db uid txId (fst p) (snd p)))
            patches db.

Definition categoryPatch (c : string) : UpdateTransactionBody :=
  {| updCategoryId := Some c; updNotes := None; updTags := None |}.

(** The rule result of a batch item, as the first pass of
    [batchCategorizeTransactions] stores it, and the test that queues
    the item for the classifier. *)
Definition storedRuleResult `{JsRuntime} (rules : list (string * Rule))
    (timestamp : Z) (tx : BatchItem) : FullCategorizationResult :=
  {| base := withTimestamp (categorizeWithRules (itemTx tx) rules) timestamp;
     usedLLM := false |}.

Definition failsGate `{JsRuntime} (rules : list (string * Rule))
    (tx : BatchItem) : bool :=
  negb (passesGate (categorizeWithRules (itemTx tx) rules)).

(** A rule that matches on the description only (confidence 0.5), a
    classifier that names no category, and a batch of one purchase. *)
Definition descriptionRule (owner pattern categoryId : string) : Rule :=
  {| ruleUid := owner; name := "by description"; enabled := true;
     priority := 500;
     conditions :=
       {| merchantExact := None; merchantContains := None;
          merchantRegex := None; descriptionContains := Some pattern;
          amountMin := None; amountMax := None; condAccountId := None |};
     action := {| actCategoryId := categoryId; addTags := None |};
     source := SrcUser; matchCount := 0; lastMatchedAt := None;
     ruleUpdatedAt := 0 |}.

Definition noCategoryAnswer : LLMCategorizationResponse :=
  {| llmCategoryId := None; llmConfidence := 0;
     llmReasoningText := "no category fits" |}.

Definition undecidedServices : LlmServices :=
  {| categorizeWithLLM := fun _ => Some noCategoryAnswer;
     batchCategorizeWithLLM :=
       fun needsLLM _ =>
         Some (list_to_map
                 (List.map (fun tx => (itemId tx, noCategoryAnswer)) needsLLM));
     parseDocumentWithLLM := fun _ _ _ => Thrown "LLM unavailable";
     normalizeMerchantWithLLM := fun _ => None |}.

Definition descriptionRuleDb : Db :=
  setRules exampleDb {[ "r1"%string := descriptionRule "alice" "GROCER" "food" ]}.

Definition exampleItem : BatchItem :=
  {| itemId := "temp_0"; itemTx := txView exampleTx |}.

(** White space occurs in [s] only as single blanks; [prev] tells that
    the character before [s] was white space. *)
Fixpoint spacedOnce (prev : bool) (s : string) : bool :=
  match s with
  | EmptyString => true
  | String c s' =>
      if isSpace c then Ascii.eqb c " " && negb prev && spacedOnce true s'
      else spacedOnce false s'
  end.

(** Writing a CSV line: each field between double quotes, the fields
    separated by commas. *)
Definition quoteChar : ascii := ascii_of_nat 34.

Definition quoted (field : string) : string :=
  String quoteChar (field +:+ String quoteChar EmptyString).

Fixpoint joinFields (fields : list string) : string :=
  match fields with
  | [] => EmptyString
  | [field] => field
  | field :: rest => field +:+ "," +:+ joinFields rest
  end.

Definition hasQuote (s : string) : bool :=
  existsb isQuote (list_ascii_of_string s).

(** The import record as [createImport] leaves it, in a database with
    one transaction. *)
Definition pendingImport : Imp.t :=
  {| Imp.uid := "alice"; Imp.accountId := "acc1"; Imp.status := Pending;
     Imp.transactionCount := 0; Imp.errorMessage := None;
     Imp.completedAt := None; Imp.updatedAt := 0 |}.

Definition importDb : Db :=
  setImports exampleDb {[ "imp1"%string := pendingImport ]}.

(** The example transaction and one posted a day later; a listing that
    asks for [limit] results per page. *)
Definition pageDb : Db :=
  setTransactions emptyDb
    (<["tx2"%string :=
         {| Tx.uid := "alice"; Tx.accountId := "acc1"; Tx.importId := "imp1";
            Tx.postedAt := 86400000; Tx.amount := -2500;
            Tx.description := "BAKERY"; Tx.merchantRaw := "BAKERY";
            Tx.merchantNormalized := "BAKERY";
            Tx.categoryId := None; Tx.autoCategory := None;
            Tx.manualOverride := false;
            Tx.explainability := noMatchExplainability 0;
            Tx.notes := None; Tx.tags := []; Tx.correctedAt := None;
            Tx.isSplitParent := false; Tx.splitParentId := None;
            Tx.txKey := "k2"; Tx.createdAt := 0; Tx.updatedAt := 0 |}]>
       {[ "tx1"%string := exampleTx ]}).

Definition withLimit (query : ListTransactionsQuery) (limit : Z)
  : ListTransactionsQuery :=
  {| qMonth := qMonth query; qStartDate := qStartDate query;
     qEndDate := qEndDate query; qCategoryId := qCategoryId query;
     qAccountId := qAccountId query; qMerchant := qMerchant query;
     qMinAmount := qMinAmount query; qMaxAmount := qMaxAmount query;
     qTags := qTags query; qUncategorized := qUncategorized query;
     qLimit := Some limit; qCursor := qCursor query |}.

(** A transaction of bob. *)
Definition foreignTx : Tx.t :=
  {| Tx.uid := "bob"; Tx.accountId := "acc9"; Tx.importId := "imp9";
     Tx.postedAt := 0; Tx.amount := -700;
     Tx.description := "GROCER"; Tx.merchantRaw := "GROCER";
     Tx.merchantNormalized := "GROCER";
     Tx.categoryId := None; Tx.autoCategory := None;
     Tx.manualOverride := false;
     Tx.explainability := noMatchExplainability 0;
     Tx.notes := None; Tx.tags := []; Tx.correctedAt := None;
     Tx.isSplitParent := false; Tx.splitParentId := None;
     Tx.txKey := "k9"; Tx.createdAt := 0; Tx.updatedAt := 0 |}.

(** The example transaction after a rule has filed it under [dining]. *)
Definition categorizedTx : Tx.t :=
  recategorized exampleTx
    (ruleHit ("r"%string, exampleRule "alice" 500)
             (isMatch Contains "GROCER" "GROCER")) 3.

Definition categorizedDb : Db :=
  setTransactions emptyDb {[ "tx1"%string := categorizedTx ]}.

(** Three rules of alice, with priorities 100, 900 and 500, beside the
    rule of bob. *)
Definition threeRulesDb : Db :=
  setRules exampleDb
    (<["r1"%string := containsRule 100 "COFFEE" "dining"]>
       (<["r2"%string := containsRule 900 "GROCER" "food"]>
          (<["r3"%string := containsRule 500 "FUEL" "car"]>
             {[ "bobRule"%string := exampleRule "bob" 500 ]}))).

(** The same database with the record of a second import. *)
Definition twoImportsDb : Db :=
  setImports exampleDb
    (<["imp2"%string := pendingImport]> {[ "imp1"%string := pendingImport ]}).

(** The [where] clauses of the overview's query. *)
Definition inMonth (uid : string) (range : Z * Z) (d : Tx.t) : bool :=
  String.eqb (Tx.uid d) uid
  && (fst range <=? Tx.postedAt d)
  && (Tx.postedAt d <=? snd range)
  && negb (Tx.isSplitParent d).

(* ================================================================== *)
(** * Month-over-month trend (services/analytics-service.ts) *)
(* ================================================================== *)

(** [getPreviousMonth] *)
Definition getPreviousMonth `{JsRuntime} (month : string) : Outcome string :=
  let parts := List.map jsNumber (splitOn "-" month) in
  match mjoin (parts !! 0%nat), mjoin (parts !! 1%nat) with
  | Some year, Some monthNum =>
      if (year =? 0) || (monthNum =? 0) then Thrown "Invalid month format"
      else
        let prevYear := if monthNum - 1 <? 1 then year - 1 else year in
        let prevMonth := if monthNum - 1 <? 1 then 12 else monthNum - 1 in
        Returned (numToString prevYear +:+ "-"
                  +:+ padStart 2 "0" (numToString prevMonth))
  | _, _ => Thrown "Invalid month format"
  end.

Record PercentageChange := {
  pcIncome : option Q;
  pcExpenses : option Q;
  pcNet : option Q
}.

Record SpendingTrend := {
  trendCurrent : MonthlyOverview;
  trendPrevious : option MonthlyOverview;
  percentageChange : PercentageChange
}.

(** [((current - previous) / base) * 100] *)
Definition percentOf (change base : Z) : Q :=
  (inject_Z change / inject_Z base * 100)%Q.

(** [getSpendingTrend]: a previous month that cannot be computed is
    [null], and so are the changes against a previous total of zero. *)
Definition getSpendingTrend `{JsRuntime} (db : Db) (uid : string)
    (month : string) : Outcome SpendingTrend :=
  match getMonthlyOverview db uid month None with
  | Thrown message => Thrown message
  | Returned currentMonth =>
      let previousMonth :=
        match getPreviousMonth month with
        | Returned prevMonthStr =>
            match getMonthlyOverview db uid prevMonthStr None with
            | Returned overview => Some overview
            | Thrown _ => None
            end
        | Thrown _ => None
        end in
      Returned
        {| trendCurrent := currentMonth;
           trendPrevious := previousMonth;
           percentageChange :=
             match previousMonth with
             | Some previous =>
                 {| pcIncome :=
                      if 0 <? totalIncome previous
                      then Some (percentOf (totalIncome currentMonth
                                            - totalIncome previous)
                                           (totalIncome previous))
                      else None;
                    pcExpenses :=
                      if totalExpenses previous <? 0
                      then Some (percentOf (Z.abs (totalExpenses currentMonth)
                                            - Z.abs (totalExpenses previous))
                                           (Z.abs (totalExpenses previous)))
                      else None;
                    pcNet :=
                      if negb (netAmount previous =? 0)
                      then Some (percentOf (netAmount currentMonth
                                            - netAmount previous)
                                           (Z.abs (netAmount previous)))
                      else None |}
             | None =>
                 {| pcIncome := None; pcExpenses := None; pcNet := None |}
             end |}
  end.

(** What a transaction written by an import looks like. *)
Definition importedBy (uid accountId importId : string) (now : Z) (d : Tx.t)
  : Prop :=
  Tx.uid d = uid /\ Tx.accountId d = accountId /\ Tx.importId d = importId /\
  Tx.manualOverride d = false /\ Tx.correctedAt d = None /\
  Tx.isSplitParent d = false /\ Tx.splitParentId d = None /\
  Tx.notes d = None /\ Tx.tags d = [] /\
  Tx.createdAt d = now /\ Tx.updatedAt d = now /\
  (Tx.autoCategory d = None <-> truthy (Tx.categoryId d) = false).

(** Statement vocabulary for recategorization. Two rules that differ in
    their statistics at most, and rule collections that agree up to
    statistics. *)
Definition sameButStats (r r' : Rule) : Prop :=
  ruleUid r' = ruleUid r /\ name r' = name r /\ enabled r' = enabled r /\
  priority r' = priority r /\ conditions r' = conditions r /\
  action r' = action r.

Definition sameRule (a b : string * Rule) : Prop :=
  fst b = fst a /\ sameButStats (snd a) (snd b).

Definition rulesAgree (m m' : gmap string Rule) : Prop :=
  forall k, match m !! k, m' !! k with
            | Some r, Some r' => sameButStats r r'
            | None, None => True
            | _, _ => False
            end.

(** The category [categorizeTransaction] finds for a stored
    transaction. *)
Definition foundCategory `{JsRuntime} (llmEnabled : bool) (llm : LlmOracle)
    (db : Db) (uid : string) (options : CategorizationOptions) (now : Z)
    (data : Tx.t) : CategorizationResult :=
  base (fst (categorizeTransaction llmEnabled llm db uid (txView data)
               options now)).

(** The request rewrites the transaction [txId]: it is stored, it is
    the caller's, no manual override protects it, and the categorizer
    finds another category than the stored one. *)
Definition recategorizes `{JsRuntime} (llmEnabled : bool) (llm : LlmOracle)
    (db : Db) (uid : string) (includeManualOverrides : bool)
    (options : CategorizationOptions) (now : Z) (txId : string) : bool :=
  match transactions db !! txId with
  | Some data =>
      String.eqb (Tx.uid data) uid
      && negb (Tx.manualOverride data && negb includeManualOverrides)
      && negb (bool_decide
                 (categoryId (foundCategory llmEnabled llm db uid options now data)
                  = Tx.categoryId data))
  | None => false
  end.

(** Statement vocabulary for the case of merchant names. The normalized
    merchant of a transaction is in upper case; the LLM normalizer
    answers in upper case (both providers end in
    [text.trim().toUpperCase()], and the pass tried before them
    upper-cases too). *)
Definition merchantUpperCase (d : Tx.t) : Prop :=
  toUpperCase (Tx.merchantNormalized d) = Tx.merchantNormalized d.

Definition answersUpperCase (svc : LlmServices) : Prop :=
  forall raw s, normalizeMerchantWithLLM svc raw = Some s -> toUpperCase s = s.

Definition importsAnswerUpperCase (op : Op) : Prop :=
  match op with
  | OpImport svc _ _ _ _ _ _ _ _ => answersUpperCase svc
  | _ => True
  end.

(** An LLM adapter that names every short merchant SHOP, and a
    statement whose only row has a merchant of two letters. *)
Definition renamingServices : LlmServices :=
  {| categorizeWithLLM := fun _ => None;
     batchCategorizeWithLLM := fun _ _ => None;
     parseDocumentWithLLM := fun _ _ _ => Returned ([], []);
     normalizeMerchantWithLLM := fun _ => Some "SHOP"%string |}.

Definition shortMerchantCsv : string :=
  csvOf "date,amount,description" ["2024-01-15,-50.00,ab"]%string.

(* ================================================================== *)
(** * Properties *)
(* ================================================================== *)

(** ** Rule engine *)

Section RuleEngineFacts.
Context `{JsRuntime}.

Lemma sortInsert_perm {A} (cmp : A -> A -> Z) x l :
  Permutation (sortInsert cmp x l) (x :: l).
Proof.
  induction l as [|y l IH]; simpl; [done|].
  destruct (0 <? cmp x y); [|done].
  rewrite IH. apply perm_swap.
Qed.

Lemma jsSort_perm {A} (cmp : A -> A -> Z) l : Permutation (jsSort cmp l) l.
Proof.
  induction l as [|x l IH]; simpl; [done|].
  rewrite sortInsert_perm. by constructor.
Qed.

Lemma sortInsert_sorted {A} (key : A -> Z) x l :
  StronglySorted (fun a b => key b <= key a) l ->
  StronglySorted (fun a b => key b <= key a)
                 (sortInsert (fun a b => key b - key a) x l).
Proof.
  induction 1 as [|y l Hs IH Hy]; simpl.
  - repeat constructor.
  - destruct (Z.ltb_spec 0 (key y - key x)) as [Hlt|Hge].
    + constructor; [exact IH|].
      rewrite List.Forall_forall. intros z Hz.
      apply (Permutation_in _ (sortInsert_perm _ x l)) in Hz.
      destruct Hz as [<-|Hz]; [lia|].
      rewrite List.Forall_forall in Hy. by apply Hy.
    + constructor; [by constructor|].
      constructor; [lia|].
      eapply Forall_impl; [|exact Hy]. simpl. intros; lia.
Qed.

Lemma jsSort_sorted {A} (key : A -> Z) l :
  StronglySorted (fun a b => key b <= key a)
                 (jsSort (fun a b => key b - key a) l).
Proof.
  induction l as [|x l IH]; simpl; [constructor|].
  by apply sortInsert_sorted.
Qed.

Lemma sortedRules_perm rules :
  Permutation (sortedRules rules)
              (List.filter (fun r => enabled (snd r)) rules).
Proof. apply jsSort_perm. Qed.

Lemma sortedRules_sorted rules :
  StronglySorted byPriorityDesc (sortedRules rules).
Proof. apply (jsSort_sorted (fun r => priority (snd r))). Qed.

Lemma sortedRules_In rules r :
  In r (sortedRules rules) <-> In r rules /\ enabled (snd r) = true.
Proof.
  pose proof (filter_In (fun r => enabled (snd r)) r rules) as Hf.
  simpl in Hf. rewrite <- Hf.
  split; apply Permutation_in; [|symmetry]; apply sortedRules_perm.
Qed.

Lemma firstMatch_none tx l :
  (forall r, In r l -> ruleMatches tx r = false) ->
  firstMatch tx l = ruleMiss.
Proof.
  induction l as [|r l IH]; simpl; [done|]. intros Hno.
  fold (ruleMatches tx r). rewrite (Hno r) by auto. apply IH; auto.
Qed.

Lemma firstMatch_first tx pre w post :
  (forall r, In r pre -> ruleMatches tx r = false) ->
  ruleMatches tx w = true ->
  firstMatch tx (pre ++ w :: post)
  = ruleHit w (matchRule tx (conditions (snd w))).
Proof.
  induction pre as [|r pre IH]; simpl; intros Hno Hw.
  - fold (ruleMatches tx w). by rewrite Hw.
  - fold (ruleMatches tx r). rewrite (Hno r) by auto. apply IH; auto.
Qed.

(** A list with a matching rule splits at its first matching rule. *)
Lemma first_matching_split tx (l : list (string * Rule)) r :
  In r l -> ruleMatches tx r = true ->
  exists pre w post,
    l = pre ++ w :: post /\
    (forall r', In r' pre -> ruleMatches tx r' = false) /\
    ruleMatches tx w = true.
Proof.
  induction l as [|x l IH]; [done|]. intros Hin Hm.
  destruct (ruleMatches tx x) eqn:Hx.
  - exists [], x, l. simpl. split_and!; [done| |done]. intros ? [].
  - destruct Hin as [->|Hin]; [congruence|].
    destruct (IH Hin Hm) as (pre & w & post & -> & Hpre & Hw).
    exists (x :: pre), w, post. split_and!; [done| |done].
    intros r' [<-|Hr']; auto.
Qed.

Lemma sorted_app_later (l : list (string * Rule)) pre w post r :
  StronglySorted byPriorityDesc l -> l = pre ++ w :: post ->
  In r post -> priority (snd r) <= priority (snd w).
Proof.
  intros Hs ->. induction pre as [|x pre IH]; simpl in Hs.
  - apply StronglySorted_inv in Hs as [_ Hall].
    rewrite List.Forall_forall in Hall. intros Hr. by apply Hall.
  - apply StronglySorted_inv in Hs as [Hs _]. auto.
Qed.

End RuleEngineFacts.

Section RuleEngineSpec.
Context `{JsRuntime}.

Lemma matchRule_gates_pass tx c :
  gatesPass tx c ->
  matchRule tx c =
    match tryExact tx c with Some r => r | None =>
    match tryContains tx c with Some r => r | None =>
    match tryRegex tx c with Some r => r | None =>
    match tryDescription tx c with Some r => r | None => noMatch
    end end end end.
Proof. intros (Ha & Hlo & Hhi). unfold matchRule. by rewrite Ha, Hlo, Hhi. Qed.

Lemma tryExact_type tx c r :
  tryExact tx c = Some r -> matched r = true /\ rmMatchType r = Some Exact.
Proof. unfold tryExact. repeat case_match; naive_solver. Qed.

Lemma tryContains_type tx c r :
  tryContains tx c = Some r -> matched r = true /\ rmMatchType r = Some Contains.
Proof. unfold tryContains. repeat case_match; naive_solver. Qed.

Lemma tryRegex_type tx c r :
  tryRegex tx c = Some r -> matched r = true /\ rmMatchType r = Some Regex.
Proof. unfold tryRegex. repeat case_match; naive_solver. Qed.

Lemma tryDescription_type tx c r :
  tryDescription tx c = Some r ->
  matched r = true /\ rmMatchType r = Some Description.
Proof. unfold tryDescription. repeat case_match; naive_solver. Qed.

Lemma matchRule_matched_type tx c :
  matched (matchRule tx c) = true ->
  exists mt, rmMatchType (matchRule tx c) = Some mt.
Proof.
  unfold matchRule.
  destruct (accountGateFails tx c); [done|].
  destruct (amountMinFails tx c); [done|].
  destruct (amountMaxFails tx c); [done|].
  destruct (tryExact tx c) eqn:E1.
  { destruct (tryExact_type _ _ _ E1); eauto. }
  destruct (tryContains tx c) eqn:E2.
  { destruct (tryContains_type _ _ _ E2); eauto. }
  destruct (tryRegex tx c) eqn:E3.
  { destruct (tryRegex_type _ _ _ E3); eauto. }
  destruct (tryDescription tx c) eqn:E4.
  { destruct (tryDescription_type _ _ _ E4); eauto. }
  done.
Qed.

Lemma matchRule_no_textual tx c :
  noTextualCondition c -> matchRule tx c = noMatch.
Proof.
  intros (He & Hc & Hr & Hd). unfold matchRule.
  unfold tryExact, tryContains, tryRegex, tryDescription.
  rewrite He, Hc, Hr, Hd. by repeat case_match.
Qed.

Lemma startsWith_prefix s pat :
  startsWith s pat = true <-> exists post, s = pat +:+ post.
Proof.
  revert s. induction pat as [|p pat IH]; intros s.
  - split; [|by destruct s]. intros _. by exists s.
  - destruct s as [|c s].
    + split; [done|]. intros [post Hpost]. discriminate Hpost.
    + simpl. rewrite andb_true_iff, Ascii.eqb_eq, IH. split.
      * intros [-> [post ->]]. by exists post.
      * intros [post Hpost].
        change (String p pat +:+ post) with (String p (pat +:+ post)) in Hpost.
        injection Hpost as -> ->. split; [done|]. by exists post.
Qed.

Lemma includes_infix s pat :
  includes s pat = true <-> exists pre post, s = pre +:+ pat +:+ post.
Proof.
  induction s as [|c s IH].
  - cbn [includes]. rewrite orb_false_r, startsWith_prefix. split.
    + intros [post Hpost]. by exists EmptyString, post.
    + intros [[|d pre] [post Hpost]]; [by exists post|discriminate Hpost].
  - cbn [includes]. rewrite orb_true_iff, IH, startsWith_prefix. split.
    + intros [[post Hpost]|(pre & post & ->)].
      * by exists EmptyString, post.
      * by exists (String c pre), post.
    + intros [[|d pre] [post Hpost]].
      * left. by exists post.
      * change (String d pre +:+ pat +:+ post)
          with (String d (pre +:+ pat +:+ post)) in Hpost.
        injection Hpost as -> ->. right. by exists pre, post.
Qed.

Lemma truthy_Some o :
  truthy o = true <-> exists p, o = Some p /\ p <> EmptyString.
Proof.
  destruct o as [p|]; simpl.
  - rewrite negb_true_iff, String.eqb_neq. split; [by exists p|].
    by intros (? & [= <-] & ?).
  - split; [done|]. by intros (? & ? & _).
Qed.

Lemma tryExact_spec tx c r :
  tryExact tx c = Some r <->
  exists p, merchantExact c = Some p /\ p <> EmptyString /\
            merchantNormalized tx = toUpperCase p /\
            r = isMatch Exact (merchantNormalized tx) (toUpperCase p).
Proof.
  unfold tryExact. split.
  - destruct (truthy (merchantExact c)) eqn:Ht; [|done].
    apply truthy_Some in Ht as (p & Hp & Hne). rewrite Hp. simpl.
    destruct (String.eqb_spec (merchantNormalized tx) (toUpperCase p)); [|done].
    intros [= <-]. by exists p.
  - intros (p & Hp & Hne & Heq & ->).
    assert (truthy (merchantExact c) = true) as -> by (apply truthy_Some; eauto).
    rewrite Hp. simpl. rewrite <- Heq. by rewrite String.eqb_refl.
Qed.

Lemma tryContains_spec tx c r :
  tryContains tx c = Some r <->
  exists p pre post,
    merchantContains c = Some p /\ p <> EmptyString /\
    merchantNormalized tx = pre +:+ toUpperCase p +:+ post /\
    r = isMatch Contains (merchantNormalized tx) (toUpperCase p).
Proof.
  unfold tryContains. split.
  - destruct (truthy (merchantContains c)) eqn:Ht; [|done].
    apply truthy_Some in Ht as (p & Hp & Hne). rewrite Hp. simpl.
    destruct (includes (merchantNormalized tx) (toUpperCase p)) eqn:Hi; [|done].
    apply includes_infix in Hi as (pre & post & Hi).
    intros [= <-]. by exists p, pre, post.
  - intros (p & pre & post & Hp & Hne & Heq & ->).
    assert (truthy (merchantContains c) = true) as -> by (apply truthy_Some; eauto).
    rewrite Hp. simpl.
    assert (includes (merchantNormalized tx) (toUpperCase p) = true) as ->; [|done].
    apply includes_infix. by exists pre, post.
Qed.

Lemma tryRegex_spec tx c r :
  tryRegex tx c = Some r <->
  exists p m0,
    merchantRegex c = Some p /\ p <> EmptyString /\
    regExpCompiles p = true /\
    regExpMatchI p (merchantNormalized tx) = Some m0 /\
    r = isMatch Regex m0 p.
Proof.
  unfold tryRegex. split.
  - destruct (truthy (merchantRegex c)) eqn:Ht; [|done].
    apply truthy_Some in Ht as (p & Hp & Hne). rewrite Hp. simpl.
    destruct (regExpCompiles p) eqn:Hc; [|done].
    destruct (regExpMatchI p (merchantNormalized tx)) as [m0|] eqn:Hm; [|done].
    intros [= <-]. by exists p, m0.
  - intros (p & m0 & Hp & Hne & Hc & Hm & ->).
    assert (truthy (merchantRegex c) = true) as -> by (apply truthy_Some; eauto).
    rewrite Hp. simpl. by rewrite Hc, Hm.
Qed.

Lemma tryDescription_spec tx c r :
  tryDescription tx c = Some r <->
  exists p pre post,
    descriptionContains c = Some p /\ p <> EmptyString /\
    toUpperCase (description tx) = pre +:+ toUpperCase p +:+ post /\
    r = isMatch Description (description tx) (toUpperCase p).
Proof.
  unfold tryDescription. split.
  - destruct (truthy (descriptionContains c)) eqn:Ht; [|done].
    apply truthy_Some in Ht as (p & Hp & Hne). rewrite Hp. simpl.
    destruct (includes (toUpperCase (description tx)) (toUpperCase p)) eqn:Hi;
      [|done].
    apply includes_infix in Hi as (pre & post & Hi).
    intros [= <-]. by exists p, pre, post.
  - intros (p & pre & post & Hp & Hne & Heq & ->).
    assert (truthy (descriptionContains c) = true) as ->
      by (apply truthy_Some; eauto).
    rewrite Hp. simpl.
    assert (includes (toUpperCase (description tx)) (toUpperCase p) = true) as ->;
      [|done].
    apply includes_infix. by exists pre, post.
Qed.

Lemma matchRule_matched tx c :
  matched (matchRule tx c) = true <->
  gatesPass tx c /\
  (tryExact tx c <> None \/ tryContains tx c <> None \/
   tryRegex tx c <> None \/ tryDescription tx c <> None).
Proof.
  unfold matchRule, gatesPass.
  destruct (accountGateFails tx c); [split; [done|by intros [(? & _) _]]|].
  destruct (amountMinFails tx c); [split; [done|by intros [(_ & ? & _) _]]|].
  destruct (amountMaxFails tx c); [split; [done|by intros [(_ & _ & ?) _]]|].
  destruct (tryExact tx c) eqn:E1.
  { destruct (tryExact_type _ _ _ E1) as [-> _]. split; [|done].
    intros _. split; [done|]. by left. }
  destruct (tryContains tx c) eqn:E2.
  { destruct (tryContains_type _ _ _ E2) as [-> _]. split; [|done].
    intros _. split; [done|]. right. by left. }
  destruct (tryRegex tx c) eqn:E3.
  { destruct (tryRegex_type _ _ _ E3) as [-> _]. split; [|done].
    intros _. split; [done|]. right. right. by left. }
  destruct (tryDescription tx c) eqn:E4.
  { destruct (tryDescription_type _ _ _ E4) as [-> _]. split; [|done].
    intros _. split; [done|]. right. right. by right. }
  simpl. split; [done|]. intros [_ [?|[?|[?|?]]]]; done.
Qed.

(** C1. [categorizeWithRules] looks at the enabled rules only, in
    descending priority order, and answers with the action of the
    first one that matches (so a winner has the highest priority among
    the enabled matching rules), or with [no_match] when none does.
    [matchRule] applies the account gate, then the inclusive amount
    gates, then the textual tests exact, contains, regex, description,
    stopping at the first that succeeds; the kind of that test fixes
    the confidence (1.0, 0.8, 0.6, 0.5). The exact test succeeds when
    the normalized merchant is the pattern in upper case, the contains
    test when it contains it, the regex test when the pattern compiles
    and the engine finds a match, the description test when the
    description in upper case contains the pattern in upper case; an
    empty pattern is no condition. A rule matches exactly when its
    gates pass and one of the tests succeeds, so a rule with no textual
    condition matches nothing. *)
Theorem categorizeWithRules_first_enabled_match_wins :
  forall (tx : TxView) (rules : list (string * Rule)),
  (* enabled rules only, by descending priority *)
  (Permutation (sortedRules rules)
               (List.filter (fun r => enabled (snd r)) rules)
   /\ StronglySorted byPriorityDesc (sortedRules rules))
  (* the first match wins *)
  /\ (forall pre w post,
        sortedRules rules = pre ++ w :: post ->
        (forall r, In r pre -> ruleMatches tx r = false) ->
        ruleMatches tx w = true ->
        categorizeWithRules tx rules
        = ruleHit w (matchRule tx (conditions (snd w))))
  /\ ((forall r, In r rules -> enabled (snd r) = true ->
                 ruleMatches tx r = false) ->
      categorizeWithRules tx rules = ruleMiss)
  /\ (forall r, In r rules -> enabled (snd r) = true ->
                ruleMatches tx r = true ->
      exists w mt,
        In w rules /\ enabled (snd w) = true /\
        rmMatchType (matchRule tx (conditions (snd w))) = Some mt /\
        (forall r', In r' rules -> enabled (snd r') = true ->
                    ruleMatches tx r' = true ->
                    priority (snd r') <= priority (snd w)) /\
        categoryId (categorizeWithRules tx rules)
          = Some (actCategoryId (action (snd w))) /\
        tags (categorizeWithRules tx rules)
          = default [] (addTags (action (snd w))) /\
        reason (explainability (categorizeWithRules tx rules)) = RuleMatch /\
        ruleId (explainability (categorizeWithRules tx rules))
          = Some (fst w) /\
        matchType (explainability (categorizeWithRules tx rules)) = Some mt /\
        confidence (explainability (categorizeWithRules tx rules))
          = getConfidence (Some mt))
  (* matchRule: gates first *)
  /\ (forall c,
        (accountGateFails tx c = true <->
           exists a, condAccountId c = Some a /\ a <> EmptyString /\
                     accountId tx <> a) /\
        (amountMinFails tx c = true <->
           exists lo, amountMin c = Some lo /\ amount tx < lo) /\
        (amountMaxFails tx c = true <->
           exists hi, amountMax c = Some hi /\ hi < amount tx) /\
        (accountGateFails tx c = true -> matchRule tx c = noMatch) /\
        (amountMinFails tx c = true -> matchRule tx c = noMatch) /\
        (amountMaxFails tx c = true -> matchRule tx c = noMatch))
  (* matchRule: then the textual tests, in order *)
  /\ (forall c, gatesPass tx c ->
        (forall r, tryExact tx c = Some r ->
           matchRule tx c = r /\ matched r = true /\
           rmMatchType r = Some Exact) /\
        (tryExact tx c = None ->
         forall r, tryContains tx c = Some r ->
           matchRule tx c = r /\ matched r = true /\
           rmMatchType r = Some Contains) /\
        (tryExact tx c = None -> tryContains tx c = None ->
         forall r, tryRegex tx c = Some r ->
           matchRule tx c = r /\ matched r = true /\
           rmMatchType r = Some Regex) /\
        (tryExact tx c = None -> tryContains tx c = None ->
         tryRegex tx c = None ->
         forall r, tryDescription tx c = Some r ->
           matchRule tx c = r /\ matched r = true /\
           rmMatchType r = Some Description) /\
        (tryExact tx c = None -> tryContains tx c = None ->
         tryRegex tx c = None -> tryDescription tx c = None ->
         matchRule tx c = noMatch))
  (* when each textual test succeeds, and what it reports *)
  /\ (forall c r,
        (tryExact tx c = Some r <->
           exists p, merchantExact c = Some p /\ p <> EmptyString /\
                     merchantNormalized tx = toUpperCase p /\
                     r = isMatch Exact (merchantNormalized tx) (toUpperCase p)) /\
        (tryContains tx c = Some r <->
           exists p pre post,
             merchantContains c = Some p /\ p <> EmptyString /\
             merchantNormalized tx = pre +:+ toUpperCase p +:+ post /\
             r = isMatch Contains (merchantNormalized tx) (toUpperCase p)) /\
        (tryRegex tx c = Some r <->
           exists p m0,
             merchantRegex c = Some p /\ p <> EmptyString /\
             regExpCompiles p = true /\
             regExpMatchI p (merchantNormalized tx) = Some m0 /\
             r = isMatch Regex m0 p) /\
        (tryDescription tx c = Some r <->
           exists p pre post,
             descriptionContains c = Some p /\ p <> EmptyString /\
             toUpperCase (description tx) = pre +:+ toUpperCase p +:+ post /\
             r = isMatch Description (description tx) (toUpperCase p)))
  (* a rule matches exactly when the gates pass and a test succeeds *)
  /\ (forall c,
        matched (matchRule tx c) = true <->
        gatesPass tx c /\
        ((exists p, merchantExact c = Some p /\ p <> EmptyString /\
                    merchantNormalized tx = toUpperCase p) \/
         (exists p pre post,
            merchantContains c = Some p /\ p <> EmptyString /\
            merchantNormalized tx = pre +:+ toUpperCase p +:+ post) \/
         (exists p m0,
            merchantRegex c = Some p /\ p <> EmptyString /\
            regExpCompiles p = true /\
            regExpMatchI p (merchantNormalized tx) = Some m0) \/
         (exists p pre post,
            descriptionContains c = Some p /\ p <> EmptyString /\
            toUpperCase (description tx) = pre +:+ toUpperCase p +:+ post)))
  (* the confidence of each kind of match *)
  /\ (getConfidence (Some Exact) == 1
      /\ getConfidence (Some Contains) == 0.8
      /\ getConfidence (Some Regex) == 0.6
      /\ getConfidence (Some Description) == 0.5)%Q
  (* gates alone never match *)
  /\ (forall c, noTextualCondition c -> matched (matchRule tx c) = false)
  /\ (forall c,
        merchantExact c = None -> merchantContains c = None ->
        merchantRegex c = None -> descriptionContains c = None ->
        forall r, In r rules -> conditions (snd r) = c ->
                  ruleMatches tx r = false).
Proof.
  intros tx rules. split_and!.
  - apply sortedRules_perm.
  - apply sortedRules_sorted.
  - intros pre w post Hl Hpre Hw. unfold categorizeWithRules.
    rewrite Hl. by apply firstMatch_first.
  - intros Hno. apply firstMatch_none.
    intros r Hr. apply sortedRules_In in Hr as [? ?]. by apply Hno.
  - intros r Hin Hen Hm.
    assert (In r (sortedRules rules)) as Hs by (by apply sortedRules_In).
    destruct (first_matching_split tx _ r Hs Hm)
      as (pre & w & post & Hl & Hpre & Hw).
    assert (In w (sortedRules rules)) as Hws
      by (rewrite Hl; apply in_or_app; right; by left).
    apply sortedRules_In in Hws as [Hwin Hwen].
    destruct (matchRule_matched_type tx _ Hw) as [mt Hmt].
    exists w, mt.
    unfold categorizeWithRules. rewrite Hl.
    rewrite (firstMatch_first tx pre w post Hpre Hw). simpl.
    rewrite Hmt. split_and!; try done.
    intros r' Hr' Hen' Hm'.
    assert (In r' (sortedRules rules)) as Hs' by (by apply sortedRules_In).
    rewrite Hl in Hs'. apply in_app_or in Hs' as [Hp|[->|Hp]].
    + rewrite (Hpre r' Hp) in Hm'. done.
    + lia.
    + eapply sorted_app_later; [apply sortedRules_sorted|exact Hl|exact Hp].
  - intros c.
    assert (Hacc : accountGateFails tx c = true <->
              exists a, condAccountId c = Some a /\ a <> EmptyString /\
                        accountId tx <> a).
    { unfold accountGateFails, truthy.
      destruct (condAccountId c) as [a|]; simpl.
      - rewrite andb_true_iff, !negb_true_iff, !String.eqb_neq. split.
        + intros [Ha Hne]. by exists a.
        + by intros (a' & [= <-] & Ha & Hne).
      - split; [done|]. by intros (a & Ha & _). }
    assert (Hlo : amountMinFails tx c = true <->
              exists lo, amountMin c = Some lo /\ amount tx < lo).
    { unfold amountMinFails. destruct (amountMin c) as [lo|].
      - rewrite Z.ltb_lt. split; [by exists lo|]. by intros (? & [= <-] & ?).
      - split; [done|]. by intros (? & ? & _). }
    assert (Hhi : amountMaxFails tx c = true <->
              exists hi, amountMax c = Some hi /\ hi < amount tx).
    { unfold amountMaxFails. destruct (amountMax c) as [hi|].
      - rewrite Z.ltb_lt. split; [by exists hi|]. by intros (? & [= <-] & ?).
      - split; [done|]. by intros (? & ? & _). }
    split_and!; try done.
    + intros E. unfold matchRule. by rewrite E.
    + intros E. unfold matchRule. rewrite E. by destruct (accountGateFails tx c).
    + intros E. unfold matchRule. rewrite E.
      by destruct (accountGateFails tx c), (amountMinFails tx c).
  - intros c Hg. rewrite (matchRule_gates_pass tx c Hg). split_and!.
    + intros r E. rewrite E. by destruct (tryExact_type _ _ _ E).
    + intros E1 r E. rewrite E1, E. by destruct (tryContains_type _ _ _ E).
    + intros E1 E2 r E. rewrite E1, E2, E. by destruct (tryRegex_type _ _ _ E).
    + intros E1 E2 E3 r E. rewrite E1, E2, E3, E.
      by destruct (tryDescription_type _ _ _ E).
    + intros E1 E2 E3 E4. by rewrite E1, E2, E3, E4.
  - intros c r. split_and!.
    + apply tryExact_spec.
    + apply tryContains_spec.
    + apply tryRegex_spec.
    + apply tryDescription_spec.
  - intros c. rewrite matchRule_matched.
    assert (forall o : option RuleMatchResult,
              o <> None <-> exists r, o = Some r) as Hsome.
    { intros [r|]; split; try done; [by exists r|by intros [? ?]]. }
    rewrite !Hsome.
    setoid_rewrite tryExact_spec. setoid_rewrite tryContains_spec.
    setoid_rewrite tryRegex_spec. setoid_rewrite tryDescription_spec.
    split; intros [Hg Ht]; (split; [exact Hg|]).
    + destruct Ht as [(r & p & ? & ? & ? & _)
                     |[(r & p & pre & post & ? & ? & ? & _)
                     |[(r & p & m0 & ? & ? & ? & ? & _)
                      |(r & p & pre & post & ? & ? & ? & _)]]].
      * left. by exists p.
      * right. left. by exists p, pre, post.
      * right. right. left. by exists p, m0.
      * right. right. right. by exists p, pre, post.
    + destruct Ht as [(p & ? & ? & ?)
                     |[(p & pre & post & ? & ? & ?)
                     |[(p & m0 & ? & ? & ? & ?)
                      |(p & pre & post & ? & ? & ?)]]].
      * left. eexists _, p. split_and!; done.
      * right. left. eexists _, p, pre, post. split_and!; done.
      * right. right. left. eexists _, p, m0. split_and!; done.
      * right. right. right. eexists _, p, pre, post. split_and!; done.
  - done.
  - done.
  - done.
  - done.
  - intros c Hc. by rewrite (matchRule_no_textual tx c Hc).
  - intros c He Hc Hr Hd r _ <-. unfold ruleMatches.
    rewrite matchRule_no_textual; [done|].
    unfold noTextualCondition. by rewrite He, Hc, Hr, Hd.
Qed.

End RuleEngineSpec.

(** The design's scenario 4: of two matching rules the one of priority
    900 wins, with an exact match. *)
Example categorizeWithRules_priority_order :
  let r := @categorizeWithRules exampleRuntime (purchaseAt "AMAZON")
             [("r500"%string, containsRule 500 "AMAZON" "shopping");
              ("r900"%string, exactRule 900 "AMAZON" "groceries")] in
  categoryId r = Some "groceries"%string
  /\ ruleId (explainability r) = Some "r900"%string
  /\ matchType (explainability r) = Some Exact
  /\ (confidence (explainability r) == 1)%Q.
Proof. by vm_compute. Qed.

(** Scenario 3: a contains rule on a normalized merchant. *)
Example categorizeWithRules_contains :
  let r := @categorizeWithRules exampleRuntime (purchaseAt "SQ *STARBUCKS #12345")
             [("r700"%string, containsRule 700 "STARBUCKS" "dining")] in
  merchantNormalized (purchaseAt "SQ *STARBUCKS #12345") = "SQ *STARBUCKS"%string
  /\ categoryId r = Some "dining"%string
  /\ reason (explainability r) = RuleMatch
  /\ matchType (explainability r) = Some Contains
  /\ (confidence (explainability r) == 0.8)%Q.
Proof. by vm_compute. Qed.

(** A rule with an amount gate only matches nothing. *)
Example categorizeWithRules_gate_only :
  @categorizeWithRules exampleRuntime (purchaseAt "AMAZON")
    [("r1"%string,
      {| ruleUid := "alice"; name := "cheap"; enabled := true; priority := 500;
         conditions :=
           {| merchantExact := None; merchantContains := None;
              merchantRegex := None; descriptionContains := None;
              amountMin := Some (-1000); amountMax := Some 0;
              condAccountId := None |};
         action := {| actCategoryId := "misc"; addTags := None |};
         source := SrcUser; matchCount := 0; lastMatchedAt := None;
         ruleUpdatedAt := 0 |})]
  = ruleMiss.
Proof. by vm_compute. Qed.

Example normalizeMerchant_examples :
  normalizeMerchant "COFFEE SHOP #123" = "COFFEE SHOP"%string
  /\ normalizeMerchant "  pos debit  walmart 00012345 store*77  "
     = "WALMART STORE"%string.
Proof. by vm_compute. Qed.

(** ** Categorization orchestrator *)

Section OrchestratorSpec.
Context `{JsRuntime}.

Lemma firstMatch_reason tx l :
  categoryId (firstMatch tx l) <> None ->
  reason (explainability (firstMatch tx l)) = RuleMatch.
Proof.
  induction l as [|r l IH]; simpl; [done|].
  by destruct (matched (matchRule tx (conditions (snd r)))).
Qed.

Lemma passesGate_spec r :
  passesGate r = true <->
  categoryId r <> None /\
  (RULE_CONFIDENCE_THRESHOLD <= confidence (explainability r))%Q.
Proof.
  unfold passesGate. destruct (categoryId r).
  - rewrite Qle_bool_iff. split; [done|by intros [_ ?]].
  - split; [done|by intros [? _]].
Qed.

Lemma firstMatch_reason_iff tx l :
  reason (explainability (firstMatch tx l)) = RuleMatch <->
  categoryId (firstMatch tx l) <> None.
Proof.
  induction l as [|r l IH]; simpl; [done|].
  by destruct (matched (matchRule tx (conditions (snd r)))).
Qed.

(** C2. Single-transaction flow. A rule result whose category is
    non-null and whose confidence is at least 0.7 is accepted: it is
    returned (stamped, [reason = rule_match]), the counter of the
    winning rule is bumped and the classifier is not called, whatever
    the options. The rule result is also returned as it is when the
    gate fails and the classifier is disabled (possibly a rule match of
    lower confidence, still with [reason = rule_match], or [no_match]
    with confidence 0) and when the classifier's call throws; so the
    result carries [reason = rule_match] exactly when the rule engine
    found a category and the gate holds, the classifier is disabled or
    its call throws, and the classifier is called exactly when the gate
    fails and it is enabled. When the classifier names a category, the
    result has [reason = llm] and [llmModel] set; when it names none,
    the result is [null], confidence 0, [reason = no_match], with the
    classifier's reasoning kept. *)
Theorem categorizeTransaction_confidence_gate :
  forall (llmEnabled : bool) (llm : LlmOracle) (db : Db) (uid : string)
         (tx : TxView) (options : CategorizationOptions) (timestamp : Z),
  let ruleResult := categorizeWithRules tx (loadUserRules db uid) in
  let out := categorizeTransaction llmEnabled llm db uid tx options timestamp in
  let asItIs :=
    {| base := withTimestamp ruleResult timestamp; usedLLM := false |} in
  let returnsRuleResult :=
    passesGate ruleResult = true \/
    shouldUseLLM llmEnabled options = false \/
    llm (llmRequest db uid tx) = None in
  (* the gate *)
  (RULE_CONFIDENCE_THRESHOLD == 0.7)%Q
  /\ (passesGate ruleResult = true <->
      categoryId ruleResult <> None /\
      (0.7 <= confidence (explainability ruleResult))%Q)
  (* the gate holds: accepted, whatever the options and the classifier *)
  /\ (passesGate ruleResult = true ->
      fst out = asItIs
      /\ reason (explainability (base (fst out))) = RuleMatch
      /\ (forall req, ~ In (CategorizeWithLLM req) (snd out)))
  (* the counter of the winning rule is bumped on acceptance only *)
  /\ (forall id,
        In (UpdateRuleStats id) (snd out) <->
        passesGate ruleResult = true /\
        ruleId (explainability ruleResult) = Some id /\ id <> EmptyString)
  (* the classifier is called exactly when the gate fails and it is
     enabled, and then once *)
  /\ ((exists req, In (CategorizeWithLLM req) (snd out)) <->
      passesGate ruleResult = false /\ shouldUseLLM llmEnabled options = true)
  /\ (passesGate ruleResult = false ->
      shouldUseLLM llmEnabled options = true ->
      snd out = [CategorizeWithLLM (llmRequest db uid tx)])
  (* when the rule result is what is returned, and when the reason is
     rule_match *)
  /\ (fst out = asItIs <-> returnsRuleResult)
  /\ (reason (explainability (base (fst out))) = RuleMatch <->
      categoryId ruleResult <> None /\ returnsRuleResult)
  (* gate fails, classifier disabled: the rule result as it is *)
  /\ (passesGate ruleResult = false ->
      shouldUseLLM llmEnabled options = false ->
      out = (asItIs, [])
      /\ (categoryId ruleResult = None ->
          reason (explainability (base (fst out))) = NoMatch /\
          confidence (explainability (base (fst out))) = 0%Q))
  (* gate fails, classifier enabled: it decides *)
  /\ (passesGate ruleResult = false ->
      shouldUseLLM llmEnabled options = true ->
      (forall r c,
         llm (llmRequest db uid tx) = Some r -> llmCategoryId r = Some c ->
         usedLLM (fst out) = true /\
         categoryId (base (fst out)) = Some c /\
         reason (explainability (base (fst out))) = Llm /\
         confidence (explainability (base (fst out))) = llmConfidence r /\
         llmModel (explainability (base (fst out)))
           = Some "claude-sonnet-4-20250514"%string /\
         llmReasoning (explainability (base (fst out)))
           = Some (llmReasoningText r))
      /\ (forall r,
            llm (llmRequest db uid tx) = Some r -> llmCategoryId r = None ->
            usedLLM (fst out) = true /\
            categoryId (base (fst out)) = None /\
            reason (explainability (base (fst out))) = NoMatch /\
            confidence (explainability (base (fst out))) = 0%Q /\
            llmReasoning (explainability (base (fst out)))
              = Some (llmReasoningText r))).
Proof.
  intros llmEnabled llm db uid tx options timestamp ruleResult out asItIs
         returnsRuleResult.
  assert (Hreason : reason (explainability ruleResult) = RuleMatch <->
                    categoryId ruleResult <> None)
    by apply firstMatch_reason_iff.
  assert (Hmiss : categoryId ruleResult = None ->
                  reason (explainability ruleResult) = NoMatch /\
                  confidence (explainability ruleResult) = 0%Q).
  { subst ruleResult. unfold categorizeWithRules.
    induction (sortedRules (loadUserRules db uid)) as [|r l IH]; simpl; [done|].
    by destruct (matched (matchRule tx (conditions (snd r)))). }
  assert (Hspec : passesGate ruleResult = true <->
                  categoryId ruleResult <> None /\
                  (0.7 <= confidence (explainability ruleResult))%Q)
    by apply passesGate_spec.
  subst out asItIs returnsRuleResult. unfold categorizeTransaction.
  fold ruleResult. cbv zeta.
  destruct (passesGate ruleResult) eqn:Hg.
  { (* accepted *)
    pose proof (proj1 (passesGate_spec ruleResult) Hg) as [Hc _].
    cbn [fst snd base usedLLM]. split_and!; try done.
    - intros _. split_and!; [done|by apply Hreason|].
      intros req. destruct (truthy _); simpl; [|tauto].
      intros [Hx|[]]. discriminate Hx.
    - intros id. destruct (ruleId (explainability ruleResult)) as [i|]; simpl.
      + destruct (String.eqb_spec i EmptyString) as [->|Hne]; simpl.
        * split; [done|]. by intros (_ & [= <-] & ?).
        * split.
          -- intros [[= <-]|[]]. done.
          -- intros (_ & [= <-] & _). by left.
      + split; [done|]. by intros (_ & ? & _).
    - split; [|by intros [? _]]. intros [req Hin].
      destruct (truthy _); simpl in Hin; [|done].
      destruct Hin as [Hx|[]]. discriminate Hx.
    - split; [by left|done].
    - split; [|intros [? _]; by apply Hreason].
      intros Hr. split; [by apply Hreason|by left]. }
  destruct (shouldUseLLM llmEnabled options) eqn:Hs; cbn [negb].
  2:{ (* classifier disabled *)
    cbn [fst snd base usedLLM]. split_and!; try done.
    - intros id. split; [done|]. by intros (? & _).
    - split; [by intros [? []]|by intros [_ ?]].
    - split; [right; by left|done].
    - split; [|intros [? _]; by apply Hreason].
      intros Hr. split; [by apply Hreason|right; by left]. }
  (* classifier called *)
  split_and!; try done.
  - intros id. split; [|by intros (? & _)].
    repeat case_match; simpl; by intros [?|[]].
  - split; [done|]. intros _. exists (llmRequest db uid tx).
    repeat case_match; by left.
  - intros _ _. by repeat case_match.
  - destruct (llm (llmRequest db uid tx)) as [r|] eqn:Hr.
    + split.
      * intros Heq. apply (f_equal usedLLM) in Heq.
        by destruct (llmCategoryId r).
      * by intros [?|[?|?]].
    + split; [|done]. intros _. right. by right.
  - destruct (llm (llmRequest db uid tx)) as [r|] eqn:Hr.
    + split.
      * by destruct (llmCategoryId r).
      * by intros [_ [?|[?|?]]].
    + cbn [fst base]. split.
      * intros Hx. split; [by apply Hreason|]. right. by right.
      * intros [Hc _]. by apply Hreason.
  - intros _ _. split.
    + intros r c Hr Hc. by rewrite Hr, Hc.
    + intros r Hr Hc. by rewrite Hr, Hc.
Qed.

End OrchestratorSpec.

(** The claim as first stated fails where the classifier is switched
    off: a rule that matches on the description only has confidence
    0.5, below the gate, and its result is returned all the same, with
    [reason = rule_match]. *)
Lemma categorizeTransaction_returns_weak_rule_match :
  let ruleResult :=
    @categorizeWithRules exampleRuntime (txView exampleTx)
      (loadUserRules descriptionRuleDb "alice") in
  let out :=
    @categorizeTransaction exampleRuntime false (fun _ => None)
      descriptionRuleDb "alice" (txView exampleTx)
      {| useLLM := None; forceRulesOnly := None |} 0 in
  ~ ((fst out = {| base := withTimestamp ruleResult 0; usedLLM := false |} /\
      reason (explainability (base (fst out))) = RuleMatch)
     <-> (categoryId ruleResult <> None /\
          (0.7 <= confidence (explainability ruleResult))%Q)).
Proof.
  intros ruleResult out [Hif _].
  assert (0.7 <= confidence (explainability ruleResult))%Q as Hle
    by (apply Hif; by vm_compute).
  by vm_compute in Hle.
Qed.

(** ** Regex validation at rule creation *)

Section RegexValidation.
Context `{JsRuntime}.

Lemma validateRegex_too_long pattern :
  (200 < String.length pattern)%nat -> validateRegex pattern = RegexTooLong.
Proof.
  intros Hlen. unfold validateRegex.
  by destruct (Nat.ltb_spec 200 (String.length pattern)); [|lia].
Qed.

Lemma length_repeatChar n c : String.length (repeatChar n c) = n.
Proof. induction n; simpl; congruence. Qed.

(** The validator does what the design asks at the length bound. *)
Lemma validateRegex_length_boundary :
  (regExpCompiles (repeatChar 200 "a") = true ->
   validateRegex (repeatChar 200 "a") = RegexValid)
  /\ validateRegex (repeatChar 201 "a") = RegexTooLong.
Proof.
  split.
  - intros Hc. unfold validateRegex. rewrite Hc.
    by vm_compute.
  - apply validateRegex_too_long. rewrite length_repeatChar. lia.
Qed.

(** Four of the five catalogue entries are found anywhere in a
    pattern. *)
Lemma validateRegex_catalogue :
  validateRegex "x(.*)+" = RegexMayBeSlow /\
  validateRegex "x(.+)+" = RegexMayBeSlow /\
  validateRegex "x(.*)*" = RegexMayBeSlow /\
  validateRegex "x(.+)*" = RegexMayBeSlow.
Proof. by vm_compute. Qed.

(** The third entry, [/\(\[^]+\)\+/], asks for the start of the input
    after two characters: it matches no string. *)
Lemma testFrom_unfold re b s :
  testFrom re b s =
  matchHere re b s ||
  match s with String _ s' => testFrom re false s' | EmptyString => false end.
Proof. by destruct s. Qed.

Lemma third_redos_pattern_dead_from b s :
  testFrom [Chr "("; Chr "["; Bol; Plus "]"; Chr ")"; Chr "+"]%char b s = false.
Proof.
  revert b. induction s as [|c s IH]; intros b; rewrite testFrom_unfold.
  - done.
  - rewrite IH, orb_false_r. simpl.
    destruct (Ascii.eqb c "("); [|done]. simpl.
    destruct s as [|c' s']; [done|].
    by destruct (Ascii.eqb c' "[").
Qed.

Lemma third_redos_pattern_dead s :
  reTest [Chr "("; Chr "["; Bol; Plus "]"; Chr ")"; Chr "+"]%char s = false.
Proof. apply third_redos_pattern_dead_from. Qed.

Lemma validateRegex_negated_class_passes :
  regExpCompiles "([^]+)+" = true -> validateRegex "([^]+)+" = RegexValid.
Proof. intros Hc. unfold validateRegex. rewrite Hc. by vm_compute. Qed.

(** C9 (the code departs from the claim). [createRule] only checks that
    the pattern compiles: with room under the rule cap and a category,
    every compiling pattern is stored, whatever its length and shape;
    [validateRegex], which has the 200-character bound and the ReDoS
    catalogue, is not consulted. *)
Theorem createRule_accepts_any_compiling_regex :
  forall (db : Db) (uid name pattern categoryId newId : string) (now : Z),
  Z.of_nat (length (snapshot (rules db)
                      (fun _ r => String.eqb (ruleUid r) uid)))
    < MAX_RULES_PER_USER ->
  categoryId <> EmptyString ->
  regExpCompiles pattern = true ->
  exists rule,
    createRule db uid (regexOnlyBody name pattern categoryId) SrcUser now newId
    = (setRules db (<[newId := rule]> (rules db)), Returned (newId, rule))
    /\ merchantRegex (conditions rule) = Some pattern.
Proof.
  intros db uid name pattern categoryId newId now Hcount Hcat Hc.
  unfold createRule.
  destruct (Z.leb_spec MAX_RULES_PER_USER
              (Z.of_nat (length (snapshot (rules db)
                 (fun _ r => String.eqb (ruleUid r) uid))))); [lia|].
  simpl. rewrite Hc, andb_false_r.
  apply String.eqb_neq in Hcat. rewrite Hcat.
  eexists. split; [reflexivity|done].
Qed.

End RegexValidation.

(** The failing input of C9: a compiling pattern of 201 characters is
    rejected by [validateRegex] and accepted by [createRule]. *)
Lemma createRule_accepts_any_compiling_regex_witness :
  @validateRegex exampleRuntime (repeatChar 201 "a") = RegexTooLong /\
  exists rule,
    @createRule exampleRuntime emptyDb "alice"
      (regexOnlyBody "long" (repeatChar 201 "a") "dining") SrcUser 0 "r1"
    = (setRules emptyDb (<[ "r1"%string := rule ]> (rules emptyDb)),
       Returned ("r1"%string, rule))
    /\ merchantRegex (conditions rule) = Some (repeatChar 201 "a").
Proof.
  split; [by vm_compute|].
  apply (@createRule_accepts_any_compiling_regex exampleRuntime);
    [by vm_compute|done|reflexivity].
Defined.

(** ** Splits *)

Section SplitFacts.

Lemma validateSplits_count amount l :
  (length l < 2 \/ 10 < length l)%nat -> is_Some (validateSplits amount l).
Proof.
  intros Hn. unfold validateSplits, MIN_SPLITS, MAX_SPLITS.
  destruct (Nat.ltb_spec (length l) 2); [done|].
  destruct (Nat.ltb_spec 10 (length l)); [done|]. lia.
Qed.

Lemma validateSplits_sum amount l :
  totalSplitAmount l <> amount -> is_Some (validateSplits amount l).
Proof.
  intros Hs. unfold validateSplits.
  destruct (_ <? _)%nat; [done|]. destruct (_ <? _)%nat; [done|].
  by destruct (Z.eqb_spec (totalSplitAmount l) amount).
Qed.

Lemma checkSigns_opposite amount l s :
  In s l -> oppositeSign amount (partAmount s) ->
  is_Some (checkSigns (amount <? 0) l).
Proof.
  intros Hin Hopp. induction l as [|x l IH]; [done|]. simpl.
  destruct (Z.ltb_spec amount 0) as [Hlt|Hge]; simpl.
  - destruct (Z.ltb_spec 0 (partAmount x)); [done|].
    destruct Hin as [->|Hin]; [|by apply IH].
    destruct Hopp; lia.
  - destruct (Z.ltb_spec (partAmount x) 0); [done|].
    destruct Hin as [->|Hin]; [|by apply IH].
    destruct Hopp; lia.
Qed.

Lemma validateSplits_sign amount l s :
  In s l -> oppositeSign amount (partAmount s) ->
  is_Some (validateSplits amount l).
Proof.
  intros Hin Hopp. unfold validateSplits.
  destruct (_ <? _)%nat; [done|]. destruct (_ <? _)%nat; [done|].
  destruct (negb _); [done|]. by eapply checkSigns_opposite.
Qed.

Lemma checkSigns_ok amount l :
  (amount < 0 -> forall s, In s l -> partAmount s <= 0) ->
  (0 <= amount -> forall s, In s l -> 0 <= partAmount s) ->
  checkSigns (amount <? 0) l = None.
Proof.
  induction l as [|x l IH]; intros Hneg Hpos; [done|]. simpl.
  assert (Hneg' : amount < 0 -> forall s, In s l -> partAmount s <= 0).
  { intros Ha s Hs. apply Hneg; [done|by right]. }
  assert (Hpos' : 0 <= amount -> forall s, In s l -> 0 <= partAmount s).
  { intros Ha s Hs. apply Hpos; [done|by right]. }
  destruct (Z.ltb_spec amount 0) as [Hlt|Hge]; simpl.
  - destruct (Z.ltb_spec 0 (partAmount x)) as [Hx|_].
    + specialize (Hneg Hlt x (or_introl eq_refl)). lia.
    + specialize (IH Hneg' Hpos').
      by destruct (Z.ltb_spec amount 0); [|lia].
  - destruct (Z.ltb_spec (partAmount x) 0) as [Hx|_].
    + specialize (Hpos Hge x (or_introl eq_refl)). lia.
    + specialize (IH Hneg' Hpos').
      by destruct (Z.ltb_spec amount 0); [lia|].
Qed.

Lemma validateSplits_ok amount l :
  (2 <= length l <= 10)%nat ->
  totalSplitAmount l = amount ->
  (amount < 0 -> forall s, In s l -> partAmount s <= 0) ->
  (0 <= amount -> forall s, In s l -> 0 <= partAmount s) ->
  validateSplits amount l = None.
Proof.
  intros Hn Hsum Hneg Hpos. unfold validateSplits, MIN_SPLITS, MAX_SPLITS.
  destruct (Nat.ltb_spec (length l) 2); [lia|].
  destruct (Nat.ltb_spec 10 (length l)); [lia|].
  destruct (Z.eqb_spec (totalSplitAmount l) amount) as [_|?]; [simpl|done].
  by apply checkSigns_ok.
Qed.

Context (autoId : nat -> string) (uid txId : string) (parentData : Tx.t)
        (now : Z) (n : nat).

Lemma setChildren_lookup_other l i (m : gmap string Tx.t) k :
  (forall j, (j < length l)%nat -> k <> autoId (i + j)%nat) ->
  setChildren autoId uid txId parentData now n i l m !! k = m !! k.
Proof.
  revert i m. induction l as [|x l IH]; intros i m Hk; simpl; [done|].
  rewrite IH.
  - rewrite lookup_insert_ne; [done|].
    specialize (Hk 0%nat). rewrite Nat.add_0_r in Hk.
    intros Heq. apply Hk; simpl; [lia|done].
  - intros j Hj. replace (S i + j)%nat with (i + S j)%nat by lia.
    apply Hk. simpl. lia.
Qed.

Lemma setChildren_lookup_child l i (m : gmap string Tx.t) j split :
  l !! j = Some split ->
  (forall a b, (a < length l)%nat -> (b < length l)%nat ->
               autoId (i + a)%nat = autoId (i + b)%nat -> a = b) ->
  setChildren autoId uid txId parentData now n i l m !! autoId (i + j)%nat
  = Some (childData uid txId parentData now n (i + j) split).
Proof.
  revert i m j. induction l as [|x l IH]; intros i m j Hj Hinj; [done|].
  simpl. destruct j as [|j]; simpl in Hj.
  - injection Hj as ->. rewrite Nat.add_0_r.
    rewrite setChildren_lookup_other.
    + by rewrite lookup_insert_eq.
    + intros k Hk Heq.
      assert (0 = S k)%nat; [|lia].
      apply Hinj; simpl; [lia|lia|].
      rewrite Nat.add_0_r. rewrite Heq. f_equal. lia.
  - replace (i + S j)%nat with (S i + j)%nat by lia.
    apply IH; [done|].
    intros a b Ha Hb Hab.
    assert (S a = S b); [|lia].
    apply Hinj; simpl; [lia|lia|].
    by replace (i + S a)%nat with (S i + a)%nat by lia;
       replace (i + S b)%nat with (S i + b)%nat by lia.
Qed.

Lemma setChildren_size l i (m : gmap string Tx.t) :
  (forall j, (j < length l)%nat -> m !! autoId (i + j)%nat = None) ->
  (forall a b, (a < length l)%nat -> (b < length l)%nat ->
               autoId (i + a)%nat = autoId (i + b)%nat -> a = b) ->
  size (setChildren autoId uid txId parentData now n i l m)
  = (size m + length l)%nat.
Proof.
  revert i m. induction l as [|x l IH]; intros i m Hfresh Hinj; simpl.
  - lia.
  - rewrite IH.
    + rewrite map_size_insert_None; [lia|].
      specialize (Hfresh 0%nat). rewrite Nat.add_0_r in Hfresh.
      apply Hfresh. simpl. lia.
    + intros j Hj. rewrite lookup_insert_ne.
      * replace (S i + j)%nat with (i + S j)%nat by lia.
        apply Hfresh. simpl. lia.
      * intros Heq. assert (0 = S j)%nat; [|lia].
        apply Hinj; simpl; [lia|lia|].
        rewrite Nat.add_0_r, Heq. f_equal. lia.
    + intros a b Ha Hb Hab.
      assert (S a = S b); [|lia].
      apply Hinj; simpl; [lia|lia|].
      by replace (i + S a)%nat with (S i + a)%nat by lia;
         replace (i + S b)%nat with (S i + b)%nat by lia.
Qed.

End SplitFacts.

(** C5. For a parent the caller owns, [splitTransaction] throws (the
    route answers VALIDATION_ERROR) when the list has fewer than 2 or
    more than 10 parts, when the parts do not add up to the parent's
    amount, when a part has the sign opposite to the parent's, when the
    parent is already a split parent, and when it is a split child (it
    carries the id of its parent); a throw leaves the database as it
    was. When it succeeds, with the ids drawn new and distinct, the
    parent has [isSplitParent = true], every part is stored as a child
    with [splitParentId] the parent's id, nothing else changes, and the
    collection has grown by exactly [n] documents; a well-formed
    request does succeed. *)
Theorem splitTransaction_validates_then_marks_parent :
  forall (db : Db) (uid txId : string) (parentData : Tx.t)
         (body : SplitTransactionBody) (now : Z) (autoId : nat -> string),
  transactions db !! txId = Some parentData ->
  Tx.uid parentData = uid ->
  let n := length (splits body) in
  let out := splitTransaction db uid txId body now autoId in
  (* rejected requests *)
  ((n < 2)%nat \/ (10 < n)%nat
   \/ totalSplitAmount (splits body) <> Tx.amount parentData
   \/ (exists s, In s (splits body) /\
                 oppositeSign (Tx.amount parentData) (partAmount s))
   \/ Tx.isSplitParent parentData = true
   \/ (exists pid, Tx.splitParentId parentData = Some pid /\ pid <> EmptyString)
   -> exists message, out = (db, Thrown message))
  (* a rejection writes nothing *)
  /\ (forall db' message, out = (db', Thrown message) -> db' = db)
  (* success *)
  /\ (forall db' r,
        out = (db', Returned (Some r)) ->
        freshIds autoId n (transactions db) ->
        transactions db' !! txId = Some (setIsSplitParent parentData true now)
        /\ Tx.isSplitParent (setIsSplitParent parentData true now) = true
        /\ (forall i split, splits body !! i = Some split ->
              exists child,
                transactions db' !! autoId i = Some child /\
                Tx.splitParentId child = Some txId /\
                Tx.amount child = partAmount split /\
                Tx.uid child = uid)
        /\ (forall k, k <> txId -> (forall i, (i < n)%nat -> k <> autoId i) ->
              transactions db' !! k = transactions db !! k)
        /\ size (transactions db') = (size (transactions db) + n)%nat
        /\ length (splitTransactions r) = n
        /\ rules db' = rules db /\ categories db' = categories db)
  (* a well-formed request is served *)
  /\ ((2 <= n <= 10)%nat ->
      totalSplitAmount (splits body) = Tx.amount parentData ->
      (Tx.amount parentData < 0 ->
         forall s, In s (splits body) -> partAmount s <= 0) ->
      (0 <= Tx.amount parentData ->
         forall s, In s (splits body) -> 0 <= partAmount s) ->
      Tx.isSplitParent parentData = false ->
      truthy (Tx.splitParentId parentData) = false ->
      exists db' r, out = (db', Returned (Some r))).
Proof.
  intros db uid txId parentData body now autoId Hp Hu n out.
  assert (Hout : out =
    if Tx.isSplitParent parentData then
      (db, Thrown "Transaction is already split. Unsplit first to modify.")
    else if truthy (Tx.splitParentId parentData) then
      (db, Thrown "Cannot split a transaction that is already part of a split.")
    else match validateSplits (Tx.amount parentData) (splits body) with
         | Some error => (db, Thrown error)
         | None =>
             (setTransactions db
                (setChildren autoId uid txId parentData now n 0 (splits body)
                   (<[txId := setIsSplitParent parentData true now]>
                      (transactions db))),
              Returned (Some {| parentTransaction := (txId, true);
                                splitTransactions :=
                                  splitSummaries autoId txId (splits body) |}))
         end).
  { subst out. unfold splitTransaction. rewrite Hp.
    by rewrite (proj2 (String.eqb_eq _ _) Hu). }
  clearbody out. subst out. split_and!.
  - intros Hrej.
    destruct (Tx.isSplitParent parentData) eqn:Hsp; [by eexists|].
    destruct (truthy (Tx.splitParentId parentData)) eqn:Hch; [by eexists|].
    assert (is_Some (validateSplits (Tx.amount parentData) (splits body)))
      as [e ->]; [|by eexists].
    destruct Hrej as [Hn|[Hn|[Hs|[(s & Hin & Ho)|[Hx|(pid & Hpid & Hne)]]]]].
    + apply validateSplits_count. by left.
    + apply validateSplits_count. by right.
    + by apply validateSplits_sum.
    + by eapply validateSplits_sign.
    + done.
    + unfold truthy in Hch. rewrite Hpid in Hch.
      apply negb_false_iff, String.eqb_eq in Hch. done.
  - intros db' message Heq. repeat case_match; congruence.
  - intros db' r Heq [Hfresh Hinj].
    destruct (Tx.isSplitParent parentData); [done|].
    destruct (truthy (Tx.splitParentId parentData)); [done|].
    destruct (validateSplits _ _); [done|].
    injection Heq as <- <-. simpl.
    assert (Hne : forall i, (i < n)%nat -> txId <> autoId i).
    { intros i Hi ->. rewrite (Hfresh i Hi) in Hp. done. }
    split_and!; try done.
    + rewrite setChildren_lookup_other; [by rewrite lookup_insert_eq|].
      intros j Hj. by apply Hne.
    + intros i split Hi.
      exists (childData uid txId parentData now n i split).
      split; [|done].
      apply (setChildren_lookup_child autoId uid txId parentData now n
               (splits body) 0 _ i split Hi).
      intros a b Ha Hb. simpl. by apply Hinj.
    + intros k Hk Hki. rewrite setChildren_lookup_other.
      * by rewrite lookup_insert_ne.
      * intros j Hj. by apply Hki.
    + rewrite setChildren_size.
      * rewrite map_size_insert_Some; [done|by eexists].
      * intros j Hj. simpl. rewrite lookup_insert_ne; [by apply Hfresh|].
        by apply Hne.
      * intros a b Ha Hb. simpl. by apply Hinj.
    + unfold splitSummaries. by rewrite length_imap.
  - intros Hn Hsum Hneg Hpos Hsp Hch. rewrite Hsp, Hch.
    rewrite (validateSplits_ok _ _ Hn Hsum Hneg Hpos). by eexists _, _.
Qed.

(** The design's scenario 6: the parent of -10000 is split in three,
    and the split [-4000, -3000] is refused. *)
Lemma splitTransaction_validates_then_marks_parent_witness :
  (transactions exampleDb !! "tx1"%string = Some exampleTx /\
   Tx.uid exampleTx = "alice"%string)
  /\ (exists message,
        splitTransaction exampleDb "alice" "tx1"
          {| splits := [part (-4000) None; part (-3000) None] |} 7 exampleIds
        = (exampleDb, Thrown message))
  /\ (exists db' r,
        splitTransaction exampleDb "alice" "tx1"
          {| splits := [part (-4000) (Some "food"%string);
                        part (-3500) None; part (-2500) None] |} 7 exampleIds
        = (db', Returned (Some r))).
Proof.
  assert (Hp : transactions exampleDb !! "tx1"%string = Some exampleTx)
    by reflexivity.
  assert (Hu : Tx.uid exampleTx = "alice"%string) by reflexivity.
  split; [done|]. split.
  - apply (splitTransaction_validates_then_marks_parent
             exampleDb "alice" "tx1" exampleTx _ 7 exampleIds Hp Hu).
    right. right. left. by vm_compute.
  - apply (splitTransaction_validates_then_marks_parent
             exampleDb "alice" "tx1" exampleTx _ 7 exampleIds Hp Hu);
      try done; try (simpl; lia).
    all: simpl; intros _ s [<-|[<-|[<-|[]]]]; simpl; lia.
Defined.

(** ** Ownership *)

Section Ownership.
Context `{JsRuntime}.

(** Reads and writes that name a record of another owner answer as if
    the record did not exist, and write nothing. *)
Lemma cross_owner_transaction_not_found
    (db : Db) (uid txId : string) (data : Tx.t) :
  transactions db !! txId = Some data -> Tx.uid data <> uid ->
  getTransaction db uid txId = None
  /\ (forall updates now,
        updateTransaction db uid txId updates now = (db, Returned None))
  /\ (forall body now autoId,
        splitTransaction db uid txId body now autoId = (db, Returned None))
  /\ (forall now, unsplitTransaction db uid txId now = (db, Returned None)).
Proof.
  intros Hd Hne. apply String.eqb_neq in Hne.
  unfold getTransaction, updateTransaction, splitTransaction,
    unsplitTransaction.
  rewrite Hd, Hne. by simpl.
Qed.

Lemma cross_owner_rule_not_found (db : Db) (uid ruleId : string) (data : Rule) :
  rules db !! ruleId = Some data -> ruleUid data <> uid ->
  getRule db uid ruleId = None
  /\ (forall body now, updateRule db uid ruleId body now = (db, Returned None))
  /\ deleteRule db uid ruleId = (db, false).
Proof.
  intros Hd Hne. apply String.eqb_neq in Hne.
  unfold getRule, updateRule, deleteRule. rewrite Hd, Hne. by simpl.
Qed.

(** Recategorization passes over the transactions of other owners. *)
Lemma cross_owner_recategorize_skipped llmEnabled llm
    (db : Db) (uid txId : string) (data : Tx.t) incl options now :
  transactions db !! txId = Some data -> Tx.uid data <> uid ->
  recategorizeTransactions llmEnabled llm db uid [txId] incl options now
  = (db, {| updated := 0; skipped := 1; errors := 0 |}).
Proof.
  intros Hd Hne. apply String.eqb_neq in Hne.
  unfold recategorizeTransactions. simpl. by rewrite Hd, Hne.
Qed.

(** The answers for a missing record are the same ones. *)
Lemma missing_record_not_found (db : Db) (uid id : string) :
  (transactions db !! id = None ->
   getTransaction db uid id = None
   /\ (forall updates now,
         updateTransaction db uid id updates now = (db, Returned None)))
  /\ (rules db !! id = None ->
      getRule db uid id = None /\ deleteRule db uid id = (db, false)).
Proof.
  unfold getTransaction, updateTransaction, getRule, deleteRule.
  split; intros ->; by simpl.
Qed.

End Ownership.

(** C4 (the code departs from the claim). [reorderRules] never reads
    the owner of the rules it is given: naming one rule of another user
    sets that rule's priority to 1000 and its [updatedAt]. *)
Theorem reorderRules_writes_foreign_rule :
  forall (db : Db) (uid ruleId : string) (data : Rule) (now : Z),
  rules db !! ruleId = Some data ->
  ruleUid data <> uid ->
  ruleId <> EmptyString ->
  exists db',
    fst (reorderRules db uid [ruleId] now) = db' /\
    rules db' !! ruleId = Some (setPriority data 1000 now).
Proof.
  intros db uid ruleId data now Hd Hne Hid.
  unfold reorderRules. simpl.
  apply String.eqb_neq in Hid. rewrite Hid.
  unfold commitPriorities. simpl.
  rewrite bool_decide_eq_true_2 by (by eexists). simpl.
  eexists. split; [reflexivity|]. simpl.
  by rewrite lookup_alter_eq, Hd.
Qed.

(** Alice reorders with the id of Bob's rule: Bob's priority moves from
    500 to 1000. *)
Lemma reorderRules_writes_foreign_rule_witness :
  (rules exampleRulesDb !! "bobRule"%string = Some (exampleRule "bob" 500)
   /\ ruleUid (exampleRule "bob" 500) <> "alice"%string)
  /\ exists db',
       fst (reorderRules exampleRulesDb "alice" ["bobRule"%string] 9) = db'
       /\ rules db' !! "bobRule"%string
          = Some (setPriority (exampleRule "bob" 500) 1000 9).
Proof.
  split; [split; [reflexivity|discriminate]|].
  apply reorderRules_writes_foreign_rule; [reflexivity|discriminate|discriminate].
Defined.

(** ** Import *)

Section ImportFacts.
Context `{JsRuntime}.

Lemma snapshot_In {A} (c : gmap string A) p id d :
  In (id, d) (snapshot c p) <-> c !! id = Some d /\ p id d = true.
Proof.
  unfold snapshot. rewrite filter_In. simpl.
  rewrite <- list_elem_of_In, elem_of_map_to_list. done.
Qed.

Lemma transactionExistsByKey_spec db uid txKey :
  transactionExistsByKey db uid txKey = true <-> hasKey db uid txKey.
Proof.
  unfold transactionExistsByKey, hasKey.
  destruct (snapshot _ _) as [|[id d] l] eqn:Hs; split.
  - done.
  - intros (id & d & Hd & Hu & Hk).
    assert (In (id, d) (@nil (string * Tx.t))) as []; rewrite <- Hs.
    apply snapshot_In. split; [done|].
    by rewrite andb_true_iff, !String.eqb_eq.
  - intros _.
    assert (In (id, d) (snapshot (transactions db)
              (fun _ d => String.eqb (Tx.uid d) uid && String.eqb (Tx.txKey d) txKey)))
      as Hin by (rewrite Hs; by left).
    apply snapshot_In in Hin as [Hd Hp].
    apply andb_true_iff in Hp as [Hu Hk].
    apply String.eqb_eq in Hu, Hk. by exists id, d.
  - done.
Qed.

Lemma setImportStatus_Some db importId st count message completed now record :
  imports db !! importId = Some record ->
  setImportStatus db importId st count message completed now
  = Some (setImports db
            (<[importId := withImportStatus record st count message completed now]>
               (imports db))).
Proof. unfold setImportStatus. by intros ->. Qed.

Lemma setImportStatus_None db importId st count message completed now :
  imports db !! importId = None ->
  setImportStatus db importId st count message completed now = None.
Proof. unfold setImportStatus. by intros ->. Qed.

Lemma transactions_setImportStatus db importId st count message completed now db' :
  setImportStatus db importId st count message completed now = Some db' ->
  transactions db' = transactions db.
Proof.
  unfold setImportStatus. destruct (imports db !! importId); [|done].
  by intros [= <-].
Qed.

Lemma transactions_runEffects db effects now :
  transactions (runEffects db effects now) = transactions db.
Proof.
  unfold runEffects. revert db.
  induction effects as [|e l IH]; intros db; simpl; [done|].
  rewrite IH. by destruct e.
Qed.

(** [hasKey] only looks at the transactions. *)
Lemma hasKey_ext db db' uid k :
  transactions db' = transactions db -> hasKey db uid k -> hasKey db' uid k.
Proof. unfold hasKey. by intros ->. Qed.

Lemma transactionExistsByKey_ext db db' uid k :
  transactions db' = transactions db ->
  transactionExistsByKey db' uid k = transactionExistsByKey db uid k.
Proof. unfold transactionExistsByKey. by intros ->. Qed.

(** A key is computed exactly for the rows with a valid date. *)
Lemma rowKey_Returned accountId row :
  (exists key, rowKey accountId row = Returned key) <->
  parsedPostedAt row <> None.
Proof.
  unfold rowKey, generateTxKey. destruct (parsedPostedAt row).
  - split; [done|]. intros _. by eexists.
  - split; [by intros [? ?]|done].
Qed.

Lemma rowKey_Thrown accountId row message :
  rowKey accountId row = Thrown message ->
  parsedPostedAt row = None /\ message = "Invalid time value"%string.
Proof.
  unfold rowKey, generateTxKey. destruct (parsedPostedAt row); [done|].
  by intros [= <-].
Qed.

(** The deduplication loop sorts every row into skipped or queued. *)
Lemma dedupe_spec svc db uid accountId rows skipped queue :
  forall n q, dedupe svc db uid accountId rows skipped queue = Returned (n, q) ->
  (n + length q = skipped + length queue + length rows)%nat
  /\ (forall row, In row rows ->
        exists key, rowKey accountId row = Returned key /\
          (hasKey db uid key \/ exists tx, In tx q /\ tcTxKey tx = key))
  /\ (forall tx, In tx queue -> In tx q)
  /\ (forall tx, In tx q -> In tx queue \/ parsedPostedAt (parsed tx) <> None).
Proof.
  revert skipped queue.
  induction rows as [|row rows IH]; intros skipped queue n q; simpl.
  - intros [= <- <-]. split_and!; [lia|by intros ? []|done|by left].
  - fold (rowKey accountId row).
    destruct (rowKey accountId row) as [key|] eqn:Hkey; [|done].
    assert (parsedPostedAt row <> None) as Hdate
      by (apply (rowKey_Returned accountId); by exists key).
    destruct (transactionExistsByKey db uid key) eqn:Hex;
      intros Hd; apply IH in Hd as (Hlen & Hrows & Hq & Hdates).
    + split_and!; [lia| |done|done].
      intros r [<-|Hr]; [|by apply Hrows].
      exists key. split; [done|]. left. by apply transactionExistsByKey_spec.
    + rewrite length_app in Hlen. simpl in Hlen. split_and!; [lia| | |].
      * intros r [<-|Hr]; [|by apply Hrows].
        exists key. split; [done|]. right.
        eexists. split; [apply Hq, in_or_app; right; by left|done].
      * intros tx Htx. apply Hq, in_or_app. by left.
      * intros tx Htx. destruct (Hdates tx Htx) as [Hin|?]; [|by right].
        apply in_app_or in Hin as [?|[<-|[]]]; [by left|by right].
Qed.

(** The loop returns exactly when every date is valid. *)
Lemma dedupe_returns svc db uid accountId rows skipped queue :
  datesValid rows ->
  exists n q, dedupe svc db uid accountId rows skipped queue = Returned (n, q).
Proof.
  revert skipped queue.
  induction rows as [|row rows IH]; intros skipped queue Hv; simpl; [by eexists _, _|].
  fold (rowKey accountId row).
  destruct (proj2 (rowKey_Returned accountId row)) as [key ->];
    [apply Hv; by left|].
  destruct (transactionExistsByKey db uid key);
    apply IH; intros r Hr; apply Hv; by right.
Qed.

Lemma dedupe_throws svc db uid accountId rows skipped queue :
  ~ datesValid rows ->
  dedupe svc db uid accountId rows skipped queue = Thrown "Invalid time value".
Proof.
  revert skipped queue.
  induction rows as [|row rows IH]; intros skipped queue Hv; simpl.
  - destruct Hv. by intros ? [].
  - fold (rowKey accountId row).
    destruct (rowKey accountId row) as [key|message] eqn:Hkey.
    + assert (~ datesValid rows) as Hv'.
      { intros Hrest. apply Hv. intros r [<-|Hr]; [|by apply Hrest].
        apply (rowKey_Returned accountId). by exists key. }
      destruct (transactionExistsByKey db uid key); by apply IH.
    + by apply rowKey_Thrown in Hkey as [_ ->].
Qed.

(** When every row is already held, everything is skipped. *)
Lemma dedupe_all_held svc db uid accountId rows skipped queue :
  datesValid rows ->
  (forall row key, In row rows -> rowKey accountId row = Returned key ->
                   hasKey db uid key) ->
  dedupe svc db uid accountId rows skipped queue
  = Returned ((skipped + length rows)%nat, queue).
Proof.
  revert skipped.
  induction rows as [|row rows IH]; intros skipped Hv Hall; simpl.
  - by rewrite Nat.add_0_r.
  - fold (rowKey accountId row).
    destruct (proj2 (rowKey_Returned accountId row)) as [key Hkey];
      [apply Hv; by left|].
    rewrite Hkey.
    rewrite (proj2 (transactionExistsByKey_spec db uid key))
      by (apply (Hall row); [by left|done]).
    rewrite IH.
    + do 2 f_equal. lia.
    + intros r Hr. apply Hv. by right.
    + intros r k Hr. apply Hall. by right.
Qed.

(** The creation loop adds one document per queued row and leaves the
    documents that were there. *)
Lemma createAll_spec results uid accountId importId now autoId queue :
  forall i db created errors db' n errors',
  createAll results uid accountId importId now autoId i queue db created errors
  = (db', n, errors') ->
  (forall tx, In tx queue -> parsedPostedAt (parsed tx) <> None) ->
  (forall j, (j < length queue)%nat ->
             transactions db !! autoId (i + j)%nat = None) ->
  (forall a b, (a < length queue)%nat -> (b < length queue)%nat ->
               autoId (i + a)%nat = autoId (i + b)%nat -> a = b) ->
  n = (created + length queue)%nat
  /\ errors' = errors
  /\ size (transactions db') = (size (transactions db) + length queue)%nat
  /\ (forall k d, transactions db !! k = Some d -> transactions db' !! k = Some d)
  /\ (forall tx, In tx queue -> hasKey db' uid (tcTxKey tx)).
Proof.
  induction queue as [|tx queue IH]; intros i db created errors db' n errors';
    simpl.
  - intros [= <- <- <-] _ _ _. split_and!; [lia|done|lia|done|by intros ? []].
  - intros Hc Hv Hfresh Hinj.
    destruct (parsedPostedAt (parsed tx)) as [postedAt|] eqn:Hdate;
      [|by destruct (Hv tx (or_introl eq_refl))].
    assert (Hnew : transactions db !! autoId i = None).
    { specialize (Hfresh 0%nat). rewrite Nat.add_0_r in Hfresh.
      apply Hfresh. lia. }
    apply IH in Hc as (Hn & He & Hsize & Hkeep & Hkeys).
    + split_and!; [lia|done| | |].
      * rewrite Hsize. simpl. rewrite map_size_insert_None by done. lia.
      * intros k d Hk. apply Hkeep. simpl.
        rewrite lookup_insert_ne; [done|]. intros <-. by rewrite Hnew in Hk.
      * intros t [<-|Ht]; [|by apply Hkeys].
        eexists (autoId i), _. split.
        -- apply Hkeep. simpl. by rewrite lookup_insert_eq.
        -- done.
    + intros t Ht. apply Hv. by right.
    + intros j Hj. simpl. rewrite lookup_insert_ne.
      * replace (S (i + j))%nat with (i + S j)%nat by lia. apply Hfresh. lia.
      * intros Heq. assert (0 = S j)%nat; [|lia].
        apply Hinj; [lia|lia|]. rewrite Nat.add_0_r, Heq. f_equal. lia.
    + intros a b Ha Hb Hab. assert (S a = S b); [|lia].
      apply Hinj; [lia|lia|].
      by replace (i + S a)%nat with (S i + a)%nat by lia;
         replace (i + S b)%nat with (S i + b)%nat by lia.
Qed.

End ImportFacts.

Section ImportSpec.
Context `{JsRuntime}.

Lemma dedupe_counts svc db uid accountId rows :
  forall skipped queue n q,
  dedupe svc db uid accountId rows skipped queue = Returned (n, q) ->
  n = (skipped + length (List.filter (heldRow db uid accountId) rows))%nat
  /\ length q
     = (length queue
        + length (List.filter (fun r => negb (heldRow db uid accountId r)) rows))%nat.
Proof.
  induction rows as [|row rows IH]; intros skipped queue n q; simpl.
  - intros [= <- <-]. lia.
  - fold (rowKey accountId row).
    destruct (rowKey accountId row) as [key|] eqn:Hkey; [|done].
    assert (heldRow db uid accountId row = transactionExistsByKey db uid key)
      as -> by (unfold heldRow; by rewrite Hkey).
    destruct (transactionExistsByKey db uid key);
      intros Hd; apply IH in Hd as [-> ->]; simpl.
    + lia.
    + rewrite length_app. simpl. lia.
Qed.

(** What an import does to the transactions: nothing, or what its
    creation loop does. *)
Lemma processImport_transactions llmEnabled svc db uid accountId importId
    content documentType mimeType now autoId :
  let out := processImport llmEnabled svc db uid accountId importId content
               documentType mimeType now autoId in
  transactions (fst out) = transactions db
  \/ exists results db0 queue errors,
       transactions db0 = transactions db /\
       transactions (fst out)
       = transactions
           (fst (fst (createAll results uid accountId importId now autoId
                        0 queue db0 0 errors))).
Proof.
  intros out. subst out. unfold processImport.
  destruct (setImportStatus db importId Processing None None false now)
    as [dbp|] eqn:Hp; [|by left].
  pose proof (transactions_setImportStatus _ _ _ _ _ _ _ _ Hp) as Htp.
  assert (Hfailed : forall message errors,
    transactions
      (fst match setImportStatus dbp importId Failed None (Some message) true now
           with
           | Some db' =>
               (db', Returned {| success := false; created := 0;
                                 importSkipped := 0; importErrors := errors |})
           | None => (dbp, Thrown notFound)
           end) = transactions db).
  { intros message errors.
    destruct (setImportStatus dbp importId Failed None (Some message) true now)
      as [dbf|] eqn:Hf; [|done].
    cbn [fst]. by rewrite (transactions_setImportStatus _ _ _ _ _ _ _ _ Hf). }
  destruct (parseDocument svc content documentType mimeType)
    as [[[|row rows] errs]|msg]; [by left| |by left].
  destruct (dedupe svc dbp uid accountId (row :: rows) 0 [])
    as [[skipped queue]|msg] eqn:Hd; [|by left].
  destruct (batchCategorizeTransactions _ _ _ _ _ _ _) as [results effects].
  destruct (createAll results uid accountId importId now autoId 0 queue
              (runEffects dbp effects now) 0 errs) as [[db' n] errs'] eqn:Hc.
  right. exists results, (runEffects dbp effects now), queue, errs.
  split; [by rewrite transactions_runEffects|].
  rewrite Hc. cbn [fst].
  destruct (setImportStatus db' importId Completed _ None true now)
    as [dbc|] eqn:Hcm.
  - cbn [fst]. by rewrite (transactions_setImportStatus _ _ _ _ _ _ _ _ Hcm).
  - destruct (setImportStatus db' importId Failed None (Some notFound) true now)
      as [dbf|] eqn:Hf; [|done].
    cbn [fst]. by rewrite (transactions_setImportStatus _ _ _ _ _ _ _ _ Hf).
Qed.

Lemma imports_runEffects db effects now :
  imports (runEffects db effects now) = imports db.
Proof.
  unfold runEffects. revert db.
  induction effects as [|e l IH]; intros db; simpl; [done|].
  rewrite IH. by destruct e.
Qed.

Lemma imports_createAll results uid accountId importId now autoId i queue db n
    errors :
  imports (fst (fst (createAll results uid accountId importId now autoId i
                       queue db n errors)))
  = imports db.
Proof.
  revert i db n errors.
  induction queue as [|tx queue IH]; intros i db n errors; simpl; [done|].
  destruct (parsedPostedAt (parsed tx)); by rewrite IH.
Qed.

(** The two ways an import of an existing record ends: failed, when the
    document yields no rows or a row without a valid date; completed
    otherwise, after the two loops. *)
Lemma processImport_cases llmEnabled svc db uid accountId importId content
    documentType mimeType now autoId record :
  imports db !! importId = Some record ->
  let rows := parsedRows svc content documentType mimeType in
  let out := processImport llmEnabled svc db uid accountId importId content
               documentType mimeType now autoId in
  let processing := withImportStatus record Processing None None false now in
  let dbp := setImports db (<[importId := processing]> (imports db)) in
  (exists message errors,
     (rows = [] \/ ~ datesValid rows) /\
     head errors = Some message /\
     out = (setImports dbp
              (<[importId := withImportStatus processing Failed None
                               (Some message) true now]> (imports dbp)),
            Returned {| success := false; created := 0; importSkipped := 0;
                        importErrors := errors |}))
  \/
  (exists skipped queue results effects db' n errs0 errs,
     rows <> [] /\
     dedupe svc dbp uid accountId rows 0 [] = Returned (skipped, queue) /\
     createAll results uid accountId importId now autoId 0 queue
       (runEffects dbp effects now) 0 errs0 = (db', n, errs) /\
     imports db' = imports dbp /\
     out = (setImports db'
              (<[importId := withImportStatus processing Completed
                               (Some (Z.of_nat n)) None true now]> (imports db')),
            Returned {| success := true; created := n; importSkipped := skipped;
                        importErrors := errs |})).
Proof.
  intros Hrec rows out processing dbp. subst rows out.
  unfold parsedRows, processImport.
  rewrite (setImportStatus_Some _ _ _ _ _ _ _ _ Hrec). fold processing dbp.
  assert (Hp : imports dbp !! importId = Some processing)
    by (subst dbp; cbn; by rewrite lookup_insert_eq).
  assert (Hfailed : forall message,
    setImportStatus dbp importId Failed None (Some message) true now
    = Some (setImports dbp
              (<[importId := withImportStatus processing Failed None
                               (Some message) true now]> (imports dbp))))
    by (intros; by apply setImportStatus_Some).
  destruct (parseDocument svc content documentType mimeType)
    as [[[|row rows] errs]|msg].
  - left. rewrite Hfailed. eexists _, _.
    split; [by left|split; [|reflexivity]]. reflexivity.
  - destruct (dedupe svc dbp uid accountId (row :: rows) 0 [])
      as [[skipped queue]|msg] eqn:Hd.
    + right.
      destruct (batchCategorizeTransactions _ _ _ _ _ _ _) as [results effects].
      destruct (createAll results uid accountId importId now autoId 0 queue
                  (runEffects dbp effects now) 0 errs) as [[db' n] errs'] eqn:Hc.
      assert (Hi : imports db' = imports dbp).
      { pose proof (imports_createAll results uid accountId importId now autoId
                      0 queue (runEffects dbp effects now) 0 errs) as Hi.
        rewrite Hc in Hi. cbn [fst] in Hi. by rewrite Hi, imports_runEffects. }
      assert (imports db' !! importId = Some processing) as Hp'
        by (by rewrite Hi).
      rewrite (setImportStatus_Some _ _ _ _ _ _ _ _ Hp').
      exists skipped, queue, results, effects, db', n, errs, errs'.
      by split_and!.
    + left. rewrite Hfailed. eexists _, _.
      split; [|split; [|reflexivity]]; [|reflexivity].
      right. intros Hv.
      destruct (dedupe_returns svc dbp uid accountId (row :: rows) 0 [] Hv)
        as (n & q & Hx).
      congruence.
  - left. rewrite Hfailed. eexists _, _.
    split; [by left|split; [|reflexivity]]. reflexivity.
Qed.


(** A row with an Invalid Date, as the LLM parser may return one, fails
    the whole import: the key cannot be computed, nothing is created or
    skipped, and the import ends failed with the error of
    [toISOString]. *)
Lemma processImport_invalid_date_fails llmEnabled svc db uid accountId importId
    content documentType mimeType now autoId record :
  imports db !! importId = Some record ->
  ~ datesValid (parsedRows svc content documentType mimeType) ->
  let out := processImport llmEnabled svc db uid accountId importId content
               documentType mimeType now autoId in
  transactions (fst out) = transactions db
  /\ snd out = Returned {| success := false; created := 0; importSkipped := 0;
                           importErrors := ["Invalid time value"%string] |}
  /\ exists r, imports (fst out) !! importId = Some r /\
               Imp.status r = Failed /\
               Imp.errorMessage r = Some "Invalid time value"%string.
Proof.
  intros Hrec Hbad out. subst out. unfold processImport.
  rewrite (setImportStatus_Some _ _ _ _ _ _ _ _ Hrec).
  set (processing := withImportStatus record Processing None None false now).
  set (dbp := setImports db (<[importId := processing]> (imports db))).
  unfold parsedRows in Hbad.
  destruct (parseDocument svc content documentType mimeType)
    as [[[|row rows] errs]|msg];
    [destruct Hbad; by intros ? []| |destruct Hbad; by intros ? []].
  rewrite (dedupe_throws _ _ _ _ _ _ _ Hbad).
  rewrite (setImportStatus_Some dbp importId Failed None _ true now processing)
    by (subst dbp; cbn; by rewrite lookup_insert_eq).
  cbn [fst snd]. split_and!; [done|done|].
  eexists. cbn [imports setImports]. by rewrite lookup_insert_eq.
Qed.

(** An import whose record does not exist is rejected by the store and
    writes nothing. *)
Lemma processImport_missing_record llmEnabled svc db uid accountId importId
    content documentType mimeType now autoId :
  imports db !! importId = None ->
  processImport llmEnabled svc db uid accountId importId content
    documentType mimeType now autoId = (db, Thrown notFound).
Proof.
  intros Hrec. unfold processImport.
  by rewrite (setImportStatus_None _ _ _ _ _ _ _ Hrec).
Qed.

End ImportSpec.


(** ** CSV parsing *)

Section CsvSpec.
Context `{JsRuntime}.

(** Rows without a parsable date and rows whose amount is zero or not a
    number are dropped, under every header. *)
Lemma parseLine_drops cols line :
  let values := splitFields line [] EmptyString false in
  let dateStr := removeChars isQuote <$> at_ values (dateIdx cols) in
  (parseDate (default EmptyString dateStr) = None -> parseLine cols line = None)
  /\ (rowAmount cols values = Some 0 -> parseLine cols line = None)
  /\ (rowAmount cols values = None -> parseLine cols line = None)
  /\ (forall row, parseLine cols line = Some row -> parsedAmount row <> 0).
Proof.
  intros values dateStr. unfold parseLine. fold values. fold dateStr.
  split_and!.
  - intros ->. by repeat case_match.
  - intros ->. by repeat case_match.
  - intros ->. by repeat case_match.
  - intros row. repeat case_match; try done.
    intros [= <-]. simpl. by apply Z.eqb_neq.
Qed.

(** No row of a parsed statement has a zero amount. *)
Lemma parseCSV_rows_nonzero content row :
  In row (parseCSV content) -> parsedAmount row <> 0.
Proof.
  unfold parseCSV. repeat case_match; try (by intros []).
  all: intros Hin; apply list_elem_of_In, list_elem_of_omap in Hin
         as (line & _ & Hline);
       by eapply (proj2 (proj2 (proj2 (parseLine_drops _ line)))).
Qed.

Lemma findIndex_None {A} (p : A -> bool) l :
  findIndex p l = None <-> forall x, In x l -> p x = false.
Proof.
  induction l as [|x l IH]; simpl; [naive_solver|].
  destruct (p x) eqn:Hx.
  - split; [done|]. intros Hall. specialize (Hall x (or_introl eq_refl)).
    congruence.
  - destruct (findIndex p l); simpl.
    + split; [done|]. intros Hall.
      assert (@Some nat n = None); [|done].
      apply IH. intros; apply Hall; by right.
    + split; [|done]. intros _ y [<-|Hy]; [done|]. by apply IH.
Qed.

(** A header that names no amount column ([amount], [debit], [credit],
    [transaction amount]) but has [withdrawal] or [deposit] columns gets
    credit minus debit, a missing or empty side counting as 0. *)
Lemma rowAmount_separate_columns cols values :
  amountIdx cols = None ->
  rowAmount cols values
  = Some (default 0 (roundCents
            (orElse (removeChars isAmountNoise <$> at_ values (creditIdx cols)) "0"))
          - default 0 (roundCents
            (orElse (removeChars isAmountNoise <$> at_ values (debitIdx cols)) "0"))).
Proof. intros Ha. unfold rowAmount. by rewrite Ha. Qed.

(** A column named [debit] or [credit] is taken for the amount column:
    with such a header the credit-minus-debit branch is never reached,
    and the row's amount is that one column, unsigned. *)
Lemma rowAmount_debit_credit_named headers values :
  In "debit"%string headers \/ In "credit"%string headers ->
  exists i,
    amountIdx (findColumns headers) = Some i /\
    rowAmount (findColumns headers) values
    = (let amountStr := removeChars isAmountNoise <$> values !! i in
       if truthy amountStr then roundCents (default EmptyString amountStr)
       else None).
Proof.
  intros Hin.
  destruct (amountIdx (findColumns headers)) as [i|] eqn:Hi.
  - exists i. split; [done|]. unfold rowAmount. by rewrite Hi.
  - exfalso. simpl in Hi. rewrite findIndex_None in Hi.
    destruct Hin as [Hd|Hc]; [specialize (Hi _ Hd)|specialize (Hi _ Hc)];
      by vm_compute in Hi.
Qed.

(** C7 (the code departs from the claim). With the header
    [date,debit,credit,description], the row with a debit of 50.00 gets
    the amount +5000, not -5000, and the row with a credit of 100.00 and
    an empty debit is dropped. *)
Theorem parseCSV_debit_credit_header_read_as_amount :
  forall d1 d2 : Z,
  parseDate "2024-01-15" = Some d1 ->
  parseDate "2024-01-16" = Some d2 ->
  roundCents "50.00" = Some 5000 ->
  parseCSV debitCreditCsv
  = [ {| parsedPostedAt := Some d1; parsedAmount := 5000;
         parsedDescription := "COFFEE"; parsedMerchantRaw := "COFFEE" |} ].
Proof.
  intros d1 d2 Hd1 Hd2 Hc.
  vm_compute in Hd1, Hd2, Hc. vm_compute.
  rewrite Hd1, Hd2. vm_compute. rewrite Hc. by vm_compute.
Qed.

End CsvSpec.

Lemma parseCSV_debit_credit_header_read_as_amount_witness :
  (@parseDate exampleRuntime "2024-01-15" = Some 1705276800000
   /\ @parseDate exampleRuntime "2024-01-16" = Some 1705363200000
   /\ @roundCents exampleRuntime "50.00" = Some 5000)
  /\ @parseCSV exampleRuntime debitCreditCsv
     = [ {| parsedPostedAt := Some 1705276800000; parsedAmount := 5000;
            parsedDescription := "COFFEE"; parsedMerchantRaw := "COFFEE" |} ].
Proof.
  split; [by vm_compute|].
  apply (@parseCSV_debit_credit_header_read_as_amount exampleRuntime
           1705276800000 1705363200000); by vm_compute.
Defined.

(** With the columns named [withdrawal] and [deposit] the same rows get
    credit minus debit. *)
Example parseCSV_withdrawal_deposit :
  List.map parsedAmount (@parseCSV exampleRuntime withdrawalDepositCsv)
  = [-5000; 10000].
Proof. by vm_compute. Qed.

Example parseCSV_amount_column :
  List.map parsedAmount (@parseCSV exampleRuntime exampleCsv) = [-5000; 10000].
Proof. by vm_compute. Qed.

(** ** Manual override and the automatic category *)

Section OverrideInvariant.
Context `{JsRuntime}.

Local Abbreviation Inv := (everyTransaction overrideKeepsAutoUnlessChild).

Lemma everyTransaction_ext P db db' :
  transactions db' = transactions db ->
  everyTransaction P db -> everyTransaction P db'.
Proof. unfold everyTransaction. by intros ->. Qed.

Lemma everyTransaction_insert P db id d :
  P d -> everyTransaction P db ->
  everyTransaction P (setTransactions db (<[id := d]> (transactions db))).
Proof.
  intros Hd Hdb k x. simpl. destruct (decide (id = k)) as [->|Hne].
  - rewrite lookup_insert_eq. by intros [= <-].
  - rewrite lookup_insert_ne by done. apply Hdb.
Qed.

Lemma applyUpdate_keeps d updates now :
  overrideKeepsAutoUnlessChild d ->
  overrideKeepsAutoUnlessChild (applyUpdate d updates now).
Proof.
  unfold overrideKeepsAutoUnlessChild, overrideKeepsAuto. simpl.
  intros Hd Hchild.
  destruct (updCategoryId updates); simpl; [|by apply Hd].
  intros _. destruct (Tx.manualOverride d) eqn:Hm; simpl.
  - by apply Hd.
  - by destruct (Tx.autoCategory d).
Qed.

Lemma updateTransaction_keeps db uid txId updates now :
  Inv db -> Inv (fst (updateTransaction db uid txId updates now)).
Proof.
  intros Hdb. unfold updateTransaction.
  destruct (transactions db !! txId) as [data|] eqn:Hd; [|done].
  repeat case_match; try done; simpl.
  all: apply everyTransaction_insert; [|done].
  all: apply applyUpdate_keeps; by eapply Hdb.
Qed.

Lemma setChildren_keeps autoId uid txId parentData now n l :
  forall i (m : gmap string Tx.t),
  (forall id d, m !! id = Some d -> overrideKeepsAutoUnlessChild d) ->
  forall id d,
    setChildren autoId uid txId parentData now n i l m !! id = Some d ->
    overrideKeepsAutoUnlessChild d.
Proof.
  induction l as [|x l IH]; intros i m Hm; simpl; [done|].
  apply IH. intros id d. destruct (decide (autoId i = id)) as [->|Hne].
  - rewrite lookup_insert_eq. intros [= <-]. by intros Hchild.
  - rewrite lookup_insert_ne by done. apply Hm.
Qed.

Lemma splitTransaction_keeps db uid txId body now autoId :
  Inv db -> Inv (fst (splitTransaction db uid txId body now autoId)).
Proof.
  intros Hdb. unfold splitTransaction.
  destruct (transactions db !! txId) as [data|] eqn:Hd; [|done].
  repeat case_match; try done; simpl.
  all: intros id d; simpl; apply setChildren_keeps.
  all: intros k x; destruct (decide (txId = k)) as [->|Hne];
    [rewrite lookup_insert_eq; intros [= <-]; by apply (Hdb _ _ Hd)
    |rewrite lookup_insert_ne by done; apply Hdb].
Qed.

Lemma unsplitTransaction_keeps db uid txId now :
  Inv db -> Inv (fst (unsplitTransaction db uid txId now)).
Proof.
  intros Hdb. unfold unsplitTransaction.
  destruct (transactions db !! txId) as [data|] eqn:Hd; [|done].
  destruct (negb (String.eqb _ _)); [done|].
  destruct (negb (Tx.isSplitParent data)); [done|]. simpl.
  intros id d. simpl. destruct (decide (txId = id)) as [->|Hne].
  - rewrite lookup_insert_eq. intros [= <-]. by apply (Hdb _ _ Hd).
  - rewrite lookup_insert_ne by done.
    generalize (snapshot (transactions db)
      (fun _ d0 => String.eqb (Tx.uid d0) uid &&
                   bool_decide (Tx.splitParentId d0 = Some txId))).
    intros l. revert Hdb. unfold everyTransaction.
    generalize (transactions db). clear.
    induction l as [|c l IH]; intros m Hm; simpl; [apply Hm|].
    apply IH. intros k x Hk. apply lookup_delete_Some in Hk as [_ Hk].
    by eapply Hm.
Qed.

Lemma recategorizeOne_keeps llmEnabled llm uid incl options now acc txId :
  Inv (fst acc) ->
  Inv (fst (recategorizeOne llmEnabled llm uid incl options now acc txId)).
Proof.
  destruct acc as [db count]. simpl. intros Hdb.
  destruct (transactions db !! txId) as [data|] eqn:Hd; [|done].
  destruct (negb _); [done|]. destruct (_ && _); [done|].
  destruct (categorizeTransaction _ _ _ _ _ _ _) as [result effects].
  assert (Inv (runEffects db effects now)) as Hdb1.
  { eapply everyTransaction_ext; [apply transactions_runEffects|done]. }
  destruct (bool_decide _); simpl; [done|].
  apply everyTransaction_insert; [|done].
  by intros _ _.
Qed.

Lemma recategorizeTransactions_keeps llmEnabled llm db uid ids incl options now :
  Inv db ->
  Inv (fst (recategorizeTransactions llmEnabled llm db uid ids incl options now)).
Proof.
  unfold recategorizeTransactions. intros Hdb.
  assert (Hfold : forall acc, Inv (fst acc) ->
            Inv (fst (fold_left
                   (recategorizeOne llmEnabled llm uid incl options now) ids acc))).
  { induction ids as [|txId ids IH]; intros acc Hacc; cbn [fold_left]; [done|].
    apply IH. by apply recategorizeOne_keeps. }
  by apply Hfold.
Qed.

Lemma createAll_keeps results uid accountId importId now autoId queue :
  forall i db created errors,
  Inv db ->
  Inv (fst (fst (createAll results uid accountId importId now autoId i queue
                   db created errors))).
Proof.
  induction queue as [|tx queue IH]; intros i db created errors Hdb; simpl;
    [done|].
  destruct (parsedPostedAt (parsed tx)); [|by apply IH].
  apply IH. apply everyTransaction_insert; [|done].
  intros _ Hm. simpl in Hm. done.
Qed.

Lemma processImport_keeps llmEnabled svc db uid accountId importId content
    documentType mimeType now autoId :
  Inv db ->
  Inv (fst (processImport llmEnabled svc db uid accountId importId content
              documentType mimeType now autoId)).
Proof.
  intros Hdb.
  destruct (processImport_transactions llmEnabled svc db uid accountId importId
              content documentType mimeType now autoId)
    as [Ht|(results & db0 & queue & errors & Hdb0 & Ht)].
  - by apply (everyTransaction_ext _ db).
  - eapply everyTransaction_ext; [exact Ht|].
    apply createAll_keeps. by apply (everyTransaction_ext _ db).
Qed.

Lemma applyOp_keeps llmEnabled db op :
  Inv db -> Inv (applyOp llmEnabled db op).
Proof.
  intros Hdb. destruct op; simpl.
  - by apply processImport_keeps.
  - by apply updateTransaction_keeps.
  - by apply splitTransaction_keeps.
  - by apply unsplitTransaction_keeps.
  - by apply recategorizeTransactions_keeps.
  - unfold createRule. by repeat case_match.
  - unfold updateRule. by repeat case_match.
  - unfold deleteRule. by repeat case_match.
  - unfold reorderRules. by repeat case_match.
Qed.

(** C6, as it holds. After any sequence of imports, PATCHes, splits,
    unsplits, recategorizations and rule edits, every transaction that
    is not a split child has a non-null [autoCategory] whenever its
    [manualOverride] is true. A split child is created with
    [autoCategory = null], and with [manualOverride = true] exactly when
    a category was supplied for it. *)
Theorem manual_override_keeps_auto_category_unless_split_child :
  forall (llmEnabled : bool) (ops : list Op) (db : Db),
  everyTransaction overrideKeepsAutoUnlessChild db ->
  everyTransaction overrideKeepsAutoUnlessChild (run llmEnabled db ops)
  /\ (forall uid txId parentData now n i split,
        let child := childData uid txId parentData now n i split in
        Tx.splitParentId child = Some txId /\
        Tx.autoCategory child = None /\
        Tx.manualOverride child = truthy (partCategoryId split)).
Proof.
  intros llmEnabled ops db Hdb. split; [|done].
  unfold run. revert db Hdb.
  induction ops as [|op ops IH]; intros db Hdb; simpl; [done|].
  apply IH. by apply applyOp_keeps.
Qed.

End OverrideInvariant.

(** Starting from the example database, a PATCH that sets a category on
    the imported transaction keeps the invariant. *)
Lemma manual_override_keeps_auto_category_unless_split_child_witness :
  everyTransaction overrideKeepsAutoUnlessChild exampleDb
  /\ everyTransaction overrideKeepsAutoUnlessChild
       (@run exampleRuntime true exampleDb
          [OpUpdateTransaction "alice" "tx1"
             {| updCategoryId := Some "food"%string; updNotes := None;
                updTags := None |} 5]).
Proof.
  assert (Hdb : everyTransaction overrideKeepsAutoUnlessChild exampleDb).
  { intros id d. unfold exampleDb. simpl.
    intros Hd. apply lookup_singleton_Some in Hd as [_ <-]. by intros _ Hm. }
  split; [exact Hdb|].
  apply (@manual_override_keeps_auto_category_unless_split_child
           exampleRuntime true _ exampleDb Hdb).
Defined.

(** C6, as the design states it, fails: splitting the example expense
    with a category on the first part stores a child that has
    [manualOverride = true] and [autoCategory = null]. *)
Lemma split_child_with_category_breaks_invariant :
  let db' :=
    @run exampleRuntime true exampleDb
      [OpSplit "alice" "tx1"
         {| splits := [part (-4000) (Some "food"%string); part (-6000) None] |}
         7 exampleIds] in
  ~ everyTransaction overrideKeepsAuto db'.
Proof.
  intros db' Hall.
  assert (Hchild : exists d, transactions db' !! "c0"%string = Some d /\
                             Tx.manualOverride d = true /\
                             Tx.autoCategory d = None).
  { eexists. split; [by vm_compute|]. by split. }
  destruct Hchild as (d & Hd & Hm & Ha).
  by apply (Hall _ _ Hd Hm).
Qed.

(** ** Pagination cursors *)

Section CursorSpec.
Context `{JsRuntime}.

(** C8, as it holds. A cursor that is not base64 JSON, or whose JSON
    lacks [postedAt] or [id], is read as no cursor at all: the listing
    is the one of the same query without a cursor, first page included,
    and no error is raised on its account. *)
Theorem listTransactions_undecodable_cursor_is_absent_cursor :
  forall (db : Db) (uid : string) (query : ListTransactionsQuery)
         (cursor : string) (now : Z),
  parseCursor (Some cursor) = None ->
  listTransactions db uid (withCursor query (Some cursor)) now
  = listTransactions db uid (withCursor query None) now.
Proof.
  intros db uid query cursor now Hc.
  unfold listTransactions. simpl qCursor. cbn [withCursor qLimit].
  rewrite Hc.
  replace (parseCursor None) with (@None (option Z * string)) by done.
  done.
Qed.

End CursorSpec.

Lemma listTransactions_undecodable_cursor_is_absent_cursor_witness :
  @parseCursor exampleRuntime (Some "garbage"%string) = None
  /\ @listTransactions exampleRuntime exampleDb "alice"
       (withCursor (monthQuery "1970-01") (Some "garbage"%string)) 0
     = @listTransactions exampleRuntime exampleDb "alice"
         (withCursor (monthQuery "1970-01") None) 0.
Proof.
  split; [reflexivity|].
  by apply (@listTransactions_undecodable_cursor_is_absent_cursor exampleRuntime).
Defined.

(** C8, as the design states it, fails: the listing of January 1970
    with the cursor [garbage], which does not decode, is served (it
    returns the one transaction of the month) instead of being
    rejected. *)
Lemma listTransactions_serves_undecodable_cursor :
  @parseCursor exampleRuntime (Some "garbage"%string) = None
  /\ exists page,
       @listTransactions exampleRuntime exampleDb "alice"
         (withCursor (monthQuery "1970-01") (Some "garbage"%string)) 0
       = Returned page
       /\ List.map respId (listed page) = ["tx1"%string].
Proof.
  split; [reflexivity|].
  eexists. split; [by vm_compute|reflexivity].
Qed.

(** ** Monthly overview *)

Section MapFacts.
Context {K V : Type} `{EqDecision K}.

Lemma mapGet_mapSet (k k' : K) (v : V) m :
  mapGet k (mapSet k' v m) = if decide (k' = k) then Some v else mapGet k m.
Proof.
  induction m as [|[k0 v0] m IH]; simpl.
  - done.
  - destruct (decide (k0 = k')) as [->|Hne]; simpl.
    + by destruct (decide (k' = k)).
    + destruct (decide (k0 = k)) as [->|Hne'].
      * by destruct (decide (k' = k)); [congruence|].
      * done.
Qed.

Lemma mapSet_keys_incl (k : K) (v : V) m x :
  In x (List.map fst (mapSet k v m)) -> x = k \/ In x (List.map fst m).
Proof.
  induction m as [|[k0 v0] m IH]; simpl.
  - intros [<-|[]]. by left.
  - destruct (decide (k0 = k)) as [->|Hne]; simpl.
    + intros [<-|Hx]; auto.
    + intros [<-|Hx]; auto. destruct (IH Hx); auto.
Qed.

Lemma mapSet_NoDup (k : K) (v : V) m :
  List.NoDup (List.map fst m) -> List.NoDup (List.map fst (mapSet k v m)).
Proof.
  induction m as [|[k0 v0] m IH]; simpl; intros Hnd.
  - constructor; [by intros []|constructor].
  - apply List.NoDup_cons_iff in Hnd as [Hnot Hnd].
    destruct (decide (k0 = k)) as [->|Hne]; simpl.
    + by constructor.
    + constructor; [|by apply IH].
      intros Hin. destruct (mapSet_keys_incl _ _ _ _ Hin); congruence.
Qed.

Lemma mapGet_In (k : K) (v : V) m :
  List.NoDup (List.map fst m) -> (In (k, v) m <-> mapGet k m = Some v).
Proof.
  induction m as [|[k0 v0] m IH]; simpl; intros Hnd.
  - split; [by intros []|done].
  - apply List.NoDup_cons_iff in Hnd as [Hnot Hnd].
    destruct (decide (k0 = k)) as [->|Hne].
    + split.
      * intros [[= ->]|Hin]; [done|].
        exfalso. apply Hnot. by apply (in_map fst) in Hin.
      * intros [= ->]. by left.
    + rewrite <- (IH Hnd). split; [|by right].
      intros [[= -> ->]|Hin]; [done|done].
Qed.

End MapFacts.

Section OverviewFacts.
Context `{JsRuntime}.

Lemma sumWhere_app p l1 l2 :
  sumWhere p (l1 ++ l2) = sumWhere p l1 + sumWhere p l2.
Proof.
  unfold sumWhere. induction l1 as [|d l1 IH]; simpl; [done|].
  rewrite IH. lia.
Qed.

Lemma sumWhere_snoc p l d :
  sumWhere p (l ++ [d])
  = sumWhere p l + (if p (snd d) then Tx.amount (snd d) else 0).
Proof. rewrite sumWhere_app. unfold sumWhere at 2. simpl. lia. Qed.

Lemma countWhere_snoc p l d :
  countWhere p (l ++ [d])
  = (countWhere p l + (if p (snd d) then 1 else 0))%nat.
Proof.
  unfold countWhere. rewrite List.filter_app, length_app. simpl.
  by destruct (p (snd d)).
Qed.

Lemma sumWhere_none p l :
  (forall d, In d l -> p (snd d) = false) -> sumWhere p l = 0.
Proof.
  unfold sumWhere. induction l as [|d l IH]; simpl; intros Hn; [done|].
  rewrite (Hn d) by auto. rewrite IH; [done|]. intros; apply Hn; auto.
Qed.

Lemma countWhere_none p l :
  (forall d, In d l -> p (snd d) = false) -> countWhere p l = 0%nat.
Proof.
  unfold countWhere. induction l as [|d l IH]; simpl; intros Hn; [done|].
  rewrite (Hn d) by auto. apply IH. intros; apply Hn; auto.
Qed.

(** The expenses are a lower bound of every partial sum. *)
Lemma sumWhere_expenses_le p l : sumWhere isExpense l <= sumWhere p l.
Proof.
  unfold sumWhere, isExpense. induction l as [|d l IH]; simpl; [done|].
  destruct (Z.ltb_spec (Tx.amount (snd d)) 0), (p (snd d)); lia.
Qed.

Lemma fold_left_snoc {A B} (f : A -> B -> A) l x a :
  fold_left f (l ++ [x]) a = f (fold_left f l a) x.
Proof. by rewrite fold_left_app. Qed.

Lemma aggregateAll_snoc docs d :
  aggregateAll (docs ++ [d]) = aggregate (aggregateAll docs) d.
Proof. apply fold_left_snoc. Qed.

Lemma aggregateAll_income docs :
  aggIncome (aggregateAll docs) = sumWhere isIncome docs.
Proof.
  induction docs as [|d docs IH] using rev_ind; [done|].
  rewrite aggregateAll_snoc, sumWhere_snoc. simpl. rewrite IH.
  unfold isIncome. destruct (0 <? _); lia.
Qed.

Lemma aggregateAll_expenses docs :
  aggExpenses (aggregateAll docs) = sumWhere isExpense docs.
Proof.
  induction docs as [|d docs IH] using rev_ind; [done|].
  rewrite aggregateAll_snoc, sumWhere_snoc. simpl. rewrite IH.
  unfold isExpense.
  destruct (Z.ltb_spec 0 (Tx.amount (snd d))),
           (Z.ltb_spec (Tx.amount (snd d)) 0); lia.
Qed.

End OverviewFacts.

Section OverviewBuckets.
Context `{JsRuntime}.

Lemma anyDoc_snoc p docs d :
  anyDoc p (docs ++ [d]) = anyDoc p docs || p (snd d).
Proof. unfold anyDoc. rewrite existsb_app. simpl. by rewrite orb_false_r. Qed.

Lemma anyDoc_false p docs :
  anyDoc p docs = false -> forall d, In d docs -> p (snd d) = false.
Proof.
  unfold anyDoc. intros Hn d Hd.
  destruct (p (snd d)) eqn:Hp; [|done].
  assert (existsb (fun d => p (snd d)) docs = true); [|congruence].
  apply existsb_exists. by exists d.
Qed.

Lemma anyDoc_true p docs :
  anyDoc p docs = true <-> exists d, In d docs /\ p (snd d) = true.
Proof. apply existsb_exists. Qed.

(** The bucket of a category once the loop is over. *)
Lemma categoryTotals_get docs c :
  mapGet c (categoryTotals (aggregateAll docs))
  = if anyDoc (inCategory c) docs
    then Some {| ctAmount := sumWhere (inCategory c) docs;
                 ctCount := countWhere (inCategory c) docs |}
    else None.
Proof.
  induction docs as [|d docs IH] using rev_ind; [done|].
  rewrite aggregateAll_snoc, anyDoc_snoc, sumWhere_snoc, countWhere_snoc.
  cbn [aggregate categoryTotals]. rewrite mapGet_mapSet.
  destruct (decide (Tx.categoryId (snd d) = c)) as [Hc|Hc].
  - assert (inCategory c (snd d) = true) as ->
      by (by apply bool_decide_eq_true_2).
    rewrite orb_true_r, Hc, IH. f_equal.
    destruct (anyDoc (inCategory c) docs) eqn:Hany; simpl.
    + f_equal; lia.
    + rewrite sumWhere_none, countWhere_none by (by apply anyDoc_false).
      done.
  - assert (inCategory c (snd d) = false) as ->
      by (by apply bool_decide_eq_false_2).
    rewrite orb_false_r, IH.
    destruct (anyDoc (inCategory c) docs); [|done].
    f_equal. f_equal; lia.
Qed.

Lemma categoryTotals_NoDup docs :
  List.NoDup (List.map fst (categoryTotals (aggregateAll docs))).
Proof.
  induction docs as [|d docs IH] using rev_ind; [constructor|].
  rewrite aggregateAll_snoc. cbn [aggregate categoryTotals].
  by apply mapSet_NoDup.
Qed.

(** The bucket of a merchant: its expenses only. *)
Lemma merchantTotals_get docs m :
  (fun t => (mtAmount t, mtCount t))
    <$> mapGet m (merchantTotals (aggregateAll docs))
  = if anyDoc (both (atMerchant m) isExpense) docs
    then Some (sumWhere (both (atMerchant m) isExpense) docs,
               countWhere (both (atMerchant m) isExpense) docs)
    else None.
Proof.
  induction docs as [|d docs IH] using rev_ind; [done|].
  rewrite aggregateAll_snoc, anyDoc_snoc, sumWhere_snoc, countWhere_snoc.
  cbn [aggregate merchantTotals].
  remember (both (atMerchant m) isExpense) as p eqn:Ep.
  assert (Hp : p (snd d) = String.eqb (Tx.merchantNormalized (snd d)) m
                           && (Tx.amount (snd d) <? 0)) by (by rewrite Ep).
  destruct (Tx.amount (snd d) <? 0) eqn:Hneg.
  - rewrite mapGet_mapSet.
    destruct (decide (Tx.merchantNormalized (snd d) = m)) as [Hm|Hm].
    + rewrite (proj2 (String.eqb_eq _ _) Hm) in Hp. simpl in Hp. rewrite Hp.
      rewrite orb_true_r, Hm.
      destruct (mapGet m (merchantTotals (aggregateAll docs))) as [t|];
        simpl in IH |- *.
      * destruct (anyDoc p docs); [|done]. injection IH as -> ->.
        do 2 f_equal; lia.
      * destruct (anyDoc p docs) eqn:Hany; [done|].
        rewrite sumWhere_none, countWhere_none by (by apply anyDoc_false).
        done.
    + rewrite (proj2 (String.eqb_neq _ _) Hm) in Hp. simpl in Hp. rewrite Hp.
      rewrite orb_false_r, IH.
      destruct (anyDoc p docs); [|done]. do 2 f_equal; lia.
  - rewrite andb_false_r in Hp. rewrite Hp, orb_false_r, IH.
    destruct (anyDoc p docs); [|done]. do 2 f_equal; lia.
Qed.

Lemma merchantTotals_NoDup docs :
  List.NoDup (List.map fst (merchantTotals (aggregateAll docs))).
Proof.
  induction docs as [|d docs IH] using rev_ind; [constructor|].
  rewrite aggregateAll_snoc. cbn [aggregate merchantTotals].
  destruct (_ <? _); [by apply mapSet_NoDup|done].
Qed.

Lemma isoDate_empty p : toISOString p = EmptyString -> isoDate p = EmptyString.
Proof. unfold isoDate. by intros ->. Qed.

(** The totals of a day, under a date key that is not empty. *)
Lemma dailyTotals_get docs key :
  key <> EmptyString ->
  (fun t => (dtIncome t, dtExpenses t, dtCount t))
    <$> mapGet key (dailyTotals (aggregateAll docs))
  = if anyDoc (onDay key) docs
    then Some (sumWhere (both (onDay key) isIncome) docs,
               sumWhere (both (onDay key) isExpense) docs,
               countWhere (onDay key) docs)
    else None.
Proof.
  intros Hkey.
  induction docs as [|d docs IH] using rev_ind; [done|].
  rewrite aggregateAll_snoc, anyDoc_snoc, !sumWhere_snoc, countWhere_snoc.
  cbn [aggregate dailyTotals].
  set (k := isoDate (Tx.postedAt (snd d))).
  assert (Hday : onDay key (snd d) = String.eqb k key) by done.
  assert (Hinc : both (onDay key) isIncome (snd d)
                 = String.eqb k key && (0 <? Tx.amount (snd d))) by done.
  assert (Hexp : both (onDay key) isExpense (snd d)
                 = String.eqb k key && (Tx.amount (snd d) <? 0)) by done.
  rewrite Hday, Hinc, Hexp. clear Hday Hinc Hexp.
  destruct (String.eqb (toISOString (Tx.postedAt (snd d))) EmptyString) eqn:Hiso.
  { apply String.eqb_eq, isoDate_empty in Hiso. fold k in Hiso.
    assert (String.eqb k key = false) as ->
      by (apply String.eqb_neq; congruence).
    simpl. rewrite orb_false_r, IH.
    destruct (anyDoc _ docs); [|done]. do 3 f_equal; lia. }
  destruct (String.eqb k EmptyString) eqn:Hk; cbn [orb].
  { apply String.eqb_eq in Hk.
    assert (String.eqb k key = false) as ->
      by (apply String.eqb_neq; congruence).
    simpl. rewrite orb_false_r, IH.
    destruct (anyDoc _ docs); [|done]. do 3 f_equal; lia. }
  rewrite mapGet_mapSet.
  destruct (decide (k = key)) as [Hm|Hm].
  - rewrite (proj2 (String.eqb_eq _ _) Hm). cbn [andb]. rewrite orb_true_r.
    rewrite Hm.
    destruct (mapGet key (dailyTotals (aggregateAll docs))) as [t|];
      simpl in IH |- *.
    + destruct (anyDoc _ docs); [|done]. injection IH as -> -> ->.
      do 3 f_equal; lia.
    + destruct (anyDoc _ docs) eqn:Hany; [done|].
      rewrite !sumWhere_none, countWhere_none; [done| | |].
      * by apply anyDoc_false.
      * intros x Hx. unfold both.
        by rewrite (anyDoc_false _ _ Hany x Hx).
      * intros x Hx. unfold both.
        by rewrite (anyDoc_false _ _ Hany x Hx).
  - rewrite (proj2 (String.eqb_neq _ _) Hm). cbn [andb].
    rewrite orb_false_r, IH.
    destruct (anyDoc _ docs); [|done]. do 3 f_equal; lia.
Qed.

End OverviewBuckets.

Section OverviewSpec.
Context `{JsRuntime}.

Lemma mapGet_is_Some {K V} `{EqDecision K} (k : K) (m : list (K * V)) :
  In k (List.map fst m) <-> is_Some (mapGet k m).
Proof.
  induction m as [|[k0 v0] m IH]; simpl.
  - split; [by intros []|by intros [? ?]].
  - destruct (decide (k0 = k)) as [->|Hne].
    + split; [by eexists|by left].
    + rewrite <- IH. split; [by intros [?|?]|by right].
Qed.

Lemma NoDup_map_filter {A B} (f : A -> B) (p : A -> bool) l :
  List.NoDup (List.map f l) -> List.NoDup (List.map f (List.filter p l)).
Proof.
  induction l as [|x l IH]; simpl; intros Hnd; [constructor|].
  apply List.NoDup_cons_iff in Hnd as [Hnot Hnd].
  destruct (p x); simpl; [|by apply IH].
  constructor; [|by apply IH].
  intros Hin. apply Hnot. apply in_map_iff in Hin as (y & Hy & Hin).
  apply in_map_iff. exists y. split; [done|]. by apply filter_In in Hin as [? _].
Qed.

Lemma dayKey_nonempty year monthNum day : dayKey year monthNum day <> EmptyString.
Proof. unfold dayKey. by destruct (numToString year). Qed.

Lemma monthDocs_In db uid range id d :
  In (id, d) (monthDocs db uid range) <->
  transactions db !! id = Some d /\ Tx.uid d = uid /\
  fst range <= Tx.postedAt d <= snd range /\ Tx.isSplitParent d = false.
Proof.
  unfold monthDocs, orderByAsc.
  assert (Hp : (String.eqb (Tx.uid d) uid && (fst range <=? Tx.postedAt d)
                && (Tx.postedAt d <=? snd range)
                && negb (Tx.isSplitParent d)) = true <->
               Tx.uid d = uid /\ fst range <= Tx.postedAt d <= snd range /\
               Tx.isSplitParent d = false).
  { rewrite !andb_true_iff, negb_true_iff, String.eqb_eq, !Z.leb_le. tauto. }
  rewrite <- Hp. rewrite <- (snapshot_In (transactions db)
    (fun _ d => String.eqb (Tx.uid d) uid && (fst range <=? Tx.postedAt d)
                && (Tx.postedAt d <=? snd range) && negb (Tx.isSplitParent d))).
  split; apply Permutation_in; [|apply Permutation_sym]; apply jsSort_perm.
Qed.

(** The entries of the category breakdown. *)
Lemma categorySpending_entry docs categoryMap e :
  In e (List.map (categorySpending categoryMap
                    (Z.abs (aggExpenses (aggregateAll docs))))
          (List.filter (fun b => negb (0 <=? ctAmount (snd b)))
                       (categoryTotals (aggregateAll docs)))) ->
  csTotalAmount e < 0
  /\ csTotalAmount e = sumWhere (inCategory (csCategoryId e)) docs
  /\ csTransactionCount e = countWhere (inCategory (csCategoryId e)) docs
  /\ csPercentageOfTotal e
     = (inject_Z (Z.abs (csTotalAmount e))
        / inject_Z (Z.abs (sumWhere isExpense docs)) * 100)%Q
  /\ (csCategoryId e = None -> csCategoryName e = "Uncategorized"%string).
Proof.
  intros Hin. apply in_map_iff in Hin as ([c t] & <- & Hb).
  apply filter_In in Hb as [Hb Hneg]. simpl in Hneg.
  apply negb_true_iff, Z.leb_gt in Hneg.
  apply mapGet_In in Hb; [|apply categoryTotals_NoDup].
  rewrite categoryTotals_get in Hb.
  destruct (anyDoc (inCategory c) docs); [|done].
  injection Hb as <-. simpl in Hneg |- *.
  pose proof (sumWhere_expenses_le (inCategory c) docs) as Hle.
  rewrite aggregateAll_expenses.
  split_and!; try done.
  - by destruct (Z.ltb_spec 0 (Z.abs (sumWhere isExpense docs))); [|lia].
  - by intros ->.
Qed.

Lemma categorySpending_present docs categoryMap c :
  anyDoc (inCategory c) docs = true ->
  sumWhere (inCategory c) docs < 0 ->
  exists e,
    In e (List.map (categorySpending categoryMap
                      (Z.abs (aggExpenses (aggregateAll docs))))
            (List.filter (fun b => negb (0 <=? ctAmount (snd b)))
                         (categoryTotals (aggregateAll docs))))
    /\ csCategoryId e = c.
Proof.
  intros Hany Hneg.
  pose proof (categoryTotals_get docs c) as Hget. rewrite Hany in Hget.
  apply mapGet_In in Hget; [|apply categoryTotals_NoDup].
  eexists. split; [|shelve].
  apply in_map. apply filter_In. split; [exact Hget|].
  simpl. by apply negb_true_iff, Z.leb_gt.
  Unshelve. done.
Qed.

(** The entries of the merchant ranking. *)
Lemma merchantSpending_entry docs categoryMap e :
  In e (List.map (merchantSpending categoryMap)
                 (merchantTotals (aggregateAll docs))) ->
  msTotalAmount e
  = sumWhere (both (atMerchant (msMerchantNormalized e)) isExpense) docs
  /\ msTransactionCount e
     = countWhere (both (atMerchant (msMerchantNormalized e)) isExpense) docs.
Proof.
  intros Hin. apply in_map_iff in Hin as ([m t] & <- & Hb).
  apply mapGet_In in Hb; [|apply merchantTotals_NoDup].
  pose proof (merchantTotals_get docs m) as Hget. rewrite Hb in Hget.
  simpl in Hget |- *.
  destruct (anyDoc _ docs); [|done]. by injection Hget as -> ->.
Qed.

Lemma merchantSpending_names docs categoryMap m :
  In m (List.map msMerchantNormalized
          (List.map (merchantSpending categoryMap)
                    (merchantTotals (aggregateAll docs))))
  <-> anyDoc (both (atMerchant m) isExpense) docs = true.
Proof.
  rewrite List.map_map. simpl.
  change (List.map (fun x : string * MerchantTotals => fst x)
            (merchantTotals (aggregateAll docs)))
    with (List.map fst (merchantTotals (aggregateAll docs))).
  rewrite mapGet_is_Some.
  pose proof (merchantTotals_get docs m) as Hget.
  destruct (mapGet m (merchantTotals (aggregateAll docs))) as [t|];
    simpl in Hget; by destruct (anyDoc _ docs).
Qed.

(** The entry of a day. *)
Lemma dailyEntry_sums docs year monthNum day :
  let key := dayKey year monthNum (Z.of_nat day) in
  dailyEntry (dailyTotals (aggregateAll docs)) year monthNum day
  = {| dsDate := key;
       dsIncome := sumWhere (both (onDay key) isIncome) docs;
       dsExpenses := sumWhere (both (onDay key) isExpense) docs;
       dsNet := sumWhere (both (onDay key) isIncome) docs
                + sumWhere (both (onDay key) isExpense) docs;
       dsTransactionCount := countWhere (onDay key) docs |}.
Proof.
  intros key. unfold dailyEntry. fold key.
  pose proof (dailyTotals_get docs key (dayKey_nonempty _ _ _)) as Hget.
  destruct (mapGet key (dailyTotals (aggregateAll docs))) as [t|];
    simpl in Hget |- *.
  - destruct (anyDoc _ docs); [|done]. by injection Hget as -> -> ->.
  - destruct (anyDoc (onDay key) docs) eqn:Hany; [done|].
    rewrite !sumWhere_none, countWhere_none; [done| | |].
    + by apply anyDoc_false.
    + intros x Hx. unfold both. by rewrite (anyDoc_false _ _ Hany x Hx).
    + intros x Hx. unfold both. by rewrite (anyDoc_false _ _ Hany x Hx).
Qed.


End OverviewSpec.


(* ================================================================== *)
(** * Further properties *)
(* ================================================================== *)

(** ** Splitting and unsplitting *)

Section SplitRoundTrip.

Lemma fold_delete_lookup {A} (l : list (string * A)) (m : gmap string A) k :
  fold_left (fun m c => delete (fst c) m) l m !! k
  = if bool_decide (k ∈ List.map fst l) then None else m !! k.
Proof.
  revert m. induction l as [|[k' d] l IH]; intros m; simpl; [done|].
  rewrite IH. destruct (decide (k = k')) as [->|Hne].
  - rewrite lookup_delete_eq.
    rewrite (bool_decide_eq_true_2 (k' ∈ k' :: _)) by left.
    by destruct (bool_decide _).
  - rewrite lookup_delete_ne by done.
    destruct (bool_decide (k ∈ List.map fst l)) eqn:Hin.
    + apply bool_decide_eq_true in Hin.
      rewrite bool_decide_eq_true_2; [done|]. by right.
    + apply bool_decide_eq_false in Hin.
      rewrite bool_decide_eq_false_2; [done|].
      rewrite elem_of_cons. intros [?|?]; done.
Qed.

Lemma snapshot_NoDup {A} (c : gmap string A) p : NoDup (snapshot c p).
Proof.
  apply NoDup_ListNoDup, List.NoDup_filter, NoDup_ListNoDup, NoDup_map_to_list.
Qed.

Lemma childDocs_lookup autoId uid txId parentData now l i split :
  l !! i = Some split ->
  childDocs autoId uid txId parentData now l !! i
  = Some (autoId i, childData uid txId parentData now (length l) i split).
Proof. intros Hi. unfold childDocs. by rewrite list_lookup_imap, Hi. Qed.

Lemma childDocs_In autoId uid txId parentData now l k d :
  In (k, d) (childDocs autoId uid txId parentData now l) <->
  exists i split, l !! i = Some split /\ k = autoId i /\
                  d = childData uid txId parentData now (length l) i split.
Proof.
  rewrite <- list_elem_of_In, list_elem_of_lookup. unfold childDocs. split.
  - intros [i Hi]. rewrite list_lookup_imap in Hi.
    destruct (l !! i) as [split|] eqn:Hl; [|done].
    simpl in Hi. injection Hi as <- <-. by exists i, split.
  - intros (i & split & Hl & -> & ->). exists i.
    by rewrite list_lookup_imap, Hl.
Qed.

Lemma childDocs_NoDup autoId uid txId parentData now l (m : gmap string Tx.t) :
  freshIds autoId (length l) m ->
  NoDup (childDocs autoId uid txId parentData now l).
Proof.
  intros [_ Hinj]. apply NoDup_alt. intros i j [k d] Hi Hj.
  unfold childDocs in Hi, Hj. rewrite list_lookup_imap in Hi, Hj.
  destruct (l !! i) as [si|] eqn:Hli; [|done].
  destruct (l !! j) as [sj|] eqn:Hlj; [|done].
  simpl in Hi, Hj. injection Hi as Hki _. injection Hj as Hkj _.
  apply Hinj; [by eapply lookup_lt_Some|by eapply lookup_lt_Some|congruence].
Qed.

Context (db : Db) (uid txId : string) (parentData : Tx.t)
        (body : SplitTransactionBody) (now : Z) (autoId : nat -> string).
Context (Hparent : transactions db !! txId = Some parentData).
Context (Hfresh : freshIds autoId (length (splits body)) (transactions db)).
Context (Hnone : forall k d, transactions db !! k = Some d ->
                             Tx.splitParentId d <> Some txId).

Local Abbreviation afterSplit :=
  (setChildren autoId uid txId parentData now (length (splits body)) 0
     (splits body)
     (<[txId := setIsSplitParent parentData true now]> (transactions db))).

Lemma txId_not_drawn i :
  (i < length (splits body))%nat -> txId <> autoId i.
Proof.
  intros Hi Heq. destruct Hfresh as [Hnew _].
  specialize (Hnew i Hi). rewrite <- Heq in Hnew. congruence.
Qed.

Lemma afterSplit_parent :
  afterSplit !! txId = Some (setIsSplitParent parentData true now).
Proof.
  rewrite setChildren_lookup_other.
  - by rewrite lookup_insert_eq.
  - intros j Hj. by apply txId_not_drawn.
Qed.

Lemma afterSplit_child i split :
  splits body !! i = Some split ->
  afterSplit !! autoId i
  = Some (childData uid txId parentData now (length (splits body)) i split).
Proof.
  intros Hi. destruct Hfresh as [_ Hinj].
  apply (setChildren_lookup_child autoId uid txId parentData now _ _ 0 _ i split Hi).
  intros a b Ha Hb. simpl. by apply Hinj.
Qed.

Lemma afterSplit_other k :
  k <> txId -> (forall i, (i < length (splits body))%nat -> k <> autoId i) ->
  afterSplit !! k = transactions db !! k.
Proof.
  intros Hk Hi. rewrite setChildren_lookup_other by (intros j Hj; by apply Hi).
  by rewrite lookup_insert_ne.
Qed.

(** After the split, the documents that name [txId] as their parent are
    the ones just written, no others. *)
Lemma afterSplit_children k d :
  afterSplit !! k = Some d /\
  (String.eqb (Tx.uid d) uid &&
   bool_decide (Tx.splitParentId d = Some txId)) = true
  <-> In (k, d) (childDocs autoId uid txId parentData now (splits body)).
Proof.
  rewrite childDocs_In. split.
  - intros [Hk Hp]. apply andb_true_iff in Hp as [_ Hp].
    apply bool_decide_eq_true in Hp.
    destruct (decide (k = txId)) as [->|Hne].
    { rewrite afterSplit_parent in Hk. injection Hk as <-.
      simpl in Hp. by apply Hnone in Hparent. }
    destruct (decide (k ∈ autoId <$> seq 0 (length (splits body))))
      as [Hin|Hno].
    + apply list_elem_of_fmap in Hin as (i & -> & Hi).
      apply elem_of_seq in Hi as [_ Hi]. simpl in Hi.
      destruct (lookup_lt_is_Some_2 (splits body) i Hi) as [split Hs].
      rewrite (afterSplit_child i split Hs) in Hk. injection Hk as <-.
      by exists i, split.
    + rewrite afterSplit_other in Hk; [by apply Hnone in Hk|done|].
      intros i Hi ->. apply Hno. apply list_elem_of_fmap. exists i.
      split; [done|]. apply elem_of_seq. lia.
  - intros (i & split & Hs & -> & ->). split.
    + by apply afterSplit_child.
    + simpl. rewrite String.eqb_refl. simpl. by apply bool_decide_eq_true.
Qed.

Lemma childrenOf_afterSplit :
  Permutation (childrenOf (setTransactions db afterSplit) uid txId)
              (childDocs autoId uid txId parentData now (splits body)).
Proof.
  apply NoDup_Permutation.
  - apply snapshot_NoDup.
  - by eapply childDocs_NoDup.
  - intros [k d]. rewrite !list_elem_of_In. unfold childrenOf.
    rewrite snapshot_In. simpl. apply afterSplit_children.
Qed.

End SplitRoundTrip.

Lemma totalChildAmount_from (l : list SplitChild) a :
  fold_left (fun sum c => sum + childAmount c) l a
  = a + totalChildAmount l.
Proof.
  unfold totalChildAmount. revert a.
  induction l as [|c l IH]; intros a; simpl; [lia|].
  rewrite IH, (IH (0 + _)). lia.
Qed.

Lemma totalChildAmount_perm (l l' : list SplitChild) :
  Permutation l l' -> totalChildAmount l = totalChildAmount l'.
Proof.
  induction 1 as [|c l l' _ IH|c c' l|l1 l2 l3 _ IH1 _ IH2].
  - done.
  - unfold totalChildAmount. simpl.
    rewrite !(totalChildAmount_from _ (0 + _)). by rewrite IH.
  - unfold totalChildAmount. simpl.
    rewrite !(totalChildAmount_from _ (0 + _ + _)). lia.
  - congruence.
Qed.

Lemma totalSplitAmount_from (l : list SplitPart) a :
  fold_left (fun sum s => sum + partAmount s) l a = a + totalSplitAmount l.
Proof.
  unfold totalSplitAmount. revert a.
  induction l as [|c l IH]; intros a; simpl; [lia|].
  rewrite IH, (IH (0 + _)). lia.
Qed.

Lemma totalChildAmount_parts autoId (l : list SplitPart) i :
  totalChildAmount (imap (fun j => childOfPart autoId (i + j)) l)
  = totalSplitAmount l.
Proof.
  revert i. induction l as [|s l IH]; intros i; [done|].
  unfold totalChildAmount, totalSplitAmount. simpl.
  rewrite totalChildAmount_from, totalSplitAmount_from. simpl.
  f_equal. rewrite <- (IH (S i)). f_equal.
  apply imap_ext. intros j x _. simpl. f_equal. lia.
Qed.

Lemma splitTransaction_returned db uid txId parentData body now autoId r :
  transactions db !! txId = Some parentData ->
  snd (splitTransaction db uid txId body now autoId) = Returned (Some r) ->
  String.eqb (Tx.uid parentData) uid = true /\
  Tx.isSplitParent parentData = false /\
  validateSplits (Tx.amount parentData) (splits body) = None /\
  fst (splitTransaction db uid txId body now autoId)
  = setTransactions db
      (setChildren autoId uid txId parentData now (length (splits body)) 0
         (splits body)
         (<[txId := setIsSplitParent parentData true now]> (transactions db))).
Proof.
  intros Hp. unfold splitTransaction. rewrite Hp.
  destruct (String.eqb (Tx.uid parentData) uid); simpl; [|done].
  destruct (Tx.isSplitParent parentData); simpl; [done|].
  destruct (truthy (Tx.splitParentId parentData)); simpl; [done|].
  destruct (validateSplits _ _); simpl; [done|]. done.
Qed.

(** X1. Splitting a transaction and then unsplitting it puts the
    collection back: with the child ids drawn new and distinct and no
    document naming the transaction as its parent beforehand,
    [unsplitTransaction] after a successful [splitTransaction] deletes
    exactly the children just written, reports their number, and leaves
    the database as it was before the split, except for the parent's
    [updatedAt]. *)
Theorem unsplit_after_split_restores :
  forall (db : Db) (uid txId : string) (parentData : Tx.t)
         (body : SplitTransactionBody) (now now' : Z) (autoId : nat -> string),
  transactions db !! txId = Some parentData ->
  freshIds autoId (length (splits body)) (transactions db) ->
  (forall k d, transactions db !! k = Some d ->
               Tx.splitParentId d <> Some txId) ->
  let out := splitTransaction db uid txId body now autoId in
  (exists r, snd out = Returned (Some r)) ->
  Tx.isSplitParent parentData = false /\
  unsplitTransaction (fst out) uid txId now'
  = (setTransactions db
       (<[txId := setIsSplitParent parentData false now']> (transactions db)),
     Returned (Some (txId, false, Tx.amount parentData,
                     length (splits body)))).
Proof.
  intros db uid txId parentData body now now' autoId Hp Hfresh Hnone out [r Hr].
  destruct (splitTransaction_returned _ _ _ _ _ _ _ _ Hp Hr)
    as (Hu & Hflag & _ & Hdb).
  split; [done|]. subst out. rewrite Hdb.
  pose proof (childrenOf_afterSplit db uid txId parentData body now autoId
                Hp Hfresh Hnone) as Hperm.
  unfold unsplitTransaction.
  cbn [transactions setTransactions].
  rewrite (afterSplit_parent db uid txId parentData body now autoId Hp Hfresh).
  cbn [Tx.uid Tx.isSplitParent setIsSplitParent]. rewrite Hu. cbn [negb].
  fold (childrenOf (setTransactions db
          (setChildren autoId uid txId parentData now (length (splits body)) 0
             (splits body)
             (<[txId := setIsSplitParent parentData true now]> (transactions db))))
          uid txId).
  f_equal.
  - unfold setTransactions. cbn. f_equal.
    apply map_eq. intros k.
    destruct (decide (k = txId)) as [->|Hne].
    { by rewrite !lookup_insert_eq. }
    rewrite !lookup_insert_ne by done.
    rewrite fold_delete_lookup.
    destruct (bool_decide _) eqn:Hin.
    + apply bool_decide_eq_true, list_elem_of_In, in_map_iff in Hin
        as ([k' d] & Hk & Hin). simpl in Hk. subst k'.
      apply (Permutation_in _ Hperm), childDocs_In in Hin
        as (i & split & Hs & -> & _).
      symmetry. apply Hfresh. by eapply lookup_lt_Some.
    + apply bool_decide_eq_false in Hin.
      apply (afterSplit_other db uid txId parentData body now autoId);
        [done|].
      intros i Hi ->. apply Hin.
      destruct (lookup_lt_is_Some_2 (splits body) i Hi) as [split Hs].
      apply list_elem_of_In, in_map_iff.
      exists (autoId i,
              childData uid txId parentData now (length (splits body)) i split).
      split; [done|].
      apply (Permutation_in _ (Permutation_sym Hperm)), childDocs_In.
      by exists i, split.
  - do 3 f_equal.
    transitivity (length (childDocs autoId uid txId parentData now (splits body))).
    + exact (Permutation_length Hperm).
    + unfold childDocs. by rewrite length_imap.
Qed.

Lemma numToString_inj (a b : Z) : numToString a = numToString b -> a = b.
Proof.
  unfold numToString. intros Heq. apply DecimalZ.to_int_inj.
  assert (forall z, NilZero.int_of_string (NilZero.string_of_int (Z.to_int z))
                    = Some (Z.to_int z)) as Hisi.
  { intros z. apply NilZero.isi; intros Hz.
    - pose proof (f_equal Z.of_int Hz) as Hz'.
      rewrite DecimalZ.of_to in Hz'. simpl in Hz'. subst z. discriminate Hz.
    - pose proof (f_equal Z.of_int Hz) as Hz'.
      rewrite DecimalZ.of_to in Hz'. simpl in Hz'. subst z. discriminate Hz. }
  apply (f_equal NilZero.int_of_string) in Heq.
  rewrite !Hisi in Heq. congruence.
Qed.

Lemma exampleIds_fresh n : freshIds exampleIds n (transactions exampleDb).
Proof.
  split.
  - intros i _. apply lookup_singleton_ne. unfold exampleIds.
    destruct (numToString (Z.of_nat i)); discriminate.
  - intros i j _ _ Heq. unfold exampleIds in Heq.
    injection Heq as Heq. by apply Nat2Z.inj, numToString_inj.
Qed.

Lemma unsplit_after_split_restores_witness :
  Tx.isSplitParent exampleTx = false /\
  unsplitTransaction
    (fst (splitTransaction exampleDb "alice" "tx1"
            {| splits := [part (-4000) (Some "food"%string); part (-6000) None] |}
            7 exampleIds))
    "alice" "tx1" 9
  = (setTransactions exampleDb
       (<["tx1"%string := setIsSplitParent exampleTx false 9]>
          (transactions exampleDb)),
     Returned (Some ("tx1"%string, false, -10000, 2%nat))).
Proof.
  apply (unsplit_after_split_restores exampleDb "alice" "tx1" exampleTx
           {| splits := [part (-4000) (Some "food"%string); part (-6000) None] |}
           7 9 exampleIds).
  - reflexivity.
  - apply exampleIds_fresh.
  - intros k d Hk. change (transactions exampleDb) with
      ({[ "tx1"%string := exampleTx ]} : gmap string Tx.t) in Hk.
    apply lookup_singleton_Some in Hk as [_ <-]. discriminate.
  - vm_compute. eexists. reflexivity.
Defined.

(** X2. After a successful split, [getSplitChildren] lists exactly the
    parts of the request, each under the id drawn for it and with its
    amount, category and notes, and their amounts add up to the
    parent's amount. *)
Theorem getSplitChildren_after_split :
  forall (db : Db) (uid txId : string) (parentData : Tx.t)
         (body : SplitTransactionBody) (now : Z) (autoId : nat -> string),
  transactions db !! txId = Some parentData ->
  freshIds autoId (length (splits body)) (transactions db) ->
  (forall k d, transactions db !! k = Some d ->
               Tx.splitParentId d <> Some txId) ->
  let out := splitTransaction db uid txId body now autoId in
  (exists r, snd out = Returned (Some r)) ->
  Permutation (getSplitChildren (fst out) uid txId)
              (imap (childOfPart autoId) (splits body)) /\
  totalChildAmount (getSplitChildren (fst out) uid txId)
  = Tx.amount parentData.
Proof.
  intros db uid txId parentData body now autoId Hp Hfresh Hnone out [r Hr].
  destruct (splitTransaction_returned _ _ _ _ _ _ _ _ Hp Hr)
    as (Hu & Hflag & Hvalid & Hdb).
  subst out. rewrite Hdb.
  pose proof (childrenOf_afterSplit db uid txId parentData body now autoId
                Hp Hfresh Hnone) as Hperm.
  assert (Permutation
            (getSplitChildren
               (setTransactions db
                  (setChildren autoId uid txId parentData now
                     (length (splits body)) 0 (splits body)
                     (<[txId := setIsSplitParent parentData true now]>
                        (transactions db)))) uid txId)
            (imap (childOfPart autoId) (splits body))) as Hlist.
  { unfold getSplitChildren.
    etransitivity; [exact (Permutation_map _ Hperm)|].
    unfold childDocs.
    match goal with
    | |- Permutation (List.map ?g ?l) _ => change (List.map g l) with (g <$> l)
    end.
    by rewrite fmap_imap. }
  split; [done|].
  rewrite (totalChildAmount_perm _ _ Hlist).
  change (imap (childOfPart autoId) (splits body))
    with (imap (fun j => childOfPart autoId (0 + j)) (splits body)).
  rewrite (totalChildAmount_parts autoId (splits body) 0).
  unfold validateSplits in Hvalid.
  destruct (_ <? _)%nat; [done|]. destruct (_ <? _)%nat; [done|].
  by destruct (Z.eqb_spec (totalSplitAmount (splits body)) (Tx.amount parentData)).
Qed.

Lemma getSplitChildren_after_split_witness :
  let out := splitTransaction exampleDb "alice" "tx1"
               {| splits := [part (-4000) (Some "food"%string);
                             part (-6000) None] |} 7 exampleIds in
  Permutation (getSplitChildren (fst out) "alice" "tx1")
              [childOfPart exampleIds 0 (part (-4000) (Some "food"%string));
               childOfPart exampleIds 1 (part (-6000) None)] /\
  totalChildAmount (getSplitChildren (fst out) "alice" "tx1") = -10000.
Proof.
  apply (getSplitChildren_after_split exampleDb "alice" "tx1" exampleTx
           {| splits := [part (-4000) (Some "food"%string); part (-6000) None] |}
           7 exampleIds).
  - reflexivity.
  - apply exampleIds_fresh.
  - intros k d Hk. change (transactions exampleDb) with
      ({[ "tx1"%string := exampleTx ]} : gmap string Tx.t) in Hk.
    apply lookup_singleton_Some in Hk as [_ <-]. discriminate.
  - vm_compute. eexists. reflexivity.
Defined.

Lemma append_inj_prefix (p a b : string) : p +:+ a = p +:+ b -> a = b.
Proof.
  induction p as [|c p IH]; simpl; [done|]. intros Heq. apply IH.
  by injection Heq.
Qed.

Lemma append_not_self (p s : string) : s <> EmptyString -> p <> p +:+ s.
Proof.
  intros Hs. induction p as [|c p IH]; simpl.
  - intros Heq. apply Hs. by rewrite Heq.
  - intros Heq. apply IH. by injection Heq.
Qed.

(** X3. The children of a split get transaction keys of their own: the
    keys of two different parts differ, and none is the parent's key,
    whatever the parent's key is. *)
Theorem split_children_keys_distinct :
  forall (uid txId : string) (parentData : Tx.t) (now : Z) (n i j : nat)
         (si sj : SplitPart),
  i <> j ->
  Tx.txKey (childData uid txId parentData now n i si)
  <> Tx.txKey (childData uid txId parentData now n j sj) /\
  Tx.txKey (childData uid txId parentData now n i si) <> Tx.txKey parentData.
Proof.
  intros uid txId parentData now n i j si sj Hij. simpl. split.
  - intros Heq. apply append_inj_prefix in Heq. simpl in Heq.
    injection Heq as Heq. apply numToString_inj in Heq. lia.
  - intros Heq. symmetry in Heq. by apply append_not_self in Heq.
Qed.

Lemma split_children_keys_distinct_witness :
  Tx.txKey (childData "alice" "tx1" exampleTx 7 2 0 (part (-4000) None))
  <> Tx.txKey (childData "alice" "tx1" exampleTx 7 2 1 (part (-6000) None)) /\
  Tx.txKey (childData "alice" "tx1" exampleTx 7 2 0 (part (-4000) None))
  <> Tx.txKey exampleTx.
Proof.
  apply (split_children_keys_distinct "alice" "tx1" exampleTx 7 2 0 1). lia.
Defined.

(** ** Rules *)

Section RuleFacts.
Context `{JsRuntime}.

Lemma length_filter_perm {A} (p : A -> bool) (l l' : list A) :
  Permutation l l' -> length (List.filter p l) = length (List.filter p l').
Proof.
  induction 1 as [|x l l' _ IH|x y l|l1 l2 l3 _ IH1 _ IH2]; simpl.
  - done.
  - destruct (p x); simpl; congruence.
  - destruct (p x), (p y); simpl; congruence.
  - congruence.
Qed.

Lemma ruleCount_delete db uid ruleId data :
  rules db !! ruleId = Some data -> ruleUid data = uid ->
  ruleCount (setRules db (delete ruleId (rules db))) uid = ruleCount db uid - 1.
Proof.
  intros Hd Hu. unfold ruleCount, snapshot. simpl.
  rewrite <- (length_filter_perm _ _ _ (map_to_list_delete _ _ _ Hd)).
  simpl. rewrite Hu, String.eqb_refl. simpl. lia.
Qed.

Lemma createRule_cap db uid body source now newId :
  MAX_RULES_PER_USER <= ruleCount db uid ->
  createRule db uid body source now newId
  = (db, Thrown "Maximum of 100 rules allowed per user").
Proof.
  intros Hc. unfold createRule. fold (ruleCount db uid).
  by destruct (Z.leb_spec MAX_RULES_PER_USER (ruleCount db uid)); [|lia].
Qed.

Lemma createRule_returned db uid body src now newId :
  ruleCount db uid < MAX_RULES_PER_USER ->
  conditionKeys (bodyConditions body) <> 0%nat ->
  (truthy (merchantRegex (bodyConditions body)) = true ->
   regExpCompiles (default EmptyString (merchantRegex (bodyConditions body)))
   = true) ->
  actCategoryId (bodyAction body) <> EmptyString ->
  exists rule,
    createRule db uid body src now newId
    = (setRules db (<[newId := rule]> (rules db)), Returned (newId, rule)) /\
    ruleUid rule = uid /\ enabled rule = true /\
    conditions rule = bodyConditions body /\ action rule = bodyAction body /\
    source rule = src /\ matchCount rule = 0 /\
    priority rule
    = Z.min (Z.max (default (if eqSource src SrcSuggestion
                             then SUGGESTION_PRIORITY else DEFAULT_PRIORITY)
                            (bodyPriority body)) 1) 1000.
Proof.
  intros Hc Hk Hre Hcat. unfold createRule. fold (ruleCount db uid).
  destruct (Z.leb_spec MAX_RULES_PER_USER (ruleCount db uid)); [lia|].
  destruct (Nat.eqb_spec (conditionKeys (bodyConditions body)) 0); [done|].
  destruct (truthy (merchantRegex (bodyConditions body))); simpl.
  - rewrite Hre by done. simpl.
    apply String.eqb_neq in Hcat. rewrite Hcat.
    eexists. split; [reflexivity|done].
  - apply String.eqb_neq in Hcat. rewrite Hcat.
    eexists. split; [reflexivity|done].
Qed.

(** X4. The cap of 100 rules per owner counts the rules the owner has
    now: with 100 rules [createRule] throws and writes nothing, whatever
    the body, and after the owner deletes one of them the same request
    is accepted (when it is otherwise well formed). *)
Theorem deleteRule_frees_a_slot :
  forall (db : Db) (uid ruleId : string) (body : CreateRuleBody)
         (source : RuleSource) (now : Z) (newId : string),
  ruleCount db uid = MAX_RULES_PER_USER ->
  snd (deleteRule db uid ruleId) = true ->
  conditionKeys (bodyConditions body) <> 0%nat ->
  (truthy (merchantRegex (bodyConditions body)) = true ->
   regExpCompiles (default EmptyString (merchantRegex (bodyConditions body)))
   = true) ->
  actCategoryId (bodyAction body) <> EmptyString ->
  createRule db uid body source now newId
  = (db, Thrown "Maximum of 100 rules allowed per user") /\
  exists rule,
    snd (createRule (fst (deleteRule db uid ruleId)) uid body source now newId)
    = Returned (newId, rule).
Proof.
  intros db uid ruleId body source now newId Hc Hdel Hk Hre Hcat. split.
  - apply createRule_cap. lia.
  - unfold deleteRule in *.
    destruct (rules db !! ruleId) as [data|] eqn:Hd; [|done].
    destruct (String.eqb_spec (ruleUid data) uid) as [Hu|]; [|done]. simpl.
    destruct (createRule_returned
                (setRules db (delete ruleId (rules db))) uid body source now newId)
      as (rule & Hr & _); try done.
    + rewrite (ruleCount_delete db uid ruleId data Hd Hu). lia.
    + exists rule. by rewrite Hr.
Qed.

End RuleFacts.

Lemma deleteRule_frees_a_slot_witness :
  let db := setRules emptyDb (manyRules "alice" 100) in
  let body := regexOnlyBody "tea" "TEA" "dining" in
  @createRule exampleRuntime db "alice" body SrcUser 5 "new"
  = (db, Thrown "Maximum of 100 rules allowed per user") /\
  exists rule,
    snd (@createRule exampleRuntime (fst (deleteRule db "alice" "c7"))
           "alice" body SrcUser 5 "new")
    = Returned ("new"%string, rule).
Proof.
  apply (@deleteRule_frees_a_slot exampleRuntime).
  - by vm_compute.
  - by vm_compute.
  - by vm_compute.
  - reflexivity.
  - done.
Defined.

Section RuleRoundTrip.
Context `{JsRuntime}.

Lemma createRule_inv db uid body source now newId id rule :
  snd (createRule db uid body source now newId) = Returned (id, rule) ->
  id = newId /\
  fst (createRule db uid body source now newId)
  = setRules db (<[newId := rule]> (rules db)) /\
  ruleUid rule = uid /\ enabled rule = true /\
  1 <= priority rule <= 1000.
Proof.
  unfold createRule.
  destruct (_ <=? _); [done|]. destruct (_ =? _)%nat; [done|].
  destruct (_ && _); [done|]. destruct (String.eqb _ _); [done|]. simpl.
  intros [= <- <-]. simpl. split_and!; try done; lia.
Qed.

(** X5. A rule that [createRule] returns is stored under the id it
    reports: its owner reads it back with [getRule] and finds it in
    [listRules], also among the enabled ones; it belongs to the caller,
    is enabled, and its priority lies between 1 and 1000 whatever
    priority was asked for; no other rule document changes. *)
Theorem createRule_then_getRule :
  forall (db : Db) (uid : string) (body : CreateRuleBody)
         (source : RuleSource) (now : Z) (newId id : string) (rule : Rule),
  let out := createRule db uid body source now newId in
  snd out = Returned (id, rule) ->
  getRule (fst out) uid id = Some (id, rule) /\
  In (id, rule) (listRules (fst out) uid true) /\
  ruleUid rule = uid /\ enabled rule = true /\
  1 <= priority rule <= 1000 /\
  (forall other, other <> id -> rules (fst out) !! other = rules db !! other).
Proof.
  intros db uid body source now newId id rule out Hout.
  destruct (createRule_inv _ _ _ _ _ _ _ _ Hout)
    as (-> & Hdb & Hu & He & Hp).
  subst out. rewrite Hdb.
  split; [|split; [|split; [done|split; [done|split; [done|]]]]].
  - unfold getRule. simpl. rewrite lookup_insert_eq.
    by rewrite Hu, String.eqb_refl.
  - unfold listRules, orderByDesc.
    apply (Permutation_in _ (Permutation_sym (jsSort_perm _ _))).
    apply snapshot_In. simpl. rewrite lookup_insert_eq. split; [done|].
    by rewrite Hu, String.eqb_refl, He.
  - intros other Hne. simpl. by rewrite lookup_insert_ne.
Qed.

Lemma reorderUpdates_range i ids u :
  0 <= i -> In u (reorderUpdates i ids) ->
  1000 - i - Z.of_nat (length ids) < snd u <= 1000 - i.
Proof.
  revert i. induction ids as [|id ids IH]; intros i Hi; simpl; [done|].
  assert (In u (reorderUpdates (i + 1) ids) ->
          1000 - i - Z.of_nat (S (length ids)) < snd u <= 1000 - i) as Hrest.
  { intros Hin. apply IH in Hin; lia. }
  destruct (String.eqb id EmptyString); [done|].
  intros [<-|Hin]; [simpl; lia|auto].
Qed.

Lemma fold_alter_priority (P : Rule -> Prop) now (ups : list (string * Z))
    (m : gmap string Rule) :
  (forall r u, In u ups -> P (setPriority r (snd u) now)) ->
  (forall id r, m !! id = Some r -> P r) ->
  forall id r,
    fold_left (fun m u => alter (fun r => setPriority r (snd u) now) (fst u) m)
              ups m !! id = Some r -> P r.
Proof.
  revert m. induction ups as [|u ups IH]; intros m Hups Hm; simpl; [done|].
  apply IH.
  - intros r u' Hin. apply Hups. by right.
  - intros id r. destruct (decide (fst u = id)) as [<-|Hne].
    + rewrite lookup_alter_eq. destruct (m !! fst u) eqn:Hl; [|done].
      simpl. intros [= <-]. apply Hups. by left.
    + rewrite lookup_alter_ne by done. apply Hm.
Qed.

(** X6. Priorities stay in the documented range 1..1000: if every
    stored rule has its priority in the range, so it is after
    [createRule], [updateRule], [deleteRule] and [updateRuleStats],
    with any arguments, and after [reorderRules] when it is given at
    most 1000 ids. *)
Theorem rule_priorities_stay_in_range :
  forall (db : Db),
  everyRule priorityInRange db ->
  (forall uid body source now newId,
     everyRule priorityInRange (fst (createRule db uid body source now newId))) /\
  (forall uid ruleId body now,
     everyRule priorityInRange (fst (updateRule db uid ruleId body now))) /\
  (forall uid ruleId,
     everyRule priorityInRange (fst (deleteRule db uid ruleId))) /\
  (forall ruleId now,
     everyRule priorityInRange (updateRuleStats db ruleId now)) /\
  (forall uid ruleIds now,
     (length ruleIds <= 1000)%nat ->
     everyRule priorityInRange (fst (reorderRules db uid ruleIds now))).
Proof.
  intros db Hinv. split_and!.
  - intros uid body source now newId.
    destruct (snd (createRule db uid body source now newId)) as [[id rule]|m]
      eqn:Hout.
    + destruct (createRule_inv _ _ _ _ _ _ _ _ Hout) as (-> & -> & _ & _ & Hp).
      intros k r. simpl. destruct (decide (k = newId)) as [->|Hne].
      * rewrite lookup_insert_eq. by intros [= <-].
      * rewrite lookup_insert_ne by done. apply Hinv.
    + revert Hout. unfold createRule.
      destruct (_ <=? _); [done|]. destruct (_ =? _)%nat; [done|].
      destruct (_ && _); [done|]. by destruct (String.eqb _ _).
  - intros uid ruleId body now. unfold updateRule.
    destruct (rules db !! ruleId) as [data|] eqn:Hd; [|done].
    destruct (negb _); [done|].
    do 3 (match goal with
          | |- context [if ?b then _ else _] => destruct b eqn:?; [done|]
          end).
    intros k r. simpl. destruct (decide (k = ruleId)) as [->|Hne].
    + rewrite lookup_insert_eq. intros [= <-].
      unfold priorityInRange, applyRuleUpdate. simpl.
      destruct (urPriority body); [lia|]. by apply (Hinv ruleId).
    + rewrite lookup_insert_ne by done. apply Hinv.
  - intros uid ruleId. unfold deleteRule.
    destruct (rules db !! ruleId) as [data|] eqn:Hd; [|done].
    destruct (negb _); [done|].
    intros k r. simpl. intros Hk. apply lookup_delete_Some in Hk as [_ Hk].
    by apply (Hinv k).
  - intros ruleId now k r. unfold updateRuleStats. simpl.
    destruct (decide (k = ruleId)) as [->|Hne].
    + rewrite lookup_alter_eq. destruct (rules db !! ruleId) as [r0|] eqn:Hd; [|done].
      simpl. intros [= <-]. exact (Hinv ruleId r0 Hd).
    + rewrite lookup_alter_ne by done. apply Hinv.
  - intros uid ruleIds now Hlen. unfold reorderRules, commitPriorities.
    destruct (forallb _ _); [|done]. simpl.
    intros id r. simpl.
    apply (fold_alter_priority priorityInRange now (reorderUpdates 0 ruleIds)
             (rules db)); [|exact Hinv].
    clear id r. intros r u Hu. apply reorderUpdates_range in Hu; [|lia].
    unfold priorityInRange. simpl. lia.
Qed.

End RuleRoundTrip.

Lemma createRule_then_getRule_witness :
  let out := @createRule exampleRuntime exampleRulesDb "alice"
               {| bodyName := "tea"; bodyPriority := Some 5000;
                  bodyConditions := conditions (containsRule 1 "TEA" "dining");
                  bodyAction := action (containsRule 1 "TEA" "dining") |}
               SrcUser 5 "new" in
  let rule := {| ruleUid := "alice"; name := "tea"; enabled := true;
                 priority := 1000;
                 conditions := conditions (containsRule 1 "TEA" "dining");
                 action := action (containsRule 1 "TEA" "dining");
                 source := SrcUser; matchCount := 0; lastMatchedAt := None;
                 ruleUpdatedAt := 5 |} in
  getRule (fst out) "alice" "new" = Some ("new"%string, rule) /\
  In ("new"%string, rule) (listRules (fst out) "alice" true) /\
  ruleUid rule = "alice"%string /\ enabled rule = true /\
  1 <= priority rule <= 1000 /\
  (forall other, other <> "new"%string ->
                 rules (fst out) !! other = rules exampleRulesDb !! other).
Proof.
  apply (@createRule_then_getRule exampleRuntime exampleRulesDb "alice" _
           SrcUser 5 "new" "new").
  by vm_compute.
Defined.

Lemma rule_priorities_stay_in_range_witness :
  everyRule priorityInRange
    (fst (reorderRules exampleRulesDb "bob" ["bobRule"%string] 5)).
Proof.
  apply (@rule_priorities_stay_in_range exampleRuntime exampleRulesDb).
  - intros id r Hr.
    change (rules exampleRulesDb) with
      ({[ "bobRule"%string := exampleRule "bob" 500 ]} : gmap string Rule) in Hr.
    apply lookup_singleton_Some in Hr as [_ <-]. unfold priorityInRange. simpl. lia.
  - simpl. lia.
Defined.

Section SortedLists.

(** A list sorted by a key has one arrangement when the keys are
    pairwise distinct. *)
Lemma sorted_perm_unique {A} (key : A -> Z) (s s' : list A) :
  StronglySorted (fun a b => key b <= key a) s ->
  StronglySorted (fun a b => key b <= key a) s' ->
  Permutation s s' ->
  NoDup (List.map key s') ->
  s = s'.
Proof.
  revert s. induction s' as [|x t IH]; intros s Hs Hs' Hp Hnd.
  - by apply Permutation_nil_r in Hp.
  - destruct s as [|y s1].
    { symmetry in Hp. by apply Permutation_nil_r in Hp. }
    apply StronglySorted_inv in Hs as [Hs1 Hy].
    apply StronglySorted_inv in Hs' as [Ht Hx].
    rewrite List.Forall_forall in Hy, Hx.
    simpl in Hnd. pose proof (NoDup_cons_1_1 _ _ Hnd) as Hxt.
    apply NoDup_cons_1_2 in Hnd.
    assert (y = x) as ->.
    { pose proof (Permutation_in y Hp (or_introl eq_refl)) as [Hyx|Hyt]; [done|].
      pose proof (Permutation_in x (Permutation_sym Hp) (or_introl eq_refl))
        as [Hxy|Hxs]; [done|].
      exfalso. apply Hxt. apply list_elem_of_In, in_map_iff.
      exists y. split; [|done].
      specialize (Hx y Hyt). specialize (Hy x Hxs). simpl in *. lia. }
    f_equal. apply IH; try done. by apply Permutation_cons_inv in Hp.
Qed.

Lemma StronglySorted_by_lookup {A} (R : A -> A -> Prop) (l : list A) :
  (forall i j x y, (i < j)%nat -> l !! i = Some x -> l !! j = Some y -> R x y) ->
  StronglySorted R l.
Proof.
  induction l as [|a l IH]; intros Hl; constructor.
  - apply IH. intros i j x y Hij Hi Hj. by apply (Hl (S i) (S j)); [lia|..].
  - rewrite List.Forall_forall. intros y Hy.
    apply list_elem_of_In, list_elem_of_lookup in Hy as [j Hj].
    by apply (Hl 0%nat (S j)); [lia|..].
Qed.

Lemma List_filter_perm {A} (p : A -> bool) (l l' : list A) :
  Permutation l l' -> Permutation (List.filter p l) (List.filter p l').
Proof.
  induction 1 as [|x l l' _ IH|x y l|l1 l2 l3 _ IH1 _ IH2]; simpl.
  - done.
  - destruct (p x); [by constructor|done].
  - destruct (p x), (p y); try done. apply perm_swap.
  - by etransitivity.
Qed.

End SortedLists.

Section RuleOrder.
Context `{JsRuntime}.

(** X7. The result of the rule engine does not depend on the order in
    which the rules are handed to it, when the enabled rules have
    pairwise distinct priorities: any rearrangement of the list gives
    the same categorization, and so does the list sorted for display
    by [sortRulesByPriority]. (With equal priorities the order of the
    list decides.) *)
Theorem categorizeWithRules_order_irrelevant :
  forall (tx : TxView) (rules rules' : list (string * Rule)),
  Permutation rules rules' ->
  NoDup (List.map (fun r => priority (snd r))
                  (List.filter (fun r => enabled (snd r)) rules)) ->
  categorizeWithRules tx rules' = categorizeWithRules tx rules /\
  categorizeWithRules tx (sortRulesByPriority rules)
  = categorizeWithRules tx rules.
Proof.
  assert (forall tx (rules rules' : list (string * Rule)),
            Permutation rules rules' ->
            NoDup (List.map (fun r => priority (snd r))
                            (List.filter (fun r => enabled (snd r)) rules)) ->
            categorizeWithRules tx rules' = categorizeWithRules tx rules) as Hany.
  { intros tx rules rules' Hp Hnd. unfold categorizeWithRules. f_equal.
    apply (sorted_perm_unique (fun r => priority (snd r))).
    - apply sortedRules_sorted.
    - apply sortedRules_sorted.
    - rewrite !sortedRules_perm. apply List_filter_perm. by symmetry.
    - apply NoDup_ListNoDup.
      eapply Permutation_NoDup; [|apply NoDup_ListNoDup, Hnd].
      apply Permutation_map. symmetry. apply sortedRules_perm. }
  intros tx rules rules' Hp Hnd. split; [by apply Hany|].
  apply Hany; [|done]. symmetry. apply jsSort_perm.
Qed.

End RuleOrder.

Lemma categorizeWithRules_order_irrelevant_witness :
  @categorizeWithRules exampleRuntime (purchaseAt "BLUE COFFEE")
    [("b"%string, containsRule 200 "BLUE" "dining");
     ("a"%string, containsRule 100 "COFFEE" "drinks")]
  = @categorizeWithRules exampleRuntime (purchaseAt "BLUE COFFEE")
      [("a"%string, containsRule 100 "COFFEE" "drinks");
       ("b"%string, containsRule 200 "BLUE" "dining")] /\
  @categorizeWithRules exampleRuntime (purchaseAt "BLUE COFFEE")
    (sortRulesByPriority
       [("a"%string, containsRule 100 "COFFEE" "drinks");
        ("b"%string, containsRule 200 "BLUE" "dining")])
  = @categorizeWithRules exampleRuntime (purchaseAt "BLUE COFFEE")
      [("a"%string, containsRule 100 "COFFEE" "drinks");
       ("b"%string, containsRule 200 "BLUE" "dining")].
Proof.
  apply (@categorizeWithRules_order_irrelevant exampleRuntime).
  - apply perm_swap.
  - simpl. apply NoDup_cons_2; [|apply NoDup_singleton].
    rewrite list_elem_of_singleton. discriminate.
Defined.

Section ReorderOrder.

Lemma reorderUpdates_imap i ids :
  (forall id, id ∈ ids -> id <> EmptyString) ->
  reorderUpdates i ids = imap (fun j id => (id, 1000 - (i + Z.of_nat j))) ids.
Proof.
  revert i. induction ids as [|a ids IH]; intros i Hne; simpl; [done|].
  destruct (String.eqb_spec a EmptyString) as [->|_].
  { exfalso. apply (Hne EmptyString); [left|done]. }
  f_equal; [f_equal; lia|].
  rewrite IH by (intros id Hid; apply Hne; by right).
  apply imap_ext. intros j x _. simpl. f_equal. lia.
Qed.

Lemma fold_alter_lookup_other now (ups : list (string * Z))
    (m : gmap string Rule) k :
  k ∉ List.map fst ups ->
  fold_left (fun m u => alter (fun r => setPriority r (snd u) now) (fst u) m)
            ups m !! k = m !! k.
Proof.
  revert m. induction ups as [|u ups IH]; intros m Hk; simpl; [done|].
  simpl in Hk. rewrite IH.
  - rewrite lookup_alter_ne; [done|]. intros Heq. apply Hk.
    rewrite <- Heq. left.
  - intros Hin. apply Hk. by right.
Qed.

Lemma fold_alter_lookup_key now (ups : list (string * Z))
    (m : gmap string Rule) k p :
  NoDup (List.map fst ups) -> (k, p) ∈ ups ->
  fold_left (fun m u => alter (fun r => setPriority r (snd u) now) (fst u) m)
            ups m !! k = (fun r => setPriority r p now) <$> m !! k.
Proof.
  revert m. induction ups as [|u ups IH]; intros m Hnd Hin; simpl.
  { by apply elem_of_nil in Hin. }
  simpl in Hnd. pose proof (NoDup_cons_1_1 _ _ Hnd) as Hu.
  apply NoDup_cons_1_2 in Hnd.
  apply elem_of_cons in Hin as [<-|Hin].
  - simpl in *. rewrite fold_alter_lookup_other by done.
    by rewrite lookup_alter_eq.
  - rewrite IH by done. rewrite lookup_alter_ne; [done|].
    intros Heq. apply Hu. apply list_elem_of_In, in_map_iff.
    exists (k, p). split; [done|]. by apply list_elem_of_In.
Qed.

(** X8. [reorderRules] makes the requested order the order of
    evaluation: given each of the owner's rules exactly once, it returns
    (and [listRules] then shows) the rules in the order of the request,
    the rule at position [i] (from 0) carrying priority [1000 - i] and
    otherwise unchanged except for [updatedAt]. *)
Theorem reorderRules_sets_the_order :
  forall (db : Db) (uid : string) (ruleIds : list string) (now : Z),
  NoDup ruleIds ->
  (forall id, id ∈ ruleIds -> id <> EmptyString) ->
  (forall id, id ∈ ruleIds <->
              exists r, rules db !! id = Some r /\ ruleUid r = uid) ->
  exists l,
    snd (reorderRules db uid ruleIds now) = Returned l /\
    l = listRules (fst (reorderRules db uid ruleIds now)) uid false /\
    List.map fst l = ruleIds /\
    (forall i id r, l !! i = Some (id, r) ->
       exists r0, rules db !! id = Some r0 /\
                  r = setPriority r0 (1000 - Z.of_nat i) now).
Proof.
  intros db uid ids now Hnd Hne Hown.
  pose proof (reorderUpdates_imap 0 ids Hne) as Hups.
  set (ups := reorderUpdates 0 ids) in *.
  assert (List.map fst ups = ids) as Hkeys.
  { rewrite Hups. change (List.map fst ?l) with (fst <$> l).
    apply list_eq. intros i. rewrite list_lookup_fmap, list_lookup_imap.
    by destruct (ids !! i). }
  assert (forall k p, (k, p) ∈ ups <->
            exists j, ids !! j = Some k /\ p = 1000 - Z.of_nat j) as Hin.
  { intros k p. rewrite Hups, list_elem_of_lookup. split.
    - intros [j Hj]. rewrite list_lookup_imap in Hj.
      destruct (ids !! j) as [id|] eqn:Hid; [|done].
      simpl in Hj. injection Hj as <- <-. by exists j.
    - intros (j & Hj & ->). exists j. by rewrite list_lookup_imap, Hj. }
  unfold reorderRules, commitPriorities. fold ups.
  assert (forallb (fun u => bool_decide (is_Some (rules db !! fst u))) ups = true)
    as ->.
  { apply forallb_forall. intros [k p] Hk. apply bool_decide_eq_true. simpl.
    apply list_elem_of_In, Hin in Hk as (j & Hj & _).
    apply list_elem_of_lookup_2, Hown in Hj as (r & -> & _). by eexists. }
  set (m' := fold_left _ ups (rules db)).
  assert (forall j k, ids !! j = Some k ->
            exists r0, rules db !! k = Some r0 /\ ruleUid r0 = uid /\
                       m' !! k = Some (setPriority r0 (1000 - Z.of_nat j) now))
    as Hat.
  { intros j k Hj.
    pose proof (list_elem_of_lookup_2 _ _ _ Hj) as Hk.
    apply Hown in Hk as (r0 & Hr0 & Hu). exists r0. split_and!; try done.
    unfold m'. rewrite (fold_alter_lookup_key now ups (rules db) k
                          (1000 - Z.of_nat j)).
    - by rewrite Hr0.
    - by rewrite Hkeys.
    - apply Hin. by exists j. }
  assert (forall k, k ∉ ids -> m' !! k = rules db !! k) as Hoff.
  { intros k Hk. apply fold_alter_lookup_other. by rewrite Hkeys. }
  set (L := imap (fun j id =>
                    (id, setPriority (default (exampleRule uid 0) (rules db !! id))
                           (1000 - Z.of_nat j) now)) ids).
  assert (forall j x, L !! j = Some x ->
            exists k r0, ids !! j = Some k /\ rules db !! k = Some r0 /\
                         ruleUid r0 = uid /\
                         x = (k, setPriority r0 (1000 - Z.of_nat j) now) /\
                         m' !! k = Some (setPriority r0 (1000 - Z.of_nat j) now))
    as HL.
  { intros j x Hj. unfold L in Hj. rewrite list_lookup_imap in Hj.
    destruct (ids !! j) as [k|] eqn:Hk; [|done]. simpl in Hj.
    destruct (Hat j k Hk) as (r0 & Hr0 & Hu & Hm).
    exists k, r0. rewrite Hr0 in Hj. simpl in Hj. by injection Hj as <-. }
  assert (jsSort (fun a b => priority (snd b) - priority (snd a))
            (snapshot m' (fun _ r => String.eqb (ruleUid r) uid &&
                                     (negb false || enabled r))) = L) as Hsort.
  { apply (sorted_perm_unique (fun r : string * Rule => priority (snd r))).
    - apply (jsSort_sorted (fun r : string * Rule => priority (snd r))).
    - apply StronglySorted_by_lookup. intros i j x y Hij Hi Hj.
      destruct (HL i x Hi) as (? & ? & _ & _ & _ & -> & _).
      destruct (HL j y Hj) as (? & ? & _ & _ & _ & -> & _). simpl. lia.
    - rewrite jsSort_perm. apply NoDup_Permutation.
      + apply snapshot_NoDup.
      + apply NoDup_alt. intros i j x Hi Hj.
        destruct (HL i x Hi) as (? & ? & _ & _ & _ & -> & _).
        destruct (HL j _ Hj) as (? & ? & _ & _ & _ & Heq & _).
        apply (f_equal (fun x : string * Rule => priority (snd x))) in Heq.
        simpl in Heq. lia.
      + intros [k r]. rewrite list_elem_of_In, snapshot_In. simpl.
        rewrite andb_true_r. split.
        * intros [Hk Hu]. apply String.eqb_eq in Hu.
          destruct (decide (k ∈ ids)) as [Hids|Hids].
          -- apply list_elem_of_lookup in Hids as [j Hj].
             destruct (Hat j k Hj) as (r0 & Hr0 & _ & Hm).
             rewrite Hm in Hk. injection Hk as <-.
             apply list_elem_of_lookup. exists j. unfold L.
             rewrite list_lookup_imap, Hj. simpl. by rewrite Hr0.
          -- exfalso. apply Hids, Hown. exists r. split; [|done].
             transitivity (m' !! k); [symmetry; by apply Hoff|done].
        * intros Hk. apply list_elem_of_lookup in Hk as [j Hj].
          destruct (HL j _ Hj) as (k' & r0 & _ & _ & Hu & Heq & Hm).
          injection Heq as -> ->. split; [done|].
          simpl. by apply String.eqb_eq.
    - apply NoDup_alt. intros i j p.
      change (List.map ?f L) with (f <$> L). rewrite !list_lookup_fmap.
      destruct (L !! i) as [x|] eqn:Hi; [|done].
      destruct (L !! j) as [y|] eqn:Hj; [|done].
      destruct (HL i x Hi) as (? & ? & _ & _ & _ & -> & _).
      destruct (HL j y Hj) as (? & ? & _ & _ & _ & -> & _).
      simpl. intros [= <-] [= Heq]. lia. }
  exists L. cbn [fst snd]. unfold listRules, orderByDesc.
  cbn [rules setRules]. fold m'. rewrite Hsort. split_and!; try done.
  - unfold L. change (List.map fst ?l) with (fst <$> l).
    apply list_eq. intros i. rewrite list_lookup_fmap, list_lookup_imap.
    by destruct (ids !! i).
  - intros i id r Hi.
    destruct (HL i _ Hi) as (k & r0 & _ & Hr0 & _ & Heq & _).
    injection Heq as -> ->. by exists r0.
Qed.

End ReorderOrder.

(** Alice asks for the order [r1], [r3], [r2], which is not the order
    of the priorities 100, 500, 900 the three rules have. *)
Lemma reorderRules_sets_the_order_witness :
  let ruleIds := ["r1"; "r3"; "r2"]%string in
  List.map (fun x => (fst x, priority (snd x)))
           (listRules threeRulesDb "alice" false)
  = [("r2", 900); ("r3", 500); ("r1", 100)]%string
  /\ exists l,
    snd (reorderRules threeRulesDb "alice" ruleIds 5) = Returned l /\
    l = listRules (fst (reorderRules threeRulesDb "alice" ruleIds 5))
          "alice" false /\
    List.map fst l = ruleIds /\
    (forall i id r, l !! i = Some (id, r) ->
       exists r0, rules threeRulesDb !! id = Some r0 /\
                  r = setPriority r0 (1000 - Z.of_nat i) 5).
Proof.
  intros ruleIds. split; [by vm_compute|].
  apply (reorderRules_sets_the_order threeRulesDb "alice" ruleIds 5).
  - subst ruleIds.
    repeat (apply NoDup_cons_2;
            [intros Hin;
             repeat (apply elem_of_cons in Hin as [Hin|Hin]; [discriminate|]);
             by apply elem_of_nil in Hin|]).
    apply NoDup_nil_2.
  - intros id Hid. subst ruleIds.
    repeat (apply elem_of_cons in Hid as [->|Hid]; [discriminate|]).
    by apply elem_of_nil in Hid.
  - intros id. subst ruleIds. split.
    + intros Hid.
      repeat (apply elem_of_cons in Hid as [->|Hid];
              [eexists; split; [by vm_compute|reflexivity]|]).
      by apply elem_of_nil in Hid.
    + intros (r & Hr & Hu).
      change (rules threeRulesDb) with
        (<["r1"%string := containsRule 100 "COFFEE" "dining"]>
           (<["r2"%string := containsRule 900 "GROCER" "food"]>
              (<["r3"%string := containsRule 500 "FUEL" "car"]>
                 ({[ "bobRule"%string := exampleRule "bob" 500 ]}
                  : gmap string Rule)))) in Hr.
      rewrite !lookup_insert_Some, lookup_singleton_Some in Hr.
      destruct Hr as [[<- _]|[_ [[<- _]|[_ [[<- _]|[_ [_ <-]]]]]]];
        [repeat constructor|repeat constructor|repeat constructor
        |discriminate Hu].
Defined.

(** ** Rule suggestions *)

Section TextFacts.

Lemma startsWith_refl s : startsWith s s = true.
Proof.
  induction s as [|c s IH]; simpl; [done|].
  by rewrite Ascii.eqb_refl, IH.
Qed.

Lemma includes_refl s : includes s s = true.
Proof. destruct s; simpl; [done|]. by rewrite Ascii.eqb_refl, startsWith_refl. Qed.

End TextFacts.

Section SnapshotFacts.

Lemma snapshot_nil {A} (c : gmap string A) p :
  snapshot c p = [] <-> forall k d, c !! k = Some d -> p k d = false.
Proof.
  split.
  - intros Hs k d Hk. destruct (p k d) eqn:Hp; [|done].
    assert (In (k, d) (snapshot c p)) as Hin by by apply snapshot_In.
    by rewrite Hs in Hin.
  - intros Hall. destruct (snapshot c p) as [|[k d] l] eqn:Hs; [done|].
    assert (In (k, d) (snapshot c p)) as Hin by (rewrite Hs; by left).
    apply snapshot_In in Hin as [Hk Hp]. rewrite (Hall k d Hk) in Hp. done.
Qed.

Lemma existsb_snapshot {A} (c : gmap string A) p (q : string * A -> bool) :
  existsb q (snapshot c p) = true <->
  exists k d, c !! k = Some d /\ p k d = true /\ q (k, d) = true.
Proof.
  rewrite existsb_exists. split.
  - intros [[k d] [Hin Hq]]. apply snapshot_In in Hin as [Hk Hp]. by exists k, d.
  - intros (k & d & Hk & Hp & Hq). exists (k, d). split; [|done].
    by apply snapshot_In.
Qed.

End SnapshotFacts.

Section SuggestionFacts.
Context `{JsRuntime}.

Lemma generateRuleSuggestion_Some db uid tx c name nowMs rand s :
  generateRuleSuggestion db uid tx c name nowMs rand = Some s ->
  (3 <= String.length (merchantNormalized tx))%nat /\
  (forall k r, rules db !! k = Some r -> ruleUid r = uid ->
               similarRule (merchantNormalized tx) (conditions r) = false) /\
  dismissedFor db uid (merchantNormalized tx) c = [] /\
  sgRule s = suggestedRule (merchantNormalized tx) c name SUGGESTION_PRIORITY.
Proof.
  unfold generateRuleSuggestion.
  destruct (Nat.ltb_spec (String.length (merchantNormalized tx)) 3); [done|].
  destruct (existsb _ _) eqn:Hex; [done|].
  destruct (dismissedFor _ _ _ _) eqn:Hd; [|done].
  intros [= <-]. split_and!; try done.
  intros k r Hk Hu.
  destruct (similarRule _ _) eqn:Hs; [|done].
  assert (existsb (fun doc : string * Rule =>
                     similarRule (merchantNormalized tx) (conditions (snd doc)))
            (snapshot (rules db) (fun _ r => String.eqb (ruleUid r) uid)) = true)
    as Hex'; [|congruence].
  apply existsb_snapshot. exists k, r. split_and!; try done.
  by apply String.eqb_eq.
Qed.

Lemma suggested_rule_matches tx c name p :
  (3 <= String.length (merchantNormalized tx))%nat ->
  toUpperCase (merchantNormalized tx) = merchantNormalized tx ->
  matchRule tx (srConditions (suggestedRule (merchantNormalized tx) c name p))
  = isMatch Contains (merchantNormalized tx) (merchantNormalized tx).
Proof.
  intros Hlen Hup. unfold matchRule, accountGateFails, amountMinFails,
    amountMaxFails, tryExact, tryContains. simpl.
  destruct (merchantNormalized tx) as [|a m] eqn:Hm; [simpl in Hlen; lia|].
  cbn [String.eqb negb]. rewrite Hup. by rewrite includes_refl.
Qed.

(** Among the enabled rules that match, one of strictly highest
    priority decides. *)
Lemma top_matching_rule_wins tx (rules : list (string * Rule)) r :
  In r rules -> enabled (snd r) = true -> ruleMatches tx r = true ->
  (forall r', In r' rules -> enabled (snd r') = true ->
              ruleMatches tx r' = true -> r' = r \/
              priority (snd r') < priority (snd r)) ->
  categorizeWithRules tx rules = ruleHit r (matchRule tx (conditions (snd r))).
Proof.
  intros Hin Hen Hm Htop. unfold categorizeWithRules.
  assert (In r (sortedRules rules)) as Hs by by apply sortedRules_In.
  destruct (first_matching_split tx _ r Hs Hm)
    as (pre & w & post & Heq & Hpre & Hw).
  rewrite Heq, (firstMatch_first tx pre w post Hpre Hw).
  assert (In w (sortedRules rules)) as Hwin
    by (rewrite Heq; apply in_or_app; right; by left).
  apply sortedRules_In in Hwin as [Hwin Hwen].
  destruct (Htop w Hwin Hwen Hw) as [->|Hlt]; [done|].
  exfalso. rewrite Heq in Hs. apply in_app_or in Hs as [Hs|[Hs|Hs]].
  - apply Hpre in Hs. congruence.
  - subst w. lia.
  - pose proof (sorted_app_later _ pre w post r (sortedRules_sorted rules) Heq Hs).
    lia.
Qed.

End SuggestionFacts.

Section SuggestionSpec.
Context `{JsRuntime}.

Lemma acceptSuggestion_returned db uid tx c name s now newId :
  sgRule s = suggestedRule (merchantNormalized tx) c name SUGGESTION_PRIORITY ->
  ruleCount db uid < MAX_RULES_PER_USER ->
  c <> EmptyString ->
  exists rule,
    acceptSuggestion db uid s now newId
    = (setRules db (<[newId := rule]> (rules db)), Returned (newId, rule)) /\
    ruleUid rule = uid /\ enabled rule = true /\
    conditions rule
    = srConditions (suggestedRule (merchantNormalized tx) c name SUGGESTION_PRIORITY) /\
    actCategoryId (action rule) = c /\
    source rule = SrcSuggestion /\ priority rule = 300 /\
    matchCount rule = 0.
Proof.
  intros Hs Hcount Hc. unfold acceptSuggestion.
  destruct (createRule_returned db uid
              {| bodyName := srName (sgRule s);
                 bodyPriority := Some (srPriority (sgRule s));
                 bodyConditions := srConditions (sgRule s);
                 bodyAction := srAction (sgRule s) |} SrcSuggestion now newId)
    as (rule & Hr & Hu & He & Hcond & Hact & Hsrc & Hcount0 & Hp);
    [done|by rewrite Hs|by rewrite Hs|by rewrite Hs|].
  exists rule. rewrite Hr. simpl in *. rewrite Hs in *. simpl in *.
  split_and!; try done. by rewrite Hact.
Qed.

(** X9. An accepted suggestion does what it was offered for. When the
    normalized merchant is in upper case, accepting the suggestion made
    for a correction stores an enabled rule of priority 300 that matches
    the corrected transaction on its merchant; no suggestion is offered
    for that merchant any more; and unless another enabled rule of the
    owner that matches the transaction has priority 300 or more, the
    rule engine now files the transaction under the corrected category,
    by a [contains] match with the new rule. *)
Theorem accepted_suggestion_applies :
  forall (db : Db) (uid : string) (tx : TxView) (c name : string)
         (nowMs : Z) (rand : string) (s : RuleSuggestion) (now : Z)
         (newId : string),
  generateRuleSuggestion db uid tx c name nowMs rand = Some s ->
  toUpperCase (merchantNormalized tx) = merchantNormalized tx ->
  ruleCount db uid < MAX_RULES_PER_USER ->
  c <> EmptyString ->
  let out := acceptSuggestion db uid s now newId in
  exists rule,
    snd out = Returned (newId, rule) /\
    priority rule = 300 /\ source rule = SrcSuggestion /\
    enabled rule = true /\
    ruleMatches tx (newId, rule) = true /\
    (forall c' name' nowMs' rand',
       generateRuleSuggestion (fst out) uid tx c' name' nowMs' rand' = None) /\
    ((forall id r, rules db !! id = Some r -> id <> newId -> ruleUid r = uid ->
                   enabled r = true -> ruleMatches tx (id, r) = true ->
                   priority r < 300) ->
     let result := categorizeWithRules tx (loadUserRules (fst out) uid) in
     categoryId result = Some c /\
     ruleId (explainability result) = Some newId /\
     matchType (explainability result) = Some Contains).
Proof.
  intros db uid tx c name nowMs rand s now newId Hgen Hup Hcount Hc out.
  destruct (generateRuleSuggestion_Some _ _ _ _ _ _ _ _ Hgen)
    as (Hlen & Hnosim & Hnodis & Hs).
  destruct (acceptSuggestion_returned db uid tx c name s now newId Hs Hcount Hc)
    as (rule & Hr & Hu & He & Hcond & Hact & Hsrc & Hp & _).
  subst out. rewrite Hr. cbn [fst snd].
  assert (ruleMatches tx (newId, rule) = true) as Hm.
  { unfold ruleMatches. cbn [snd]. rewrite Hcond.
    by rewrite suggested_rule_matches. }
  exists rule. split_and!; try done.
  - intros c' name' nowMs' rand'. unfold generateRuleSuggestion.
    destruct (Nat.ltb_spec (String.length (merchantNormalized tx)) 3); [done|].
    assert (existsb (fun doc : string * Rule =>
                       similarRule (merchantNormalized tx) (conditions (snd doc)))
              (snapshot (rules (setRules db (<[newId := rule]> (rules db))))
                 (fun _ r => String.eqb (ruleUid r) uid)) = true) as ->; [|done].
    apply existsb_snapshot. exists newId, rule. simpl.
    rewrite lookup_insert_eq, Hcond. split_and!; try done.
    + by apply String.eqb_eq.
    + unfold similarRule. simpl. rewrite Hup. by rewrite String.eqb_refl.
  - intros Hlow.
    assert (categorizeWithRules tx
              (loadUserRules (setRules db (<[newId := rule]> (rules db))) uid)
            = ruleHit (newId, rule)
                (matchRule tx (conditions (snd (newId, rule))))) as ->.
    { apply top_matching_rule_wins; try done.
      - unfold loadUserRules, orderByDesc.
        apply (Permutation_in _ (Permutation_sym (jsSort_perm _ _))).
        apply snapshot_In. simpl. rewrite lookup_insert_eq. split; [done|].
        by rewrite Hu, String.eqb_refl, He.
      - intros [id r] Hin Hen Hmatch.
        unfold loadUserRules, orderByDesc in Hin.
        apply (Permutation_in _ (jsSort_perm _ _)) in Hin.
        apply snapshot_In in Hin as [Hk Hq]. simpl in Hk.
        apply andb_true_iff in Hq as [Hq _]. apply String.eqb_eq in Hq.
        destruct (decide (id = newId)) as [->|Hne].
        + rewrite lookup_insert_eq in Hk. injection Hk as <-. by left.
        + rewrite lookup_insert_ne in Hk by done. right. simpl. rewrite Hp.
          by apply (Hlow id r). }
    cbn [snd]. rewrite Hcond, suggested_rule_matches by done.
    simpl. by rewrite Hact.
Qed.

(** X11. A dismissal silences exactly one pair of merchant and
    category: after [dismissSuggestion] the suggestion for that owner,
    merchant and category is never generated again, and (the dismissal
    being stored under a new id) the suggestions for every other
    owner, merchant or category are generated as before. *)
Theorem dismissSuggestion_silences_the_pair :
  forall (db : Db) (uid : string) (tx : TxView) (c : string) (now : Z)
         (newId : string),
  dismissedSuggestions db !! newId = None ->
  let db' := dismissSuggestion db uid (merchantNormalized tx) c now newId in
  (forall name nowMs rand,
     generateRuleSuggestion db' uid tx c name nowMs rand = None) /\
  (forall uid' tx' c' name nowMs rand,
     (uid', merchantNormalized tx', c') <> (uid, merchantNormalized tx, c) ->
     generateRuleSuggestion db' uid' tx' c' name nowMs rand
     = generateRuleSuggestion db uid' tx' c' name nowMs rand).
Proof.
  intros db uid tx c now newId Hfresh db'. split.
  - intros name nowMs rand. unfold generateRuleSuggestion.
    destruct (_ <? _)%nat; [done|]. destruct (existsb _ _); [done|].
    destruct (dismissedFor db' uid (merchantNormalized tx) c) eqn:Hd; [|done].
    exfalso. unfold dismissedFor in Hd.
    pose proof (proj1 (snapshot_nil _ _) Hd newId) as Hnil.
    unfold db', dismissSuggestion in Hnil. simpl in Hnil.
    rewrite lookup_insert_eq in Hnil. specialize (Hnil _ eq_refl).
    simpl in Hnil. by rewrite !String.eqb_refl in Hnil.
  - intros uid' tx' c' name nowMs rand Hne. unfold generateRuleSuggestion.
    destruct (_ <? _)%nat; [done|]. cbn [rules db' dismissSuggestion setDismissedSuggestions].
    destruct (existsb _ _); [done|].
    assert (dismissedFor db' uid' (merchantNormalized tx') c' = []
            <-> dismissedFor db uid' (merchantNormalized tx') c' = []) as Hiff.
    { unfold dismissedFor. rewrite !snapshot_nil.
      unfold db', dismissSuggestion. simpl. split.
      - intros Hall k d Hk. apply (Hall k).
        rewrite lookup_insert_ne; [done|]. intros ->. congruence.
      - intros Hall k d. destruct (decide (k = newId)) as [->|Hk].
        + rewrite lookup_insert_eq. intros [= <-]. simpl.
          destruct (String.eqb_spec uid uid'); [|done].
          destruct (String.eqb_spec (merchantNormalized tx) (merchantNormalized tx'));
            [|done].
          destruct (String.eqb_spec c c'); [|done]. exfalso. apply Hne. congruence.
        + rewrite lookup_insert_ne by done. apply Hall. }
    destruct (dismissedFor db' uid' (merchantNormalized tx') c') eqn:Hd',
             (dismissedFor db uid' (merchantNormalized tx') c') eqn:Hd; try done.
    + by apply proj1 in Hiff; specialize (Hiff eq_refl).
    + by apply proj2 in Hiff; specialize (Hiff eq_refl).
Qed.

(** X12. The two suggestion functions agree: leaving dismissals aside,
    [generateRuleSuggestion] offers a rule exactly when
    [suggestRuleFromCorrection], given the owner's rules, suggests one,
    and the two rules have the same priority, condition and action. *)
Theorem suggestion_functions_agree :
  forall (db : Db) (uid : string) (tx : TxView) (c name : string)
         (nowMs : Z) (rand : string),
  dismissedFor db uid (merchantNormalized tx) c = [] ->
  match suggestRuleFromCorrection tx c
          (snapshot (rules db) (fun _ r => String.eqb (ruleUid r) uid)),
        generateRuleSuggestion db uid tx c name nowMs rand with
  | Suggested r, Some s =>
      srPriority r = srPriority (sgRule s) /\
      srConditions r = srConditions (sgRule s) /\
      srAction r = srAction (sgRule s)
  | NotSuggested _, None => True
  | _, _ => False
  end.
Proof.
  intros db uid tx c name nowMs rand Hd.
  unfold suggestRuleFromCorrection, generateRuleSuggestion. rewrite Hd.
  destruct (_ <? _)%nat; [done|].
  destruct (List.find _ _) as [r|] eqn:Hf.
  - apply find_some in Hf as [Hin Hsim].
    assert (existsb (fun doc : string * Rule =>
                       similarRule (merchantNormalized tx) (conditions (snd doc)))
              (snapshot (rules db) (fun _ r => String.eqb (ruleUid r) uid)) = true)
      as ->; [|done].
    apply existsb_exists. by exists r.
  - destruct (existsb _ _) eqn:Hex; [|done].
    apply existsb_exists in Hex as (r & Hin & Hsim).
    by rewrite (find_none _ _ Hf r Hin) in Hsim.
Qed.

End SuggestionSpec.

Lemma accepted_suggestion_applies_witness :
  let tx := purchaseAt "BLUE COFFEE" in
  let out := @acceptSuggestion exampleRuntime exampleDb "alice"
               (exampleSuggestion tx) 7 "r1" in
  exists rule,
    snd out = Returned ("r1"%string, rule) /\
    priority rule = 300 /\ source rule = SrcSuggestion /\
    enabled rule = true /\
    @ruleMatches exampleRuntime tx ("r1"%string, rule) = true /\
    (forall c' name' nowMs' rand',
       generateRuleSuggestion (fst out) "alice" tx c' name' nowMs' rand' = None) /\
    ((forall id r, rules exampleDb !! id = Some r -> id <> "r1"%string ->
                   ruleUid r = "alice"%string ->
                   enabled r = true ->
                   @ruleMatches exampleRuntime tx (id, r) = true ->
                   priority r < 300) ->
     let result := @categorizeWithRules exampleRuntime tx
                     (loadUserRules (fst out) "alice") in
     categoryId result = Some "dining"%string /\
     ruleId (explainability result) = Some "r1"%string /\
     matchType (explainability result) = Some Contains).
Proof.
  apply (@accepted_suggestion_applies exampleRuntime exampleDb "alice"
           (purchaseAt "BLUE COFFEE") "dining" "Dining" 1 "abc123"
           (exampleSuggestion (purchaseAt "BLUE COFFEE")) 7 "r1").
  - by vm_compute.
  - by vm_compute.
  - by vm_compute.
  - done.
Defined.

Lemma dismissSuggestion_silences_the_pair_witness :
  let tx := purchaseAt "BLUE COFFEE" in
  let db' := dismissSuggestion exampleDb "alice" (merchantNormalized tx)
               "dining" 7 "d1" in
  (forall name nowMs rand,
     generateRuleSuggestion db' "alice" tx "dining" name nowMs rand = None) /\
  (forall uid' tx' c' name nowMs rand,
     (uid', merchantNormalized tx', c')
     <> ("alice"%string, merchantNormalized tx, "dining"%string) ->
     generateRuleSuggestion db' uid' tx' c' name nowMs rand
     = generateRuleSuggestion exampleDb uid' tx' c' name nowMs rand).
Proof.
  apply (dismissSuggestion_silences_the_pair exampleDb "alice"
           (purchaseAt "BLUE COFFEE") "dining" 7 "d1").
  reflexivity.
Defined.

Lemma suggestion_functions_agree_witness :
  match suggestRuleFromCorrection (purchaseAt "BLUE COFFEE") "dining"
          (snapshot (rules exampleDb)
             (fun _ r => String.eqb (ruleUid r) "alice")),
        generateRuleSuggestion exampleDb "alice" (purchaseAt "BLUE COFFEE")
          "dining" "Dining" 1 "abc123" with
  | Suggested r, Some s =>
      srPriority r = srPriority (sgRule s) /\
      srConditions r = srConditions (sgRule s) /\
      srAction r = srAction (sgRule s)
  | NotSuggested _, None => True
  | _, _ => False
  end.
Proof.
  apply (suggestion_functions_agree exampleDb "alice"
           (purchaseAt "BLUE COFFEE") "dining" "Dining" 1 "abc123").
  by vm_compute.
Defined.

(** ** Editing transactions *)

Section PatchSpec.

Lemma updateTransaction_owned db uid txId body now data :
  transactions db !! txId = Some data -> Tx.uid data = uid ->
  (exists message, updateTransaction db uid txId body now = (db, Thrown message)) \/
  updateTransaction db uid txId body now
  = (setTransactions db (<[txId := applyUpdate data body now]> (transactions db)),
     Returned (Some (respond
                       (setTransactions db
                          (<[txId := applyUpdate data body now]> (transactions db)))
                       uid txId (applyUpdate data body now)))).
Proof.
  intros Hd Hu. unfold updateTransaction. rewrite Hd, Hu, String.eqb_refl. simpl.
  do 3 (match goal with
        | |- context [if ?b then _ else _] =>
            destruct b; [left; by eexists|]
        end).
  by right.
Qed.

(** X13. The PATCH route tells a validation error from a server error
    by looking for the words [cannot exceed] in the message: notes over
    500 characters and a tag over 50 characters are answered 400
    VALIDATION_ERROR, but more than 10 tags, whose message is worded
    differently, are answered 500 INTERNAL_ERROR. In all three cases
    nothing is written. *)
Theorem patch_error_statuses :
  forall (db : Db) (uid txId : string) (body : UpdateTransactionBody)
         (now nowMs : Z) (rand : string) (data : Tx.t),
  uid <> EmptyString -> txId <> EmptyString ->
  transactions db !! txId = Some data -> Tx.uid data = uid ->
  let out := patchTransactionRoute db (Some uid) txId body now nowMs rand in
  let notesFit :=
    forall s, updNotes body = Some s -> (String.length s <= 500)%nat in
  ((exists s, updNotes body = Some s /\ (500 < String.length s)%nat) ->
   out = (db, PatchFailure 400
                {| errCode := "VALIDATION_ERROR";
                   errMessage := "Notes cannot exceed 500 characters" |})) /\
  (notesFit ->
   (exists l, updTags body = Some l /\ (10 < length l)%nat) ->
   out = (db, PatchFailure 500
                {| errCode := "INTERNAL_ERROR";
                   errMessage := "Failed to update transaction" |})) /\
  (notesFit ->
   (exists l tag, updTags body = Some l /\ (length l <= 10)%nat /\
                  In tag l /\ (50 < String.length tag)%nat) ->
   out = (db, PatchFailure 400
                {| errCode := "VALIDATION_ERROR";
                   errMessage := "Each tag cannot exceed 50 characters" |})).
Proof.
  intros db uid txId body now nowMs rand data Huid Htx Hd Hu out notesFit.
  subst out notesFit. unfold patchTransactionRoute.
  apply String.eqb_neq in Huid, Htx. cbn [truthy default]. rewrite Huid, Htx.
  cbn [negb]. unfold updateTransaction. rewrite Hd, Hu, String.eqb_refl.
  cbn [negb]. split_and!.
  - intros (s & -> & Hs).
    by destruct (Nat.ltb_spec 500 (String.length s)); [|lia].
  - intros Hfit (l & Hl & Hlen).
    assert (match updNotes body with
            | Some s => (500 <? String.length s)%nat
            | None => false
            end = false) as ->.
    { destruct (updNotes body) as [s|] eqn:Hn; [|done].
      specialize (Hfit s eq_refl). by destruct (Nat.ltb_spec 500 (String.length s)); [lia|]. }
    rewrite Hl. by destruct (Nat.ltb_spec 10 (length l)); [|lia].
  - intros Hfit (l & tag & Hl & Hlen & Hin & Htag).
    assert (match updNotes body with
            | Some s => (500 <? String.length s)%nat
            | None => false
            end = false) as ->.
    { destruct (updNotes body) as [s|] eqn:Hn; [|done].
      specialize (Hfit s eq_refl). by destruct (Nat.ltb_spec 500 (String.length s)); [lia|]. }
    rewrite Hl. destruct (Nat.ltb_spec 10 (length l)); [lia|].
    assert (existsb (fun tag => (50 <? String.length tag)%nat) l = true) as ->.
    { apply existsb_exists. exists tag. split; [done|]. by apply Nat.ltb_lt. }
    done.
Qed.

(** X14. A PATCH that names the category the transaction already has is
    still a manual correction: the route answers 200, the stored
    transaction is marked [manualOverride] with a manual explanation and
    [correctedAt] set, but no rule suggestion is made. *)
Theorem patch_same_category_overrides_without_suggestion :
  forall (db : Db) (uid txId c : string) (now nowMs : Z) (rand : string)
         (data : Tx.t),
  uid <> EmptyString -> txId <> EmptyString ->
  transactions db !! txId = Some data -> Tx.uid data = uid ->
  Tx.categoryId data = Some c ->
  let out := patchTransactionRoute db (Some uid) txId (categoryPatch c)
               now nowMs rand in
  exists resp,
    snd out = PatchSuccess 200 {| patchedTransaction := resp;
                                  ruleSuggestion := None |} /\
    transactions (fst out) !! txId = Some (respTx resp) /\
    Tx.categoryId (respTx resp) = Some c /\
    Tx.manualOverride (respTx resp) = true /\
    reason (Tx.explainability (respTx resp)) = Manual /\
    Tx.correctedAt (respTx resp) = Some now.
Proof.
  intros db uid txId c now nowMs rand data Huid Htx Hd Hu Hc out.
  subst out. unfold patchTransactionRoute.
  apply String.eqb_neq in Huid, Htx. cbn [truthy default]. rewrite Huid, Htx.
  cbn [negb].
  unfold getTransaction, updateTransaction. rewrite Hd, Hu, String.eqb_refl.
  cbn [negb categoryPatch updNotes updTags updCategoryId].
  cbn [respond toTransactionResponse respTx Tx.categoryId].
  rewrite Hc. rewrite bool_decide_eq_false_2 by (intros Hne; by apply Hne).
  eexists. split; [reflexivity|]. cbn. rewrite lookup_insert_eq.
  by split_and!.
Qed.

Lemma applyUpdate_override d body now :
  Tx.manualOverride d = true ->
  Tx.manualOverride (applyUpdate d body now) = true /\
  Tx.autoCategory (applyUpdate d body now) = Tx.autoCategory d /\
  Tx.uid (applyUpdate d body now) = Tx.uid d.
Proof.
  intros Hm. unfold applyUpdate. simpl. rewrite Hm.
  split_and!; try done.
  - by destruct (updCategoryId body).
  - by rewrite andb_false_r.
Qed.

(** X15. The category found automatically survives any number of
    manual corrections. On the first PATCH with a category of a
    transaction that was not yet overridden, the [autoCategory] the
    categorizer stored (at import or recategorization) is kept; when
    there is none, the category and explanation the PATCH replaces are
    recorded in its place. Every later PATCH, accepted or rejected,
    leaves that record and the [manualOverride] flag as they are. *)
Theorem first_correction_is_remembered :
  forall (db : Db) (uid txId c : string) (now : Z) (data : Tx.t)
         (later : list (UpdateTransactionBody * Z)),
  transactions db !! txId = Some data -> Tx.uid data = uid ->
  Tx.manualOverride data = false ->
  let db1 := fst (updateTransaction db uid txId (categoryPatch c) now) in
  let remembered :=
    match Tx.autoCategory data with
    | Some auto => auto
    | None => {| autoCategoryId := Tx.categoryId data;
                 autoExplainability := Tx.explainability data;
                 categorizedAt := timestamp (Tx.explainability data) |}
    end in
  exists d,
    transactions (patchAll db1 uid txId later) !! txId = Some d /\
    Tx.manualOverride d = true /\
    Tx.autoCategory d = Some remembered.
Proof.
  intros db uid txId c now data later Hd Hu Hm db1 remembered.
  assert (exists d, transactions db1 !! txId = Some d /\ Tx.uid d = uid /\
            Tx.manualOverride d = true /\
            Tx.autoCategory d = Some remembered)
    as Hstart.
  { subst db1 remembered. unfold updateTransaction.
    rewrite Hd, Hu, String.eqb_refl.
    cbn. rewrite lookup_insert_eq. eexists. split; [reflexivity|].
    cbn. rewrite Hm. by destruct (Tx.autoCategory data). }
  clearbody db1 remembered. revert db1 Hstart. unfold patchAll.
  induction later as [|[body t] later IH]; intros db1 (d & Hd1 & Hu1 & Hm1 & Ha1);
    cbn [fold_left].
  - by exists d.
  - apply IH. cbn [fst snd].
    destruct (updateTransaction_owned db1 uid txId body t d Hd1 Hu1)
      as [[message ->]| ->]; cbn [fst].
    + by exists d.
    + destruct (applyUpdate_override d body t Hm1) as (Hm2 & Ha2 & Hu2).
      exists (applyUpdate d body t). cbn [transactions setTransactions].
      rewrite lookup_insert_eq.
      split_and!; try done; congruence.
Qed.

End PatchSpec.

Lemma patch_error_statuses_witness :
  patchTransactionRoute exampleDb (Some "alice"%string) "tx1"
    {| updCategoryId := None; updNotes := None;
       updTags := Some (repeat "t"%string 11) |} 5 1 "abc123"
  = (exampleDb, PatchFailure 500
                  {| errCode := "INTERNAL_ERROR";
                     errMessage := "Failed to update transaction" |}).
Proof.
  apply (patch_error_statuses exampleDb "alice" "tx1" _ 5 1 "abc123" exampleTx);
    try done.
  eexists. split; [reflexivity|]. simpl. lia.
Defined.

Lemma patch_same_category_overrides_without_suggestion_witness :
  let db := setTransactions emptyDb
              {[ "tx1"%string := recategorized exampleTx
                                   (ruleHit ("r"%string, exampleRule "alice" 500)
                                            (isMatch Contains "GROCER" "GROCER")) 3 ]} in
  let out := patchTransactionRoute db (Some "alice"%string) "tx1"
               (categoryPatch "dining") 5 1 "abc123" in
  exists resp,
    snd out = PatchSuccess 200 {| patchedTransaction := resp;
                                  ruleSuggestion := None |} /\
    transactions (fst out) !! "tx1"%string = Some (respTx resp) /\
    Tx.categoryId (respTx resp) = Some "dining"%string /\
    Tx.manualOverride (respTx resp) = true /\
    reason (Tx.explainability (respTx resp)) = Manual /\
    Tx.correctedAt (respTx resp) = Some 5.
Proof.
  eapply (patch_same_category_overrides_without_suggestion _ "alice" "tx1"
            "dining" 5 1 "abc123"); try done.
Defined.

(** A transaction that a rule has filed under [dining] is corrected to
    [travel], then to [food] with a note that is too long (rejected),
    then to [food]: the rule's category stays on record. *)
Lemma first_correction_is_remembered_witness :
  let db1 := fst (updateTransaction categorizedDb "alice" "tx1"
                    (categoryPatch "travel") 5) in
  let later :=
    [({| updCategoryId := Some "food"%string;
         updNotes := Some (repeatChar 501 "n"); updTags := None |}, 6);
     (categoryPatch "food", 7)] in
  (Tx.manualOverride categorizedTx = false
   /\ Tx.categoryId categorizedTx = Some "dining"%string)
  /\ exists d,
       transactions (patchAll db1 "alice" "tx1" later) !! "tx1"%string = Some d /\
       Tx.manualOverride d = true /\
       Tx.autoCategory d
       = Some {| autoCategoryId := Some "dining"%string;
                 autoExplainability := Tx.explainability categorizedTx;
                 categorizedAt := None |}.
Proof.
  intros db1 later. split; [by vm_compute|].
  apply (first_correction_is_remembered categorizedDb "alice" "tx1" "travel" 5
           categorizedTx later); reflexivity.
Defined.

(** ** Recategorization *)

Section StatsDoNotDecide.
Context `{JsRuntime}.

Lemma sameButStats_refl r : sameButStats r r.
Proof. by repeat split. Qed.

Lemma sameButStats_trans r1 r2 r3 :
  sameButStats r1 r2 -> sameButStats r2 r3 -> sameButStats r1 r3.
Proof. unfold sameButStats. intros (?&?&?&?&?&?) (?&?&?&?&?&?). split_and!; congruence. Qed.

Lemma rulesAgree_refl m : rulesAgree m m.
Proof. intros k. destruct (m !! k); [apply sameButStats_refl|done]. Qed.

Lemma rulesAgree_trans m1 m2 m3 :
  rulesAgree m1 m2 -> rulesAgree m2 m3 -> rulesAgree m1 m3.
Proof.
  intros H12 H23 k. specialize (H12 k). specialize (H23 k).
  destruct (m1 !! k), (m2 !! k), (m3 !! k); try done.
  by eapply sameButStats_trans.
Qed.

Lemma rulesAgree_updateRuleStats db ruleId now :
  rulesAgree (rules db) (rules (updateRuleStats db ruleId now)).
Proof.
  intros k. unfold updateRuleStats. cbn [rules setRules].
  destruct (decide (k = ruleId)) as [->|Hne].
  - rewrite lookup_alter_eq. destruct (rules db !! ruleId); [|done].
    by repeat split.
  - rewrite lookup_alter_ne by done.
    destruct (rules db !! k); [apply sameButStats_refl|done].
Qed.

Lemma rulesAgree_runEffects db effects now :
  rulesAgree (rules db) (rules (runEffects db effects now)).
Proof.
  unfold runEffects. revert db.
  induction effects as [|e l IH]; intros db; simpl; [apply rulesAgree_refl|].
  eapply rulesAgree_trans; [|apply IH].
  destruct e; [apply rulesAgree_updateRuleStats|apply rulesAgree_refl].
Qed.

Lemma categories_runEffects db effects now :
  categories (runEffects db effects now) = categories db.
Proof.
  unfold runEffects. revert db.
  induction effects as [|e l IH]; intros db; simpl; [done|].
  rewrite IH. by destruct e.
Qed.

(** Collections that agree up to statistics list their rules in the
    same order. *)
Lemma map_to_list_agree (m m' : gmap string Rule) :
  rulesAgree m m' -> Forall2 sameRule (map_to_list m) (map_to_list m').
Proof.
  intros Hag.
  assert (m = fst <$> map_zip m m') as Hm.
  { symmetry. apply fst_map_zip. intros k Hk. specialize (Hag k).
    destruct (m !! k), (m' !! k); try done; by destruct Hk. }
  assert (m' = snd <$> map_zip m m') as Hm'.
  { symmetry. apply snd_map_zip. intros k Hk. specialize (Hag k).
    destruct (m !! k), (m' !! k); try done; by destruct Hk. }
  rewrite Hm at 1. rewrite Hm' at 2. rewrite !map_to_list_fmap.
  apply Forall2_fmap, Forall_Forall2_diag, List.Forall_forall.
  intros [k [r r']] Hin. apply list_elem_of_In, elem_of_map_to_list in Hin.
  apply map_lookup_zip_Some in Hin as [Hr Hr']. simpl in *.
  specialize (Hag k). rewrite Hr, Hr' in Hag. by split.
Qed.

Lemma Forall2_List_filter {A} (R : A -> A -> Prop) (p q : A -> bool) l k :
  (forall x y, R x y -> p x = q y) ->
  Forall2 R l k -> Forall2 R (List.filter p l) (List.filter q k).
Proof.
  intros Hpq. induction 1 as [|x y l k Hxy Hlk IH]; simpl; [constructor|].
  rewrite (Hpq x y Hxy). destruct (q y); [by constructor|done].
Qed.

Lemma Forall2_sortInsert {A} (R : A -> A -> Prop) (cmp : A -> A -> Z) x y l k :
  (forall a b c d, R a b -> R c d -> cmp a c = cmp b d) ->
  R x y -> Forall2 R l k ->
  Forall2 R (sortInsert cmp x l) (sortInsert cmp y k).
Proof.
  intros Hcmp Hxy. induction 1 as [|a b l k Hab Hlk IH]; simpl.
  - by repeat constructor.
  - rewrite (Hcmp x y a b Hxy Hab).
    destruct (0 <? cmp y b); by repeat constructor.
Qed.

Lemma Forall2_jsSort {A} (R : A -> A -> Prop) (cmp : A -> A -> Z) l k :
  (forall a b c d, R a b -> R c d -> cmp a c = cmp b d) ->
  Forall2 R l k -> Forall2 R (jsSort cmp l) (jsSort cmp k).
Proof.
  intros Hcmp. induction 1 as [|a b l k Hab Hlk IH]; simpl; [constructor|].
  by apply Forall2_sortInsert.
Qed.

Lemma sameRule_priority a b c d :
  sameRule a b -> sameRule c d ->
  priority (snd c) - priority (snd a) = priority (snd d) - priority (snd b).
Proof. intros (_&_&_&_&Hp&_) (_&_&_&_&Hq&_). by rewrite Hp, Hq. Qed.

Lemma loadUserRules_agree db db' uid :
  rulesAgree (rules db) (rules db') ->
  Forall2 sameRule (loadUserRules db uid) (loadUserRules db' uid).
Proof.
  intros Hag. unfold loadUserRules, orderByDesc, snapshot.
  apply Forall2_jsSort; [intros a b c d; apply sameRule_priority|].
  apply Forall2_List_filter; [|by apply map_to_list_agree].
  intros x y (_ & Hu & _ & He & _). simpl. by rewrite Hu, He.
Qed.

(** The rule engine does not read the statistics of the rules. *)
Lemma categorizeWithRules_agree tx l l' :
  Forall2 sameRule l l' ->
  categorizeWithRules tx l' = categorizeWithRules tx l.
Proof.
  intros Hl. unfold categorizeWithRules.
  assert (Forall2 sameRule (sortedRules l) (sortedRules l')) as Hs.
  { unfold sortedRules.
    apply Forall2_jsSort; [intros a b c d; apply sameRule_priority|].
    apply Forall2_List_filter; [|done].
    by intros x y (_ & _ & _ & He & _). }
  induction Hs as [|a b s s' Hab Hs IH]; simpl; [done|].
  destruct Hab as (Hid & Hu & Hn & He & Hp & Hc & Ha).
  rewrite Hc, IH. destruct (matched _); [|done].
  unfold ruleHit. by rewrite Hid, Hn, Ha.
Qed.

Lemma categorizeTransaction_agree llmEnabled llm db db' uid tx options now :
  rulesAgree (rules db) (rules db') -> categories db' = categories db ->
  categorizeTransaction llmEnabled llm db' uid tx options now
  = categorizeTransaction llmEnabled llm db uid tx options now.
Proof.
  intros Hag Hcat. unfold categorizeTransaction.
  rewrite (categorizeWithRules_agree tx _ _ (loadUserRules_agree db db' uid Hag)).
  unfold llmRequest, getAllCategories. by rewrite Hcat.
Qed.

End StatsDoNotDecide.

Section RecategorizeSpec.
Context `{JsRuntime}.

Lemma recategorizeOne_frame llmEnabled llm uid incl options now acc txId id d :
  transactions (fst acc) !! id = Some d ->
  (Tx.manualOverride d = true /\ incl = false) \/ Tx.uid d <> uid \/ txId <> id ->
  transactions (fst (recategorizeOne llmEnabled llm uid incl options now acc txId))
    !! id = Some d.
Proof.
  destruct acc as [db count]. simpl. intros Hd Hwhy.
  destruct (transactions db !! txId) as [data|] eqn:Hdata; [|done].
  destruct (String.eqb_spec (Tx.uid data) uid) as [Hu|Hu]; simpl; [|done].
  destruct (Tx.manualOverride data && negb incl) eqn:Hskip; [done|].
  destruct (categorizeTransaction _ _ _ _ _ _ _) as [result effects].
  destruct (bool_decide _); simpl.
  { by rewrite transactions_runEffects. }
  rewrite transactions_runEffects.
  destruct (decide (txId = id)) as [->|Hne].
  - exfalso. rewrite Hd in Hdata. injection Hdata as <-.
    destruct Hwhy as [[Hm ->]|[Hne|Hne]]; [|done|done].
    by rewrite Hm in Hskip.
  - by rewrite lookup_insert_ne.
Qed.

(** X16. Recategorization leaves protected transactions alone: a
    transaction with [manualOverride = true] (unless the request sets
    [includeManualOverrides]), a transaction of another owner, and a
    transaction that is not named in the request are stored after
    [recategorizeTransactions] exactly as before. *)
Theorem recategorize_leaves_protected_transactions :
  forall (llmEnabled : bool) (llm : LlmOracle) (db : Db) (uid : string)
         (transactionIds : list string) (includeManualOverrides : bool)
         (options : CategorizationOptions) (now : Z) (id : string) (d : Tx.t),
  transactions db !! id = Some d ->
  (Tx.manualOverride d = true /\ includeManualOverrides = false) \/
  Tx.uid d <> uid \/ ~ In id transactionIds ->
  transactions
    (fst (recategorizeTransactions llmEnabled llm db uid transactionIds
            includeManualOverrides options now)) !! id = Some d.
Proof.
  intros llmEnabled llm db uid ids incl options now id d Hd Hwhy.
  unfold recategorizeTransactions.
  assert (Hfold : forall acc,
            transactions (fst acc) !! id = Some d ->
            transactions
              (fst (fold_left
                      (recategorizeOne llmEnabled llm uid incl options now)
                      ids acc)) !! id = Some d).
  { induction ids as [|txId ids IH]; intros acc Hacc; cbn [fold_left]; [done|].
    apply IH.
    - destruct Hwhy as [?|[?|Hnot]]; auto. right. right.
      intros Hin. apply Hnot. by right.
    - apply recategorizeOne_frame; [done|].
      destruct Hwhy as [?|[?|Hnot]]; auto. right. right.
      intros ->. apply Hnot. by left. }
  by apply Hfold.
Qed.

(** One turn of the loop, on a database whose rules and categories
    still decide as the ones the request started from. *)
Lemma recategorizeOne_step llmEnabled llm db uid incl options now acc txId :
  rulesAgree (rules db) (rules (fst acc)) ->
  categories (fst acc) = categories db ->
  transactions (fst acc) !! txId = transactions db !! txId ->
  let one := recategorizeOne llmEnabled llm uid incl options now acc txId in
  rulesAgree (rules db) (rules (fst one))
  /\ categories (fst one) = categories db
  /\ (forall id, id <> txId ->
        transactions (fst one) !! id = transactions (fst acc) !! id)
  /\ if recategorizes llmEnabled llm db uid incl options now txId
     then (exists data,
             transactions db !! txId = Some data /\
             transactions (fst one) !! txId
             = Some (recategorized data
                       (foundCategory llmEnabled llm db uid options now data)
                       now))
          /\ updated (snd one) = S (updated (snd acc))
          /\ skipped (snd one) = skipped (snd acc)
     else transactions (fst one) !! txId = transactions db !! txId
          /\ updated (snd one) = updated (snd acc)
          /\ skipped (snd one) = S (skipped (snd acc)).
Proof.
  destruct acc as [db' count]. cbn [fst snd]. intros Hag Hcat Htx.
  unfold recategorizes, foundCategory, recategorizeOne. rewrite Htx.
  destruct (transactions db !! txId) as [data|] eqn:Hdata;
    [|by split_and!].
  destruct (String.eqb (Tx.uid data) uid); cbn [negb andb fst snd];
    [|by split_and!].
  destruct (Tx.manualOverride data && negb incl); cbn [negb andb fst snd];
    [by split_and!|].
  rewrite (categorizeTransaction_agree _ _ db db') by done.
  destruct (categorizeTransaction llmEnabled llm db uid (txView data) options now)
    as [result effects] eqn:Hresult.
  cbn [fst].
  assert (rulesAgree (rules db) (rules (runEffects db' effects now))) as Hag'.
  { eapply rulesAgree_trans; [exact Hag|apply rulesAgree_runEffects]. }
  destruct (bool_decide (categoryId (base result) = Tx.categoryId data));
    cbn [fst snd negb updated skipped rules categories setTransactions
         transactions].
  - rewrite categories_runEffects, transactions_runEffects.
    by split_and!.
  - rewrite categories_runEffects, transactions_runEffects.
    split_and!; try done.
    + intros id Hne. by rewrite lookup_insert_ne.
    + exists data. by rewrite Hresult, lookup_insert_eq.
Qed.

(** X17. Every id of a recategorization request (the ids are distinct)
    is accounted for once. [updated] counts exactly the requested
    transactions that are the caller's, are not protected by a manual
    override and for which the categorizer finds another category than
    the stored one; each of them is stored with the category found.
    [skipped] counts the others, which are stored as they were. The
    two counts add up to the number of ids, and no transaction is added
    or removed. *)
Theorem recategorize_counts :
  forall (llmEnabled : bool) (llm : LlmOracle) (db : Db) (uid : string)
         (transactionIds : list string) (includeManualOverrides : bool)
         (options : CategorizationOptions) (now : Z),
  NoDup transactionIds ->
  let out := recategorizeTransactions llmEnabled llm db uid transactionIds
               includeManualOverrides options now in
  let rewrites := recategorizes llmEnabled llm db uid includeManualOverrides
                    options now in
  updated (snd out) = length (List.filter rewrites transactionIds)
  /\ skipped (snd out)
     = length (List.filter (fun id => negb (rewrites id)) transactionIds)
  /\ (updated (snd out) + skipped (snd out) = length transactionIds)%nat
  /\ (forall id data,
        In id transactionIds -> rewrites id = true ->
        transactions db !! id = Some data ->
        transactions (fst out) !! id
        = Some (recategorized data
                  (foundCategory llmEnabled llm db uid options now data) now))
  /\ (forall id,
        rewrites id = false \/ ~ In id transactionIds ->
        transactions (fst out) !! id = transactions db !! id)
  /\ (forall id, is_Some (transactions (fst out) !! id) <->
                 is_Some (transactions db !! id)).
Proof.
  intros llmEnabled llm db uid ids incl options now Hnd out rewrites.
  subst out. unfold recategorizeTransactions.
  set (step := recategorizeOne llmEnabled llm uid incl options now).
  assert (Hfold : forall acc,
    rulesAgree (rules db) (rules (fst acc)) ->
    categories (fst acc) = categories db ->
    (forall id, In id ids ->
       transactions (fst acc) !! id = transactions db !! id) ->
    let out := fold_left step ids acc in
    updated (snd out)
    = (updated (snd acc) + length (List.filter rewrites ids))%nat
    /\ skipped (snd out)
       = (skipped (snd acc)
          + length (List.filter (fun id => negb (rewrites id)) ids))%nat
    /\ (forall id data,
          In id ids -> rewrites id = true ->
          transactions db !! id = Some data ->
          transactions (fst out) !! id
          = Some (recategorized data
                    (foundCategory llmEnabled llm db uid options now data) now))
    /\ (forall id, In id ids -> rewrites id = false ->
          transactions (fst out) !! id = transactions db !! id)
    /\ (forall id, ~ In id ids ->
          transactions (fst out) !! id = transactions (fst acc) !! id)).
  { clear -Hnd. induction ids as [|txId ids IH]; intros acc Hag Hcat Htx;
      cbn [fold_left List.filter length].
    { split_and!; try done; lia. }
    pose proof (NoDup_cons_1_1 _ _ Hnd) as Hnotin.
    apply NoDup_cons_1_2 in Hnd.
    assert (Hnotin' : ~ In txId ids) by (by rewrite <- list_elem_of_In).
    destruct (recategorizeOne_step llmEnabled llm db uid incl options now acc
                txId Hag Hcat (Htx txId (or_introl eq_refl)))
      as (Hag1 & Hcat1 & Hframe & Hone).
    fold step in Hag1, Hcat1, Hframe, Hone.
    destruct (IH Hnd (step acc txId) Hag1 Hcat1)
      as (Hu & Hs & Hnew & Hold & Hout).
    { intros id Hid. rewrite Hframe; [apply Htx; by right|].
      intros ->. done. }
    fold (rewrites txId) in Hone.
    split_and!.
    - rewrite Hu. destruct (rewrites txId);
        [destruct Hone as (_ & -> & _)|destruct Hone as (_ & -> & _)];
        simpl; lia.
    - rewrite Hs. destruct (rewrites txId);
        [destruct Hone as (_ & _ & ->)|destruct Hone as (_ & _ & ->)];
        simpl; lia.
    - intros id data [<-|Hid] Hr Hd; [|by apply Hnew].
      rewrite Hout by done. rewrite Hr in Hone.
      destruct Hone as ((data' & Hd' & ->) & _). congruence.
    - intros id [<-|Hid] Hr; [|by apply Hold].
      rewrite Hout by done. rewrite Hr in Hone. by destruct Hone as (-> & _).
    - intros id Hid. rewrite Hout by (intros ?; apply Hid; by right).
      apply Hframe. intros ->. apply Hid. by left. }
  destruct (Hfold (db, {| updated := 0; skipped := 0; errors := 0 |}))
    as (Hu & Hs & Hnew & Hold & Hout);
    [apply rulesAgree_refl|done|done|].
  cbn [fst snd updated skipped] in *.
  assert (Hlen : (length (List.filter rewrites ids)
                  + length (List.filter (fun id => negb (rewrites id)) ids)
                  = length ids)%nat).
  { clear. induction ids as [|id ids IH]; simpl; [done|].
    destruct (rewrites id); simpl; lia. }
  split_and!.
  - by rewrite Hu.
  - by rewrite Hs.
  - rewrite Hu, Hs. simpl. lia.
  - exact Hnew.
  - intros id [Hr|Hid]; [|by apply Hout].
    destruct (in_dec string_dec id ids) as [Hin|Hnin];
      [by apply Hold|by apply Hout].
  - intros id. destruct (in_dec string_dec id ids) as [Hin|Hnin];
      [|by rewrite Hout].
    destruct (rewrites id) eqn:Hr; [|by rewrite Hold].
    unfold rewrites, recategorizes in Hr.
    destruct (transactions db !! id) as [data|] eqn:Hd; [|done].
    rewrite (Hnew id data Hin); [|unfold rewrites, recategorizes; by rewrite Hd|done].
    split; by eexists.
Qed.

End RecategorizeSpec.

(** The rule files GROCER under [food]: of the two requested
    transactions the uncategorized one is rewritten, the one of bob is
    passed over. *)
Lemma recategorize_counts_witness :
  let db :=
    setTransactions descriptionRuleDb
      (<["tx2"%string := foreignTx]> (transactions descriptionRuleDb)) in
  let out := @recategorizeTransactions exampleRuntime false (fun _ => None) db
               "alice" ["tx1"; "tx2"]%string false
               {| useLLM := None; forceRulesOnly := None |} 9 in
  (updated (snd out) = 1%nat /\ skipped (snd out) = 1%nat)
  /\ Tx.categoryId <$> transactions (fst out) !! "tx1"%string
     = Some (Some "food"%string)
  /\ transactions (fst out) !! "tx2"%string = Some foreignTx.
Proof.
  intros db out.
  assert (Hnd : NoDup ["tx1"; "tx2"]%string).
  { apply NoDup_cons_2;
      [intros Hin; apply list_elem_of_singleton in Hin; discriminate|].
    apply NoDup_singleton. }
  destruct (@recategorize_counts exampleRuntime false (fun _ => None) db
              "alice" ["tx1"; "tx2"]%string false
              {| useLLM := None; forceRulesOnly := None |} 9 Hnd)
    as (Hu & Hs & _ & Hnew & Hold & _).
  fold out in Hu, Hs, Hnew, Hold. split_and!.
  - rewrite Hu. by vm_compute.
  - rewrite Hs. by vm_compute.
  - rewrite (Hnew "tx1"%string exampleTx);
      [by vm_compute|by left|by vm_compute|by vm_compute].
  - rewrite Hold; [by vm_compute|]. left. by vm_compute.
Defined.

Lemma recategorize_leaves_protected_transactions_witness :
  let db1 := fst (updateTransaction exampleDb "alice" "tx1"
                    (categoryPatch "dining") 5) in
  transactions
    (fst (@recategorizeTransactions exampleRuntime false (fun _ => None) db1
            "alice" ["tx1"%string] false
            {| useLLM := None; forceRulesOnly := None |} 9))
    !! "tx1"%string
  = Some (applyUpdate exampleTx (categoryPatch "dining") 5).
Proof.
  apply (@recategorize_leaves_protected_transactions exampleRuntime).
  - reflexivity.
  - left. split; reflexivity.
Defined.

(** ** The batch flow against the single flow *)

Section BatchSpec.
Context `{JsRuntime}.

Lemma rulePass_spec rules ts txs results needs effs :
  exists effs',
    rulePass rules ts txs results needs effs
    = (fold_left (fun m tx => <[itemId tx := storedRuleResult rules ts tx]> m)
                 txs results,
       needs ++ List.filter (failsGate rules) txs,
       effs').
Proof.
  revert results needs effs.
  induction txs as [|tx txs IH]; intros results needs effs; simpl.
  - exists effs. by rewrite app_nil_r.
  - unfold failsGate at 1.
    destruct (passesGate (categorizeWithRules (itemTx tx) rules)); simpl.
    + apply IH.
    + destruct (IH (<[itemId tx := {| base := withTimestamp
                                          (categorizeWithRules (itemTx tx) rules) ts;
                                        usedLLM := false |}]> results)
                   (needs ++ [tx]) effs) as [effs' ->].
      exists effs'. by rewrite <- app_assoc.
Qed.

Lemma fold_insert_lookup_other {V} (f : BatchItem -> V) txs
    (results : gmap string V) k :
  ~ In k (List.map itemId txs) ->
  fold_left (fun m tx => <[itemId tx := f tx]> m) txs results !! k
  = results !! k.
Proof.
  revert results. induction txs as [|tx txs IH]; intros results Hk; simpl; [done|].
  rewrite IH by (intros Hin; apply Hk; by right).
  rewrite lookup_insert_ne; [done|]. intros Heq. apply Hk. by left.
Qed.

Lemma fold_insert_lookup {V} (f : BatchItem -> V) txs
    (results : gmap string V) item :
  NoDup (List.map itemId txs) -> In item txs ->
  fold_left (fun m tx => <[itemId tx := f tx]> m) txs results !! itemId item
  = Some (f item).
Proof.
  revert results. induction txs as [|tx txs IH]; intros results Hnd Hin; [done|].
  simpl in *. pose proof (NoDup_cons_1_1 _ _ Hnd) as Hhead.
  apply NoDup_cons_1_2 in Hnd. destruct Hin as [->|Hin].
  - rewrite fold_insert_lookup_other.
    + by rewrite lookup_insert_eq.
    + intros Hin. by apply Hhead, list_elem_of_In.
  - by apply IH.
Qed.

Lemma mergeLLM_lookup_other answers ts needs results k :
  ~ In k (List.map itemId needs) ->
  mergeLLM answers ts needs results !! k = results !! k.
Proof.
  revert results. induction needs as [|tx needs IH]; intros results Hk; simpl;
    [done|].
  rewrite IH by (intros Hin; apply Hk; by right).
  assert (itemId tx <> k) as Hne by (intros Heq; apply Hk; by left).
  destruct (answers !! itemId tx) as [r|]; [|done].
  destruct (llmCategoryId r); [by rewrite lookup_insert_ne|].
  destruct (results !! itemId tx); [by rewrite lookup_insert_ne|done].
Qed.

Lemma mergeLLM_lookup_miss answers ts needs results item existing r :
  NoDup (List.map itemId needs) -> In item needs ->
  results !! itemId item = Some existing ->
  answers !! itemId item = Some r -> llmCategoryId r = None ->
  mergeLLM answers ts needs results !! itemId item
  = Some {| base := withLlmReasoning (base existing) (llmReasoningText r);
            usedLLM := true |}.
Proof.
  revert results. induction needs as [|tx needs IH];
    intros results Hnd Hin Hex Hr Hc; [done|].
  simpl in *. pose proof (NoDup_cons_1_1 _ _ Hnd) as Hhead.
  apply NoDup_cons_1_2 in Hnd. destruct Hin as [->|Hin].
  - rewrite mergeLLM_lookup_other
      by (intros Hin; by apply Hhead, list_elem_of_In).
    rewrite Hr, Hc, Hex. by rewrite lookup_insert_eq.
  - assert (itemId tx <> itemId item) as Hne.
    { intros Heq. apply Hhead. rewrite Heq.
      apply list_elem_of_In, in_map_iff. by exists item. }
    apply IH; try done.
    destruct (answers !! itemId tx) as [r'|]; [|done].
    destruct (llmCategoryId r'); [by rewrite lookup_insert_ne|].
    destruct (results !! itemId tx); [by rewrite lookup_insert_ne|done].
Qed.

Lemma NoDup_filter_ids (p : BatchItem -> bool) txs :
  NoDup (List.map itemId txs) -> NoDup (List.map itemId (List.filter p txs)).
Proof.
  induction txs as [|tx txs IH]; simpl; [done|]. intros Hnd.
  pose proof (NoDup_cons_1_1 _ _ Hnd) as Hhead.
  apply NoDup_cons_1_2 in Hnd.
  destruct (p tx); simpl; [|by apply IH].
  apply NoDup_cons_2; [|by apply IH].
  intros Hin. apply Hhead.
  apply list_elem_of_In, in_map_iff in Hin as (x & Hx & Hin).
  apply filter_In in Hin as [Hin _].
  apply list_elem_of_In, in_map_iff. by exists x.
Qed.

Lemma unique_by_id txs (x y : BatchItem) :
  NoDup (List.map itemId txs) -> In x txs -> In y txs ->
  itemId x = itemId y -> x = y.
Proof.
  induction txs as [|tx txs IH]; [done|]. simpl. intros Hnd Hx Hy Heq.
  pose proof (NoDup_cons_1_1 _ _ Hnd) as Hhead.
  apply NoDup_cons_1_2 in Hnd.
  destruct Hx as [->|Hx], Hy as [->|Hy]; [done| | |by apply IH].
  - exfalso. apply Hhead. rewrite Heq.
    apply list_elem_of_In, in_map_iff. by exists y.
  - exfalso. apply Hhead. rewrite <- Heq.
    apply list_elem_of_In, in_map_iff. by exists x.
Qed.

(** X18. The batch flow and the single flow give a transaction the same
    result whenever the rules decide or the classifier is off: for an
    input whose id is unique in the batch, if its rule result passes the
    confidence gate, or the classifier is not to be used, the entry
    [batchCategorizeTransactions] returns for it is the result of
    [categorizeTransaction], whatever the classifiers answer. *)
Theorem batch_agrees_with_single_when_rules_decide :
  forall (llmEnabled : bool) (svc : LlmServices) (llm : LlmOracle) (db : Db)
         (uid : string) (txs : list BatchItem) (options : CategorizationOptions)
         (timestamp : Z) (item : BatchItem),
  NoDup (List.map itemId txs) -> In item txs ->
  passesGate (categorizeWithRules (itemTx item) (loadUserRules db uid)) = true \/
  shouldUseLLM llmEnabled options = false ->
  fst (batchCategorizeTransactions llmEnabled svc db uid txs options timestamp)
    !! itemId item
  = Some (fst (categorizeTransaction llmEnabled llm db uid (itemTx item)
                 options timestamp)).
Proof.
  intros llmEnabled svc llm db uid txs options ts item Hnd Hin Hwhy.
  unfold batchCategorizeTransactions.
  destruct (rulePass_spec (loadUserRules db uid) ts txs ∅ [] [])
    as [effs ->]. cbn [app].
  assert (fst (categorizeTransaction llmEnabled llm db uid (itemTx item) options ts)
          = storedRuleResult (loadUserRules db uid) ts item) as ->.
  { unfold categorizeTransaction, storedRuleResult.
    destruct (passesGate _) eqn:Hg; [done|].
    destruct Hwhy as [?|Hoff]; [done|]. by rewrite Hoff. }
  pose proof (fold_insert_lookup (storedRuleResult (loadUserRules db uid) ts)
                txs ∅ item Hnd Hin) as Hstored.
  destruct (negb (shouldUseLLM llmEnabled options) || _) eqn:Huse; [done|].
  apply orb_false_iff in Huse as [Huse _]. apply negb_false_iff in Huse.
  destruct Hwhy as [Hg|Hoff]; [|congruence].
  destruct (batchCategorizeWithLLM svc _ _) as [answers|]; [|done].
  cbn [fst]. rewrite mergeLLM_lookup_other; [done|].
  intros Hq. apply in_map_iff in Hq as (x & Hx & Hq).
  apply filter_In in Hq as [Hq Hfail].
  assert (x = item) as -> by by apply (unique_by_id txs).
  unfold failsGate in Hfail. by rewrite Hg in Hfail.
Qed.

(** X19. The two flows part when the classifier is asked and names no
    category: the batch flow keeps the rule result it had (its category
    and confidence, with the classifier's reasoning added), while the
    single flow answers no category at all. So a transaction matched
    by a rule of low confidence is filed under the rule's category by
    an import and left uncategorized by the single flow. *)
Theorem batch_keeps_weak_rule_match_on_llm_miss :
  forall (llmEnabled : bool) (svc : LlmServices) (llm : LlmOracle) (db : Db)
         (uid : string) (txs : list BatchItem) (options : CategorizationOptions)
         (timestamp : Z) (item : BatchItem)
         (answers : gmap string LLMCategorizationResponse)
         (r : LLMCategorizationResponse),
  NoDup (List.map itemId txs) -> In item txs ->
  let rules := loadUserRules db uid in
  let ruleResult := categorizeWithRules (itemTx item) rules in
  passesGate ruleResult = false ->
  shouldUseLLM llmEnabled options = true ->
  batchCategorizeWithLLM svc (List.filter (failsGate rules) txs)
    (getAllCategories db uid) = Some answers ->
  answers !! itemId item = Some r ->
  llm (llmRequest db uid (itemTx item)) = Some r ->
  llmCategoryId r = None ->
  fst (batchCategorizeTransactions llmEnabled svc db uid txs options timestamp)
    !! itemId item
  = Some {| base := withLlmReasoning (withTimestamp ruleResult timestamp)
                      (llmReasoningText r);
            usedLLM := true |} /\
  fst (categorizeTransaction llmEnabled llm db uid (itemTx item) options timestamp)
  = {| base := llmMiss r timestamp; usedLLM := true |} /\
  categoryId (withLlmReasoning (withTimestamp ruleResult timestamp)
                (llmReasoningText r)) = categoryId ruleResult /\
  categoryId (llmMiss r timestamp) = None.
Proof.
  intros llmEnabled svc llm db uid txs options ts item answers r Hnd Hin
         rules ruleResult Hg Huse Hbatch Hans Hllm Hc.
  split_and!; try done.
  - unfold batchCategorizeTransactions. fold rules.
    destruct (rulePass_spec rules ts txs ∅ [] []) as [effs ->]. cbn [app].
    rewrite Huse. cbn [negb orb].
    assert (In item (List.filter (failsGate rules) txs)) as Hneeds.
    { apply filter_In. split; [done|]. unfold failsGate. fold ruleResult.
      by rewrite Hg. }
    destruct (List.filter (failsGate rules) txs) as [|x needs] eqn:Hf; [done|].
    rewrite Hbatch. cbn [fst]. rewrite <- Hf in *.
    apply (mergeLLM_lookup_miss answers ts _ _ item
             (storedRuleResult rules ts item) r); try done.
    + by apply NoDup_filter_ids.
    + by apply fold_insert_lookup.
  - unfold categorizeTransaction. fold rules. fold ruleResult.
    rewrite Hg, Huse. cbn [negb]. by rewrite Hllm, Hc.
Qed.

End BatchSpec.

Lemma batch_agrees_with_single_when_rules_decide_witness :
  fst (@batchCategorizeTransactions exampleRuntime false undecidedServices
         descriptionRuleDb "alice" [exampleItem]
         {| useLLM := None; forceRulesOnly := None |} 9) !! itemId exampleItem
  = Some (fst (@categorizeTransaction exampleRuntime false (fun _ => None)
                 descriptionRuleDb "alice" (itemTx exampleItem)
                 {| useLLM := None; forceRulesOnly := None |} 9)).
Proof.
  apply (@batch_agrees_with_single_when_rules_decide exampleRuntime).
  - apply NoDup_singleton.
  - by left.
  - by right.
Defined.

Lemma batch_keeps_weak_rule_match_on_llm_miss_witness :
  let ruleResult := @categorizeWithRules exampleRuntime (itemTx exampleItem)
                      (loadUserRules descriptionRuleDb "alice") in
  categoryId ruleResult = Some "food"%string /\
  (fst (@batchCategorizeTransactions exampleRuntime true undecidedServices
          descriptionRuleDb "alice" [exampleItem]
          {| useLLM := None; forceRulesOnly := None |} 9) !! itemId exampleItem
   = Some {| base := withLlmReasoning (withTimestamp ruleResult 9)
                       (llmReasoningText noCategoryAnswer);
             usedLLM := true |} /\
   fst (@categorizeTransaction exampleRuntime true
          (categorizeWithLLM undecidedServices) descriptionRuleDb "alice"
          (itemTx exampleItem) {| useLLM := None; forceRulesOnly := None |} 9)
   = {| base := llmMiss noCategoryAnswer 9; usedLLM := true |} /\
   categoryId (withLlmReasoning (withTimestamp ruleResult 9)
                 (llmReasoningText noCategoryAnswer)) = categoryId ruleResult /\
   categoryId (llmMiss noCategoryAnswer 9) = None).
Proof.
  split; [by vm_compute|].
  apply (@batch_keeps_weak_rule_match_on_llm_miss exampleRuntime true
           undecidedServices (categorizeWithLLM undecidedServices)
           descriptionRuleDb "alice" [exampleItem]
           {| useLLM := None; forceRulesOnly := None |} 9 exampleItem
           {[ "temp_0"%string := noCategoryAnswer ]} noCategoryAnswer).
  - apply NoDup_singleton.
  - by left.
  - by vm_compute.
  - reflexivity.
  - by vm_compute.
  - by vm_compute.
  - reflexivity.
  - reflexivity.
Defined.

(** ** Merchant normalization *)

Section NormalizeFacts.

Lemma upperAscii_idem c : upperAscii (upperAscii c) = upperAscii c.
Proof.
  destruct c as [[] [] [] [] [] [] [] []]; reflexivity.
Qed.

Lemma toUpperCase_cons c s :
  toUpperCase (String c s) = String c s <->
  upperAscii c = c /\ toUpperCase s = s.
Proof. simpl. split; [by intros [= -> ->]|by intros [-> ->]]. Qed.

Lemma toUpperCase_idem s : toUpperCase (toUpperCase s) = toUpperCase s.
Proof. induction s as [|c s IH]; simpl; [done|]. by rewrite upperAscii_idem, IH. Qed.

Lemma upper_collapseSpaces b s :
  toUpperCase s = s -> toUpperCase (collapseSpaces b s) = collapseSpaces b s.
Proof.
  revert b. induction s as [|c s IH]; intros b; [done|].
  rewrite toUpperCase_cons. intros [Hc Hs]. simpl.
  destruct (isSpace c); [destruct b|]; simpl; rewrite ?Hc, IH; done.
Qed.

Lemma upper_removeStoreNumbers b s :
  toUpperCase s = s ->
  toUpperCase (removeStoreNumbers b s) = removeStoreNumbers b s.
Proof.
  revert b. induction s as [|c s IH]; intros b; [done|].
  rewrite toUpperCase_cons. intros [Hc Hs]. simpl.
  destruct (b && isDigit c); [by apply IH|].
  destruct (_ && _); [by apply IH|]. simpl. by rewrite Hc, IH.
Qed.

Lemma upper_removeLongNumbers run s :
  toUpperCase s = s ->
  toUpperCase (removeLongNumbers run s) = removeLongNumbers run s.
Proof.
  revert run. induction s as [|c s IH]; intros run; [done|].
  rewrite toUpperCase_cons. intros [Hc Hs].
  cbn [removeLongNumbers].
  destruct (isDigit c); [destruct run; [destruct (4 <=? _)%nat| |]|];
    try (by apply IH); simpl; by rewrite Hc, IH.
Qed.

Lemma upper_removeNoise skip s :
  toUpperCase s = s -> toUpperCase (removeNoise skip s) = removeNoise skip s.
Proof.
  revert skip. induction s as [|c s IH]; intros skip; [done|].
  rewrite toUpperCase_cons. intros [Hc Hs].
  cbn [removeNoise]. destruct skip as [|k]; [|by apply IH].
  destruct (noiseMatch _); simpl; rewrite ?Hc, IH; done.
Qed.

Lemma upper_trimStart s :
  toUpperCase s = s -> toUpperCase (trimStart s) = trimStart s.
Proof.
  induction s as [|c s IH]; [done|].
  intros Hs. pose proof Hs as Hs'. apply toUpperCase_cons in Hs' as [Hc Hs'].
  cbn [trimStart]. destruct (isSpace c); [by apply IH|done].
Qed.

Lemma upper_trimEnd s :
  toUpperCase s = s -> toUpperCase (trimEnd s) = trimEnd s.
Proof.
  induction s as [|c s IH]; [done|].
  rewrite toUpperCase_cons. intros [Hc Hs]. cbn [trimEnd].
  specialize (IH Hs). destruct (trimEnd s) as [|d rest].
  - destruct (isSpace c); simpl; [done|by rewrite Hc].
  - change (toUpperCase (String c (String d rest)))
      with (String (upperAscii c) (toUpperCase (String d rest))).
    by rewrite Hc, IH.
Qed.

Lemma trimEnd_idem s : trimEnd (trimEnd s) = trimEnd s.
Proof.
  induction s as [|c s IH]; [done|]. cbn [trimEnd].
  destruct (trimEnd s) as [|d rest] eqn:Hs.
  - destruct (isSpace c) eqn:Hc; [done|]. simpl. by rewrite Hc.
  - cbn [trimEnd]. cbn [trimEnd] in IH. by rewrite IH.
Qed.

Lemma trimStart_head s :
  match trimStart s with
  | String c _ => isSpace c = false
  | EmptyString => True
  end.
Proof.
  induction s as [|c s IH]; [done|]. cbn [trimStart].
  by destruct (isSpace c) eqn:Hc.
Qed.

Lemma trim_idem s : trim (trim s) = trim s.
Proof.
  unfold trim. pose proof (trimStart_head s) as Hh.
  destruct (trimStart s) as [|c u]; [done|].
  assert (exists v, trimEnd (String c u) = String c v) as [v Hv].
  { cbn [trimEnd]. destruct (trimEnd u); [rewrite Hh|]; by eexists. }
  rewrite Hv. cbn [trimStart]. rewrite Hh, <- Hv. apply trimEnd_idem.
Qed.

Lemma spacedOnce_weaken s : spacedOnce true s = true -> spacedOnce false s = true.
Proof.
  destruct s as [|c s]; [done|]. simpl. destruct (isSpace c); [|done].
  by rewrite andb_false_r.
Qed.

Lemma spacedOnce_collapseSpaces b s : spacedOnce b (collapseSpaces b s) = true.
Proof.
  revert b. induction s as [|c s IH]; intros b; [done|]. simpl.
  destruct (isSpace c) eqn:Hc; [destruct b|].
  - apply IH.
  - simpl. apply IH.
  - simpl. rewrite Hc. apply IH.
Qed.

Lemma spacedOnce_trimStart s :
  spacedOnce false s = true -> spacedOnce false (trimStart s) = true.
Proof.
  assert (forall b, spacedOnce b s = true -> spacedOnce false (trimStart s) = true)
    as Hgen; [|by apply Hgen].
  induction s as [|c s IH]; intros b; [done|]. cbn [trimStart spacedOnce].
  destruct (isSpace c) eqn:Hc.
  - intros Hs. apply andb_true_iff in Hs as [_ Hs]. by apply (IH true).
  - intros Hs. simpl. by rewrite Hc.
Qed.

Lemma spacedOnce_trimEnd b s :
  spacedOnce b s = true -> spacedOnce b (trimEnd s) = true.
Proof.
  revert b. induction s as [|c s IH]; intros b; [done|].
  cbn [trimEnd]. destruct (trimEnd s) as [|d rest] eqn:Hs.
  - destruct (isSpace c) eqn:Hc; [done|]. intros _. simpl. by rewrite Hc.
  - cbn [spacedOnce]. cbn [spacedOnce] in IH. destruct (isSpace c).
    + intros Hall. apply andb_true_iff in Hall as [Hhead Hall].
      rewrite Hhead. by apply (IH true).
    + by apply (IH false).
Qed.

Lemma collapseSpaces_spacedOnce b s :
  spacedOnce b s = true -> collapseSpaces b s = s.
Proof.
  revert b. induction s as [|c s IH]; intros b; [done|]. simpl.
  destruct (isSpace c).
  - intros Hs. apply andb_true_iff in Hs as [Hs Hrest].
    apply andb_true_iff in Hs as [Hc Hb].
    apply Ascii.eqb_eq in Hc as ->. apply negb_true_iff in Hb as ->.
    by rewrite IH.
  - intros Hs. by rewrite IH.
Qed.

(** X20. What [normalizeMerchant] returns is in normal form for three
    of its own passes: it is in upper case, it has no white space at
    either end, and its white space is single blanks. Doing any of the
    three again changes nothing; in particular a merchant normalized by
    the rules satisfies the upper-case condition under which rule
    suggestions apply. *)
Theorem normalizeMerchant_shape :
  forall (merchantRaw : string),
  let m := normalizeMerchant merchantRaw in
  toUpperCase m = m /\ trim m = m /\ collapseSpaces false m = m.
Proof.
  intros raw m. subst m. unfold normalizeMerchant. split_and!.
  - unfold trim.
    apply upper_trimEnd, upper_trimStart, upper_collapseSpaces, upper_removeNoise,
      upper_removeLongNumbers, upper_removeStoreNumbers, upper_collapseSpaces,
      toUpperCase_idem.
  - apply trim_idem.
  - apply collapseSpaces_spacedOnce. unfold trim.
    apply spacedOnce_trimEnd, spacedOnce_trimStart, spacedOnce_collapseSpaces.
Qed.

End NormalizeFacts.

(** ** The case of stored merchant names *)

Section MerchantCase.
Context `{JsRuntime}.

Local Abbreviation Upper := (everyTransaction merchantUpperCase).

Lemma normalizeMerchant_upper raw :
  toUpperCase (normalizeMerchant raw) = normalizeMerchant raw.
Proof.
  unfold normalizeMerchant, trim.
  apply upper_trimEnd, upper_trimStart, upper_collapseSpaces, upper_removeNoise,
    upper_removeLongNumbers, upper_removeStoreNumbers, upper_collapseSpaces,
    toUpperCase_idem.
Qed.

Lemma dedupe_upper svc db uid accountId rows :
  answersUpperCase svc ->
  forall skipped queue n q,
  (forall tx, In tx queue ->
     toUpperCase (tcMerchantNormalized tx) = tcMerchantNormalized tx) ->
  dedupe svc db uid accountId rows skipped queue = Returned (n, q) ->
  forall tx, In tx q ->
    toUpperCase (tcMerchantNormalized tx) = tcMerchantNormalized tx.
Proof.
  intros Hsvc. induction rows as [|row rows IH]; intros skipped queue n q Hq;
    simpl.
  - by intros [= <- <-].
  - destruct (generateTxKey _ _ _ _) as [key|]; [|done].
    destruct (transactionExistsByKey db uid key); [by apply IH|].
    apply IH. intros tx Htx. apply in_app_or in Htx as [Htx|[<-|[]]];
      [by apply Hq|]. simpl.
    destruct (String.length (normalizeMerchant (parsedMerchantRaw row)) <? 3)%nat;
      [|apply normalizeMerchant_upper].
    destruct (normalizeMerchantWithLLM svc (parsedMerchantRaw row)) as [s|] eqn:Hs;
      simpl; [by apply (Hsvc _ _ Hs)|apply normalizeMerchant_upper].
Qed.

Lemma createAll_upper results uid accountId importId now autoId queue :
  (forall tx, In tx queue ->
     toUpperCase (tcMerchantNormalized tx) = tcMerchantNormalized tx) ->
  forall i db created errors,
  Upper db ->
  Upper (fst (fst (createAll results uid accountId importId now autoId i queue
                     db created errors))).
Proof.
  induction queue as [|tx queue IH]; intros Hq i db created errors Hdb; simpl;
    [done|].
  assert (forall t, In t queue ->
            toUpperCase (tcMerchantNormalized t) = tcMerchantNormalized t)
    as Hrest by (intros t Ht; apply Hq; by right).
  destruct (parsedPostedAt (parsed tx)); [|by apply IH].
  apply IH; [done|]. apply everyTransaction_insert; [|done].
  apply Hq. by left.
Qed.

Lemma processImport_upper llmEnabled svc db uid accountId importId content
    documentType mimeType now autoId :
  answersUpperCase svc -> Upper db ->
  Upper (fst (processImport llmEnabled svc db uid accountId importId content
                documentType mimeType now autoId)).
Proof.
  intros Hsvc Hdb.
  destruct (imports db !! importId) as [record|] eqn:Hrec;
    [|by rewrite processImport_missing_record].
  destruct (processImport_cases llmEnabled svc db uid accountId importId
              content documentType mimeType now autoId record Hrec)
    as [(message & errors & _ & _ & ->)
       |(skipped & queue & results & effects & db' & n & errs0 & errs
         & _ & Hd & Hc & _ & ->)]; cbn [fst].
  - by apply (everyTransaction_ext _ db).
  - apply (everyTransaction_ext _ db'); [done|].
    replace db' with
      (fst (fst (createAll results uid accountId importId now autoId 0 queue
                   (runEffects
                      (setImports db
                         (<[importId := withImportStatus record Processing None
                                          None false now]> (imports db)))
                      effects now) 0 errs0)))
      by (by rewrite Hc).
    apply createAll_upper.
    + eapply dedupe_upper; [exact Hsvc| |exact Hd]. by intros ? [].
    + eapply everyTransaction_ext; [|exact Hdb].
      by rewrite transactions_runEffects.
Qed.

Lemma updateTransaction_upper db uid txId updates now :
  Upper db -> Upper (fst (updateTransaction db uid txId updates now)).
Proof.
  intros Hdb. unfold updateTransaction.
  destruct (transactions db !! txId) as [data|] eqn:Hd; [|done].
  repeat case_match; try done; simpl.
  all: apply everyTransaction_insert; [|done].
  all: by apply (Hdb _ _ Hd).
Qed.

Lemma setChildren_upper autoId uid txId parentData now n l :
  merchantUpperCase parentData ->
  forall i (m : gmap string Tx.t),
  (forall id d, m !! id = Some d -> merchantUpperCase d) ->
  forall id d,
    setChildren autoId uid txId parentData now n i l m !! id = Some d ->
    merchantUpperCase d.
Proof.
  intros Hp. induction l as [|x l IH]; intros i m Hm; simpl; [done|].
  apply IH. intros id d. destruct (decide (autoId i = id)) as [->|Hne].
  - rewrite lookup_insert_eq. by intros [= <-].
  - rewrite lookup_insert_ne by done. apply Hm.
Qed.

Lemma splitTransaction_upper db uid txId body now autoId :
  Upper db -> Upper (fst (splitTransaction db uid txId body now autoId)).
Proof.
  intros Hdb. unfold splitTransaction.
  destruct (transactions db !! txId) as [data|] eqn:Hd; [|done].
  repeat case_match; try done; simpl.
  all: intros id d; simpl; apply setChildren_upper; [by apply (Hdb _ _ Hd)|].
  all: intros k x; destruct (decide (txId = k)) as [->|Hne];
    [rewrite lookup_insert_eq; intros [= <-]; by apply (Hdb _ _ Hd)
    |rewrite lookup_insert_ne by done; apply Hdb].
Qed.

Lemma unsplitTransaction_upper db uid txId now :
  Upper db -> Upper (fst (unsplitTransaction db uid txId now)).
Proof.
  intros Hdb. unfold unsplitTransaction.
  destruct (transactions db !! txId) as [data|] eqn:Hd; [|done].
  destruct (negb (String.eqb _ _)); [done|].
  destruct (negb (Tx.isSplitParent data)); [done|]. simpl.
  intros id d. simpl. destruct (decide (txId = id)) as [->|Hne].
  - rewrite lookup_insert_eq. intros [= <-]. by apply (Hdb _ _ Hd).
  - rewrite lookup_insert_ne by done. rewrite fold_delete_lookup.
    destruct (bool_decide _); [done|]. apply Hdb.
Qed.

Lemma recategorizeTransactions_upper llmEnabled llm db uid ids incl options now :
  Upper db ->
  Upper (fst (recategorizeTransactions llmEnabled llm db uid ids incl options now)).
Proof.
  unfold recategorizeTransactions. intros Hdb.
  assert (Hfold : forall acc, Upper (fst acc) ->
            Upper (fst (fold_left
                     (recategorizeOne llmEnabled llm uid incl options now)
                     ids acc))).
  { induction ids as [|txId ids IH]; intros acc Hacc; cbn [fold_left]; [done|].
    apply IH. destruct acc as [db0 count]. simpl in *.
    destruct (transactions db0 !! txId) as [data|] eqn:Hd; [|done].
    destruct (negb _); [done|]. destruct (_ && _); [done|].
    destruct (categorizeTransaction _ _ _ _ _ _ _) as [result effects].
    assert (Upper (runEffects db0 effects now)) as Hdb1.
    { eapply everyTransaction_ext; [apply transactions_runEffects|done]. }
    destruct (bool_decide _); simpl; [done|].
    apply everyTransaction_insert; [|done]. by apply (Hacc _ _ Hd). }
  by apply Hfold.
Qed.

Lemma applyOp_upper llmEnabled db op :
  importsAnswerUpperCase op -> Upper db -> Upper (applyOp llmEnabled db op).
Proof.
  intros Hop Hdb. destruct op; simpl.
  - by apply processImport_upper.
  - by apply updateTransaction_upper.
  - by apply splitTransaction_upper.
  - by apply unsplitTransaction_upper.
  - by apply recategorizeTransactions_upper.
  - unfold createRule. by repeat case_match.
  - unfold updateRule. by repeat case_match.
  - unfold deleteRule. by repeat case_match.
  - unfold reorderRules, commitPriorities. by repeat case_match.
Qed.

(** X10. Stored merchant names are in upper case, so a rule suggestion
    is never lost on the transaction it is made for. Every operation of
    the core keeps the normalized merchant of every stored transaction
    in upper case (imports normalize it, with the LLM normalizer, which
    answers in upper case, for short names; splits copy it from the
    parent; edits and recategorization leave it). Hence for every
    transaction stored after any run of operations whose merchant has
    three characters or more, the rule a suggestion proposes matches
    that transaction, by a [contains] match of its merchant. *)
Theorem stored_merchants_are_upper_case :
  forall (llmEnabled : bool) (db : Db) (ops : list Op),
  (forall op, In op ops -> importsAnswerUpperCase op) ->
  everyTransaction merchantUpperCase db ->
  everyTransaction merchantUpperCase (run llmEnabled db ops)
  /\ (forall id d c name p,
        transactions (run llmEnabled db ops) !! id = Some d ->
        (3 <= String.length (Tx.merchantNormalized d))%nat ->
        matchRule (txView d)
          (srConditions (suggestedRule (Tx.merchantNormalized d) c name p))
        = isMatch Contains (Tx.merchantNormalized d) (Tx.merchantNormalized d)).
Proof.
  intros llmEnabled db ops Hops Hdb.
  assert (Upper (run llmEnabled db ops)) as Hrun.
  { unfold run. revert db Hdb.
    induction ops as [|op ops IH]; intros db Hdb; cbn [fold_left]; [done|].
    apply IH; [intros o Ho; apply Hops; by right|].
    apply applyOp_upper; [apply Hops; by left|done]. }
  split; [exact Hrun|].
  intros id d c name p Hd Hlen.
  apply (suggested_rule_matches (txView d) c name p); [done|].
  by apply (Hrun _ _ Hd).
Qed.

End MerchantCase.

(** A statement whose merchant [ab] is too short is imported (the LLM
    normalizer names it SHOP), and the new transaction is split: the
    three transactions stored in the end have upper-case merchants. *)
Lemma stored_merchants_are_upper_case_witness :
  let ops :=
    [OpImport renamingServices "alice" "acc1" "imp1" (Text shortMerchantCsv)
       Csv None 1 exampleIds;
     OpSplit "alice" "c0" {| splits := [part (-2000) None; part (-3000) None] |}
       2 (fun i => exampleIds (S i))] in
  let db' := @run exampleRuntime true importDb ops in
  (Tx.merchantNormalized <$> transactions db' !! "c0"%string
   = Some "SHOP"%string
   /\ Tx.merchantNormalized <$> transactions db' !! "c2"%string
      = Some "SHOP"%string)
  /\ everyTransaction merchantUpperCase db'.
Proof.
  intros ops db'. split; [by vm_compute|].
  apply (@stored_merchants_are_upper_case exampleRuntime true importDb ops).
  - intros op [<-|[<-|[]]]; simpl; [|done]. intros raw s [= <-]. reflexivity.
  - intros id d Hd.
    change (transactions importDb) with
      ({[ "tx1"%string := exampleTx ]} : gmap string Tx.t) in Hd.
    apply lookup_singleton_Some in Hd as [_ <-]. reflexivity.
Defined.

(** ** Reading CSV lines *)

Section CsvFields.
Context `{JsRuntime}.

Local Ltac app_cons :=
  repeat match goal with
         | |- context [String ?c ?a +:+ ?b] =>
             change (String c a +:+ b) with (String c (a +:+ b))
         | |- context [EmptyString +:+ ?b] =>
             change (EmptyString +:+ b) with b
         end.

Lemma append_snoc_assoc (a : string) c b :
  (a +:+ String c EmptyString) +:+ b = a +:+ String c b.
Proof. induction a as [|d a IH]; app_cons; [done|]. by rewrite IH. Qed.

Lemma append_nil_r (a : string) : a +:+ EmptyString = a.
Proof. induction a as [|d a IH]; app_cons; [done|]. by rewrite IH. Qed.

Lemma splitFields_inside field rest values current :
  hasQuote field = false ->
  splitFields (field +:+ rest) values current true
  = splitFields rest values (current +:+ field) true.
Proof.
  revert current. induction field as [|c f IH]; intros current Hq; app_cons.
  - by rewrite append_nil_r.
  - unfold hasQuote in Hq. simpl in Hq.
    apply orb_false_iff in Hq as [Hc Hq]. cbn [splitFields].
    rewrite Hc, andb_false_r.
    rewrite IH by done. by rewrite append_snoc_assoc.
Qed.

Lemma splitFields_quoted field rest values :
  hasQuote field = false ->
  splitFields (quoted field +:+ rest) values EmptyString false
  = splitFields rest values field false.
Proof.
  intros Hq. unfold quoted. app_cons.
  rewrite append_snoc_assoc. cbn [splitFields].
  assert (isQuote quoteChar = true) as Hqc by reflexivity. rewrite Hqc.
  cbn [negb]. rewrite splitFields_inside by done.
  cbn [splitFields]. by rewrite Hqc.
Qed.

Lemma splitFields_joined fields values :
  fields <> [] ->
  (forall field, In field fields -> hasQuote field = false) ->
  splitFields (joinFields (List.map quoted fields)) values EmptyString false
  = rev values ++ List.map trim fields.
Proof.
  revert values. induction fields as [|f fs IH]; intros values Hne Hq; [done|].
  destruct fs as [|g fs].
  - cbn [List.map joinFields].
    rewrite <- (append_nil_r (quoted f)).
    rewrite splitFields_quoted by (apply Hq; by left).
    cbn [splitFields]. simpl. done.
  - change (joinFields (List.map quoted (f :: g :: fs)))
      with (quoted f +:+ "," +:+ joinFields (List.map quoted (g :: fs))).
    rewrite splitFields_quoted by (apply Hq; by left).
    app_cons. cbn [splitFields].
    assert (isQuote "," = false) as -> by reflexivity.
    cbn [Ascii.eqb Bool.eqb negb andb].
    rewrite IH; [|done|intros x Hx; apply Hq; by right].
    simpl. by rewrite <- app_assoc.
Qed.

(** X21. Writing fields in double quotes and reading the line back
    gives the fields, trimmed: for fields that contain no double quote
    (commas and blanks are allowed), the character loop of the CSV
    parser cuts the quoted, comma-separated line into exactly those
    fields, each with its outer white space removed. *)
Theorem splitFields_reads_quoted_fields :
  forall (fields : list string),
  fields <> [] ->
  (forall field, In field fields -> hasQuote field = false) ->
  splitFields (joinFields (List.map quoted fields)) [] EmptyString false
  = List.map trim fields.
Proof.
  intros fields Hne Hq. by rewrite splitFields_joined.
Qed.

Lemma length_omap_le {A B} (f : A -> option B) (l : list A) :
  (length (omap f l) <= length l)%nat.
Proof.
  induction l as [|x l IH]; [done|]. cbn. destruct (f x); cbn; lia.
Qed.

Lemma parseLine_row cols line row :
  parseLine cols line = Some row ->
  parsedAmount row <> 0 /\ parsedDescription row <> EmptyString /\
  parsedMerchantRaw row = parsedDescription row /\
  (exists dateStr t, parseDate dateStr = Some t /\ parsedPostedAt row = Some t).
Proof.
  unfold parseLine. repeat case_match; try done.
  intros [= <-]. simpl. split_and!; try done.
  - by apply Z.eqb_neq.
  - unfold orElse.
    match goal with
    | |- (if truthy ?o then _ else _) <> _ => destruct o as [s|]; simpl; [|done]
    end.
    by destruct (String.eqb_spec s EmptyString).
  - by eexists _, _.
Qed.

(** X22. Every row the CSV parser returns is usable: its amount is not
    zero, its date is one the runtime could parse, its description is
    not empty (a missing one reads [Unknown]) and is also its raw
    merchant; and there are never more rows than lines after the
    header. *)
Theorem parseCSV_rows_well_formed :
  forall (content : string),
  (forall row, In row (parseCSV content) ->
     parsedAmount row <> 0 /\ parsedDescription row <> EmptyString /\
     parsedMerchantRaw row = parsedDescription row /\
     (exists dateStr t, parseDate dateStr = Some t /\ parsedPostedAt row = Some t)) /\
  (length (parseCSV content) < length (splitOn LF (trim content)))%nat.
Proof.
  intros content. unfold parseCSV.
  destruct (splitOn LF (trim content)) as [|headerLine dataLines] eqn:Hl.
  { by destruct (trim content); simpl in Hl; repeat case_match. }
  assert (forall cols,
            (forall row, In row (omap (parseLine cols) dataLines) ->
               parsedAmount row <> 0 /\ parsedDescription row <> EmptyString /\
               parsedMerchantRaw row = parsedDescription row /\
               (exists dateStr t, parseDate dateStr = Some t /\ parsedPostedAt row = Some t)) /\
            (length (omap (parseLine cols) dataLines)
             < length (headerLine :: dataLines))%nat) as Hrows.
  { intros cols. split.
    - intros row Hin.
      apply list_elem_of_In, list_elem_of_omap in Hin as (line & _ & Hline).
      by apply (parseLine_row cols line).
    - pose proof (length_omap_le (parseLine cols) dataLines). simpl. lia. }
  repeat case_match; try apply Hrows; (split; [by intros ? []|simpl; lia]).
Qed.

End CsvFields.

Lemma splitFields_reads_quoted_fields_witness :
  splitFields
    (joinFields (List.map quoted ["2024-01-15"; " Grocer, Main St "; "-45.10"]%string))
    [] EmptyString false
  = ["2024-01-15"; "Grocer, Main St"; "-45.10"]%string.
Proof.
  apply (splitFields_reads_quoted_fields
           ["2024-01-15"; " Grocer, Main St "; "-45.10"]%string).
  - done.
  - intros field [<-|[<-|[<-|[]]]]; reflexivity.
Defined.

(** ** Pages of transactions *)

Section PageSpec.
Context `{JsRuntime}.

Lemma In_take {A} (n : nat) (l : list A) x : In x (take n l) -> In x l.
Proof.
  revert n. induction l as [|y l IH]; intros [|n]; simpl; try done.
  intros [->|Hin]; [by left|right; by apply (IH n)].
Qed.

Lemma head_rev_None {A} (l : list A) : head (rev l) = None <-> l = [].
Proof.
  split; [|by intros ->].
  destruct l as [|x l]; [done|]. simpl.
  destruct (rev l); simpl; done.
Qed.

Lemma StronglySorted_List_filter {A} (R : A -> A -> Prop) (p : A -> bool) l :
  StronglySorted R l -> StronglySorted R (List.filter p l).
Proof.
  induction 1 as [|x l Hl IH Hx]; simpl; [constructor|].
  destruct (p x); [|done]. constructor; [done|].
  rewrite List.Forall_forall in *. intros y Hy.
  apply filter_In in Hy as [Hy _]. by apply Hx.
Qed.

Lemma StronglySorted_take {A} (R : A -> A -> Prop) (n : nat) l :
  StronglySorted R l -> StronglySorted R (take n l).
Proof.
  intros Hl. revert n. induction Hl as [|x l Hl IH Hx]; intros [|n]; simpl;
    try constructor; [apply IH|].
  rewrite List.Forall_forall in *. intros y Hy. by apply Hx, (In_take n).
Qed.

Lemma StronglySorted_map {A B} (R : A -> A -> Prop) (S : B -> B -> Prop)
    (f : A -> B) l :
  (forall x y, R x y -> S (f x) (f y)) ->
  StronglySorted R l -> StronglySorted S (List.map f l).
Proof.
  intros Hf. induction 1 as [|x l Hl IH Hx]; simpl; constructor; [done|].
  rewrite List.Forall_forall in *. intros y Hy.
  apply in_map_iff in Hy as (z & <- & Hz). by apply Hf, Hx.
Qed.

(** What the [where] clauses of the listing ask of a transaction. *)
Lemma listWhere_spec uid query range d :
  listWhere uid query range d = true <->
  Tx.uid d = uid /\
  fst range <= Tx.postedAt d <= snd range /\
  (forall c, qCategoryId query = Some c -> c <> EmptyString ->
             Tx.categoryId d = Some c) /\
  (forall a, qAccountId query = Some a -> a <> EmptyString ->
             Tx.accountId d = a) /\
  (qUncategorized query = Some true -> Tx.categoryId d = None).
Proof.
  unfold listWhere. rewrite !andb_true_iff, String.eqb_eq, !Z.leb_le.
  assert ((if truthy (qCategoryId query)
           then bool_decide (Tx.categoryId d = qCategoryId query) else true) = true
          <-> forall c, qCategoryId query = Some c -> c <> EmptyString ->
                        Tx.categoryId d = Some c) as ->.
  { destruct (qCategoryId query) as [c|]; simpl; [|by split].
    destruct (String.eqb_spec c EmptyString) as [->|Hne]; simpl.
    - split; [|done]. by intros _ ? [= <-] ?.
    - rewrite bool_decide_eq_true. split; [by intros -> ? [= <-] _|].
      intros Hc. by apply Hc. }
  assert ((if truthy (qAccountId query)
           then String.eqb (Tx.accountId d)
                  (default EmptyString (qAccountId query)) else true) = true
          <-> forall a, qAccountId query = Some a -> a <> EmptyString ->
                        Tx.accountId d = a) as ->.
  { destruct (qAccountId query) as [a|]; simpl; [|by split].
    destruct (String.eqb_spec a EmptyString) as [->|Hne]; simpl.
    - split; [|done]. by intros _ ? [= <-] ?.
    - rewrite String.eqb_eq. split; [by intros -> ? [= <-] _|].
      intros Ha. by apply Ha. }
  assert ((if default false (qUncategorized query)
           then bool_decide (Tx.categoryId d = None) else true) = true
          <-> (qUncategorized query = Some true -> Tx.categoryId d = None)) as ->.
  { destruct (qUncategorized query) as [[|]|]; simpl;
      rewrite ?bool_decide_eq_true; split; try done; auto. }
  tauto.
Qed.

(** X23. What a page of [listTransactions] holds. It has at most 100
    transactions, whatever limit was asked for, in descending order of
    their dates. Each is a stored transaction that passes the [where]
    clauses of the query (it is the caller's, its date lies in the
    month or date range asked for, and it has the category and account
    asked for, or no category when the uncategorized ones are asked
    for) and the filters applied after the fetch (it is not a split
    parent and passes the merchant, amount and tag filters).
    Conversely, when there is no cursor and no more results, every
    stored transaction that passes both is on the page. A cursor is
    given only when there are more results; and when there are more
    results, the cursor is missing exactly when the page is empty,
    which happens when every transaction fetched for the page is
    removed by the filters applied after the fetch. *)
Theorem listTransactions_page :
  forall (db : Db) (uid : string) (query : ListTransactionsQuery) (now : Z)
         (r : TransactionListResult),
  listTransactions db uid query now = Returned r ->
  exists range,
    listRange query now = Returned range /\
    (length (listed r) <= 100)%nat /\
    StronglySorted
      (fun a b => Tx.postedAt (respTx b) <= Tx.postedAt (respTx a)) (listed r) /\
    (forall t, In t (listed r) ->
       transactions db !! respId t = Some (respTx t) /\
       listWhere uid query range (respTx t) = true /\
       clientFilter query (respTx t) = true /\
       Tx.uid (respTx t) = uid /\
       fst range <= Tx.postedAt (respTx t) <= snd range /\
       (forall c, qCategoryId query = Some c -> c <> EmptyString ->
                  Tx.categoryId (respTx t) = Some c) /\
       (forall a, qAccountId query = Some a -> a <> EmptyString ->
                  Tx.accountId (respTx t) = a) /\
       (qUncategorized query = Some true -> Tx.categoryId (respTx t) = None) /\
       Tx.isSplitParent (respTx t) = false) /\
    (hasMore (pagination r) = false -> parseCursor (qCursor query) = None ->
     forall id d,
       transactions db !! id = Some d ->
       listWhere uid query range d = true -> clientFilter query d = true ->
       exists t, In t (listed r) /\ respId t = id /\ respTx t = d) /\
    (pageCursor (pagination r) <> None -> hasMore (pagination r) = true) /\
    (hasMore (pagination r) = true ->
     (pageCursor (pagination r) = None <-> listed r = [])).
Proof.
  intros db uid query now r. unfold listTransactions.
  destruct (listRange query now) as [range|]; [|done].
  set (ordered := orderByDesc Tx.postedAt _).
  set (limit := Z.min (default DEFAULT_LIMIT (qLimit query)) MAX_LIMIT).
  assert (limit <= 100) as Hlimit by (unfold limit, MAX_LIMIT; lia).
  assert (Hsorted : StronglySorted
            (fun a b : string * Tx.t => Tx.postedAt (snd b) <= Tx.postedAt (snd a))
            ordered)
    by apply (jsSort_sorted (fun d : string * Tx.t => Tx.postedAt (snd d))).
  assert (Hordered : forall id d,
            In (id, d) ordered <->
            transactions db !! id = Some d /\ listWhere uid query range d = true).
  { intros id d. unfold ordered, orderByDesc.
    pose proof (snapshot_In (transactions db)
                  (fun _ d => listWhere uid query range d) id d) as Hs.
    simpl in Hs. rewrite <- Hs.
    split; apply Permutation_in; [|symmetry]; apply jsSort_perm. }
  intros Hr. exists range. split; [done|]. revert Hr.
  set (fetched := match parseCursor (qCursor query) with
                  | Some (Some postedAt, _) =>
                      Returned (List.filter
                                  (fun d => Tx.postedAt (snd d) <? postedAt)
                                  ordered)
                  | Some (None, _) => Thrown invalidTimestamp
                  | None => Returned ordered
                  end).
  assert (Hfetched : forall after, fetched = Returned after ->
            (forall d, In d after -> In d ordered) /\
            StronglySorted
              (fun a b : string * Tx.t =>
                 Tx.postedAt (snd b) <= Tx.postedAt (snd a)) after /\
            (parseCursor (qCursor query) = None -> after = ordered)).
  { subst fetched. intros after.
    destruct (parseCursor (qCursor query)) as [[[postedAt|] id]|]; try done;
      intros [= <-].
    - split_and!; [|by apply StronglySorted_List_filter|done].
      intros d Hd. by apply filter_In in Hd as [Hd _].
    - by split_and!. }
  destruct fetched as [after|]; [|done].
  destruct (Hfetched after eq_refl) as (Hsub & Hsorted' & Hall).
  clear Hfetched. cbn zeta.
  set (docs := take (Z.to_nat (limit + 1)) after).
  set (more := limit <? Z.of_nat (length docs)).
  set (resultDocs := if more then take (Z.to_nat limit) docs else docs).
  set (filtered := List.filter _ resultDocs).
  intros [= <-]. cbn [listed pagination pageCursor hasMore].
  assert (length resultDocs <= 100)%nat as Hlen.
  { unfold resultDocs, more.
    destruct (Z.ltb_spec limit (Z.of_nat (length docs))).
    - rewrite length_take. lia.
    - lia. }
  assert (forall d, In d resultDocs -> In d ordered) as Hres.
  { intros d Hd. apply Hsub, (In_take (Z.to_nat (limit + 1))).
    fold docs. unfold resultDocs in Hd.
    destruct more; [by apply In_take in Hd|done]. }
  split_and!.
  - rewrite length_map. unfold filtered.
    pose proof (filter_length_le (fun d => clientFilter query (snd d)) resultDocs).
    lia.
  - apply (StronglySorted_map
             (fun a b : string * Tx.t => Tx.postedAt (snd b) <= Tx.postedAt (snd a)));
      [done|].
    apply StronglySorted_List_filter. unfold resultDocs.
    destruct more; repeat apply StronglySorted_take; done.
  - intros t Ht. apply in_map_iff in Ht as ([id d] & <- & Hd).
    apply filter_In in Hd as [Hd Hf]. simpl in Hf.
    apply Hres, Hordered in Hd as [Hd Hw].
    cbn [respId respTx toTransactionResponse].
    pose proof (proj1 (listWhere_spec uid query range d) Hw)
      as (Hu & Hdate & Hcat & Hacc & Hunc).
    assert (Tx.isSplitParent d = false) as Hparent.
    { pose proof Hf as Hf'. unfold clientFilter in Hf'.
      repeat (apply andb_true_iff in Hf' as [Hf' _]).
      by apply negb_true_iff. }
    do 4 (split; [done|]). split; [exact Hdate|]. by do 3 (split; [done|]).
  - intros Hmore Hcursor id d Hd Hw Hf.
    assert (resultDocs = ordered) as Hresult.
    { unfold resultDocs. rewrite Hmore. unfold more, docs in Hmore |- *.
      rewrite (Hall Hcursor) in Hmore |- *. apply take_ge.
      apply Z.ltb_ge in Hmore. rewrite length_take in Hmore. lia. }
    exists (toTransactionResponse id d
              (fetchCategories db uid
                 (dedupStrings (omap (fun d => Tx.categoryId (snd d)) resultDocs)))).
    split; [|done].
    apply in_map_iff. exists (id, d). split; [done|].
    apply filter_In. split; [|done]. rewrite Hresult. by apply Hordered.
  - destruct (head (rev filtered)); [|done]. by destruct more.
  - intros ->. destruct (head (rev filtered)) eqn:Hh.
    + split; [done|]. intros Hnil.
      destruct filtered; [done|discriminate Hnil].
    + apply head_rev_None in Hh. by rewrite Hh.
Qed.

End PageSpec.

(** Two transactions of January 1970 listed one per page: the first
    page holds the later one and a cursor. *)
Lemma listTransactions_page_witness :
  let query := withLimit (monthQuery "1970-01") 1 in
  exists r range,
    @listTransactions exampleRuntime pageDb "alice" query 0 = Returned r /\
    (List.map respId (listed r) = ["tx2"%string] /\
     hasMore (pagination r) = true /\
     pageCursor (pagination r) <> None) /\
    @listRange exampleRuntime query 0 = Returned range /\
    (forall t, In t (listed r) ->
       transactions pageDb !! respId t = Some (respTx t) /\
       listWhere "alice" query range (respTx t) = true /\
       clientFilter query (respTx t) = true) /\
    (hasMore (pagination r) = true ->
     (pageCursor (pagination r) = None <-> listed r = [])).
Proof.
  intros query.
  destruct (@listTransactions exampleRuntime pageDb "alice" query 0)
    as [r|] eqn:Hr; [|by vm_compute in Hr].
  destruct (@listTransactions_page exampleRuntime pageDb "alice" query 0 r Hr)
    as (range & Hrange & _ & _ & Hitems & _ & _ & Hcursor).
  exists r, range. split; [done|]. split.
  { vm_compute in Hr. injection Hr as <-. by vm_compute. }
  split; [done|]. split; [|done].
  intros t Ht. destruct (Hitems t Ht) as (? & ? & ? & _). by split_and!.
Defined.

(** With a merchant filter that the later transaction does not pass,
    the first page is empty and has no cursor, though there are more
    results: the earlier transaction, which passes the filter, cannot
    be reached. *)
Example listTransactions_filtered_page_has_no_cursor :
  @listTransactions exampleRuntime pageDb "alice"
    {| qMonth := Some "1970-01"%string; qStartDate := None; qEndDate := None;
       qCategoryId := None; qAccountId := None;
       qMerchant := Some "grocer"%string;
       qMinAmount := None; qMaxAmount := None; qTags := None;
       qUncategorized := None; qLimit := Some 1; qCursor := None |} 0
  = Returned {| listed := [];
                pagination := {| pageCursor := None; hasMore := true |} |}.
Proof. by vm_compute. Qed.

(** ** The regex validator *)

Section RegexCatalogue.
Context `{JsRuntime}.

Lemma matchHere_literal (chars : list ascii) b s :
  matchHere (List.map Chr chars) b s
  = startsWith s (string_of_list_ascii chars).
Proof.
  revert b s. induction chars as [|c chars IH]; intros b s; simpl.
  - by destruct s.
  - destruct s as [|c' s]; [done|]. by rewrite IH.
Qed.

Lemma testFrom_literal (chars : list ascii) b s :
  testFrom (List.map Chr chars) b s
  = includes s (string_of_list_ascii chars).
Proof.
  revert b. induction s as [|c s IH]; intros b.
  - simpl. by rewrite matchHere_literal.
  - rewrite testFrom_unfold, matchHere_literal, IH. done.
Qed.

(** X24. What [validateRegex] checks, in full: a pattern longer than
    200 characters is too long; otherwise it is refused as possibly
    slow exactly when it contains somewhere one of the four texts made
    of an opening parenthesis, a dot, a star or a plus, a closing
    parenthesis and again a star or a plus; otherwise it is valid
    exactly when it compiles. The remaining entry of the catalogue,
    meant for a repeated group around a negated character class, never
    matches, so such a pattern is not refused. *)
Theorem validateRegex_verdicts :
  forall (pattern : string),
  validateRegex pattern
  = if (200 <? String.length pattern)%nat then RegexTooLong
    else if includes pattern "(.*)+" || includes pattern "(.+)+"
            || includes pattern "(.*)*" || includes pattern "(.+)*"
    then RegexMayBeSlow
    else if regExpCompiles pattern then RegexValid else RegexInvalid.
Proof.
  intros pattern. unfold validateRegex.
  destruct (200 <? String.length pattern)%nat; [done|].
  unfold redosPatterns. cbn [existsb].
  rewrite third_redos_pattern_dead. unfold reTest.
  rewrite (testFrom_literal ["("; "."; "*"; ")"; "+"]%char),
          (testFrom_literal ["("; "."; "+"; ")"; "+"]%char),
          (testFrom_literal ["("; "."; "*"; ")"; "*"]%char),
          (testFrom_literal ["("; "."; "+"; ")"; "*"]%char).
  cbn [string_of_list_ascii].
  by destruct (includes pattern "(.*)+"), (includes pattern "(.+)+"),
              (includes pattern "(.*)*"), (includes pattern "(.+)*").
Qed.

End RegexCatalogue.

(** ** The import record *)

Section ImportRecord.
Context `{JsRuntime}.

(** X25. [processImport] always closes the import record it is given:
    whatever the document and the answers of the LLM, the call returns
    and the record ends in the state [completed] or [failed] with
    [completedAt] set, never in [pending] or [processing]. It is
    [completed] exactly when the result reports success, and then
    [transactionCount] is the number of transactions created; when it
    is [failed], nothing was created, the count is left as it was and
    the error message stored is the first error of the result. The
    owner and account of the record do not change. *)
Theorem processImport_closes_the_import :
  forall (llmEnabled : bool) (svc : LlmServices) (db : Db)
         (uid accountId importId : string) (content : Content)
         (documentType : DocumentType) (mimeType : option string) (now : Z)
         (autoId : nat -> string) (record : Imp.t),
  imports db !! importId = Some record ->
  let out := processImport llmEnabled svc db uid accountId importId content
               documentType mimeType now autoId in
  exists res record',
    snd out = Returned res /\
    imports (fst out) !! importId = Some record' /\
    Imp.uid record' = Imp.uid record /\
    Imp.accountId record' = Imp.accountId record /\
    Imp.completedAt record' = Some now /\
    (if success res
     then Imp.status record' = Completed /\
          Imp.transactionCount record' = Z.of_nat (created res) /\
          Imp.errorMessage record' = Imp.errorMessage record
     else Imp.status record' = Failed /\
          created res = 0%nat /\
          Imp.transactionCount record' = Imp.transactionCount record /\
          Imp.errorMessage record' = head (importErrors res)).
Proof.
  intros llmEnabled svc db uid accountId importId content documentType mimeType
         now autoId record Hrec out. subst out.
  destruct (processImport_cases llmEnabled svc db uid accountId importId
              content documentType mimeType now autoId record Hrec)
    as [(message & errors & _ & Hhead & ->)
       |(skipped & queue & results & effects & db' & n & errs0 & errs
         & _ & _ & _ & _ & ->)];
    cbn [fst snd imports setImports]; rewrite lookup_insert_eq;
    eexists _, _; (split; [reflexivity|]); (split; [reflexivity|]);
    cbn; by rewrite ?Hhead.
Qed.

End ImportRecord.

Lemma processImport_closes_the_import_witness :
  let out := @processImport exampleRuntime true exampleServices importDb
               "alice" "acc1" "imp1" (Text exampleCsv) Csv None 1 exampleIds in
  exists res record',
    snd out = Returned res /\
    imports (fst out) !! "imp1"%string = Some record' /\
    Imp.uid record' = Imp.uid pendingImport /\
    Imp.accountId record' = Imp.accountId pendingImport /\
    Imp.completedAt record' = Some 1 /\
    (if success res
     then Imp.status record' = Completed /\
          Imp.transactionCount record' = Z.of_nat (created res) /\
          Imp.errorMessage record' = Imp.errorMessage pendingImport
     else Imp.status record' = Failed /\
          created res = 0%nat /\
          Imp.transactionCount record' = Imp.transactionCount pendingImport /\
          Imp.errorMessage record' = head (importErrors res)).
Proof.
  apply (@processImport_closes_the_import exampleRuntime true exampleServices
           importDb "alice" "acc1" "imp1" (Text exampleCsv) Csv None 1
           exampleIds pendingImport).
  reflexivity.
Defined.

(** ** Splits and the monthly totals *)

Section SplitTotals.
Context `{JsRuntime}.

Lemma sumWhere_perm p (l l' : list (string * Tx.t)) :
  Permutation l l' -> sumWhere p l = sumWhere p l'.
Proof.
  unfold sumWhere.
  induction 1 as [|x l l' _ IH|x y l|l1 l2 l3 _ IH1 _ IH2]; simpl;
    [done|by rewrite IH|lia|congruence].
Qed.

Lemma setChildren_to_list autoId uid txId parentData now n l i
    (m : gmap string Tx.t) :
  (forall j, (j < length l)%nat -> m !! autoId (i + j)%nat = None) ->
  (forall a b, (a < length l)%nat -> (b < length l)%nat ->
               autoId (i + a)%nat = autoId (i + b)%nat -> a = b) ->
  Permutation
    (map_to_list (setChildren autoId uid txId parentData now n i l m))
    (imap (fun j split =>
             (autoId (i + j)%nat,
              childData uid txId parentData now n (i + j) split)) l
     ++ map_to_list m).
Proof.
  revert i m. induction l as [|x l IH]; intros i m Hfresh Hinj; [done|].
  cbn [setChildren imap].
  rewrite IH.
  - rewrite map_to_list_insert
      by (specialize (Hfresh 0%nat); rewrite Nat.add_0_r in Hfresh;
          apply Hfresh; simpl; lia).
    rewrite Nat.add_0_r. cbn [app].
    rewrite <- Permutation_middle. constructor.
    apply Permutation_app_tail.
    match goal with
    | |- Permutation ?a ?b => replace a with b; [done|]
    end.
    apply imap_ext. intros j y _. simpl.
    by replace (i + S j)%nat with (S (i + j))%nat by lia.
  - intros j Hj. rewrite lookup_insert_ne.
    + replace (S i + j)%nat with (i + S j)%nat by lia. apply Hfresh. simpl. lia.
    + intros Heq. assert (0 = S j)%nat; [|lia].
      apply Hinj; simpl; [lia|lia|].
      rewrite Nat.add_0_r, Heq. f_equal. lia.
  - intros a b Ha Hb Hab. assert (S a = S b); [|lia].
    apply Hinj; simpl; [lia|lia|].
    by replace (i + S a)%nat with (S i + a)%nat by lia;
       replace (i + S b)%nat with (S i + b)%nat by lia.
Qed.

Lemma checkSigns_None isExpense l :
  checkSigns isExpense l = None ->
  forall s, In s l ->
    if isExpense then partAmount s <= 0 else 0 <= partAmount s.
Proof.
  induction l as [|x l IH]; [done|]. simpl.
  destruct isExpense; simpl.
  - destruct (Z.ltb_spec 0 (partAmount x)); [done|].
    intros Hrest s [<-|Hs]; [lia|by apply IH].
  - destruct (Z.ltb_spec (partAmount x) 0); [done|].
    intros Hrest s [<-|Hs]; [lia|by apply IH].
Qed.

(** The children of a valid split carry the parent's income and the
    parent's expense between them. *)
Lemma children_sums uid' range autoId uid txId parentData now n l i :
  Tx.uid parentData = uid ->
  Tx.isSplitParent parentData = false ->
  checkSigns (Tx.amount parentData <? 0) l = None ->
  let docs := imap (fun j split =>
                      (autoId (i + j)%nat,
                       childData uid txId parentData now n (i + j) split)) l in
  let kept := List.filter (fun d => inMonth uid' range (snd d)) docs in
  sumWhere isIncome kept
  = (if inMonth uid' range parentData then 1 else 0)
    * (if Tx.amount parentData <? 0 then 0 else totalSplitAmount l) /\
  sumWhere isExpense kept
  = (if inMonth uid' range parentData then 1 else 0)
    * (if Tx.amount parentData <? 0 then totalSplitAmount l else 0).
Proof.
  intros Hu Hflag Hsigns docs kept. subst docs kept.
  pose proof (checkSigns_None _ _ Hsigns) as Hall. clear Hsigns.
  revert i. induction l as [|x l IH]; intros i.
  { simpl. unfold totalSplitAmount. simpl.
    by destruct (inMonth uid' range parentData), (Tx.amount parentData <? 0). }
  cbv zeta in IH.
  assert (forall s, In s l ->
            if Tx.amount parentData <? 0 then partAmount s <= 0
            else 0 <= partAmount s) as Hall' by (intros s Hs; apply Hall; by right).
  specialize (IH Hall' (S i)).
  pose proof (Hall x (or_introl eq_refl)) as Hx.
  cbn [imap List.filter].
  assert (inMonth uid' range
            (snd (autoId (i + 0)%nat,
                  childData uid txId parentData now n (i + 0) x))
          = inMonth uid' range parentData) as ->.
  { unfold inMonth. simpl. by rewrite Hu, Hflag. }
  assert (imap ((fun j split =>
                   (autoId (i + j)%nat,
                    childData uid txId parentData now n (i + j) split)) ∘ S) l
          = imap (fun j split =>
                    (autoId (S i + j)%nat,
                     childData uid txId parentData now n (S i + j) split)) l)
    as ->.
  { apply imap_ext. intros j y _. simpl.
    by replace (i + S j)%nat with (S (i + j))%nat by lia. }
  unfold totalSplitAmount. cbn [fold_left].
  rewrite (totalSplitAmount_from l (0 + partAmount x)).
  destruct IH as [IHi IHe].
  destruct (inMonth uid' range parentData); [|split; [rewrite IHi|rewrite IHe]; lia].
  unfold sumWhere in *. cbn [fold_right snd]. rewrite IHi, IHe.
  unfold isIncome, isExpense. simpl.
  destruct (Z.ltb_spec (Tx.amount parentData) 0);
    destruct (Z.ltb_spec 0 (partAmount x));
    destruct (Z.ltb_spec (partAmount x) 0); split; lia.
Qed.

Lemma sumWhere_filter_app p (q : string * Tx.t -> bool) l1 l2 :
  sumWhere p (List.filter q (l1 ++ l2))
  = sumWhere p (List.filter q l1) + sumWhere p (List.filter q l2).
Proof. by rewrite List.filter_app, sumWhere_app. Qed.

Lemma monthDocs_sum p db uid range :
  sumWhere p (monthDocs db uid range)
  = sumWhere p (List.filter (fun d => inMonth uid range (snd d))
                            (map_to_list (transactions db))).
Proof.
  unfold monthDocs, orderByAsc. by rewrite (sumWhere_perm _ _ _ (jsSort_perm _ _)).
Qed.

Lemma split_keeps_sums p db uid txId parentData body now autoId uid' range :
  (p = isIncome \/ p = isExpense) ->
  transactions db !! txId = Some parentData ->
  freshIds autoId (length (splits body)) (transactions db) ->
  Tx.uid parentData = uid ->
  Tx.isSplitParent parentData = false ->
  validateSplits (Tx.amount parentData) (splits body) = None ->
  sumWhere p
    (monthDocs
       (setTransactions db
          (setChildren autoId uid txId parentData now (length (splits body)) 0
             (splits body)
             (<[txId := setIsSplitParent parentData true now]> (transactions db))))
       uid' range)
  = sumWhere p (monthDocs db uid' range).
Proof.
  intros Hp Hparent [Hnew Hinj] Hu Hflag Hvalid.
  rewrite !monthDocs_sum. cbn [transactions setTransactions].
  assert (totalSplitAmount (splits body) = Tx.amount parentData
          /\ checkSigns (Tx.amount parentData <? 0) (splits body) = None)
    as [Hsum Hsigns].
  { unfold validateSplits in Hvalid.
    destruct (_ <? _)%nat; [done|]. destruct (_ <? _)%nat; [done|].
    by destruct (Z.eqb_spec (totalSplitAmount (splits body))
                            (Tx.amount parentData)). }
  set (q := fun d : string * Tx.t => inMonth uid' range (snd d)).
  assert (Permutation
            (map_to_list
               (setChildren autoId uid txId parentData now (length (splits body)) 0
                  (splits body)
                  (<[txId := setIsSplitParent parentData true now]>
                     (transactions db))))
            (imap (fun j split =>
                     (autoId (0 + j)%nat,
                      childData uid txId parentData now (length (splits body))
                        (0 + j) split)) (splits body)
             ++ (txId, setIsSplitParent parentData true now)
                  :: map_to_list (delete txId (transactions db)))) as Hafter.
  { rewrite setChildren_to_list.
    - apply Permutation_app_head.
      rewrite <- insert_delete_eq.
      apply map_to_list_insert, lookup_delete_eq.
    - intros j Hj. rewrite lookup_insert_ne; [by apply Hnew|].
      intros Heq. specialize (Hnew j Hj). simpl in Heq.
      rewrite <- Heq in Hnew. congruence.
    - intros a b Ha Hb. simpl. by apply Hinj. }
  pose proof (map_to_list_delete _ _ _ Hparent) as Hbefore.
  rewrite (sumWhere_perm p _ _ (List_filter_perm q _ _ Hafter)).
  rewrite <- (sumWhere_perm p _ _ (List_filter_perm q _ _ Hbefore)).
  rewrite sumWhere_filter_app.
  change ((txId, setIsSplitParent parentData true now)
            :: map_to_list (delete txId (transactions db)))
    with ([(txId, setIsSplitParent parentData true now)]
            ++ map_to_list (delete txId (transactions db))).
  change ((txId, parentData) :: map_to_list (delete txId (transactions db)))
    with ([(txId, parentData)] ++ map_to_list (delete txId (transactions db))).
  rewrite !sumWhere_filter_app.
  destruct (children_sums uid' range autoId uid txId parentData now
              (length (splits body)) (splits body) 0 Hu Hflag Hsigns)
    as [Hinc Hexp].
  cbv zeta in Hinc, Hexp. fold q in Hinc, Hexp.
  assert (sumWhere p (List.filter q [(txId, setIsSplitParent parentData true now)])
          = 0) as ->.
  { unfold q, inMonth. simpl. by rewrite andb_false_r. }
  rewrite Hsum in Hinc, Hexp.
  subst q. cbn beta in *. cbn [List.filter snd].
  match goal with
  | |- context [sumWhere p (List.filter ?f
                              (map_to_list (delete txId (transactions db))))] =>
      generalize (sumWhere p (List.filter f
                                (map_to_list (delete txId (transactions db)))))
  end.
  intros rest.
  destruct Hp as [-> | ->]; [rewrite Hinc|rewrite Hexp];
    destruct (inMonth uid' range parentData); unfold sumWhere;
    cbn [fold_right snd]; unfold isIncome, isExpense;
    destruct (Z.ltb_spec (Tx.amount parentData) 0);
    destruct (Z.ltb_spec 0 (Tx.amount parentData)); lia.
Qed.

(** X26. Splitting a transaction does not move the month's totals: the
    parent leaves the monthly overview (split parents are not counted)
    and its parts, which validation makes add up to its amount with its
    sign, enter it. For every owner and month, [getMonthlyOverview]
    reports the same [totalIncome], [totalExpenses] and [netAmount]
    before and after a successful [splitTransaction]. *)
Theorem split_keeps_monthly_totals :
  forall (db : Db) (uid txId : string) (body : SplitTransactionBody) (now : Z)
         (autoId : nat -> string) (uid' month : string)
         (topMerchantsLimit : option nat),
  freshIds autoId (length (splits body)) (transactions db) ->
  let out := splitTransaction db uid txId body now autoId in
  (exists r, snd out = Returned (Some r)) ->
  match getMonthlyOverview db uid' month topMerchantsLimit,
        getMonthlyOverview (fst out) uid' month topMerchantsLimit with
  | Returned before, Returned after =>
      totalIncome after = totalIncome before /\
      totalExpenses after = totalExpenses before /\
      netAmount after = netAmount before
  | Thrown message, Thrown message' => message = message'
  | _, _ => False
  end.
Proof.
  intros db uid txId body now autoId uid' month limit Hfresh out [r Hr].
  destruct (transactions db !! txId) as [parentData|] eqn:Hparent.
  2: { subst out. unfold splitTransaction in Hr. by rewrite Hparent in Hr. }
  destruct (splitTransaction_returned _ _ _ _ _ _ _ _ Hparent Hr)
    as (Hu & Hflag & Hvalid & Hdb).
  apply String.eqb_eq in Hu.
  subst out. rewrite Hdb. unfold getMonthlyOverview.
  destruct (getMonthDateRange month) as [range|message]; [|done].
  destruct (yearMonth month) as [year monthNum].
  cbn [totalIncome totalExpenses netAmount].
  fold (aggregateAll (monthDocs db uid' range)).
  match goal with
  | |- context [fold_left aggregate (monthDocs ?d uid' range) noAggregates] =>
      fold (aggregateAll (monthDocs d uid' range))
  end.
  rewrite !aggregateAll_income, !aggregateAll_expenses.
  rewrite (split_keeps_sums isIncome db uid txId parentData body now autoId
             uid' range) by auto.
  rewrite (split_keeps_sums isExpense db uid txId parentData body now autoId
             uid' range) by auto.
  done.
Qed.

End SplitTotals.

Lemma split_keeps_monthly_totals_witness :
  let out := splitTransaction exampleDb "alice" "tx1"
               {| splits := [part (-4000) (Some "food"%string);
                             part (-6000) None] |} 7 exampleIds in
  match @getMonthlyOverview exampleRuntime exampleDb "alice" "1970-01" None,
        @getMonthlyOverview exampleRuntime (fst out) "alice" "1970-01" None with
  | Returned before, Returned after =>
      totalIncome after = totalIncome before /\
      totalExpenses after = totalExpenses before /\
      netAmount after = netAmount before
  | Thrown message, Thrown message' => message = message'
  | _, _ => False
  end.
Proof.
  apply (@split_keeps_monthly_totals exampleRuntime exampleDb "alice" "tx1"
           {| splits := [part (-4000) (Some "food"%string); part (-6000) None] |}
           7 exampleIds "alice" "1970-01" None).
  - apply exampleIds_fresh.
  - vm_compute. eexists. reflexivity.
Defined.

(** ** The month-over-month trend *)

Section TrendSpec.
Context `{JsRuntime}.

Lemma percentOf_pos change base :
  0 < base -> (0 < percentOf change base)%Q <-> 0 < change.
Proof.
  intros Hb. unfold percentOf. destruct base as [|b|b]; try lia.
  unfold Qlt, Qmult, Qdiv, Qinv, inject_Z. simpl. lia.
Qed.

Lemma sumWhere_income_nonneg l : 0 <= sumWhere isIncome l.
Proof.
  unfold sumWhere, isIncome. induction l as [|d l IH]; simpl; [done|].
  destruct (Z.ltb_spec 0 (Tx.amount (snd d))); lia.
Qed.

Lemma sumWhere_expense_nonpos l : sumWhere isExpense l <= 0.
Proof.
  unfold sumWhere, isExpense. induction l as [|d l IH]; simpl; [done|].
  destruct (Z.ltb_spec (Tx.amount (snd d)) 0); lia.
Qed.

Lemma getMonthlyOverview_signs db uid month limit ov :
  getMonthlyOverview db uid month limit = Returned ov ->
  0 <= totalIncome ov /\ totalExpenses ov <= 0 /\
  netAmount ov = totalIncome ov + totalExpenses ov.
Proof.
  unfold getMonthlyOverview.
  destruct (getMonthDateRange month) as [range|]; [|done].
  destruct (yearMonth month) as [year monthNum]. intros [= <-].
  cbn [totalIncome totalExpenses netAmount].
  fold (aggregateAll (monthDocs db uid range)).
  rewrite aggregateAll_income, aggregateAll_expenses.
  split_and!; [apply sumWhere_income_nonneg|apply sumWhere_expense_nonpos|done].
Qed.

(** X27. The trend compares like with like. [getSpendingTrend] answers
    whenever the month is well formed, with the overview of the month
    as [currentMonth]. Against a previous month it reports no change in
    income exactly when the previous income was zero, none in expenses
    exactly when the previous expenses were zero, none in the net
    amount exactly when the previous net amount was zero; a change it
    does report is positive exactly when the month's income is higher,
    when more was spent (the expenses, being negative, are lower), and
    when the net amount is higher. Without a previous month all three
    are absent. *)
Theorem getSpendingTrend_changes :
  forall (db : Db) (uid month : string) (range : Z * Z),
  getMonthDateRange month = Returned range ->
  exists current trend,
    getMonthlyOverview db uid month None = Returned current /\
    getSpendingTrend db uid month = Returned trend /\
    trendCurrent trend = current /\
    let change := percentageChange trend in
    match trendPrevious trend with
    | None =>
        pcIncome change = None /\ pcExpenses change = None /\
        pcNet change = None
    | Some previous =>
        (pcIncome change = None <-> totalIncome previous = 0) /\
        (pcExpenses change = None <-> totalExpenses previous = 0) /\
        (pcNet change = None <-> netAmount previous = 0) /\
        (forall q, pcIncome change = Some q ->
           (0 < q)%Q <-> totalIncome previous < totalIncome current) /\
        (forall q, pcExpenses change = Some q ->
           (0 < q)%Q <-> totalExpenses current < totalExpenses previous) /\
        (forall q, pcNet change = Some q ->
           (0 < q)%Q <-> netAmount previous < netAmount current)
    end.
Proof.
  intros db uid month range Hrange.
  destruct (getMonthlyOverview db uid month None) as [current|message] eqn:Hcur.
  2: { unfold getMonthlyOverview in Hcur. rewrite Hrange in Hcur.
       by destruct (yearMonth month). }
  exists current. unfold getSpendingTrend. rewrite Hcur.
  eexists. split; [reflexivity|]. split; [reflexivity|].
  cbn [trendCurrent trendPrevious percentageChange].
  split; [done|].
  destruct (getMonthlyOverview_signs _ _ _ _ _ Hcur) as (Hci & Hce & _).
  destruct (getPreviousMonth month) as [prev|]; [|done].
  destruct (getMonthlyOverview db uid prev None) as [previous|] eqn:Hprev; [|done].
  destruct (getMonthlyOverview_signs _ _ _ _ _ Hprev) as (Hpi & Hpe & _).
  cbn [pcIncome pcExpenses pcNet]. split_and!.
  - destruct (Z.ltb_spec 0 (totalIncome previous)); split; try done; lia.
  - destruct (Z.ltb_spec (totalExpenses previous) 0); split; try done; lia.
  - destruct (Z.eqb_spec (netAmount previous) 0); split; try done.
  - intros q. destruct (Z.ltb_spec 0 (totalIncome previous)); [|done].
    intros [= <-]. rewrite percentOf_pos by done. lia.
  - intros q. destruct (Z.ltb_spec (totalExpenses previous) 0); [|done].
    intros [= <-]. rewrite percentOf_pos by lia. lia.
  - intros q. destruct (Z.eqb_spec (netAmount previous) 0); [done|].
    intros [= <-]. rewrite percentOf_pos by lia. lia.
Qed.

End TrendSpec.

Lemma getSpendingTrend_changes_witness :
  exists current trend,
    @getMonthlyOverview exampleRuntime exampleDb "alice" "1970-02" None
    = Returned current /\
    @getSpendingTrend exampleRuntime exampleDb "alice" "1970-02" = Returned trend /\
    trendCurrent trend = current /\
    let change := percentageChange trend in
    match trendPrevious trend with
    | None =>
        pcIncome change = None /\ pcExpenses change = None /\
        pcNet change = None
    | Some previous =>
        (pcIncome change = None <-> totalIncome previous = 0) /\
        (pcExpenses change = None <-> totalExpenses previous = 0) /\
        (pcNet change = None <-> netAmount previous = 0) /\
        (forall q, pcIncome change = Some q ->
           (0 < q)%Q <-> totalIncome previous < totalIncome current) /\
        (forall q, pcExpenses change = Some q ->
           (0 < q)%Q <-> totalExpenses current < totalExpenses previous) /\
        (forall q, pcNet change = Some q ->
           (0 < q)%Q <-> netAmount previous < netAmount current)
    end.
Proof.
  apply (@getSpendingTrend_changes exampleRuntime exampleDb "alice" "1970-02"
           (2678400000, 5097599999)).
  by vm_compute.
Defined.

(** ** What an import writes *)

Section ImportWrites.
Context `{JsRuntime}.

Lemma transactionData_importedBy uid data now :
  importedBy uid (newAccountId data) (newImportId data) now
    (transactionData uid data now).
Proof.
  unfold importedBy, transactionData. simpl. split_and!; try done.
  by destruct (truthy (newCategoryId data)).
Qed.

Lemma createAll_docs results uid accountId importId now autoId queue :
  forall i db created errors k d,
  transactions
    (fst (fst (createAll results uid accountId importId now autoId i queue db
                 created errors)))
    !! k = Some d ->
  transactions db !! k = Some d \/ importedBy uid accountId importId now d.
Proof.
  induction queue as [|tx queue IH]; intros i db created errors k d; simpl;
    [by left|].
  destruct (parsedPostedAt (parsed tx)) as [postedAt|]; [|by apply IH].
  intros Hk. apply IH in Hk as [Hk|Hk]; [|by right].
  simpl in Hk. destruct (decide (k = autoId i)) as [->|Hne].
  - rewrite lookup_insert_eq in Hk. injection Hk as <-. right.
    apply (transactionData_importedBy uid
             {| newAccountId := accountId; newImportId := importId;
                newPostedAt := postedAt;
                newAmount := parsedAmount (parsed tx);
                newDescription := parsedDescription (parsed tx);
                newMerchantRaw := parsedMerchantRaw (parsed tx);
                newMerchantNormalized := tcMerchantNormalized tx;
                newTxKey := tcTxKey tx;
                newCategoryId := _; newExplainability := _ |} now).
  - rewrite lookup_insert_ne in Hk by done. by left.
Qed.

(** X28. An import only adds plain transactions: every transaction
    stored after [processImport] either was stored before, exactly as
    it is, or belongs to the caller, the account and the import of the
    call, is not a manual override nor part of a split, has no notes
    and no tags (the [addTags] of a matching rule are not stored), and
    has an [autoCategory] exactly when it has a category. *)
Theorem processImport_adds_plain_transactions :
  forall (llmEnabled : bool) (svc : LlmServices) (db : Db)
         (uid accountId importId : string) (content : Content)
         (documentType : DocumentType) (mimeType : option string) (now : Z)
         (autoId : nat -> string) (k : string) (d : Tx.t),
  transactions
    (fst (processImport llmEnabled svc db uid accountId importId content
            documentType mimeType now autoId)) !! k = Some d ->
  transactions db !! k = Some d \/ importedBy uid accountId importId now d.
Proof.
  intros llmEnabled svc db uid accountId importId content documentType mimeType
         now autoId k d.
  destruct (processImport_transactions llmEnabled svc db uid accountId importId
              content documentType mimeType now autoId)
    as [->|(results & db0 & queue & errors & Hdb0 & ->)]; [by left|].
  intros Hk. apply createAll_docs in Hk as [Hold|Hnew]; [left|by right].
  by rewrite <- Hdb0.
Qed.

End ImportWrites.

Lemma processImport_adds_plain_transactions_witness :
  let out := @processImport exampleRuntime true exampleServices importDb
               "alice" "acc1" "imp1" (Text exampleCsv) Csv None 1 exampleIds in
  exists d,
    transactions (fst out) !! "c0"%string = Some d /\
    (transactions importDb !! "c0"%string = Some d \/
     importedBy "alice" "acc1" "imp1" 1 d).
Proof.
  eexists. split; [by vm_compute|].
  apply (@processImport_adds_plain_transactions exampleRuntime true
           exampleServices importDb "alice" "acc1" "imp1" (Text exampleCsv)
           Csv None 1 exampleIds "c0").
  by vm_compute.
Defined.

(** ** Rules that are switched off, and rules that are switched on *)

Section RuleLifecycle.
Context `{JsRuntime}.

Lemma firstMatch_ruleId tx l id :
  ruleId (explainability (firstMatch tx l)) = Some id ->
  exists r, In (id, r) l.
Proof.
  induction l as [|[k r] l IH]; simpl; [done|].
  destruct (matched _).
  - simpl. intros [= ->]. exists r. by left.
  - intros Hid. destruct (IH Hid) as [r' Hr']. exists r'. by right.
Qed.

Lemma loadUserRules_In db uid id r :
  In (id, r) (loadUserRules db uid) <->
  rules db !! id = Some r /\ ruleUid r = uid /\ enabled r = true.
Proof.
  unfold loadUserRules, orderByDesc. split.
  - intros Hin. apply (Permutation_in _ (jsSort_perm _ _)), snapshot_In in Hin
      as [Hk Hp].
    apply andb_true_iff in Hp as [Hu He]. by apply String.eqb_eq in Hu.
  - intros (Hk & Hu & He).
    apply (Permutation_in _ (Permutation_sym (jsSort_perm _ _))), snapshot_In.
    split; [done|]. by rewrite Hu, String.eqb_refl, He.
Qed.

Lemma deciding_rule_is_loaded db uid tx id :
  ruleId (explainability (categorizeWithRules tx (loadUserRules db uid))) = Some id ->
  exists r, rules db !! id = Some r /\ ruleUid r = uid /\ enabled r = true.
Proof.
  unfold categorizeWithRules. intros Hid.
  apply firstMatch_ruleId in Hid as [r Hr].
  apply sortedRules_In in Hr as [Hr _]. exists r. by apply loadUserRules_In.
Qed.

(** X29. A rule that is deleted or disabled never decides again: after
    [deleteRule] has deleted a rule, and after [updateRule] has stored
    an update that sets [enabled] to false, no transaction of the owner
    is categorized by that rule, whatever its priority and conditions. *)
Theorem removed_rule_never_decides :
  forall (db : Db) (uid rid : string) (tx : TxView),
  (snd (deleteRule db uid rid) = true ->
   ruleId (explainability
             (categorizeWithRules tx
                (loadUserRules (fst (deleteRule db uid rid)) uid)))
   <> Some rid) /\
  (forall body now stored,
     urEnabled body = Some false ->
     snd (updateRule db uid rid body now) = Returned (Some stored) ->
     ruleId (explainability
               (categorizeWithRules tx
                  (loadUserRules (fst (updateRule db uid rid body now)) uid)))
     <> Some rid).
Proof.
  intros db uid rid tx. split.
  - unfold deleteRule. destruct (rules db !! rid) as [data|] eqn:Hd; [|done].
    destruct (negb _); [done|]. intros _ Hid.
    apply deciding_rule_is_loaded in Hid as (r & Hr & _). simpl in Hr.
    by rewrite lookup_delete_eq in Hr.
  - intros body now stored Hoff. unfold updateRule.
    destruct (rules db !! rid) as [data|] eqn:Hd; [|done].
    destruct (negb _); [done|].
    do 3 (match goal with
          | |- context [if ?b then _ else _] => destruct b; [done|]
          end).
    intros _ Hid.
    apply deciding_rule_is_loaded in Hid as (r & Hr & _ & He). simpl in Hr.
    rewrite lookup_insert_eq in Hr. injection Hr as <-.
    unfold applyRuleUpdate in He. simpl in He. by rewrite Hoff in He.
Qed.

(** X30. Accepting a suggestion reaches the other transactions of the
    merchant. After the suggestion generated for a correction is
    accepted (the merchant being in upper case), recategorizing another
    transaction of the owner with the same normalized merchant, not
    manually overridden, files it under the corrected category, unless
    an enabled rule of the owner with priority 300 or more matches it
    too; the transaction stays free of [manualOverride], and the new
    rule has then been used once. If the category was a different one
    before, the transaction is counted as updated and explains itself by
    the new rule. *)
Theorem accepted_suggestion_recategorizes_siblings :
  forall (llmEnabled : bool) (llm : LlmOracle) (db : Db) (uid : string)
         (tx : TxView) (c name : string) (nowMs : Z) (rand : string)
         (s : RuleSuggestion) (now : Z) (newId sibId : string) (sib : Tx.t)
         (options : CategorizationOptions) (now' : Z),
  generateRuleSuggestion db uid tx c name nowMs rand = Some s ->
  toUpperCase (merchantNormalized tx) = merchantNormalized tx ->
  ruleCount db uid < MAX_RULES_PER_USER ->
  c <> EmptyString -> newId <> EmptyString ->
  transactions db !! sibId = Some sib ->
  Tx.uid sib = uid -> Tx.manualOverride sib = false ->
  Tx.merchantNormalized sib = merchantNormalized tx ->
  (forall id r, rules db !! id = Some r -> id <> newId -> ruleUid r = uid ->
                enabled r = true -> ruleMatches (txView sib) (id, r) = true ->
                priority r < 300) ->
  let db1 := fst (acceptSuggestion db uid s now newId) in
  let out := recategorizeTransactions llmEnabled llm db1 uid [sibId] false
               options now' in
  exists sib' rule',
    transactions (fst out) !! sibId = Some sib' /\
    Tx.categoryId sib' = Some c /\
    Tx.manualOverride sib' = false /\
    rules (fst out) !! newId = Some rule' /\ matchCount rule' = 1 /\
    (Tx.categoryId sib <> Some c ->
     updated (snd out) = 1%nat /\
     reason (Tx.explainability sib') = RuleMatch /\
     ruleId (Tx.explainability sib') = Some newId /\
     matchType (Tx.explainability sib') = Some Contains).
Proof.
  intros llmEnabled llm db uid tx c name nowMs rand s now newId sibId sib
         options now' Hgen Hup Hcount Hc Hnew Hsib Hu Hm Hmerchant Hlow db1 out.
  destruct (generateRuleSuggestion_Some _ _ _ _ _ _ _ _ Hgen)
    as (Hlen & _ & _ & Hs).
  destruct (acceptSuggestion_returned db uid tx c name s now newId Hs Hcount Hc)
    as (rule & Hr & Hru & He & Hcond & Hact & Hsrc & Hp & Hcount0).
  subst out db1. rewrite Hr. cbn [fst].
  set (db1 := setRules db (<[newId := rule]> (rules db))).
  assert (matchRule (txView sib) (conditions rule)
          = isMatch Contains (merchantNormalized tx) (merchantNormalized tx))
    as Hmatch.
  { rewrite Hcond.
    replace (merchantNormalized tx) with (merchantNormalized (txView sib)) by done.
    apply suggested_rule_matches; simpl; by rewrite Hmerchant. }
  assert (categorizeWithRules (txView sib) (loadUserRules db1 uid)
          = ruleHit (newId, rule)
              (isMatch Contains (merchantNormalized tx) (merchantNormalized tx)))
    as Hresult.
  { rewrite <- Hmatch.
    apply (top_matching_rule_wins (txView sib) (loadUserRules db1 uid)
             (newId, rule)); try done.
    - apply loadUserRules_In. unfold db1. simpl.
      by rewrite lookup_insert_eq.
    - unfold ruleMatches. simpl. by rewrite Hmatch.
    - intros [id r] Hin Hen Hmt. apply loadUserRules_In in Hin as (Hk & Hur & _).
      unfold db1 in Hk. simpl in Hk.
      destruct (decide (id = newId)) as [->|Hne].
      + rewrite lookup_insert_eq in Hk. injection Hk as <-. by left.
      + rewrite lookup_insert_ne in Hk by done. right. simpl. rewrite Hp.
        by apply (Hlow id r). }
  unfold recategorizeTransactions. cbn [fold_left].
  unfold recategorizeOne.
  change (transactions db1) with (transactions db).
  rewrite Hsib, Hu, String.eqb_refl, Hm. cbn [negb andb].
  unfold categorizeTransaction. rewrite Hresult.
  assert (passesGate
            (ruleHit (newId, rule)
               (isMatch Contains (merchantNormalized tx) (merchantNormalized tx)))
          = true) as -> by reflexivity.
  cbn [ruleHit explainability ruleId truthy default fst snd base categoryId].
  apply String.eqb_neq in Hnew. rewrite Hnew. cbn [negb runEffects fold_left].
  change (id newId) with newId.
  assert (categoryId
            (withTimestamp
               (ruleHit (newId, rule)
                  (isMatch Contains (merchantNormalized tx) (merchantNormalized tx)))
               now') = Some c) as Hcat by (simpl; by rewrite Hact).
  rewrite Hcat.
  assert (exists rule', rules (updateRuleStats db1 newId now') !! newId = Some rule'
                        /\ matchCount rule' = 1) as (rule' & Hstats & Hone).
  { unfold updateRuleStats, db1. simpl.
    rewrite lookup_alter_eq, lookup_insert_eq. simpl.
    eexists. split; [reflexivity|]. simpl. lia. }
  destruct (bool_decide (Some c = Tx.categoryId sib)) eqn:Hsame.
  - apply bool_decide_eq_true in Hsame.
    exists sib, rule'. cbn [fst snd]. by split_and!.
  - eexists _, rule'. cbn [fst snd transactions setTransactions rules].
    rewrite lookup_insert_eq. split_and!; try done.
Qed.

End RuleLifecycle.

Lemma removed_rule_never_decides_witness :
  ruleId (explainability
            (@categorizeWithRules exampleRuntime (purchaseAt "BLUE COFFEE")
               (loadUserRules (fst (deleteRule exampleRulesDb "bob" "bobRule"))
                  "bob")))
  <> Some "bobRule"%string.
Proof.
  apply (@removed_rule_never_decides exampleRuntime exampleRulesDb "bob"
           "bobRule" (purchaseAt "BLUE COFFEE")).
  reflexivity.
Defined.

Lemma accepted_suggestion_recategorizes_siblings_witness :
  let db1 := fst (@acceptSuggestion exampleRuntime exampleDb "alice"
                    (exampleSuggestion (txView exampleTx)) 7 "r1") in
  let out := @recategorizeTransactions exampleRuntime false (fun _ => None) db1
               "alice" ["tx1"%string] false
               {| useLLM := None; forceRulesOnly := None |} 9 in
  exists sib' rule',
    transactions (fst out) !! "tx1"%string = Some sib' /\
    Tx.categoryId sib' = Some "dining"%string /\
    Tx.manualOverride sib' = false /\
    rules (fst out) !! "r1"%string = Some rule' /\ matchCount rule' = 1 /\
    (Tx.categoryId exampleTx <> Some "dining"%string ->
     updated (snd out) = 1%nat /\
     reason (Tx.explainability sib') = RuleMatch /\
     ruleId (Tx.explainability sib') = Some "r1"%string /\
     matchType (Tx.explainability sib') = Some Contains).
Proof.
  apply (@accepted_suggestion_recategorizes_siblings exampleRuntime false
           (fun _ => None) exampleDb "alice" (txView exampleTx) "dining" "Dining"
           1 "abc123" (exampleSuggestion (txView exampleTx)) 7 "r1" "tx1"
           exampleTx {| useLLM := None; forceRulesOnly := None |} 9).
  - by vm_compute.
  - by vm_compute.
  - by vm_compute.
  - done.
  - done.
  - reflexivity.
  - reflexivity.
  - reflexivity.
  - reflexivity.
  - intros id r Hr.
    change (rules exampleDb) with (∅ : gmap string Rule) in Hr.
    by rewrite lookup_empty in Hr.
Defined.
